(* ===== verification/_CoqProject ===== *)
-Q . S2P
Prelude.v
PriorityQueue.v
PriorityQueueSpec.v
BloomFilter.v
DlList.v
LruCache.v
Dist.v
Graph.v
GraphSearch.v
GraphSearchFacts.v
GraphSearchTop.v
GraphPoint.v
GraphPointFacts.v
GraphPointVacuum.v
MemStore.v
GraphBuild.v
GraphPrune.v
GraphRows.v
GraphInv.v
GraphGrow.v
GraphBuildFacts.v
GraphBuildTop.v
GraphRepair.v
GraphRepairFacts.v
Sha256.v
Sha256Facts.v
VexfsText.v
VexfsTextFacts.v
VexfsGlob.v
VexfsDb.v
VexfsTree.v
VexfsStore.v
VexfsStoreFacts.v
VexfsStoreWrite.v
VexfsQuota.v
VexfsVersion.v
VexfsGrepIndex.v
VexfsStaging.v
VexfsHandles.v
VexfsChunks.v
VexfsStagingFacts.v
VexfsPublish.v
VexfsRequests.v
VexfsHandleFacts.v
VexfsNames.v
VexfsMetadata.v
VexfsHistory.v
VexfsSnapshots.v
VexfsPointInTime.v
VexfsRestore.v
VexfsRetention.v
VexfsSessions.v
VexfsReports.v
VexfsCheck.v
VexfsFrame.v
VexfsService.v
VexfsForest.v
VexfsForestOps.v
VexfsForestTop.v
VexfsRemove.v
VexfsWriteRead.v
VexfsRename.v
VexfsXattr.v
VexfsPointInTimeFacts.v
VexfsCompare.v
VexfsCheckFacts.v
VexfsTrack.v
VexfsTrackOps.v
VexfsAppend.v
VexfsTidy.v
VexfsOrder.v
VexfsTreeWalk.v
VexfsFind.v
VexfsGrep.v
VexfsTreeHead.v
VexfsCommits.v
VexfsDiff.v
VexfsHistoryCases.v
VexfsGc.v
VexfsTakeover.v
