(* ===== verification/Prelude.v ===== *)
(** * VexDB-Lite: a verification library

    VexDB-Lite is a vector database kernel (an HNSW-like graph index with its
    priority queue, stores and vacuum) shared by bindings for PostgreSQL, DuckDB and
    SQLite, and VexFS, a versioned file system kept in a SQLite database and reached
    through SQL functions, a command line and a mount. This library models the two
    cores, the graph index under [src/common] and the SQL functions of VexFS in
    [src/vexdb_sqlite/src/agent_files/vexfs_sqlite.cpp] (called [vexfs_sqlite.cpp]
    below), and proves what makes them correct.

    ** The graph index

    A build inserts rows one at a time into an in-memory store; a search walks the
    upper layers greedily and then searches the base layer with a candidate and a
    result heap; a vacuum removes tids and repairs rows and entry point. The
    distance is a parameter: the code compares distances only.

    - [PriorityQueue], [PriorityQueueSpec]: [src/common/vtl/priority_queue], the 4-ary
      heap; it refines a bag whose [pop] takes a first element, and sorts.
    - [BloomFilter]: [bloom_filter.hpp]; no false negatives. [DlList], [LruCache]:
      [list.hpp] cell by cell and the cache over it, [lrucache.hpp]; both refine plain
      sequences, except for an [erase] at the tail, which leaves a dangling pointer.
    - [Dist]: the interface of distances ([DistOrd]), with binary32 numbers without
      NaN and integers as instances.
    - [Graph], [GraphSearch], [GraphSearchFacts], [GraphSearchTop]: candidates, the
      store a search reads ([SearchStore]), and the searches of
      [graph_index_algorithm.h]. They return on every closed store; results are
      sorted, filtered, duplicate free, at true distances, a local optimum of the
      graph, and exact when the budget covers the graph.
    - [GraphPoint], [GraphPointFacts], [GraphPointVacuum]: [graph_index_cluster.h], the
      heap tids of a node; [PlainStore] is a class of operations with laws.
    - [MemStore], [GraphBuild], [GraphPrune], [GraphRows], [GraphInv], [GraphGrow],
      [GraphBuildFacts], [GraphBuildTop]: [MemStore] of [graph_index_storage.h] and the
      whole of [insert]. [GraphInv] is the invariant between insertions, with the entry
      point on the highest level any point has; every insertion returns and keeps it;
      neighbour selection takes the candidates that no nearer chosen one covers; a search
      of a built graph answers inserted rows only.
    - [GraphRepair], [GraphRepairFacts]: the repairs after a vacuum, with the range
      loops of [graph_index_vacuum.cpp].

    ** VexFS

    A database is a record of tables ([VexfsDb]): workspaces, inodes, directory
    entries, extended attributes and access lists; commits with the states they
    recorded and the sets of dirty rows; manifests, chunks and versions; handles with
    their staging areas, requests and mount sessions; the content index. An SQL
    function is a computation in a state and error monad over it: an exception keeps
    what was written unless a [Savepoint] takes it back. Triggers run inside the
    operations on the tables.

    - [Sha256], [Sha256Facts]: [vexfs_checksum.cpp]; the streaming hash equals the
      one-shot one however the input is cut.
    - [VexfsText], [VexfsTextFacts], [VexfsGlob]: argument checks, paths, UTF-8, JSON,
      globs, request fingerprints.
    - [VexfsTree], [VexfsQuota]: workspaces, nodes, path resolution, quotas, commits;
      the counters kept by triggers equal the live totals.
    - [VexfsStore], [VexfsStoreFacts], [VexfsStoreWrite], [VexfsVersion]: content as
      manifests of shared 64 KiB chunks; what is stored reads back and nothing stored
      before changes.
    - [VexfsGrepIndex]: the content index and its dirty flag.
    - [VexfsStaging], [VexfsHandles], [VexfsChunks], [VexfsStagingFacts],
      [VexfsPublish], [VexfsRequests], [VexfsHandleFacts]: open handles. A staging
      area refines a byte array; publishing makes it the next version or changes
      nothing; repeated requests are answered from their record.
    - [VexfsNames]: the functions that work on names: workspaces, directories, files,
      links, writing, reading, restoring, renaming, removing, opening handles.
    - [VexfsMetadata], [VexfsXattr]: modes, times, owners, access lists and extended
      attributes; what is set is read, and what is removed is gone.
    - [VexfsHistory], [VexfsSnapshots], [VexfsPointInTime], [VexfsRestore]: the tree as it
      is and as a commit recorded it, diffs and their pages, snapshots of the head, of an
      old commit and of a moment, and restoring them.
    - [VexfsRetention]: policies, pruning, and the collection of versions.
    - [VexfsSessions]: mount sessions, their lease, and handles that outlive them.
    - [VexfsReports], [VexfsCompare], [VexfsGrep], [VexfsCheck]: the functions that only
      read: state of a path, directories, search by name and by content, versions, log,
      comparison of versions, and the check of a workspace.
    - [VexfsFrame], [VexfsService]: [Frame] says that a computation relates the database
      before and after it, also when it throws, with rules for every combinator; a
      [service] is one of the SQL functions that leave names and contents alone, and
      [ServiceFrame] what a relation has to offer for all of them to be framed by it. The
      invariants below are proved against these interfaces.

    Theorems over sequences of calls, starting from an empty database:

    - [VexfsForest], [VexfsForestOps], [VexfsForestTop]: the entries form a forest of
      directories. [VexfsTidy]: names are valid and every entry leads to an inode of its
      own workspace.
    - [VexfsTrack], [VexfsTrackOps], [VexfsAppend]: what is not marked dirty has been
      recorded, and history only grows. [VexfsOrder], [VexfsTreeWalk], [VexfsTreeHead],
      [VexfsCommits]: so the tree of the last commit is the tree of now, and the tree of a
      commit stays what it was whatever calls and restores follow.
    - The sequences are made of [call]s ([VexfsForestTop]): all modelled functions that
      change the database but [vexfs_snapshot_restore] and [vexfs_gc]. The forest theorem
      adds [vexfs_gc] ([event]), growing history adds the restore ([request],
      [VexfsAppend]). The tracking invariant leaves out [handle_create], after which a
      commit skips the file that has no version yet, and no theorem on commits admits a
      collection, which deletes recorded states.
    - [VexfsFind]: a search by name ends and lists exactly the paths that resolve below
      its root and pass its filters, page by page. [VexfsGrep]: a search without the
      content index reports exactly the lines that contain the pattern.

    Theorems about single functions:

    - [VexfsRemove], [VexfsRename], [VexfsWriteRead]: what removing, renaming and writing
      by path do to paths and contents.
    - [VexfsDiff]: a diff lists the changes and nothing else; its pages reach the end.
      [VexfsPointInTimeFacts]: a snapshot of an old commit is only taken when all of its
      contents can be read; a moment stands for the last commit before it.
    - [VexfsVersion]: a write is refused exactly when it would break a quota, and then
      changes nothing. [VexfsGc]: the collection spares every version that is in use,
      recent or in a snapshot ([protected]), and comes to an end.
      [VexfsTakeover]: a session that has ended gives its unpublished changes to the next.
    - [VexfsCompare]: comparing chunk by chunk is comparing contents. [VexfsCheckFacts]: a
      clean deep check means that every version reads and every inode has a path; a quick
      check always answers; after a recursive removal it reports every entry left behind.
    - [VexfsHistoryCases], and lemmas in [VexfsRemove], [VexfsGc], [VexfsGrepIndex] and
      [DlList]: cases in which the code does not do what it means to.

    ** Conventions

    Bytes are integers, strings lists of bytes, C++ integers [Z] with wrap-around
    written out where the code relies on it or can reach it. What the code prints as JSON
    is a value; an argument that is parsed as JSON is what [json_each] makes of it.

    Loops that are not structural take fuel that provably suffices: the search loops the
    number of ids, the glob matcher a product of lengths, the staging loops the bytes
    left, a diff the sum of the two lengths, the closure of a keep set the number of
    versions. The recursive queries over entries ([TombstoneTree], find, grep) take one
    level per entry (a longer chain would be a cycle, which a forest excludes), the walk
    of an old tree and the check one step per row or inode, since each is queued once. The
    depth limit 1024 of the path, version and tree queries is the code's own.

    What the theorems assume of code outside the model appears as parameters and
    hypotheses: the laws of [DistOrd], of the item store and of PostgreSQL's hash table, a
    symmetric distance for the theorems on inserting and building, distance zero from a
    point to itself for the lemma on repairing the entry point only (it fails for inner
    products), no collision between the checksums of two chunks of one content
    ([no_collision]), the [julianday], full-text match and [quick_check] of SQLite, one
    connection, no I/O, memory or busy errors, a schema that is ready, a clock that stands
    still during a call, rowids one past the largest, and user, group and random handle
    ids as arguments.

    ** Not modelled

    Schema creation and migration, the mount layer, the command line and archives are I/O
    around the SQL functions: they prepare statements, call the functions and move bytes
    between them and files, with threads and caches of the operating system. Writing and
    parsing JSON is left to values, apart from the escaping. The bindings to SQLite, DuckDB
    and PostgreSQL depend on the storage and plan classes of their hosts, which are not
    part of the sources. Distance kernels and quantizers are floating-point SIMD code;
    locks and concurrent builds are outside the sequential model. The other containers of
    [src/common/vtl] are allocation and storage around elements, or concurrent. *)
From Stdlib Require Import Permutation ZArith Lia.
From stdpp Require Import prelude gmap fin_sets sorting.

Declare Scope vex_scope.
Delimit Scope vex_scope with vex.

Create HintDb vex.

(** ** Machine-width integers

    C++ unsigned arithmetic is arithmetic modulo [2^w]; the model keeps the
    mathematical integer and writes the wrap-around out. *)

Definition u8 (z : Z) : Z := (z `mod` 2 ^ 8)%Z.
Definition u16 (z : Z) : Z := (z `mod` 2 ^ 16)%Z.
Definition u32 (z : Z) : Z := (z `mod` 2 ^ 32)%Z.
Definition u64 (z : Z) : Z := (z `mod` 2 ^ 64)%Z.

(** ** Exceptions

    A C++ function that throws returns a [result]; [Throw] carries the thrown
    value. *)

Inductive result (E A : Type) : Type :=
| Ok (a : A)
| Throw (e : E).
Arguments Ok {E A} _.
Arguments Throw {E A} _.

Definition result_bind {E A B : Type} (c : result E A) (f : A → result E B) : result E B :=
  match c with
  | Ok a => f a
  | Throw e => Throw e
  end.

Notation "'let!' x ':=' c 'in' k" := (result_bind c (fun x => k))
  (at level 200, x pattern, c at level 100, k at level 200, right associativity) : vex_scope.

Definition is_ok {E A : Type} (c : result E A) : bool :=
  match c with Ok _ => true | Throw _ => false end.

Lemma result_bind_Ok {E A B : Type} (c : result E A) (f : A → result E B) b :
  result_bind c f = Ok b ↔ ∃ a, c = Ok a ∧ f a = Ok b.
Proof. destruct c; simpl; naive_solver. Qed.

(** ** Strict weak orders

    The contract a C++ [Compare] must satisfy. [comp x y] reads "x goes before
    y"; [not_after comp x y] is the induced total preorder. *)

Class StrictWeakOrder {A : Type} (comp : A → A → bool) : Prop := {
  swo_irrefl : ∀ x, comp x x = false;
  swo_trans : ∀ x y z, comp x y = true → comp y z = true → comp x z = true;
  swo_incomp : ∀ x y z, comp x y = false → comp y z = false → comp x z = false;
}.

Definition not_after {A : Type} (comp : A → A → bool) (x y : A) : Prop := comp y x = false.

Section not_after.
Context {A : Type} (comp : A → A → bool) `{!StrictWeakOrder comp}.

#[export] Instance not_after_refl : Reflexive (not_after comp).
Proof. intros x. apply swo_irrefl. Qed.

#[export] Instance not_after_trans : Transitive (not_after comp).
Proof. intros x y z Hxy Hyz. unfold not_after in *. eauto using swo_incomp. Qed.

Lemma not_after_total x y : not_after comp x y ∨ not_after comp y x.
Proof.
  unfold not_after. destruct (comp y x) eqn:Hyx; [|auto].
  destruct (comp x y) eqn:Hxy; [|auto].
  pose proof (swo_trans _ _ _ Hxy Hyx) as Hxx. by rewrite swo_irrefl in Hxx.
Qed.

Lemma comp_not_after x y : comp x y = true → not_after comp x y.
Proof.
  intros Hxy. unfold not_after. destruct (comp y x) eqn:Hyx; [|done].
  pose proof (swo_trans _ _ _ Hxy Hyx) as Hxx. by rewrite swo_irrefl in Hxx.
Qed.

#[export] Instance not_after_dec : RelDecision (not_after comp).
Proof. intros x y. unfold not_after. apply _. Defined.
End not_after.

#[export] Typeclasses Opaque not_after.

#[export] Hint Resolve comp_not_after : vex.

(** The order seen through a key, as in [a.dist < b.dist]. *)
Lemma swo_on_key {A B : Type} (key : A → B) (comp : B → B → bool) :
  StrictWeakOrder comp → StrictWeakOrder (λ x y, comp (key x) (key y)).
Proof.
  intros [Hi Ht Hn]. split; intros *; [apply Hi|apply Ht|apply Hn].
Qed.

(** The opposite order, as in [a.dist > b.dist]. *)
Lemma swo_flip {A : Type} (comp : A → A → bool) :
  StrictWeakOrder comp → StrictWeakOrder (λ x y, comp y x).
Proof. intros [Hi Ht Hn]. split; eauto. Qed.

(** The lexicographic order, as in [a.d < b.d || (a.d == b.d && a.id < b.id)]. *)
Lemma swo_lex {A : Type} (c1 c2 : A → A → bool) :
  StrictWeakOrder c1 → StrictWeakOrder c2 →
  StrictWeakOrder (λ x y, c1 x y || (negb (c1 x y) && negb (c1 y x) && c2 x y)).
Proof.
  intros [Hi1 Ht1 Hn1] [Hi2 Ht2 Hn2].
  assert (Hr : ∀ x y z, c1 x y = true → c1 z y = false → c1 x z = true).
  { intros x y z Hxy Hzy. destruct (c1 x z) eqn:Hxz; [done|]. by rewrite (Hn1 x z y) in Hxy. }
  assert (Hl : ∀ x y z, c1 y z = true → c1 y x = false → c1 x z = true).
  { intros x y z Hyz Hyx. destruct (c1 x z) eqn:Hxz; [done|]. by rewrite (Hn1 y x z) in Hyz. }
  split.
  - intros x. by rewrite Hi1, Hi2.
  - intros x y z. rewrite !orb_true_iff, !andb_true_iff, !negb_true_iff.
    intros [Hxy|[[Hxy Hyx] H2]] [Hyz|[[Hyz Hzy] H2']]; [left; eauto..|right; split; [split|]; eauto].
  - intros x y z. rewrite !orb_false_iff, !andb_false_iff, !negb_false_iff. intros [Hxy Hxy'] [Hyz Hyz'].
    split; [eauto|]. destruct (c1 x z) eqn:Hxz; [auto|]. destruct (c1 z x) eqn:Hzx; [auto|]. right.
    assert (c1 y x = false) by (destruct (c1 y x) eqn:E; [|done]; by rewrite (Hr y x z E Hzx) in Hyz).
    assert (c1 z y = false) by (destruct (c1 z y) eqn:E; [|done]; by rewrite (Hl x z y E Hzx) in Hxy).
    destruct Hxy' as [[?|?]|?], Hyz' as [[?|?]|?]; try congruence. eauto.
Qed.

(** ** Arrays as lists: swapping two cells *)

Definition swap {A : Type} (l : list A) (i j : nat) : list A :=
  match l !! i, l !! j with
  | Some x, Some y => <[i:=y]> (<[j:=x]> l)
  | _, _ => l
  end.

Section swap.
Context {A : Type}.
Implicit Types l : list A.

Lemma length_swap l i j : length (swap l i j) = length l.
Proof. unfold swap. repeat case_match; by rewrite ?length_insert. Qed.

Lemma swap_lookup_l l i j : i < length l → j < length l → swap l i j !! i = l !! j.
Proof.
  intros [x Hx]%lookup_lt_is_Some_2 [y Hy]%lookup_lt_is_Some_2.
  unfold swap. rewrite Hx, Hy.
  apply list_lookup_insert_eq. rewrite length_insert. by eapply lookup_lt_Some.
Qed.

Lemma swap_lookup_r l i j : i < length l → j < length l → swap l i j !! j = l !! i.
Proof.
  intros [x Hx]%lookup_lt_is_Some_2 [y Hy]%lookup_lt_is_Some_2.
  unfold swap. rewrite Hx, Hy. destruct (decide (i = j)) as [->|Hne].
  - rewrite list_lookup_insert_eq; [congruence|]. rewrite length_insert.
    by eapply lookup_lt_Some.
  - rewrite list_lookup_insert_ne by done. apply list_lookup_insert_eq.
    by eapply lookup_lt_Some.
Qed.

Lemma swap_lookup_ne l i j k : k ≠ i → k ≠ j → swap l i j !! k = l !! k.
Proof.
  intros Hi Hj. unfold swap. repeat case_match; [|done..].
  by rewrite !list_lookup_insert_ne.
Qed.

Lemma insert_delete_middle l1 l2 (x y : A) : <[length l1:=y]> (l1 ++ x :: l2) = l1 ++ y :: l2.
Proof. by rewrite insert_app_r_alt, Nat.sub_diag by lia. Qed.

Lemma swap_Permutation_lt l i j : i < j → swap l i j ≡ₚ l.
Proof.
  intros Hij. unfold swap. destruct (l !! i) as [x|] eqn:Hx; [|done].
  destruct (l !! j) as [y|] eqn:Hy; [|done].
  apply list_elem_of_split_length in Hy as (l1 & l2 & -> & ->).
  rewrite lookup_app_l in Hx by done.
  apply list_elem_of_split_length in Hx as (l3 & l4 & -> & ->).
  rewrite insert_delete_middle, <-!app_assoc. simpl. rewrite insert_delete_middle.
  apply Permutation_app_head.
  rewrite <-!Permutation_middle. apply perm_swap.
Qed.

Lemma swap_comm l i j : swap l i j = swap l j i.
Proof.
  unfold swap. destruct (l !! i) eqn:Hi, (l !! j) eqn:Hj; try done.
  destruct (decide (i = j)) as [->|]; [congruence|]. by rewrite list_insert_insert_ne.
Qed.

Lemma swap_Permutation l i j : swap l i j ≡ₚ l.
Proof.
  destruct (decide (i < j)); [by apply swap_Permutation_lt|].
  destruct (decide (j < i)); [rewrite swap_comm; by apply swap_Permutation_lt|].
  assert (i = j) as -> by lia. unfold swap. destruct (l !! j) eqn:Hj; [|done].
  by rewrite list_insert_insert_eq, list_insert_id.
Qed.
End swap.

(** ** Sub-multisets *)

Lemma submseteq_NoDup {A : Type} (l k : list A) : NoDup k → l ⊆+ k → NoDup l.
Proof.
  intros Hnd [k' Hk]%submseteq_Permutation. rewrite Hk in Hnd.
  by apply NoDup_app in Hnd as [? _].
Qed.

(** ** Finite sets *)

(** Adding the fresh elements [l] of [U] to [v] uses up [length l] of what was
    left of [U]. *)
Lemma size_difference_fresh `{Countable A} (U v : gset A) (l : list A) :
  NoDup l → (∀ x, x ∈ l → x ∈ U ∧ x ∉ v) →
  size (U ∖ v) = length l + size (U ∖ (v ∪ list_to_set l)).
Proof.
  intros Hnd Hl. rewrite <-(size_list_to_set (C:=gset A) l) by done.
  rewrite <-size_union by set_solver. f_equal. apply set_eq. intros x.
  rewrite elem_of_union, !elem_of_difference, elem_of_union, elem_of_list_to_set.
  destruct (decide (x ∈ l)); naive_solver.
Qed.

(** A duplicate-free list inside [U] with as many elements as [U] is all of it. *)
Lemma NoDup_covers `{Countable A} (U : gset A) (l : list A) :
  NoDup l → (∀ x, x ∈ l → x ∈ U) → size U ≤ length l → ∀ v, v ∈ U → v ∈ l.
Proof.
  intros Hnd Hl Hsz v Hv. apply (elem_of_list_to_set (C:=gset A)).
  rewrite (set_subseteq_size_eq (list_to_set l) U); [done| |by rewrite size_list_to_set].
  intros x Hx%elem_of_list_to_set. auto.
Qed.

(** ** Sorted lists by index *)

Lemma StronglySorted_lookup {A : Type} (R : A → A → Prop) (l : list A) :
  StronglySorted R l ↔
  ∀ i j x y, i < j → l !! i = Some x → l !! j = Some y → R x y.
Proof.
  induction l as [|a l IH].
  { split; [intros _ [|i] j x y ? ?; done|constructor]. }
  rewrite StronglySorted_cons, IH, Forall_forall. split.
  - intros [Ha Hl] [|i] [|j] x y Hij Hx Hy; simplify_eq/=; [lia|..|lia|].
    + apply Ha. by apply list_elem_of_lookup_2 in Hy.
    + eapply (Hl i j); eauto with lia.
  - intros H. split.
    + intros y [j Hj]%list_elem_of_lookup. by eapply (H 0 (S j)); [lia|..].
    + intros i j x y Hij Hx Hy. by eapply (H (S i) (S j)); [lia|..].
Qed.

#[export] Hint Rewrite @length_swap @length_insert : vex.

(** ** Bytes

    [memcpy] into an array: [overwrite l i d] replaces the cells from [i] on by
    [d]; the code never writes past the end of the array. *)
Definition overwrite {A : Type} (l : list A) (i : nat) (d : list A) : list A :=
  take i l ++ d ++ drop (i + length d) l.

(** Consecutive pieces of [n] elements, the last one shorter. *)
Fixpoint pieces_loop {A : Type} (fuel n : nat) (l : list A) : list (list A) :=
  match fuel, l with
  | S fuel, _ :: _ => take n l :: pieces_loop fuel n (drop n l)
  | _, _ => []
  end.
Definition pieces {A : Type} (n : nat) (l : list A) : list (list A) := pieces_loop (length l) n l.

Section Bytes.
Context {A : Type}.
Implicit Types l d : list A.

Lemma length_overwrite l i d : i + length d ≤ length l → length (overwrite l i d) = length l.
Proof. intros. unfold overwrite. rewrite !length_app, length_take, length_drop. lia. Qed.

Lemma overwrite_lookup l i d j :
  i + length d ≤ length l →
  overwrite l i d !! j = if decide (i ≤ j < i + length d) then d !! (j - i) else l !! j.
Proof.
  intros Hl. unfold overwrite. case_decide as Hj.
  - rewrite lookup_app_r by (rewrite length_take; lia). rewrite length_take.
    rewrite lookup_app_l by lia. f_equal. lia.
  - destruct (decide (j < i)).
    + rewrite lookup_app_l by (rewrite length_take; lia). by apply lookup_take_lt.
    + rewrite lookup_app_r by (rewrite length_take; lia). rewrite length_take.
      rewrite lookup_app_r by lia. rewrite lookup_drop. f_equal. lia.
Qed.

Lemma take_overwrite l i d : i ≤ length l → take (i + length d) (overwrite l i d) = take i l ++ d.
Proof.
  intros Hi. unfold overwrite. rewrite app_assoc. apply take_app_length'.
  rewrite length_app, length_take. lia.
Qed.

Lemma pieces_loop_fuel n l f1 f2 :
  0 < n → length l ≤ f1 → length l ≤ f2 → pieces_loop f1 n l = pieces_loop f2 n l.
Proof.
  intros Hn. revert l f2. induction f1 as [|f1 IH]; intros l f2 H1 H2.
  - destruct l; [|simpl in H1; lia]. by destruct f2.
  - destruct l as [|x l]; [by destruct f2|]. destruct f2 as [|f2]; [simpl in H2; lia|].
    cbn [pieces_loop]. f_equal. apply IH; rewrite length_drop; simpl in *; lia.
Qed.

Lemma pieces_cons n l : 0 < n → l ≠ [] → pieces n l = take n l :: pieces n (drop n l).
Proof.
  intros Hn Hl. unfold pieces. destruct l as [|x l]; [done|]. cbn [length pieces_loop]. f_equal.
  apply pieces_loop_fuel; [done| |done]. rewrite length_drop. simpl. lia.
Qed.

Lemma pieces_ind (n : nat) (P : list A → Prop) :
  0 < n → P [] → (∀ l, l ≠ [] → P (drop n l) → P l) → ∀ l, P l.
Proof.
  intros Hn H0 HS l. remember (length l) as k eqn:Hk. revert l Hk.
  induction (lt_wf k) as [k _ IH]. intros l ->. destruct l as [|x l]; [done|].
  apply HS; [done|]. eapply IH; [|done]. rewrite length_drop. simpl. lia.
Qed.

Ltac pieces_induct n Hn l :=
  pattern l; revert l; refine (pieces_ind n _ Hn _ _); [|intros l Hl IH].

Lemma concat_pieces n l : 0 < n → concat (pieces n l) = l.
Proof.
  intros Hn. pieces_induct n Hn l; [done|].
  rewrite pieces_cons by done. simpl. by rewrite IH, take_drop.
Qed.

Lemma pieces_app n l d k : 0 < n → length l = k * n → pieces n (l ++ d) = pieces n l ++ pieces n d.
Proof.
  intros Hn. revert l. induction k as [|k IH]; intros l Hl.
  - destruct l; [done|simpl in Hl; lia].
  - assert (l ≠ []) by (intros ->; simpl in Hl; lia).
    assert (l ++ d ≠ []) by (intros [-> _]%app_eq_nil; done).
    rewrite (pieces_cons n (l ++ d)), (pieces_cons n l) by done.
    rewrite take_app_le, drop_app_le by lia. simpl. f_equal. apply IH. rewrite length_drop. lia.
Qed.

Lemma pieces_single n l : l ≠ [] → length l ≤ n → pieces n l = [l].
Proof.
  intros Hl Hn. assert (0 < n) by (destruct l; simpl in *; [done|lia]).
  rewrite pieces_cons by done. by rewrite take_ge, drop_ge by lia.
Qed.

Lemma pieces_lookup n l i c :
  0 < n → pieces n l !! i = Some c → c = take n (drop (i * n) l) ∧ i * n < length l.
Proof.
  intros Hn. revert i. pieces_induct n Hn l; intros i; [done|].
  rewrite pieces_cons by done. destruct i as [|i]; simpl.
  - intros [= <-]. split; [done|]. destruct l; [done|simpl; lia].
  - intros [-> Hi]%IH. rewrite drop_drop. rewrite length_drop in Hi. split; [done|lia].
Qed.

Lemma length_pieces n l : 0 < n → length (pieces n l) = (length l + n - 1) / n.
Proof.
  intros Hn. pieces_induct n Hn l.
  - rewrite Nat.div_small; [done|]. simpl. lia.
  - rewrite pieces_cons by done. simpl. rewrite IH, length_drop.
    assert (0 < length l) by (destruct l; simpl; [done|lia]).
    destruct (decide (n ≤ length l)) as [Hle|Hgt].
    + replace (length l + n - 1) with ((length l - n + n - 1) + 1 * n) by lia.
      rewrite Nat.div_add by lia. lia.
    + replace (length l - n) with 0 by lia. rewrite Nat.div_small by lia.
      apply (Nat.div_unique _ _ 1 (length l - 1)); lia.
Qed.
End Bytes.
