(* ===== verification/PriorityQueue.v ===== *)
(** * The 4-ary heap of [src/common/vtl/priority_queue]

    [PriorityQueue<T, Compare>] keeps a [Vector<T>] ordered as a 4-ary heap.
    The model keeps the vector as a list, the comparator as the boolean
    function [comp] and translates every member that changes the vector.
    [size_t] indices are [nat]; the one place where [size_t] arithmetic wraps
    ([parent(size() - 1)] on a one-element heap) is written out in
    [heapify_start]. *)
From Stdlib Require Import Permutation Sorted ZArith Lia.
From stdpp Require Import prelude sorting.
From S2P Require Import Prelude.

(** ** Index arithmetic *)

Definition arity : nat := 4.
Definition parent (idx : nat) : nat := (idx - 1) / arity.
Definition first_child (idx : nat) : nat := arity * idx + 1.

(** The children the scan of [sift_down] visits: [first + i] for [i < k] while
    [first + i < n]. *)
Definition children (n idx : nat) : list nat :=
  seq (first_child idx) (Nat.min arity (n - first_child idx)).

Lemma parent_lt i : 0 < i → parent i < i.
Proof. intros. unfold parent, arity. apply Nat.Div0.div_lt_upper_bound. lia. Qed.

Lemma parent_of_child i p : 0 < i → parent i = p ↔ 4 * p + 1 ≤ i ≤ 4 * p + 4.
Proof. intros. unfold parent, arity. pose proof (Nat.div_mod_eq (i - 1) 4).
  pose proof (Nat.mod_upper_bound (i - 1) 4). lia. Qed.

Lemma elem_of_children n idx c : c ∈ children n idx ↔ 0 < c < n ∧ parent c = idx.
Proof.
  unfold children. rewrite elem_of_seq. unfold first_child, arity. split.
  - intros ?. split; [lia|]. apply parent_of_child; lia.
  - intros [? Hp]. apply parent_of_child in Hp; lia.
Qed.

(** [int] narrowing of a [size_t]. *)
Definition to_int32 (z : Z) : Z :=
  let w := u32 z in if (w <? 2 ^ 31)%Z then w else (w - 2 ^ 32)%Z.

(** [int i = parent(data().size() - 1)], in [size_t] arithmetic. *)
Definition heapify_start (n : nat) : Z :=
  to_int32 (u64 (u64 (Z.of_nat n - 1) - 1) / 4)%Z.

Section PriorityQueue.
Context {A : Type} (comp : A → A → bool).
Implicit Types data : list A.

(** [get_comp()(data()[i], data()[j])]. Every use in the code is in range. *)
Definition comp_at (data : list A) (i j : nat) : bool :=
  match data !! i, data !! j with
  | Some x, Some y => comp x y
  | _, _ => false
  end.

(** ** Sifting *)

Fixpoint sift_up_loop (fuel : nat) (data : list A) (idx : nat) : list A :=
  match fuel with
  | O => data
  | S fuel =>
    if idx =? 0 then data else
    let p := parent idx in
    if negb (comp_at data idx p) then data
    else sift_up_loop fuel (swap data idx p) p
  end.

Definition sift_up (data : list A) (idx : nat) : list A := sift_up_loop (S idx) data idx.

(** The inner [for] of [sift_down]: the best of [idx] and its children. *)
Definition best_child (data : list A) (n idx : nat) : nat :=
  foldl (λ best c, if comp_at data c best then c else best) idx (children n idx).

Fixpoint sift_down_loop (fuel : nat) (data : list A) (idx n : nat) : list A :=
  match fuel with
  | O => data
  | S fuel =>
    let best := best_child data n idx in
    if best =? idx then data
    else sift_down_loop fuel (swap data idx best) best n
  end.

Definition sift_down (data : list A) (idx : nat) : list A :=
  sift_down_loop (S (length data)) data idx (length data).

Definition sift_down_in_range (data : list A) (idx end_ : nat) : list A :=
  sift_down_loop (S (length data)) data idx end_.

(** ** Public operations *)

Fixpoint heapify_loop (cnt : nat) (data : list A) : list A :=
  match cnt with
  | O => data
  | S i => heapify_loop i (sift_down data i)
  end.

Definition heapify (data : list A) : list A :=
  match data with
  | [] => data
  | _ => heapify_loop (Z.to_nat (heapify_start (length data) + 1)) data
  end.

(** [PriorityQueue(Vector &&vec, bool sorted)] *)
Definition of_vector (vec : list A) (sorted : bool) : list A :=
  if sorted then vec else heapify vec.

Definition top (data : list A) : option A := head data.

Definition push (data : list A) (value : A) : list A :=
  let data := data ++ [value] in
  sift_up data (length data - 1).

(** [None]: the [Assert(!empty())] fails. *)
Definition pop (data : list A) : option (list A) :=
  match data with
  | [] => None
  | [_] => Some []
  | x :: _ =>
    let d := match last data with Some b => <[0:=b]> data | None => data end in
    let d := take (length d - 1) d in
    Some (sift_down d 0)
  end.

Definition update (data : list A) (idx : nat) (value : A) : option (list A) :=
  match data !! idx with
  | None => None
  | Some old =>
    let should_go_up := comp value old in
    let d := <[idx:=value]> data in
    Some (if should_go_up then sift_up d idx else sift_down d idx)
  end.

Definition erase (data : list A) (idx : nat) : option (list A) :=
  if idx <? length data then
    if idx =? length data - 1 then Some (take (length data - 1) data)
    else
      let d := match last data with Some b => <[idx:=b]> data | None => data end in
      let d := take (length d - 1) d in
      Some (if 0 <? idx then
              if comp_at d idx (parent idx) then sift_up d idx else sift_down d idx
            else sift_down d 0)
  else None.

(** [sort]: [i] counts from [0] to [n - 2]; [last_unsorted = n - 1 - i]. *)
Fixpoint sort_loop (last_unsorted : nat) (data : list A) : list A :=
  match last_unsorted with
  | O => data
  | S n => sort_loop n (sift_down_in_range (swap data 0 last_unsorted) 0 last_unsorted)
  end.

Definition sort (data : list A) : list A :=
  let n := length data in
  if n <=? 1 then data else sort_loop (n - 1) data.

(** ** The heap order *)

Definition ordered_at (data : list A) (i j : nat) : Prop :=
  ∀ x y, data !! i = Some x → data !! j = Some y → not_after comp x y.

(** Heap order on the cells below [n] whose parent is at or after [lo]. *)
Definition heap_from (lo n : nat) (data : list A) : Prop :=
  ∀ i, 0 < i < n → lo ≤ parent i → ordered_at data (parent i) i.

Definition is_heap (data : list A) : Prop := heap_from 0 (length data) data.

(** ** Permutation and length *)

Lemma sift_up_loop_Permutation fuel data idx : sift_up_loop fuel data idx ≡ₚ data.
Proof.
  revert data idx. induction fuel as [|f IH]; intros; simpl; [done|].
  repeat case_match; try done. rewrite IH. apply swap_Permutation.
Qed.

Lemma sift_up_Permutation data idx : sift_up data idx ≡ₚ data.
Proof. apply sift_up_loop_Permutation. Qed.

Lemma sift_down_loop_Permutation fuel data idx n : sift_down_loop fuel data idx n ≡ₚ data.
Proof.
  revert data idx. induction fuel as [|f IH]; intros; simpl; [done|].
  repeat case_match; try done. rewrite IH. apply swap_Permutation.
Qed.

Lemma sift_down_Permutation data idx : sift_down data idx ≡ₚ data.
Proof. apply sift_down_loop_Permutation. Qed.

Lemma heapify_loop_Permutation cnt data : heapify_loop cnt data ≡ₚ data.
Proof. revert data. induction cnt as [|i IH]; intros; simpl; [done|].
  rewrite IH. apply sift_down_Permutation. Qed.

Lemma sort_loop_Permutation m data : sort_loop m data ≡ₚ data.
Proof.
  revert data. induction m as [|m IH]; intros; simpl; [done|].
  rewrite IH. unfold sift_down_in_range. rewrite sift_down_loop_Permutation.
  apply swap_Permutation.
Qed.

Context `{!StrictWeakOrder comp}.

(** ** [sift_up] restores the heap *)

Lemma comp_at_false data i j : comp_at data i j = false → ordered_at data j i.
Proof. unfold comp_at. intros H x y Hx Hy. by rewrite Hx, Hy in H. Qed.

Lemma comp_at_true data i j : comp_at data i j = true → ordered_at data i j.
Proof.
  unfold comp_at. intros H x y Hx Hy. rewrite Hx, Hy in H. by apply comp_not_after.
Qed.

Lemma ordered_at_trans data i j k :
  j < length data → ordered_at data i j → ordered_at data j k → ordered_at data i k.
Proof.
  intros [y Hy]%lookup_lt_is_Some_2 Hij Hjk x z Hx Hz.
  transitivity y; [by apply Hij|by apply Hjk].
Qed.

(** Heap order everywhere except on the edge above [idx], and across it. *)
Definition up_inv (n idx : nat) (data : list A) : Prop :=
  (∀ i, 0 < i < n → i ≠ idx → ordered_at data (parent i) i) ∧
  (∀ c, 0 < c < n → 0 < idx → parent c = idx → ordered_at data (parent idx) c).

Lemma up_inv_swap data idx :
  0 < idx < length data → up_inv (length data) idx data →
  comp_at data idx (parent idx) = true →
  up_inv (length data) (parent idx) (swap data idx (parent idx)).
Proof.
  intros Hidx [Hedge Hskip] Hlt%comp_at_true.
  pose proof (parent_lt idx ltac:(lia)) as Hp.
  assert (Hl : swap data idx (parent idx) !! idx = data !! parent idx)
    by (apply swap_lookup_l; lia).
  assert (Hr : swap data idx (parent idx) !! parent idx = data !! idx)
    by (apply swap_lookup_r; lia).
  assert (Hne : ∀ k, k ≠ idx → k ≠ parent idx →
    swap data idx (parent idx) !! k = data !! k) by (intros; by apply swap_lookup_ne).
  set (d' := swap data idx (parent idx)) in *. split.
  - intros i Hi Hip x y. destruct (decide (i = idx)) as [->|Hni].
    { rewrite Hl, Hr. apply Hlt. }
    rewrite (Hne i) by done.
    destruct (decide (parent i = idx)) as [Hpi|Hpi].
    { rewrite Hpi, Hl. apply (Hskip i); [done|lia|done]. }
    destruct (decide (parent i = parent idx)) as [Hpp|Hpp].
    { rewrite Hpp, Hr. intros Hx Hy.
      destruct (lookup_lt_is_Some_2 data (parent idx)) as [z Hz]; [lia|].
      transitivity z; [by apply Hlt|]. apply (Hedge i); [done..|by rewrite Hpp|done]. }
    rewrite (Hne (parent i)) by done. by apply Hedge.
  - intros c Hc Hpos Hpc x y.
    assert (parent c < c) by (apply parent_lt; lia).
    rewrite (Hne (parent (parent idx)))
      by (pose proof (parent_lt (parent idx)); lia).
    destruct (decide (c = idx)) as [->|Hci].
    + rewrite Hl. apply Hedge; lia.
    + rewrite (Hne c) by lia. intros Hx Hy.
      destruct (lookup_lt_is_Some_2 data (parent idx)) as [z Hz]; [lia|].
      transitivity z; [apply (Hedge (parent idx)); [lia..|done|done]|].
      apply (Hedge c); [lia..|by rewrite Hpc|done].
Qed.

Lemma up_inv_done data idx :
  idx = 0 ∨ comp_at data idx (parent idx) = false →
  up_inv (length data) idx data → is_heap data.
Proof.
  intros Hstop [Hedge _] i Hi _. destruct (decide (i = idx)) as [->|]; [|by apply Hedge].
  destruct Hstop as [->|H]; [lia|]. by apply comp_at_false.
Qed.

Lemma sift_up_loop_heap fuel data idx :
  idx < fuel → idx < length data → up_inv (length data) idx data →
  is_heap (sift_up_loop fuel data idx).
Proof.
  revert data idx. induction fuel as [|f IH]; intros data idx Hf Hidx Hinv; [lia|].
  simpl. destruct (Nat.eqb_spec idx 0) as [->|Hpos]; [by eapply up_inv_done; eauto|].
  destruct (comp_at data idx (parent idx)) eqn:Hc; simpl.
  - pose proof (parent_lt idx ltac:(lia)).
    apply IH; rewrite ?length_swap; [lia..|]. apply up_inv_swap; [lia|done..].
  - by eapply up_inv_done; eauto.
Qed.

Lemma sift_up_heap data idx :
  idx < length data → up_inv (length data) idx data → is_heap (sift_up data idx).
Proof. intros. apply sift_up_loop_heap; [lia|done..]. Qed.

(** ** [sift_down] restores the heap *)

Lemma foldl_best data cs best0 (seen : list nat) :
  best0 ∈ seen → (∀ c, c ∈ seen → ordered_at data best0 c) →
  Forall (λ c, c < length data) (seen ++ cs) →
  let b := foldl (λ best c, if comp_at data c best then c else best) best0 cs in
  b ∈ seen ++ cs ∧ ∀ c, c ∈ seen ++ cs → ordered_at data b c.
Proof.
  revert best0 seen. induction cs as [|c cs IH]; intros best0 seen Hin Hord Hlt; simpl.
  { by rewrite app_nil_r. }
  replace (seen ++ c :: cs) with ((seen ++ [c]) ++ cs) in * by by rewrite <-app_assoc.
  assert (Hself : ∀ i, ordered_at data i i)
    by (intros i x y Hx Hy; simplify_eq; reflexivity).
  pose proof Hlt as [[Hseen _]%Forall_app _]%Forall_app. rewrite Forall_forall in Hseen.
  apply IH; [| |done].
  - case_match; set_solver.
  - destruct (comp_at data c best0) eqn:Hcomp; intros k [Hk|Hk]%elem_of_app.
    + eapply (ordered_at_trans _ _ best0); [by apply Hseen|by apply comp_at_true|by apply Hord].
    + apply list_elem_of_singleton in Hk as ->. done.
    + by apply Hord.
    + apply list_elem_of_singleton in Hk as ->. by apply comp_at_false.
Qed.

Lemma best_child_spec data n idx :
  idx < length data → n ≤ length data →
  let b := best_child data n idx in
  (b = idx ∨ (0 < b < n ∧ parent b = idx)) ∧
  ∀ c, c = idx ∨ (0 < c < n ∧ parent c = idx) → ordered_at data b c.
Proof.
  intros Hidx Hn b. destruct (foldl_best data (children n idx) idx [idx]) as [Hin Hord].
  - set_solver.
  - intros c ->%list_elem_of_singleton x y Hx Hy. simplify_eq. reflexivity.
  - apply Forall_app; split; [by apply Forall_singleton|].
    apply Forall_forall. intros c [? _]%elem_of_children. lia.
  - fold (best_child data n idx) in Hin, Hord. fold b in Hin, Hord. split.
    + apply elem_of_app in Hin as [->%list_elem_of_singleton|H%elem_of_children]; auto.
    + intros c Hc. apply Hord, elem_of_app.
      destruct Hc as [->|Hc]; [left; by apply list_elem_of_singleton|].
      right. by apply elem_of_children.
Qed.

(** Heap order from [lo] except on the edges below [idx], and across [idx]. *)
Definition down_inv (lo n idx : nat) (data : list A) : Prop :=
  (∀ i, 0 < i < n → lo ≤ parent i → parent i ≠ idx → ordered_at data (parent i) i) ∧
  (∀ c, 0 < c < n → 0 < idx → lo ≤ parent idx → parent c = idx →
     ordered_at data (parent idx) c).

Lemma down_inv_swap data lo n idx b :
  idx < n → n ≤ length data → lo ≤ idx → down_inv lo n idx data →
  0 < b < n → parent b = idx →
  (∀ c, c = idx ∨ (0 < c < n ∧ parent c = idx) → ordered_at data b c) →
  down_inv lo n b (swap data idx b).
Proof.
  intros Hidx Hn Hlo [Hedge Hskip] Hb Hpb Hbest.
  assert (Hbi : idx < b) by (rewrite <-Hpb; apply parent_lt; lia).
  assert (Hl : swap data idx b !! idx = data !! b) by (apply swap_lookup_l; lia).
  assert (Hr : swap data idx b !! b = data !! idx) by (apply swap_lookup_r; lia).
  assert (Hne : ∀ k, k ≠ idx → k ≠ b → swap data idx b !! k = data !! k)
    by (intros; by apply swap_lookup_ne).
  set (d' := swap data idx b) in *. split.
  - intros i Hi Hpi Hpb' x y.
    destruct (decide (i = b)) as [->|Hib].
    { rewrite Hpb, Hl, Hr. apply Hbest. auto. }
    destruct (decide (i = idx)) as [->|Hii].
    { pose proof (parent_lt idx ltac:(lia)). rewrite (Hne (parent idx)) by lia.
      rewrite Hl. apply Hskip; try done; lia. }
    rewrite (Hne i) by done.
    destruct (decide (parent i = idx)) as [Hpp|Hpp].
    { rewrite Hpp, Hl. apply Hbest. auto. }
    rewrite (Hne (parent i)) by done. by apply Hedge.
  - intros c Hc _ Hlop Hpc x y.
    pose proof (parent_lt c ltac:(lia)). rewrite Hpb, Hl, (Hne c) by lia.
    rewrite <-Hpc. apply Hedge; lia.
Qed.

Lemma sift_down_loop_heap fuel data lo idx n :
  n - idx < fuel → idx < n → n ≤ length data → lo ≤ idx → down_inv lo n idx data →
  heap_from lo n (sift_down_loop fuel data idx n).
Proof.
  revert data idx. induction fuel as [|f IH]; intros data idx Hf Hidx Hn Hlo Hinv; [lia|].
  simpl. destruct (best_child_spec data n idx ltac:(lia) Hn) as [Hb Hbest].
  set (b := best_child data n idx) in *.
  destruct (Nat.eqb_spec b idx) as [Heq|Hneq].
  - intros i Hi Hpi. destruct (decide (parent i = idx)) as [Hp|Hp].
    + rewrite Hp, <-Heq. apply Hbest. auto.
    + by apply Hinv.
  - destruct Hb as [?|[Hb Hpb]]; [done|].
    assert (idx < b) by (rewrite <-Hpb; apply parent_lt; lia).
    apply IH; rewrite ?length_swap; try lia. by apply down_inv_swap.
Qed.

(** The fuel of [sift_down] is enough: more of it changes nothing. *)
Lemma sift_down_loop_fuel fuel fuel' data idx n :
  n ≤ length data → n - idx < fuel → idx < n → fuel ≤ fuel' →
  sift_down_loop fuel' data idx n = sift_down_loop fuel data idx n.
Proof.
  revert fuel' data idx. induction fuel as [|f IH]; intros [|f'] data idx Hn Hf Hi Hle;
    try lia. simpl.
  destruct (best_child_spec data n idx ltac:(lia) Hn) as [Hb _].
  destruct (Nat.eqb_spec (best_child data n idx) idx); [done|].
  destruct Hb as [?|[Hb Hpb]]; [done|].
  pose proof (parent_lt (best_child data n idx) ltac:(lia)).
  apply IH; rewrite ?length_swap; lia.
Qed.

Lemma sift_down_heap_from data lo idx :
  idx < length data → lo ≤ idx → down_inv lo (length data) idx data →
  heap_from lo (length data) (sift_down data idx).
Proof. intros. apply sift_down_loop_heap; try done; lia. Qed.

Lemma length_sift_down data idx : length (sift_down data idx) = length data.
Proof. by rewrite sift_down_Permutation. Qed.

(** A heap whose cell [idx] is overwritten with a value that does not go above
    its parent is repaired by [sift_down]. *)
Lemma down_inv_insert data idx v :
  idx < length data → is_heap data →
  (0 < idx → ordered_at (<[idx:=v]> data) (parent idx) idx) →
  down_inv 0 (length data) idx (<[idx:=v]> data).
Proof.
  intros Hidx Hheap Hv. split.
  - intros i Hi _ Hpi. destruct (decide (i = idx)) as [->|Hne]; [apply Hv; lia|].
    intros x y. rewrite !list_lookup_insert_ne by done. by apply Hheap; [|lia].
  - intros c Hc Hpos _ Hpc x y.
    pose proof (parent_lt c ltac:(lia)). pose proof (parent_lt idx ltac:(lia)).
    rewrite !list_lookup_insert_ne by lia.
    eapply (ordered_at_trans _ _ idx); [lia|apply Hheap; lia|].
    rewrite <-Hpc. apply Hheap; lia.
Qed.

(** Likewise with [sift_up] when the value does not go below its children. *)
Lemma up_inv_insert data idx v :
  idx < length data → is_heap data →
  (∀ c, 0 < c < length data → parent c = idx → ordered_at (<[idx:=v]> data) idx c) →
  up_inv (length data) idx (<[idx:=v]> data).
Proof.
  intros Hidx Hheap Hv. split.
  - intros i Hi Hne. destruct (decide (parent i = idx)) as [Hp|Hp].
    { rewrite Hp. by apply Hv. }
    intros x y. rewrite !list_lookup_insert_ne by done. by apply Hheap; [|lia].
  - intros c Hc Hpos Hpc x y.
    pose proof (parent_lt c ltac:(lia)). pose proof (parent_lt idx ltac:(lia)).
    rewrite !list_lookup_insert_ne by lia.
    eapply (ordered_at_trans _ _ idx); [lia|apply Hheap; lia|].
    rewrite <-Hpc. apply Hheap; lia.
Qed.

(** ** The root of a heap goes before every other element *)

Lemma heap_root data n i :
  n ≤ length data → heap_from 0 n data → i < n → ordered_at data 0 i.
Proof.
  intros Hn Hheap. induction (lt_wf i) as [i _ IH]. intros Hi.
  destruct (decide (i = 0)) as [->|Hpos].
  - intros x y Hx Hy. simplify_eq. reflexivity.
  - pose proof (parent_lt i ltac:(lia)).
    eapply (ordered_at_trans _ _ (parent i)); [lia|apply IH; lia|apply Hheap; lia].
Qed.

Lemma heap_top_first data x y :
  is_heap data → top data = Some x → y ∈ data → not_after comp x y.
Proof.
  intros Hheap Hx [i Hi]%list_elem_of_lookup.
  destruct data as [|x' data]; simplify_eq/=.
  eapply (heap_root _ _ i (le_n _) Hheap); [by eapply lookup_lt_Some|done|done].
Qed.

(** A vector sorted by [comp] already is a heap, which is what the [sorted]
    flag of the constructor relies on. *)
Lemma sorted_is_heap data : StronglySorted (not_after comp) data → is_heap data.
Proof.
  intros Hs i Hi _ x y Hx Hy.
  pose proof (parent_lt i ltac:(lia)).
  by eapply StronglySorted_lookup.
Qed.

(** ** [heapify] *)

Lemma heapify_start_spec n :
  0 < n → (Z.of_nat n < 2 ^ 31)%Z →
  Z.to_nat (heapify_start n + 1) = (if n =? 1 then 0 else S (parent (n - 1)))%nat.
Proof.
  intros Hpos Hn. unfold heapify_start.
  destruct (Nat.eqb_spec n 1) as [->|Hn1]; [reflexivity|].
  unfold u64. rewrite (Z.mod_small (Z.of_nat n - 1)) by lia.
  rewrite (Z.mod_small (Z.of_nat n - 1 - 1)) by lia.
  assert (H4 : ((Z.of_nat n - 1 - 1) / 4 = Z.of_nat (parent (n - 1)))%Z).
  { unfold parent, arity. rewrite Nat2Z.inj_div. f_equal; lia. }
  rewrite H4. pose proof (parent_lt (n - 1) ltac:(lia)).
  unfold to_int32, u32. rewrite Z.mod_small by lia.
  destruct (Z.ltb_spec (Z.of_nat (parent (n - 1))) (2 ^ 31)); lia.
Qed.

Lemma heapify_loop_heap cnt data :
  cnt ≤ length data → heap_from cnt (length data) data →
  is_heap (heapify_loop cnt data).
Proof.
  revert data. induction cnt as [|i IH]; intros data Hc Hheap; simpl; [done|].
  apply IH; rewrite length_sift_down; [lia|].
  apply sift_down_heap_from; [lia..|]. split.
  - intros j Hj Hpj Hne. apply Hheap; lia.
  - intros c _ Hpos Hle _. pose proof (parent_lt i ltac:(lia)). lia.
Qed.

Lemma heapify_is_heap data :
  (Z.of_nat (length data) < 2 ^ 31)%Z → is_heap (heapify data).
Proof.
  intros Hn. unfold heapify. destruct data as [|x data']; [intros i Hi; simpl in *; lia|].
  set (data := x :: data') in *. rewrite heapify_start_spec by (simpl in *; lia).
  destruct (Nat.eqb_spec (length data) 1) as [H1|H1]; [intros i Hi; simpl in *; lia|].
  apply heapify_loop_heap.
  - pose proof (parent_lt (length data - 1)). simpl in *. lia.
  - intros i Hi Hp. exfalso. pose proof (proj1 (parent_of_child i (parent i) ltac:(lia)) eq_refl).
    assert (0 < length data - 1) as Hl by (simpl in *; lia).
    pose proof (proj1 (parent_of_child (length data - 1) _ Hl) eq_refl). lia.
Qed.

Lemma heapify_Permutation data : heapify data ≡ₚ data.
Proof. unfold heapify. destruct data; [done|]. apply heapify_loop_Permutation. Qed.

(** ** [push], [pop], [update], [erase] *)

Lemma push_Permutation data v : push data v ≡ₚ v :: data.
Proof. unfold push. rewrite sift_up_Permutation. by rewrite Permutation_app_comm. Qed.

Lemma push_is_heap data v : is_heap data → is_heap (push data v).
Proof.
  intros Hheap. unfold push. rewrite length_app. simpl.
  replace (length data + 1 - 1) with (length data) by lia.
  assert (Hlen : length (data ++ [v]) = S (length data)) by (rewrite length_app; simpl; lia).
  apply sift_up_heap; [lia|]. rewrite Hlen. split.
  - intros i Hi Hne x y. pose proof (parent_lt i ltac:(lia)).
    rewrite !lookup_app_l by lia. apply Hheap; lia.
  - intros c Hc _ Hpc. pose proof (parent_lt c ltac:(lia)). lia.
Qed.

(** Dropping the last cell of a heap leaves a heap. *)
Lemma heap_take data n : is_heap data → is_heap (take n data).
Proof.
  intros Hheap i Hi _ x y. rewrite length_take in Hi.
  pose proof (parent_lt i ltac:(lia)).
  rewrite !lookup_take_lt by lia. apply Hheap; lia.
Qed.

(** Moving the last element over cell [idx] and shrinking by one: what [pop]
    and [erase] start with. *)
Lemma move_last_take data idx b :
  last data = Some b → idx < length data - 1 →
  take (length data - 1) (<[idx:=b]> data) = <[idx:=b]> (take (length data - 1) data).
Proof. intros _ Hi. by rewrite take_insert_lt by lia. Qed.

Lemma move_last_Permutation data idx b x :
  last data = Some b → data !! idx = Some x → idx < length data - 1 →
  data ≡ₚ x :: <[idx:=b]> (take (length data - 1) data).
Proof.
  intros Hlast Hx Hi. apply last_Some in Hlast as [d ->].
  rewrite length_app in *. simpl in *. rewrite Nat.add_sub in *.
  rewrite take_app_length. rewrite lookup_app_l in Hx by lia.
  apply list_elem_of_split_length in Hx as (l1 & l2 & -> & ->).
  rewrite insert_delete_middle, Permutation_app_comm. simpl.
  rewrite <-!Permutation_middle. apply perm_swap.
Qed.

Lemma sift_down_replace data idx b :
  idx < length data → is_heap data →
  (0 < idx → ordered_at (<[idx:=b]> data) (parent idx) idx) →
  is_heap (sift_down (<[idx:=b]> data) idx).
Proof.
  intros Hi Hheap Hb. unfold is_heap. rewrite length_sift_down.
  apply sift_down_heap_from; rewrite ?length_insert; [done|lia|].
  by apply down_inv_insert.
Qed.

Lemma pop_nonempty data x :
  is_heap data → top data = Some x →
  ∃ data', pop data = Some data' ∧ is_heap data' ∧ data ≡ₚ x :: data'.
Proof.
  intros Hheap Htop. destruct data as [|x' [|y data]]; [done|..]; injection Htop as ->.
  { exists []. split; [done|]. split; [|done]. intros i Hi. simpl in Hi. lia. }
  set (d := x :: y :: data) in *. assert (Hlen : 2 ≤ length d) by (simpl; lia).
  destruct (last d) as [b|] eqn:Hlast; [|by apply last_None in Hlast].
  exists (sift_down (<[0:=b]> (take (length d - 1) d)) 0). split.
  { unfold pop, d. fold d. rewrite Hlast, length_insert, move_last_take by (done || lia). done. }
  assert (length (take (length d - 1) d) = length d - 1) by (rewrite length_take; lia). split.
  - apply sift_down_replace; [lia|by apply heap_take|lia].
  - rewrite sift_down_Permutation. apply move_last_Permutation; [done|done|lia].
Qed.

Lemma ordered_at_insert_r data idx v p :
  p ≠ idx → idx < length data →
  ordered_at (<[idx:=v]> data) p idx ↔ ∀ x, data !! p = Some x → not_after comp x v.
Proof.
  intros Hne Hi. unfold ordered_at.
  rewrite list_lookup_insert_ne, list_lookup_insert_eq by done. naive_solver.
Qed.

(** A value that goes before the parent of [idx] goes before its children. *)
Lemma replace_goes_up data idx v :
  0 < idx < length data → is_heap data →
  comp_at (<[idx:=v]> data) idx (parent idx) = true →
  up_inv (length data) idx (<[idx:=v]> data).
Proof.
  intros Hi Hheap Hcomp. apply up_inv_insert; [lia|done|].
  intros c Hc Hpc. pose proof (parent_lt c ltac:(lia)). pose proof (parent_lt idx ltac:(lia)).
  apply comp_at_true in Hcomp. intros x y Hx Hy.
  destruct (lookup_lt_is_Some_2 data (parent idx)) as [p Hp]; [lia|].
  transitivity p; [apply Hcomp; [done|by rewrite list_lookup_insert_ne by lia]|].
  rewrite list_lookup_insert_ne in Hy by lia.
  eapply (ordered_at_trans data _ idx c); [lia| | |done|done]; [by apply Hheap; lia|].
  rewrite <-Hpc. apply Hheap; lia.
Qed.

Lemma update_spec data idx v old :
  is_heap data → data !! idx = Some old →
  ∃ data', update data idx v = Some data' ∧ is_heap data' ∧ data' ≡ₚ <[idx:=v]> data.
Proof.
  intros Hheap Hold. unfold update. rewrite Hold.
  pose proof (lookup_lt_Some _ _ _ Hold) as Hi. eexists. split; [done|].
  destruct (comp v old) eqn:Hcomp.
  - split; [|apply sift_up_Permutation].
    apply sift_up_heap; rewrite length_insert; [done|].
    apply up_inv_insert; [done..|]. intros c Hc Hpc x y.
    pose proof (parent_lt c ltac:(lia)).
    rewrite list_lookup_insert_eq, list_lookup_insert_ne by lia. intros [= <-] Hy.
    transitivity old; [by apply comp_not_after|].
    eapply (Hheap c); [lia..|by rewrite Hpc|done].
  - split; [|apply sift_down_Permutation].
    apply sift_down_replace; [done..|]. intros Hpos.
    pose proof (parent_lt idx ltac:(lia)). apply ordered_at_insert_r; [lia|done|].
    intros p Hp. transitivity old; [|by unfold not_after].
    eapply (Hheap idx); [lia..|done|done].
Qed.

Lemma erase_spec data idx x :
  is_heap data → data !! idx = Some x →
  ∃ data', erase data idx = Some data' ∧ is_heap data' ∧ data ≡ₚ x :: data'.
Proof.
  intros Hheap Hx. unfold erase. pose proof (lookup_lt_Some _ _ _ Hx) as Hi.
  destruct (Nat.ltb_spec idx (length data)); [|lia].
  destruct (last data) as [b|] eqn:Hlast; [|apply last_None in Hlast; by subst].
  destruct (Nat.eqb_spec idx (length data - 1)) as [Heq|Hne].
  { eexists. split; [done|]. split; [by apply heap_take|].
    apply last_Some in Hlast as [d ->]. rewrite length_app in *. simpl in *.
    rewrite Nat.add_sub in *. subst idx. rewrite take_app_length.
    rewrite lookup_app_r, Nat.sub_diag in Hx by lia. simplify_eq/=.
    by rewrite Permutation_app_comm. }
  eexists. split; [done|].
  rewrite length_insert, move_last_take by (done || lia).
  set (t := take (length data - 1) data).
  assert (Hlen : length t = length data - 1) by (unfold t; rewrite length_take; lia).
  assert (Ht : is_heap t) by by apply heap_take.
  assert (Hperm : data ≡ₚ x :: <[idx:=b]> t) by (apply move_last_Permutation; [done..|lia]).
  destruct (Nat.ltb_spec 0 idx) as [Hpos|Hzero].
  - destruct (comp_at (<[idx:=b]> t) idx (parent idx)) eqn:Hcomp.
    + split; [|by rewrite sift_up_Permutation].
      apply sift_up_heap; rewrite length_insert; [lia|]. by apply replace_goes_up; [lia|..].
    + split; [|by rewrite sift_down_Permutation].
      apply sift_down_replace; [lia|done|]. intros _. by apply comp_at_false.
  - assert (idx = 0) as -> by lia. split; [|by rewrite sift_down_Permutation].
    apply sift_down_replace; [lia|done|lia].
Qed.

(** ** [sort] *)

Lemma sift_down_loop_beyond fuel data idx n k :
  idx < n → n ≤ length data → n ≤ k → sift_down_loop fuel data idx n !! k = data !! k.
Proof.
  revert data idx. induction fuel as [|f IH]; intros data idx Hi Hn Hk; simpl; [done|].
  destruct (best_child_spec data n idx ltac:(lia) Hn) as [Hb _].
  destruct (Nat.eqb_spec (best_child data n idx) idx); [done|].
  destruct Hb as [?|[Hb _]]; [done|].
  rewrite IH by (rewrite ?length_swap; lia). apply swap_lookup_ne; lia.
Qed.

Lemma sift_down_loop_prefix fuel data idx n :
  idx < n → n ≤ length data →
  take n (sift_down_loop fuel data idx n) ≡ₚ take n data.
Proof.
  intros Hi Hn. set (d := sift_down_loop fuel data idx n).
  assert (Hdrop : drop n d = drop n data).
  { apply list_eq. intros k. rewrite !lookup_drop. apply sift_down_loop_beyond; lia. }
  apply (Permutation_app_inv_r (drop n data)). rewrite <-Hdrop at 1.
  rewrite !take_drop. apply sift_down_loop_Permutation.
Qed.

(** Cells after [m] hold the final order: nothing before a cell goes before it. *)
Definition sorted_after (m : nat) (data : list A) : Prop :=
  ∀ i j, i < j → m < j → ordered_at data j i.

Lemma sort_step data m :
  S m < length data → heap_from 0 (S (S m)) data → sorted_after (S m) data →
  let d := sift_down_in_range (swap data 0 (S m)) 0 (S m) in
  heap_from 0 (S m) d ∧ sorted_after m d.
Proof.
  intros Hm Hheap Hsorted. set (s := swap data 0 (S m)).
  assert (Hls : length s = length data) by apply length_swap.
  assert (Hroot : ∀ i, i < S (S m) → ordered_at data 0 i)
    by (intros; eapply (heap_root data (S (S m))); [lia|done|done]).
  unfold sift_down_in_range. split.
  - apply sift_down_loop_heap; try lia. split; [|lia].
    intros i Hi _ Hp x y. pose proof (parent_lt i ltac:(lia)).
    unfold s. rewrite !swap_lookup_ne by lia. apply Hheap; lia.
  - set (d := sift_down_loop _ _ _ _). intros i j Hij Hj x y Hx Hy.
    assert (Hx' : s !! j = Some x) by (rewrite <-Hx; symmetry; apply sift_down_loop_beyond; lia).
    assert (Hdata : ∃ k, k < S (S m) ∧ i < S m ∧ data !! k = Some y ∨ i = k ∧ S m ≤ i ∧ s !! i = Some y).
    { destruct (decide (i < S m)) as [Hlt|Hge].
      - assert (y ∈ take (S m) s) as [k Hk]%list_elem_of_lookup.
        { rewrite <-(sift_down_loop_prefix (S (length s)) s 0) by lia.
          apply list_elem_of_lookup. exists i. by rewrite lookup_take_lt. }
        apply lookup_take_Some in Hk as [Hk Hkm]. unfold s in Hk.
        destruct (decide (k = 0)) as [->|].
        + exists (S m). rewrite swap_lookup_l in Hk by lia. left. split_and!; [lia|lia|done].
        + exists k. rewrite swap_lookup_ne in Hk by lia. left. split_and!; [lia|lia|done].
      - exists i. right. split_and!; [done|lia|]. rewrite <-Hy. symmetry.
        apply sift_down_loop_beyond; lia. }
    unfold s in Hx'. destruct (decide (j = S m)) as [->|Hne].
    + rewrite swap_lookup_r in Hx' by lia.
      destruct Hdata as (k & [(Hk & _ & Hky)|(-> & ? & _)]); [|lia]. by apply (Hroot k).
    + rewrite swap_lookup_ne in Hx' by lia.
      destruct Hdata as (k & [(Hk & _ & Hky)|(-> & Hge & Hsy)]);
        [by apply (Hsorted k j); [lia|lia|..]|].
      unfold s in Hsy. destruct (decide (k = S m)) as [->|];
        [rewrite swap_lookup_r in Hsy by lia; by apply (Hsorted 0 j); [lia|lia|..]|].
      rewrite swap_lookup_ne in Hsy by lia. by apply (Hsorted k j); [lia|lia|..].
Qed.

Lemma sort_loop_sorted m data :
  m < length data → heap_from 0 (S m) data → sorted_after m data →
  sorted_after 0 (sort_loop m data).
Proof.
  revert data. induction m as [|m IH]; intros data Hm Hheap Hs; [done|].
  simpl. destruct (sort_step data m Hm Hheap Hs) as [Hh' Hs'].
  apply IH; [|done..]. unfold sift_down_in_range.
  rewrite sift_down_loop_Permutation, length_swap. lia.
Qed.

Lemma sort_Permutation data : sort data ≡ₚ data.
Proof. unfold sort. case_match; [done|]. apply sort_loop_Permutation. Qed.

(** [sort] leaves the elements in the reverse of the heap's order: for the max
    heap of the search, ascending distances. *)
Lemma sort_sorted data :
  is_heap data → StronglySorted (λ x y, not_after comp y x) (sort data).
Proof.
  intros Hheap. apply StronglySorted_lookup. intros i j x y Hij Hx Hy.
  unfold sort in *. destruct (Nat.leb_spec (length data) 1) as [Hle|Hgt].
  { apply lookup_lt_Some in Hy. lia. }
  eapply (sort_loop_sorted (length data - 1) data); [lia| | |exact Hij|lia|done|done].
  - by replace (S (length data - 1)) with (length data) by lia.
  - intros i' j' _ Hj x' y' Hx' _. apply lookup_lt_Some in Hx'. lia.
Qed.
End PriorityQueue.
