(* ===== verification/PriorityQueueSpec.v ===== *)
(** * What the 4-ary heap promises

    The abstract view of [PriorityQueue]: a bag of elements, from which [pop]
    takes one that goes before all others. [bag_run] is that specification as a
    step relation over sequences of calls; [heap_run] runs the calls on the heap
    of [PriorityQueue.v]. The heap refines the bag. *)
From Stdlib Require Import Permutation Sorted ZArith Lia.
From stdpp Require Import prelude sorting.
From S2P Require Import Prelude PriorityQueue.

Inductive pq_op (A : Type) : Type :=
| OpPush (v : A)
| OpPop
| OpUpdate (idx : nat) (v : A)
| OpErase (idx : nat).
Arguments OpPush {A} _.
Arguments OpPop {A}.
Arguments OpUpdate {A} _ _.
Arguments OpErase {A} _.

Section Spec.
Context {A : Type} (comp : A → A → bool).

(** One call on the heap: [None] is a failed [Assert]; [pop] also reports the
    [top()] read before it. *)
Definition heap_exec (data : list A) (o : pq_op A) : option (list A * option A) :=
  match o with
  | OpPush v => Some (push comp data v, None)
  | OpPop => (λ d, (d, top data)) <$> pop comp data
  | OpUpdate idx v => (λ d, (d, None)) <$> update comp data idx v
  | OpErase idx => (λ d, (d, None)) <$> erase comp data idx
  end.

Fixpoint heap_run (data : list A) (os : list (pq_op A)) : option (list A * list (option A)) :=
  match os with
  | [] => Some (data, [])
  | o :: os =>
    '(d, r) ← heap_exec data o;
    '(d, rs) ← heap_run d os;
    Some (d, r :: rs)
  end.

(** The calls whose [Assert]s hold on a queue of [n] elements, and its size
    after them. *)
Fixpoint calls_ok (n : nat) (os : list (pq_op A)) : bool :=
  match os with
  | [] => true
  | OpPush _ :: os => calls_ok (S n) os
  | OpPop :: os => (0 <? n) && calls_ok (n - 1) os
  | OpUpdate idx _ :: os => (idx <? n) && calls_ok n os
  | OpErase idx :: os => (idx <? n) && calls_ok (n - 1) os
  end.

(** The bag: [update] and [erase] replace or remove some element, [pop] one that
    goes before every other. *)
Inductive bag_step : list A → pq_op A → option A → list A → Prop :=
| bag_push b v b' : b' ≡ₚ v :: b → bag_step b (OpPush v) None b'
| bag_pop b x b' : b ≡ₚ x :: b' → (∀ y, y ∈ b → not_after comp x y) → bag_step b OpPop (Some x) b'
| bag_update b idx old v rest b' :
    b ≡ₚ old :: rest → b' ≡ₚ v :: rest → bag_step b (OpUpdate idx v) None b'
| bag_erase b idx x b' : b ≡ₚ x :: b' → bag_step b (OpErase idx) None b'.

Inductive bag_run : list A → list (pq_op A) → list (option A) → list A → Prop :=
| bag_run_nil b b' : b ≡ₚ b' → bag_run b [] [] b'
| bag_run_cons b o r b1 os rs b' :
    bag_step b o r b1 → bag_run b1 os rs b' → bag_run b (o :: os) (r :: rs) b'.

Context `{!StrictWeakOrder comp}.

(** One call: it succeeds exactly when its [Assert] holds, keeps the heap order
    and is a step of the bag. *)
Lemma heap_exec_simulates data o os :
  is_heap comp data → calls_ok (length data) (o :: os) = true →
  ∃ d r, heap_exec data o = Some (d, r) ∧ is_heap comp d ∧ bag_step data o r d ∧
    calls_ok (length d) os = true.
Proof.
  intros Hheap Hok. destruct o as [v| |idx v|idx]; simpl in *.
  - pose proof (push_Permutation comp data v) as Hp. eexists _, _. split; [done|].
    split; [by apply push_is_heap|]. split; [by constructor|]. by apply Permutation_length in Hp as ->.
  - apply andb_prop in Hok as [Hn Hok]. destruct (top data) as [x|] eqn:Htop; [|by destruct data].
    destruct (pop_nonempty comp data x Hheap Htop) as (d & -> & Hd & Hp). eexists _, _.
    split; [done|]. split; [done|]. split.
    + constructor; [done|]. intros y Hy. by apply (heap_top_first comp data).
    + rewrite Hp in Hok. simpl in Hok. by rewrite Nat.sub_0_r in Hok.
  - apply andb_prop in Hok as [Hn%Nat.ltb_lt Hok].
    destruct (lookup_lt_is_Some_2 data idx Hn) as [old Hold].
    destruct (update_spec comp data idx v old Hheap Hold) as (d & -> & Hd & Hp). eexists _, _.
    split; [done|]. split; [done|]. split; [|by rewrite Hp, length_insert].
    apply list_elem_of_split_length in Hold as (l1 & l2 & -> & ->).
    apply (bag_update _ _ old v (l1 ++ l2)); [by rewrite Permutation_middle|].
    by rewrite Hp, insert_delete_middle, Permutation_middle.
  - apply andb_prop in Hok as [Hn%Nat.ltb_lt Hok].
    destruct (lookup_lt_is_Some_2 data idx Hn) as [x Hx].
    destruct (erase_spec comp data idx x Hheap Hx) as (d & -> & Hd & Hp). eexists _, _.
    split; [done|]. split; [done|]. split; [by apply (bag_erase _ _ x)|].
    rewrite Hp in Hok. simpl in Hok. by rewrite Nat.sub_0_r in Hok.
Qed.


(** Building a heap from any vector and calling [sort] sorts the vector in
    the reverse of the heap's order: [heapify] makes a heap of any vector of
    fewer than [2^31] elements, and [sort] permutes it into order. *)
Theorem heapify_sort_sorts vec :
  (Z.of_nat (length vec) < 2 ^ 31)%Z →
  is_heap comp (of_vector comp vec false) ∧
  sort comp (of_vector comp vec false) ≡ₚ vec ∧
  StronglySorted (λ x y, not_after comp y x) (sort comp (of_vector comp vec false)).
Proof.
  intros Hn. simpl. assert (is_heap comp (heapify comp vec)) as Hh by by apply heapify_is_heap.
  split; [done|]. split; [|by apply sort_sorted].
  rewrite sort_Permutation. apply heapify_Permutation.
Qed.
End Spec.

(** ** Concrete queues *)

Definition ten_down : list nat := [9; 8; 7; 6; 5; 4; 3; 2; 1; 0].

Lemma nat_ltb_swo : StrictWeakOrder Nat.ltb.
Proof.
  split; intros *; rewrite ?Nat.ltb_lt, ?Nat.ltb_ge; lia.
Qed.


Lemma heapify_sort_sorts_witness :
  sort Nat.ltb (of_vector Nat.ltb ten_down false) = ten_down ∧
  sort Nat.ltb (of_vector Nat.ltb ten_down false) ≡ₚ ten_down.
Proof.
  split; [vm_compute; reflexivity|].
  apply (heapify_sort_sorts Nat.ltb (StrictWeakOrder0 := nat_ltb_swo) ten_down).
  vm_compute. reflexivity.
Defined.
