(* ===== verification/BloomFilter.v ===== *)
(** * The bloom filter

    [BloomFilter] of [src/common/vtl/bloom_filter.hpp]: a bit array in bytes, and for each
    value eight positions made from one hash. The hash is a parameter; its results are
    [size_t]. Reading past the array of positions or dividing by a size of zero has no
    meaning in C++ and is [None]. The constructor that takes an error rate computes the
    size and the number of hashes in floating point; the model starts from the two. *)
From Stdlib Require Import ZArith Lia.
From stdpp Require Import prelude gmap.
From S2P Require Import Prelude.

Local Open Scope Z_scope.

Section Bloom.

Context {T : Type} (hash : T → Z).

Record BloomFilter := mkBloomFilter {
  bf_bits : list Z;
  bf_size : Z;
  bf_num_hashes : nat;
  bf_count : Z;
}.

(** [BloomFilter(size, num_hashes)]. *)
Definition bloom_new (size : Z) (num_hashes : nat) : BloomFilter :=
  mkBloomFilter (replicate (Z.to_nat (u64 (size + 7) / 8)) 0) size num_hashes 0.

Definition compute_hashes (value : T) : list Z :=
  let h1 := u64 (hash value) in
  let h2 := Z.lxor (u64 (hash value)) 0x5bd1e9955bd1e995 in
  (λ i, u64 (h1 + Z.of_nat i * h2)) <$> seq 0 8.

Definition set_bit (bits : list Z) (index : Z) : list Z :=
  alter (λ b, Z.lor b (Z.shiftl 1 (index mod 8))) (Z.to_nat (index / 8)) bits.

Definition get_bit (bits : list Z) (index : Z) : bool :=
  match bits !! Z.to_nat (index / 8) with
  | Some b => negb (Z.land b (Z.shiftl 1 (index mod 8)) =? 0)
  | None => false
  end.

(** The position of hash [i]; [None] outside the array of eight and for an empty filter. *)
Definition position (f : BloomFilter) (hashes : list Z) (i : nat) : option Z :=
  if bf_size f =? 0 then None else h ← hashes !! i; Some (h mod bf_size f).

(** The loop of [contains] over hash [i] and the [n] after it. *)
Fixpoint all_set (f : BloomFilter) (hashes : list Z) (i n : nat) : option bool :=
  match n with
  | O => Some true
  | S n => p ← position f hashes i; if get_bit (bf_bits f) p then all_set f hashes (S i) n else Some false
  end.

Definition bloom_contains (value : T) (f : BloomFilter) : option bool := all_set f (compute_hashes value) 0 (bf_num_hashes f).

Fixpoint set_all (f : BloomFilter) (hashes : list Z) (i n : nat) (bits : list Z) : option (list Z) :=
  match n with
  | O => Some bits
  | S n => p ← position f hashes i; set_all f hashes (S i) n (set_bit bits p)
  end.

Definition bloom_force_insert (value : T) (f : BloomFilter) : option BloomFilter :=
  bits ← set_all f (compute_hashes value) 0 (bf_num_hashes f) (bf_bits f);
  Some (mkBloomFilter bits (bf_size f) (bf_num_hashes f) (u64 (bf_count f + 1))).

(** True when the value was certainly not in the filter. *)
Definition bloom_insert (value : T) (f : BloomFilter) : option (bool * BloomFilter) :=
  present ← all_set f (compute_hashes value) 0 (bf_num_hashes f);
  if (present : bool) then Some (false, f) else f ← bloom_force_insert value f; Some (true, f).

Definition bloom_clear (f : BloomFilter) : BloomFilter :=
  mkBloomFilter ((λ _, 0) <$> bf_bits f) (bf_size f) (bf_num_hashes f) 0.

(** ** Sequences of operations *)

Inductive bloom_op := BInsert (value : T) | BForceInsert (value : T) | BClear.

Definition bloom_step (f : BloomFilter) (op : bloom_op) : option BloomFilter :=
  match op with
  | BInsert value => '(_, f) ← bloom_insert value f; Some f
  | BForceInsert value => bloom_force_insert value f
  | BClear => Some (bloom_clear f)
  end.

Fixpoint bloom_run (f : BloomFilter) (ops : list bloom_op) : option BloomFilter :=
  match ops with
  | [] => Some f
  | op :: ops => f ← bloom_step f op; bloom_run f ops
  end.

(** The values inserted since the last [clear]. *)
Definition inserted (values : list T) (op : bloom_op) : list T :=
  match op with
  | BInsert value | BForceInsert value => value :: values
  | BClear => []
  end.

(** ** Bits *)

Lemma get_set_same bits p : 0 <= p → (Z.to_nat (p / 8) < length bits)%nat → get_bit (set_bit bits p) p = true.
Proof.
  intros Hp Hlen. unfold get_bit, set_bit. apply lookup_lt_is_Some in Hlen as [b Hb]. rewrite list_lookup_alter_eq, Hb. simpl.
  apply negb_true_iff, Z.eqb_neq. intros E. apply (f_equal (λ z, Z.testbit z (p mod 8))) in E.
  pose proof (Z.mod_pos_bound p 8 ltac:(lia)). rewrite Z.land_spec, Z.lor_spec, Z.shiftl_spec, Z.sub_diag, Z.bits_0 in E by lia. simpl in E.
  by rewrite orb_true_r in E.
Qed.

Lemma get_set_keeps bits p q : 0 <= q → get_bit bits p = true → get_bit (set_bit bits q) p = true.
Proof.
  intros Hq. unfold get_bit, set_bit. destruct (decide (Z.to_nat (q / 8) = Z.to_nat (p / 8))) as [->|Hne]; [|by rewrite list_lookup_alter_ne].
  rewrite list_lookup_alter_eq. destruct (bits !! Z.to_nat (p / 8)) as [b|]; [|done]. simpl. rewrite !negb_true_iff, !Z.eqb_neq.
  intros Hb E. apply Hb. rewrite Z.land_lor_distr_l in E. by apply Z.lor_eq_0_iff in E as [? _].
Qed.

Lemma length_set_bit bits p : length (set_bit bits p) = length bits.
Proof. apply length_alter. Qed.

(** ** The invariant *)

(** The array is as long as its size says, and no position leaves it. *)
Record bloom_ok (f : BloomFilter) : Prop := {
  bo_size : 0 < bf_size f;
  bo_hashes : (bf_num_hashes f ≤ 8)%nat;
  bo_bits : length (bf_bits f) = Z.to_nat ((bf_size f + 7) / 8);
}.

Lemma bloom_new_ok size n : 0 < size <= 2 ^ 64 - 8 → (n ≤ 8)%nat → bloom_ok (bloom_new size n).
Proof. intros Hs Hn. split; cbn [bloom_new bf_size bf_num_hashes bf_bits]; [lia|done|]. rewrite length_replicate. unfold u64. by rewrite Z.mod_small by lia. Qed.

Lemma position_some f hashes i : bloom_ok f → length hashes = 8%nat → (i < 8)%nat →
  ∃ p, position f hashes i = Some p ∧ 0 <= p < bf_size f.
Proof.
  intros [Hs _ _] Hl Hi. unfold position. rewrite (proj2 (Z.eqb_neq _ _)) by lia.
  destruct (lookup_lt_is_Some_2 hashes i ltac:(lia)) as [h ->]. simpl. eexists. split; [done|]. apply Z.mod_pos_bound. lia.
Qed.

Lemma position_in f p : bloom_ok f → 0 <= p < bf_size f → (Z.to_nat (p / 8) < Z.to_nat ((bf_size f + 7) / 8))%nat.
Proof. intros _ Hp. apply Z2Nat.inj_lt; [apply Z.div_pos; lia..|]. apply Z.div_lt_upper_bound; [lia|]. pose proof (Z.mod_pos_bound (bf_size f + 7) 8 ltac:(lia)). pose proof (Z.div_mod (bf_size f + 7) 8 ltac:(lia)). lia. Qed.

Lemma length_compute_hashes value : length (compute_hashes value) = 8%nat.
Proof. unfold compute_hashes. by rewrite length_fmap, length_seq. Qed.

Lemma all_set_iff f hashes : bloom_ok f → length hashes = 8%nat → ∀ n i, (i + n ≤ 8)%nat →
  ∃ b, all_set f hashes i n = Some b ∧
    (b = true ↔ ∀ j p, (i ≤ j < i + n)%nat → position f hashes j = Some p → get_bit (bf_bits f) p = true).
Proof.
  intros Hok Hl n. induction n as [|n IH]; intros i Hi; cbn [all_set]; [exists true; split; [done|]; split; [lia|done]|].
  destruct (position_some f hashes i Hok Hl ltac:(lia)) as (p & Hp & _). rewrite Hp. simpl. destruct (get_bit (bf_bits f) p) eqn:E.
  - destruct (IH (S i) ltac:(lia)) as (b & -> & Hb). exists b. split; [done|]. rewrite Hb. split.
    + intros H j q Hj Hq. destruct (decide (j = i)) as [->|]; [congruence|]. apply (H j); [lia|done].
    + intros H j q Hj. apply H. lia.
  - exists false. split; [done|]. split; [done|]. intros H. rewrite (H i p) in E; [done|lia|done].
Qed.

Lemma set_all_sets f hashes : bloom_ok f → length hashes = 8%nat → ∀ n i bits, (i + n ≤ 8)%nat → length bits = length (bf_bits f) →
  ∃ bits', set_all f hashes i n bits = Some bits' ∧ length bits' = length (bf_bits f) ∧
    (∀ p, get_bit bits p = true → get_bit bits' p = true) ∧
    ∀ j p, (i ≤ j < i + n)%nat → position f hashes j = Some p → get_bit bits' p = true.
Proof.
  intros Hok Hl n. induction n as [|n IH]; intros i bits Hi Hlen; cbn [set_all]; [exists bits; split_and!; [done|done|done|lia]|].
  destruct (position_some f hashes i Hok Hl ltac:(lia)) as (p & Hp & Hrange). rewrite Hp. simpl.
  destruct (IH (S i) (set_bit bits p)) as (bits' & -> & Hlen' & Hkeep & Hset); [lia|by rewrite length_set_bit|].
  exists bits'. split_and!; [done|done|intros q Hq; apply Hkeep, get_set_keeps; [lia|done]|].
  intros j q Hj Hq. destruct (decide (j = i)) as [->|]; [|apply (Hset j); [lia|done]]. rewrite Hp in Hq. injection Hq as <-.
  apply Hkeep, get_set_same; [lia|]. rewrite Hlen, (bo_bits _ Hok). by apply position_in.
Qed.

(** Every value of the list is found. *)
Definition holds_all (f : BloomFilter) (values : list T) : Prop := ∀ v, v ∈ values → bloom_contains v f = Some true.

Lemma contains_iff value f : bloom_ok f → bloom_contains value f = Some true ↔
  ∀ j p, (j < bf_num_hashes f)%nat → position f (compute_hashes value) j = Some p → get_bit (bf_bits f) p = true.
Proof.
  intros Hok. unfold bloom_contains. destruct (all_set_iff f (compute_hashes value) Hok (length_compute_hashes value) (bf_num_hashes f) 0) as (b & -> & Hb).
  { pose proof (bo_hashes _ Hok). lia. }
  split.
  - intros [= ->] j p Hj. apply (proj1 Hb eq_refl). lia.
  - intros H. f_equal. apply Hb. intros j p Hj. apply H. lia.
Qed.

Lemma force_insert_ok value f values : bloom_ok f → holds_all f values →
  ∃ f', bloom_force_insert value f = Some f' ∧ bloom_ok f' ∧ bf_size f' = bf_size f ∧ bf_num_hashes f' = bf_num_hashes f ∧ holds_all f' (value :: values).
Proof.
  intros Hok Hall. unfold bloom_force_insert.
  destruct (set_all_sets f (compute_hashes value) Hok (length_compute_hashes value) (bf_num_hashes f) 0 (bf_bits f)) as (bits & -> & Hlen & Hkeep & Hset); [pose proof (bo_hashes _ Hok); lia|done|].
  simpl. eexists. split; [done|]. set (f' := mkBloomFilter bits _ _ _). assert (Hok' : bloom_ok f').
  { destruct Hok as [Hs Hn Hb]. split; simpl; [done|done|congruence]. }
  split_and!; [done|done|done|]. intros v [->|Hv]%elem_of_cons; apply contains_iff; [done| |done|].
  - intros j p Hj Hp. apply (Hset j p); [simpl in Hj; lia|exact Hp].
  - intros j p Hj Hp. apply Hkeep. eapply contains_iff; [done|by apply Hall|exact Hj|exact Hp].
Qed.

Lemma bloom_step_ok op f values : bloom_ok f → holds_all f values →
  ∃ f', bloom_step f op = Some f' ∧ bloom_ok f' ∧ holds_all f' (inserted values op).
Proof.
  intros Hok Hall. destruct op as [value|value|]; cbn [bloom_step inserted].
  - unfold bloom_insert. destruct (all_set_iff f (compute_hashes value) Hok (length_compute_hashes value) (bf_num_hashes f) 0) as (b & Hb & _); [pose proof (bo_hashes _ Hok); lia|].
    rewrite Hb. destruct b; simpl.
    + exists f. split_and!; [done|done|]. intros v [->|Hv]%elem_of_cons; [exact Hb|by apply Hall].
    + destruct (force_insert_ok value f values Hok Hall) as (f' & -> & Hok' & _ & _ & Hall'). simpl. eauto.
  - destruct (force_insert_ok value f values Hok Hall) as (f' & -> & Hok' & _ & _ & Hall'). eauto.
  - eexists. split; [done|]. split; [|intros v []%not_elem_of_nil]. destruct Hok as [Hs Hn Hb]. split; simpl; [done|done|by rewrite length_fmap].
Qed.

(** C31: the filter has no false negatives. With at most eight hash functions and a size
    that is not zero (nor so large that rounding up to bytes wraps around), every sequence of [insert], [force_insert] and [clear] on a new
    filter stays inside its arrays, and afterwards [contains] answers true for every value
    inserted since the last [clear], also for one that [insert] skipped. *)
Theorem bloom_no_false_negatives size num_hashes ops : 0 < size <= 2 ^ 64 - 8 → (num_hashes ≤ 8)%nat →
  ∃ f, bloom_run (bloom_new size num_hashes) ops = Some f ∧ ∀ v, v ∈ foldl inserted [] ops → bloom_contains v f = Some true.
Proof.
  intros Hs Hn. assert (Hrun : ∀ ops f values, bloom_ok f → holds_all f values → ∃ f', bloom_run f ops = Some f' ∧ holds_all f' (foldl inserted values ops)).
  { clear ops. induction ops as [|op ops IH]; intros f values Hok Hall; [by exists f|]. cbn [bloom_run foldl].
    destruct (bloom_step_ok op f values Hok Hall) as (f1 & -> & Hok1 & Hall1). simpl. by apply IH. }
  destruct (Hrun ops (bloom_new size num_hashes) [] (bloom_new_ok _ _ Hs Hn)) as (f & Hf & Hall); [by intros v ?%not_elem_of_nil|]. by exists f.
Qed.

(** More than eight hash functions read past the array of positions. *)
Lemma bloom_nine_hashes size value : 0 < size → bloom_force_insert value (bloom_new size 9) = None.
Proof.
  intros Hs. unfold bloom_force_insert. simpl bf_num_hashes. simpl bf_bits.
  assert (Hpos : ∀ i, (i < 8)%nat → ∃ p, position (bloom_new size 9) (compute_hashes value) i = Some p).
  { intros i Hi. unfold position. simpl. rewrite (proj2 (Z.eqb_neq _ _)) by lia.
    destruct (lookup_lt_is_Some_2 (compute_hashes value) i) as [h ->]; [by rewrite length_compute_hashes|]. simpl. eauto. }
  cbn [set_all]. do 8 (match goal with |- context [position _ _ ?i] => destruct (Hpos i ltac:(lia)) as [? ->] end; simpl; cbn [set_all]).
  unfold position. simpl bf_size. rewrite (proj2 (Z.eqb_neq _ _)) by lia. by rewrite lookup_ge_None_2 by (rewrite length_compute_hashes; lia).
Qed.

End Bloom.

(** Three insertions and a clear in the middle. *)
Lemma bloom_no_false_negatives_witness :
  ∃ f, bloom_run (λ z : Z, z) (bloom_new 64 3) [BInsert 5; BClear; BForceInsert 77; BInsert 77; BInsert (-1)] = Some f ∧
    ∀ v, v ∈ [-1; 77; 77] → bloom_contains (λ z : Z, z) v f = Some true.
Proof. exact (bloom_no_false_negatives (λ z : Z, z) 64 3 [BInsert 5; BClear; BForceInsert 77; BInsert 77; BInsert (-1)] ltac:(lia) ltac:(lia)). Defined.
