(* ===== verification/DlList.v ===== *)
(** * The doubly linked list

    [DLList] of [src/common/vtl/list.hpp], cell by cell: a heap of cells, the head and tail
    pointers, and every member function as the reads and writes it makes. A pointer is an
    address or null; an address is not used again after its cell is freed, and a read,
    write or free of null or of a freed cell is [None]. The memory context and the copies
    of the element type are left out. *)
From Stdlib Require Import ZArith Lia.
From stdpp Require Import prelude gmap.
From S2P Require Import Prelude.

(** ** Lists without repeated keys *)

Lemma filter_middle {A B} `{EqDecision B} (f : A → B) (x : A) (l1 l2 : list A) : NoDup (f <$> l1 ++ x :: l2) → filter (λ y, f y ≠ f x) (l1 ++ x :: l2) = l1 ++ l2.
Proof.
  intros Hnd. rewrite fmap_app, fmap_cons, NoDup_app, NoDup_cons in Hnd. destruct Hnd as (_ & H1 & H2 & _).
  assert (Hkeep : ∀ l : list A, f x ∉ f <$> l → filter (λ y, f y ≠ f x) l = l).
  { induction l as [|y l IH]; intros Hx; [done|]. rewrite fmap_cons, not_elem_of_cons in Hx. destruct Hx as [Hy Hx]. rewrite filter_cons_True by congruence. by rewrite IH. }
  rewrite filter_app, filter_cons_False by (intros []; done). rewrite !Hkeep; [done|done|]. intros Hx. apply (H1 _ Hx). left.
Qed.

Lemma filter_absent {A B} `{EqDecision B} (f : A → B) (b : B) (l : list A) : b ∉ f <$> l → filter (λ y, f y ≠ b) l = l.
Proof.
  induction l as [|y l IH]; intros Hb; [done|]. rewrite fmap_cons, not_elem_of_cons in Hb. destruct Hb as [Hy Hb]. rewrite filter_cons_True by congruence. by rewrite IH.
Qed.

Lemma find_middle {A B} `{EqDecision B} (f : A → B) (x : A) (l1 l2 : list A) : NoDup (f <$> l1 ++ x :: l2) →
  (list_find (λ y, f y = f x) (l1 ++ x :: l2) ≫= λ y, Some y.2) = Some x.
Proof.
  intros Hnd. rewrite fmap_app, fmap_cons, NoDup_app, NoDup_cons in Hnd. destruct Hnd as (_ & H1 & _).
  rewrite list_find_app_r; [simpl; by rewrite decide_True by done|]. apply list_find_None, Forall_forall. intros y Hy E.
  apply (H1 (f y)); [by apply list_elem_of_fmap_2|]. rewrite E. left.
Qed.
Lemma find_absent {A B} `{EqDecision B} (f : A → B) (b : B) (l : list A) : b ∉ f <$> l → list_find (λ y, f y = b) l = None.
Proof. intros Hb. apply list_find_None, Forall_forall. intros y Hy E. apply Hb. rewrite <- E. by apply list_elem_of_fmap_2. Qed.

Section List.

Context {A : Type}.

Record DLListCell := mkDLListCell { cl_data : A; cl_prev : option nat; cl_next : option nat }.

Record DLList := mkDLList {
  dl_heap : gmap nat DLListCell;
  dl_head : option nat;
  dl_tail : option nat;
  dl_fresh : nat;
}.

Definition dl_new : DLList := mkDLList ∅ None None 0.

(** ** Reads and writes through a pointer *)

Definition deref (p : option nat) (h : gmap nat DLListCell) : option DLListCell := a ← p; h !! a.
Definition write (f : DLListCell → DLListCell) (p : option nat) (h : gmap nat DLListCell) : option (gmap nat DLListCell) :=
  a ← p; c ← h !! a; Some (<[a := f c]> h).
Definition write_next (p n : option nat) : gmap nat DLListCell → option (gmap nat DLListCell) :=
  write (λ c, mkDLListCell (cl_data c) (cl_prev c) n) p.
Definition write_prev (p n : option nat) : gmap nat DLListCell → option (gmap nat DLListCell) :=
  write (λ c, mkDLListCell (cl_data c) n (cl_next c)) p.
Definition free_cell (p : option nat) (h : gmap nat DLListCell) : option (gmap nat DLListCell) :=
  a ← p; c ← h !! a; Some (delete a h).

(** ** The member functions *)

Definition alloc_new_cell (x : A) (d : DLList) : nat * gmap nat DLListCell :=
  (dl_fresh d, <[dl_fresh d := mkDLListCell x None None]> (dl_heap d)).

Definition dl_push_back (x : A) (d : DLList) : option (nat * DLList) :=
  let '(cell, h) := alloc_new_cell x d in
  if dl_head d is None then Some (cell, mkDLList h (Some cell) (Some cell) (S (dl_fresh d)))
  else
    h ← write_next (dl_tail d) (Some cell) h;
    h ← write_prev (Some cell) (dl_tail d) h;
    Some (cell, mkDLList h (dl_head d) (Some cell) (S (dl_fresh d))).

Definition dl_push_front (x : A) (d : DLList) : option (nat * DLList) :=
  let '(cell, h) := alloc_new_cell x d in
  if dl_head d is None then Some (cell, mkDLList h (Some cell) (Some cell) (S (dl_fresh d)))
  else
    h ← write_next (Some cell) (dl_head d) h;
    h ← write_prev (dl_head d) (Some cell) h;
    Some (cell, mkDLList h (Some cell) (dl_tail d) (S (dl_fresh d))).

Definition dl_pop_back (d : DLList) : option DLList :=
  if dl_head d is None then Some d
  else if decide (dl_head d = dl_tail d) then
    h ← free_cell (dl_head d) (dl_heap d);
    Some (mkDLList h None None (dl_fresh d))
  else
    c ← deref (dl_tail d) (dl_heap d);
    h ← free_cell (dl_tail d) (dl_heap d);
    h ← write_next (cl_prev c) None h;
    Some (mkDLList h (dl_head d) (cl_prev c) (dl_fresh d)).

Definition dl_pop_front (d : DLList) : option DLList :=
  if dl_head d is None then Some d
  else if decide (dl_head d = dl_tail d) then
    h ← free_cell (dl_head d) (dl_heap d);
    Some (mkDLList h None None (dl_fresh d))
  else
    c ← deref (dl_head d) (dl_heap d);
    h ← free_cell (dl_head d) (dl_heap d);
    h ← write_prev (cl_next c) None h;
    Some (mkDLList h (cl_next c) (dl_tail d) (dl_fresh d)).

Definition dl_erase (cell : nat) (d : DLList) : option DLList :=
  if decide (Some cell = dl_head d) then
    c ← deref (dl_head d) (dl_heap d);
    h ← free_cell (Some cell) (dl_heap d);
    Some (mkDLList h (cl_next c) (dl_tail d) (dl_fresh d))
  else if decide (Some cell = dl_tail d) then
    c ← deref (dl_tail d) (dl_heap d);
    h ← free_cell (Some cell) (dl_heap d);
    Some (mkDLList h (dl_head d) (cl_prev c) (dl_fresh d))
  else
    c ← deref (Some cell) (dl_heap d);
    h ← write_next (cl_prev c) (cl_next c) (dl_heap d);
    c ← deref (Some cell) h;
    h ← write_prev (cl_next c) (cl_prev c) h;
    h ← free_cell (Some cell) h;
    Some (mkDLList h (dl_head d) (dl_tail d) (dl_fresh d)).

Definition dl_move_back (cell : nat) (d : DLList) : option DLList :=
  if decide (Some cell = dl_tail d) then Some d
  else if decide (Some cell = dl_head d) then
    c ← deref (dl_head d) (dl_heap d);
    h ← write_prev (cl_next c) None (dl_heap d);
    h ← write_next (dl_tail d) (Some cell) h;
    h ← write_prev (Some cell) (dl_tail d) h;
    h ← write_next (Some cell) None h;
    Some (mkDLList h (cl_next c) (Some cell) (dl_fresh d))
  else
    c ← deref (Some cell) (dl_heap d);
    h ← write_next (cl_prev c) (cl_next c) (dl_heap d);
    c ← deref (Some cell) h;
    h ← write_prev (cl_next c) (cl_prev c) h;
    h ← write_next (dl_tail d) (Some cell) h;
    h ← write_prev (Some cell) (dl_tail d) h;
    h ← write_next (Some cell) None h;
    Some (mkDLList h (dl_head d) (Some cell) (dl_fresh d)).

(** The data of a cell, [operator->] of an iterator. *)
Definition dl_data (cell : nat) (d : DLList) : option A := cl_data <$> deref (Some cell) (dl_heap d).

(** The loop of [size] from a cell on. A list in order passes each cell once, so one step
    per cell of the heap and one for the null at the end suffice. *)
Fixpoint count_from (fuel : nat) (cur : option nat) (h : gmap nat DLListCell) (cnt : nat) : option nat :=
  match cur with
  | None => Some cnt
  | Some _ =>
    match fuel with
    | O => None
    | S fuel => c ← deref cur h; count_from fuel (cl_next c) h (S cnt)
    end
  end.
Definition dl_size (d : DLList) : option nat := count_from (S (size (dl_heap d))) (dl_head d) (dl_heap d) 0.

(** The loop of [destroy]: [free_cell] deletes the cell and the loop deletes it again. *)
Fixpoint destroy_from (fuel : nat) (cur : option nat) (h : gmap nat DLListCell) : option (gmap nat DLListCell) :=
  match cur with
  | None => Some h
  | Some _ =>
    match fuel with
    | O => None
    | S fuel => c ← deref cur h; h ← free_cell cur h; h ← free_cell cur h; destroy_from fuel (cl_next c) h
    end
  end.
Definition dl_destroy (d : DLList) : option DLList :=
  h ← destroy_from (S (size (dl_heap d))) (dl_head d) (dl_heap d);
  Some (mkDLList h None None (dl_fresh d)).

(** ** Lists in memory *)

Implicit Types l : list (nat * A).

Definition first l (n : option nat) : option nat := match l with [] => n | (a, _) :: _ => Some a end.
Fixpoint final l (p : option nat) : option nat := match l with [] => p | (a, _) :: l => final l (Some a) end.

(** The cells of a list between two pointers. *)
Fixpoint cells (p : option nat) l (n : option nat) : gmap nat DLListCell :=
  match l with
  | [] => ∅
  | (a, x) :: l => <[a := mkDLListCell x p (first l n)]> (cells (Some a) l n)
  end.

Lemma first_app l1 l2 n : first (l1 ++ l2) n = first l1 (first l2 n).
Proof. by destruct l1 as [|[a x] l1]. Qed.
Lemma final_app l1 l2 p : final (l1 ++ l2) p = final l2 (final l1 p).
Proof. revert p. induction l1 as [|[a x] l1 IH]; intros p; simpl; auto. Qed.
Lemma final_any l p p' : l ≠ [] → final l p = final l p'.
Proof. by destruct l as [|[a x] l]. Qed.
Lemma final_last l p a x : final (l ++ [(a, x)]) p = Some a.
Proof. by rewrite final_app. Qed.
Lemma final_in l p : l ≠ [] → ∃ a, final l p = Some a ∧ a ∈ l.*1.
Proof.
  destruct l as [|[a x] l _] using rev_ind; [done|]. intros _. exists a. rewrite final_last. split; [done|]. rewrite fmap_app. set_solver.
Qed.

Lemma cells_app p l1 l2 n : cells p (l1 ++ l2) n = cells p l1 (first l2 n) ∪ cells (final l1 p) l2 n.
Proof.
  revert p. induction l1 as [|[a x] l1 IH]; intros p; simpl; [by rewrite (left_id_L ∅ (∪))|]. by rewrite IH, insert_union_l, first_app.
Qed.
Lemma cells_None p l n a : a ∉ l.*1 → cells p l n !! a = None.
Proof.
  revert p. induction l as [|[b x] l IH]; intros p Ha; simpl; [done|]. rewrite fmap_cons, not_elem_of_cons in Ha. destruct Ha as [Hab Ha].
  rewrite lookup_insert_ne by done. by apply IH.
Qed.
Lemma deref_cells p l n a : a ∉ l.*1 → deref (Some a) (cells p l n) = None.
Proof. apply cells_None. Qed.
Lemma cells_disjoint p l n p' l' n' : (∀ a, a ∈ l.*1 → a ∉ l'.*1) → cells p l n ##ₘ cells p' l' n'.
Proof.
  intros Hd. apply map_disjoint_spec. intros a c c' Hc Hc'. destruct (decide (a ∈ l.*1)) as [Hin|Hin].
  - rewrite (cells_None p' l' n' a) in Hc' by auto. done.
  - by rewrite (cells_None p l n a) in Hc.
Qed.
Lemma size_cells p l n : NoDup l.*1 → size (cells p l n) = length l.
Proof.
  revert p. induction l as [|[a x] l IH]; intros p; [intros _; apply map_size_empty|]. rewrite fmap_cons, NoDup_cons. intros [Ha Hl]. simpl.
  by rewrite map_size_insert_None, IH by (done || by apply cells_None).
Qed.

(** A write touches the piece that has its cell. *)
Lemma write_l f p (h1 h1' h2 : gmap nat DLListCell) : write f p h1 = Some h1' → write f p (h1 ∪ h2) = Some (h1' ∪ h2).
Proof.
  unfold write. destruct p as [a|]; simpl; [|done]. destruct (h1 !! a) as [c|] eqn:E; simpl; [|done]. intros [= <-].
  rewrite (lookup_union_Some_l _ _ _ _ E). simpl. by rewrite insert_union_l.
Qed.
Lemma write_r f p (h1 h2 h2' : gmap nat DLListCell) : deref p h1 = None → write f p h2 = Some h2' → write f p (h1 ∪ h2) = Some (h1 ∪ h2').
Proof.
  unfold write, deref. destruct p as [a|]; simpl; [|done]. intros E. rewrite lookup_union_r by done. destruct (h2 !! a); simpl; [|done]. intros [= <-].
  by rewrite insert_union_r.
Qed.
Lemma write_next_l p n (h1 h1' h2 : gmap nat DLListCell) : write_next p n h1 = Some h1' → write_next p n (h1 ∪ h2) = Some (h1' ∪ h2).
Proof. apply write_l. Qed.
Lemma write_next_r p n (h1 h2 h2' : gmap nat DLListCell) : deref p h1 = None → write_next p n h2 = Some h2' → write_next p n (h1 ∪ h2) = Some (h1 ∪ h2').
Proof. apply write_r. Qed.
Lemma write_prev_l p n (h1 h1' h2 : gmap nat DLListCell) : write_prev p n h1 = Some h1' → write_prev p n (h1 ∪ h2) = Some (h1' ∪ h2).
Proof. apply write_l. Qed.
Lemma write_prev_r p n (h1 h2 h2' : gmap nat DLListCell) : deref p h1 = None → write_prev p n h2 = Some h2' → write_prev p n (h1 ∪ h2) = Some (h1 ∪ h2').
Proof. apply write_r. Qed.
Lemma write_prev_first p p' l n : l ≠ [] → write_prev (first l None) p' (cells p l n) = Some (cells p' l n).
Proof. destruct l as [|[a x] l]; [done|]. intros _. unfold write_prev, write. simpl. rewrite lookup_insert_eq. simpl. by rewrite insert_insert_eq. Qed.
Lemma write_next_final p q l n n' : NoDup l.*1 → l ≠ [] → write_next (final l q) n' (cells p l n) = Some (cells p l n').
Proof.
  destruct l as [|[a x] l _] using rev_ind; [done|]. intros Hnd _. rewrite fmap_app, NoDup_app in Hnd. destruct Hnd as (_ & Hnd & _).
  rewrite final_last, !cells_app. apply write_r.
  - apply cells_None. intros Ha. apply (Hnd _ Ha). left.
  - unfold write_next, write. simpl. rewrite lookup_insert_eq. simpl. by rewrite insert_insert_eq.
Qed.
Lemma write_next_one p a x n n' : write_next (Some a) n' (cells p [(a, x)] n) = Some (cells p [(a, x)] n').
Proof. exact (write_next_final p None [(a, x)] n n' (NoDup_singleton _) ltac:(done)). Qed.
Lemma write_prev_one p p' a x n : write_prev (Some a) p' (cells p [(a, x)] n) = Some (cells p' [(a, x)] n).
Proof. exact (write_prev_first p p' [(a, x)] n ltac:(done)). Qed.
Lemma free_one p a x n (h : gmap nat DLListCell) : h !! a = None → free_cell (Some a) (cells p [(a, x)] n ∪ h) = Some h.
Proof.
  intros Ha. unfold free_cell. simpl. rewrite insert_empty, <- insert_union_singleton_l, lookup_insert_eq. simpl. by rewrite delete_insert_id.
Qed.

(** The list [l] of addresses and values is what is in memory: the cells are those of [l]
    and no others, linked in order; the back pointer of the first cell and the tail of an
    empty list are not read by any function and may be anything. *)
Record holds (d : DLList) l : Prop := {
  ho_heap : ∃ p, dl_heap d = cells p l None;
  ho_nodup : NoDup l.*1;
  ho_head : dl_head d = first l None;
  ho_tail : l ≠ [] → dl_tail d = final l None;
  ho_fresh : ∀ a, a ∈ l.*1 → a < dl_fresh d;
}.

Lemma dl_new_holds : holds dl_new [].
Proof. split; simpl; [by exists None|constructor|done|done|]. by intros a ?%not_elem_of_nil. Qed.

Ltac bound := cbn [mbind option_bind].

(** A cell added at the end of the pieces. *)
Lemma cells_insert p l n (c : DLListCell) a : a ∉ l.*1 → <[a := c]> (cells p l n) = cells p l n ∪ cells (cl_prev c) [(a, cl_data c)] (cl_next c).
Proof.
  intros Ha. rewrite map_union_comm by (apply cells_disjoint; intros b Hb ->%list_elem_of_singleton; done). simpl. rewrite insert_empty, <- insert_union_singleton_l.
  by destruct c.
Qed.

Lemma holds_app_fresh d l : holds d l → dl_fresh d ∉ l.*1.
Proof. intros Hd Ha. apply (ho_fresh _ _ Hd) in Ha. lia. Qed.
Lemma holds_some d l : holds d l → l ≠ [] → ∃ a, dl_head d = Some a.
Proof. intros Hd Hl. rewrite (ho_head _ _ Hd). destruct l as [|[a x] l]; [done|]. by exists a. Qed.

Lemma push_back_holds d l x : holds d l →
  ∃ d', dl_push_back x d = Some (dl_fresh d, d') ∧ holds d' (l ++ [(dl_fresh d, x)]) ∧ dl_fresh d' = S (dl_fresh d).
Proof.
  intros Hd. pose proof (holds_app_fresh _ _ Hd) as Hf. pose proof (holds_some _ _ Hd) as Hs. destruct Hd as [[p Hh] Hnd Hhd Htl Hfr].
  unfold dl_push_back, alloc_new_cell. rewrite Hh, cells_insert by done. cbn [cl_prev cl_data cl_next].
  assert (Hnd' : NoDup (l ++ [(dl_fresh d, x)]).*1). { rewrite fmap_app. apply NoDup_app. split_and!; [done| |apply NoDup_singleton]. by intros a Ha ->%list_elem_of_singleton. }
  assert (Hfr' : ∀ a, a ∈ (l ++ [(dl_fresh d, x)]).*1 → a < S (dl_fresh d)).
  { intros a. rewrite fmap_app, elem_of_app. intros [Ha%Hfr| ->%list_elem_of_singleton]; simpl; lia. }
  destruct (decide (l = [])) as [->|Hl].
  - rewrite Hhd. simpl first. cbv iota. eexists. split; [done|]. split; [|done]. split; [exists None|..]; simpl; auto. by rewrite (left_id_L ∅ (∪)).
  - destruct (Hs Hl) as [a Ha]. rewrite Ha. cbv iota. rewrite (Htl Hl). rewrite (write_next_l _ _ _ _ _ (write_next_final p None l None (Some (dl_fresh d)) Hnd Hl)). bound.
    rewrite (write_prev_r _ _ _ _ _ (deref_cells p l _ _ Hf) (write_prev_one None _ (dl_fresh d) x None)). bound. eexists. split; [done|]. split; [|done]. split; simpl; auto.
    + exists p. rewrite cells_app. simpl first. by rewrite (final_any l p None).
    + rewrite <- Ha, Hhd. by destruct l as [|[b y] l].
    + intros _. by rewrite final_last.
Qed.

Lemma push_front_holds d l x : holds d l →
  ∃ d', dl_push_front x d = Some (dl_fresh d, d') ∧ holds d' ((dl_fresh d, x) :: l) ∧ dl_fresh d' = S (dl_fresh d).
Proof.
  intros Hd. pose proof (holds_app_fresh _ _ Hd) as Hf. pose proof (holds_some _ _ Hd) as Hs. destruct Hd as [[p Hh] Hnd Hhd Htl Hfr].
  unfold dl_push_front, alloc_new_cell. rewrite Hh.
  assert (Hfr' : ∀ a, a ∈ ((dl_fresh d, x) :: l).*1 → a < S (dl_fresh d)). { intros a. rewrite fmap_cons, elem_of_cons. intros [->|Ha%Hfr]; simpl; lia. }
  assert (Hnd' : NoDup ((dl_fresh d, x) :: l).*1) by by apply NoDup_cons.
  assert (Hnew : ∀ a, dl_head d = Some a → a ≠ dl_fresh d). { intros a. rewrite Hhd. destruct l as [|[b y] l]; [done|]. intros [= ->] ->. apply Hf. left. }
  destruct (decide (l = [])) as [->|Hl].
  - rewrite Hhd. simpl first. cbv iota. eexists. split; [done|]. split; [|done]. split; simpl; auto. by exists None.
  - destruct (Hs Hl) as [a Ha]. rewrite Ha. cbv iota. rewrite insert_union_singleton_l, <- (insert_empty (M := gmap nat)). change (<[dl_fresh d := _]> ∅) with (cells None [(dl_fresh d, x)] None).
    rewrite (write_next_l _ _ _ _ _ (write_next_one None (dl_fresh d) x None (Some a))). bound.
    pose proof (write_prev_first p (Some (dl_fresh d)) l None Hl) as W. rewrite <- Hhd, Ha in W.
    rewrite (write_prev_r _ _ _ _ _ (deref_cells None [(dl_fresh d, x)] _ a ltac:(intros E%list_elem_of_singleton; by destruct (Hnew a Ha))) W). bound.
    eexists. split; [done|]. split; [|done]. split; simpl; auto.
    + exists None. rewrite <- Hhd, Ha. by rewrite insert_empty, <- insert_union_singleton_l.
    + intros _. rewrite (Htl Hl). by apply final_any.
Qed.

(** ** A cell in the middle of a list *)

Lemma cells_split p l1 a x l2 n :
  cells p (l1 ++ (a, x) :: l2) n = cells p l1 (Some a) ∪ (cells (final l1 p) [(a, x)] (first l2 n) ∪ cells (Some a) l2 n).
Proof. rewrite cells_app. simpl first. by rewrite (cells_app _ [(a, x)] l2). Qed.
Lemma cells_head p a x l n : cells p ([] ++ (a, x) :: l) n = cells p [(a, x)] (first l n) ∪ cells (Some a) l n.
Proof. exact (cells_app p [(a, x)] l n). Qed.
Lemma cells_join p l1 a x l2 n q m : NoDup (l1 ++ (a, x) :: l2).*1 →
  cells p l1 (first l2 m) ∪ (cells q [(a, x)] n ∪ cells (final l1 p) l2 m) = cells q [(a, x)] n ∪ cells p (l1 ++ l2) m.
Proof.
  intros Hnd. rewrite cells_app, !(assoc_L (∪)). f_equal. apply map_union_comm, cells_disjoint. rewrite fmap_app, NoDup_app in Hnd.
  intros b Hb ->%list_elem_of_singleton. apply (proj1 (proj2 Hnd) _ Hb). left.
Qed.

(** What a place in a list gives: the cell, and where the others are. *)
Record place l1 a x l2 : Prop := {
  pl_before : a ∉ l1.*1;
  pl_after : a ∉ l2.*1;
  pl_nodup1 : NoDup l1.*1;
  pl_nodup2 : NoDup l2.*1;
  pl_apart : ∀ b, b ∈ l1.*1 → b ∉ l2.*1;
  pl_head : Some a = first (l1 ++ (a, x) :: l2) None ↔ l1 = [];
  pl_tail : Some a = final (l1 ++ (a, x) :: l2) None ↔ l2 = [];
}.
Lemma split_place l1 a x l2 : NoDup (l1 ++ (a, x) :: l2).*1 → place l1 a x l2.
Proof.
  rewrite fmap_app, NoDup_app, fmap_cons, NoDup_cons. intros (H1 & Hd & Ha & H2). simpl in *.
  assert (Hb : a ∉ l1.*1) by (intros Hin; apply (Hd _ Hin); left). split; auto.
  - intros b Hb1 Hb2. apply (Hd _ Hb1). by right.
  - destruct l1 as [|[b y] l1]; [done|]. simpl. split; [|done]. intros [= ->]. destruct Hb. left.
  - rewrite final_app. simpl. split; [|by intros ->]. intros E. destruct l2 as [|c l2]; [done|]. destruct (final_in (c :: l2) (Some a)) as (b & Eb & Hin); [done|]. congruence.
Qed.

Lemma place_deref p l1 a x l2 : place l1 a x l2 →
  deref (Some a) (cells p (l1 ++ (a, x) :: l2) None) = Some (mkDLListCell x (final l1 p) (first l2 None)).
Proof.
  intros Hp. rewrite cells_split. simpl. rewrite lookup_union_r by (apply cells_None, (pl_before _ _ _ _ Hp)). rewrite insert_empty. apply lookup_union_Some_l, lookup_singleton_eq.
Qed.

(** The list without the cell. *)
Lemma holds_without d l1 a x l2 (h : gmap nat DLListCell) hd tl : holds d (l1 ++ (a, x) :: l2) → (∃ p, h = cells p (l1 ++ l2) None) →
  hd = first (l1 ++ l2) None → (l1 ++ l2 ≠ [] → tl = final (l1 ++ l2) None) → holds (mkDLList h hd tl (dl_fresh d)) (l1 ++ l2).
Proof.
  intros [_ Hnd _ _ Hfr] Hh Hhd Htl. split; simpl; auto.
  - apply split_place in Hnd as [? ? ? ? ? _ _]. rewrite fmap_app. by apply NoDup_app.
  - intros b Hb. apply Hfr. rewrite fmap_app, elem_of_app in Hb. rewrite fmap_app, elem_of_app, fmap_cons, elem_of_cons. tauto.
Qed.

(** The first writes of [erase] and [move_back]: the neighbours of a cell skip it. *)
Lemma unlink p l1 a x l2 : place l1 a x l2 → l1 ≠ [] → l2 ≠ [] →
  ∃ h1, write_next (final l1 p) (first l2 None) (cells p (l1 ++ (a, x) :: l2) None) = Some h1 ∧
    deref (Some a) h1 = Some (mkDLListCell x (final l1 p) (first l2 None)) ∧
    write_prev (first l2 None) (final l1 p) h1 =
      Some (cells p l1 (first l2 None) ∪ (cells (final l1 p) [(a, x)] (first l2 None) ∪ cells (final l1 p) l2 None)).
Proof.
  intros [Hb Ha H1 H2 Hd _ _] Hl1 Hl2. rewrite cells_split. eexists. split.
  { apply write_next_l, write_next_final; done. } split.
  { simpl. rewrite lookup_union_r by (by apply cells_None). rewrite insert_empty. apply lookup_union_Some_l, lookup_singleton_eq. }
  destruct l2 as [|[c z] l2]; [done|]. simpl first. apply write_prev_r; [apply deref_cells; intros Hc; apply (Hd _ Hc); left|].
  apply write_prev_r; [apply deref_cells; intros ->%list_elem_of_singleton; apply Ha; left|]. by apply (write_prev_first _ _ ((c, z) :: l2)).
Qed.

(** The last writes of [move_back]: the cell goes behind the tail. *)
Lemma relink p l1 a x l2 q n : place l1 a x l2 → l2 ≠ [] →
  ∃ h1 h2, write_next (final l2 None) (Some a) (cells p l1 (first l2 None) ∪ (cells q [(a, x)] n ∪ cells (final l1 p) l2 None)) = Some h1 ∧
    write_prev (Some a) (final l2 None) h1 = Some h2 ∧ write_next (Some a) None h2 = Some (cells p ((l1 ++ l2) ++ [(a, x)]) None).
Proof.
  intros Hp Hl2. pose proof Hp as [Hb Ha H1 H2 Hd _ _]. destruct (final_in l2 None Hl2) as (t & Et & Ht). do 2 eexists. split_and!.
  - rewrite Et. apply write_next_r; [apply deref_cells; intros Hin; by apply (Hd _ Hin)|].
    apply write_next_r; [by apply deref_cells; intros ->%list_elem_of_singleton|]. rewrite <- Et. by apply write_next_final.
  - apply write_prev_r; [by apply deref_cells|]. apply write_prev_l, write_prev_one.
  - rewrite (write_next_r _ _ _ _ _ (deref_cells _ _ _ _ Hb) (write_next_l _ _ _ _ _ (write_next_one _ a x _ None))). f_equal.
    replace (first l2 None) with (first l2 (Some a)) by (by destruct l2 as [|[c z] l2]).
    rewrite cells_join; [|rewrite fmap_app, fmap_cons; apply NoDup_app; split_and!; [done|..]].
    + rewrite (cells_app p (l1 ++ l2)), final_app, (final_any l2 (final l1 p) None) by done. apply map_union_comm, cells_disjoint.
      intros b ->%list_elem_of_singleton. rewrite fmap_app, elem_of_app. tauto.
    + intros b Hb1 [->|Hb2]%elem_of_cons; [done|]. by apply (Hd b).
    + by apply NoDup_cons.
Qed.

Lemma relink_head a x l q n : place [] a x l → l ≠ [] →
  ∃ h1 h2, write_next (final l None) (Some a) (cells q [(a, x)] n ∪ cells None l None) = Some h1 ∧
    write_prev (Some a) (final l None) h1 = Some h2 ∧ write_next (Some a) None h2 = Some (cells None (l ++ [(a, x)]) None).
Proof. intros Hp Hl. rewrite <- (left_id_L ∅ (∪) (_ ∪ cells None l None)). exact (relink None [] a x l q n Hp Hl). Qed.

(** ** What the functions do to a list *)

Lemma holds_moved d l1 a x l2 (h : gmap nat DLListCell) hd : holds d (l1 ++ (a, x) :: l2) → (∃ p, h = cells p ((l1 ++ l2) ++ [(a, x)]) None) →
  hd = first ((l1 ++ l2) ++ [(a, x)]) None → holds (mkDLList h hd (Some a) (dl_fresh d)) ((l1 ++ l2) ++ [(a, x)]).
Proof.
  intros [_ Hnd _ _ Hfr] Hh Hhd. assert (P : (l1 ++ l2) ++ [(a, x)] ≡ₚ l1 ++ (a, x) :: l2) by (rewrite <- (Permutation_middle l1 l2); symmetry; apply Permutation_cons_append).
  split; simpl; auto.
  - by rewrite P.
  - intros _. by rewrite final_last.
  - intros b. rewrite P. apply Hfr.
Qed.

Lemma move_back_holds d l1 a x l2 : holds d (l1 ++ (a, x) :: l2) →
  ∃ d', dl_move_back a d = Some d' ∧ holds d' ((l1 ++ l2) ++ [(a, x)]) ∧ dl_fresh d' = dl_fresh d.
Proof.
  intros Hd. pose proof (split_place _ _ _ _ (ho_nodup _ _ Hd)) as Hp. pose proof (ho_head _ _ Hd) as Hhd.
  pose proof (ho_tail _ _ Hd ltac:(by destruct l1)) as Htl. destruct (ho_heap _ _ Hd) as [p Hh]. unfold dl_move_back. rewrite Hh, Hhd, Htl.
  destruct (decide (Some a = final _ None)) as [E|E]; rewrite (pl_tail _ _ _ _ Hp) in E.
  { subst l2. exists d. split_and!; [done| |done]. by rewrite app_nil_r. }
  replace (final (l1 ++ (a, x) :: l2) None) with (final l2 None) by (rewrite final_app; simpl; by apply final_any).
  destruct (decide (Some a = first _ None)) as [E'|E']; rewrite (pl_head _ _ _ _ Hp) in E'.
  - subst l1. change (first ([] ++ (a, x) :: l2) None) with (Some a). rewrite (place_deref p [] a x l2 Hp). bound. cbn [cl_next].
    rewrite (cells_head p a x l2).
    destruct l2 as [|[c z] l2]; [done|].
    rewrite (write_prev_r _ None _ _ _ (deref_cells p [(a, x)] _ c ltac:(intros ->%list_elem_of_singleton; by destruct (pl_after _ _ _ _ Hp); left)) (write_prev_first (Some a) None ((c, z) :: l2) None E)). bound.
    destruct (relink_head a x ((c, z) :: l2) p (first ((c, z) :: l2) None) Hp E) as (h1 & h2 & W1 & W2 & W3).
    rewrite W1. bound. rewrite W2. bound. rewrite W3. bound.
    eexists. split_and!; [done| |done]. apply (holds_moved d [] a x); [done|by eexists|done].
  - rewrite (place_deref p l1 a x l2 Hp). bound. cbn [cl_next cl_prev]. destruct (unlink p l1 a x l2 Hp E' E) as (h1 & W1 & D1 & W2).
    rewrite W1. bound. rewrite D1. bound. cbn [cl_next cl_prev]. rewrite W2. bound.
    destruct (relink p l1 a x l2 (final l1 p) (first l2 None) Hp E) as (h2 & h3 & W3 & W4 & W5). rewrite W3. bound. rewrite W4. bound. rewrite W5. bound.
    eexists. split_and!; [done| |done]. apply (holds_moved d l1 a x l2); [done|by eexists|]. by destruct l1 as [|[b y] l1].
Qed.

Lemma free_split p l1 a x l2 (h : gmap nat DLListCell) : place l1 a x l2 → h = cells p l1 (first l2 None) ∪ (cells (final l1 p) [(a, x)] (first l2 None) ∪ cells (final l1 p) l2 None) →
  free_cell (Some a) h = Some (cells p (l1 ++ l2) None).
Proof.
  intros [Hb Ha H1 H2 Hd _ _] ->. rewrite cells_join.
  - apply free_one, cells_None. rewrite fmap_app, elem_of_app. tauto.
  - rewrite fmap_app, fmap_cons, NoDup_app, NoDup_cons. split_and!; auto. intros b Hb1 [->|Hb2]%elem_of_cons; [done|]. by apply (Hd b).
Qed.

Lemma erase_holds d l1 a x l2 : holds d (l1 ++ (a, x) :: l2) → l1 = [] ∨ l2 ≠ [] →
  ∃ d', dl_erase a d = Some d' ∧ holds d' (l1 ++ l2) ∧ dl_fresh d' = dl_fresh d.
Proof.
  intros Hd Hor. pose proof (split_place _ _ _ _ (ho_nodup _ _ Hd)) as Hp. pose proof (ho_head _ _ Hd) as Hhd.
  pose proof (ho_tail _ _ Hd ltac:(by destruct l1)) as Htl. destruct (ho_heap _ _ Hd) as [p Hh]. unfold dl_erase. rewrite Hh, Hhd, Htl.
  destruct (decide (Some a = first _ None)) as [E|E]; rewrite (pl_head _ _ _ _ Hp) in E.
  - subst l1. change (first ([] ++ (a, x) :: l2) None) with (Some a). rewrite (place_deref p [] a x l2 Hp). bound. cbn [cl_next].
    rewrite (cells_head p a x l2). rewrite (free_one p a x) by (by apply cells_None, (pl_after _ _ _ _ Hp)). bound.
    eexists. split_and!; [done| |done]. apply (holds_without d [] a x); [done|by eexists|done|]. intros Hl2. simpl. by apply final_any.
  - destruct Hor as [->|Hl2]; [done|]. destruct (decide (Some a = final _ None)) as [E'|_]; [by rewrite (pl_tail _ _ _ _ Hp) in E'|].
    rewrite (place_deref p l1 a x l2 Hp). bound. cbn [cl_next cl_prev]. destruct (unlink p l1 a x l2 Hp E Hl2) as (h1 & W1 & D1 & W2).
    rewrite W1. bound. rewrite D1. bound. cbn [cl_next cl_prev]. rewrite W2. bound. rewrite (free_split p l1 a x l2 _ Hp eq_refl). bound.
    eexists. split_and!; [done| |done]. apply (holds_without d l1 a x l2); [done|by eexists| |].
    + by destruct l1 as [|[b y] l1].
    + intros _. rewrite !final_app. simpl. by apply final_any.
Qed.

Lemma nodup_one d l a x : holds d (l ++ [(a, x)]) → dl_head d = dl_tail d ↔ l = [].
Proof.
  intros Hd. pose proof (split_place _ _ _ _ (ho_nodup _ _ Hd)) as Hp. rewrite <- (pl_head _ _ _ _ Hp), (ho_head _ _ Hd), (ho_tail _ _ Hd), final_last by (by destruct l). done.
Qed.

Lemma pop_back_holds d l a x : holds d (l ++ [(a, x)]) → ∃ d', dl_pop_back d = Some d' ∧ holds d' l ∧ dl_fresh d' = dl_fresh d.
Proof.
  intros Hd. pose proof (split_place _ _ _ _ (ho_nodup _ _ Hd)) as Hp. pose proof (nodup_one _ _ _ _ Hd) as H1. pose proof (ho_head _ _ Hd) as Hhd.
  pose proof (ho_tail _ _ Hd ltac:(by destruct l)) as Htl. rewrite final_last in Htl. destruct (ho_heap _ _ Hd) as [p Hh].
  unfold dl_pop_back. destruct (holds_some _ _ Hd) as [b Hb]; [by destruct l|]. rewrite Hb. cbv iota. rewrite <- Hb, Hh.
  destruct (decide (dl_head d = dl_tail d)) as [E|E]; rewrite H1 in E.
  - subst l. rewrite Hhd. change (first ([] ++ [(a, x)]) None) with (Some a). rewrite cells_head, (free_one p a x) by done. bound.
    eexists. split_and!; [done| |done]. apply (holds_without d [] a x []); [done|by exists None|done|done].
  - rewrite Htl, (place_deref p l a x [] Hp). bound. cbn [cl_prev]. rewrite (cells_split p l a x []). simpl cells at 3. rewrite (right_id_L ∅ (∪)).
    rewrite map_union_comm by (apply cells_disjoint; intros c Hc ->%list_elem_of_singleton; by apply (pl_before _ _ _ _ Hp)).
    rewrite (free_one _ a x) by (by apply cells_None, (pl_before _ _ _ _ Hp)). bound. rewrite (final_any l p None), (write_next_final p None l _ None) by (done || apply (pl_nodup1 _ _ _ _ Hp)). bound.
    eexists. split_and!; [done| |done]. pose proof (holds_without d l a x [] (cells p l None) (dl_head d) (final l None) Hd) as W.
    rewrite app_nil_r in W. apply W; [by eexists| |done]. rewrite Hhd. by destruct l as [|[c z] l].
Qed.

Lemma pop_front_holds d l a x : holds d ((a, x) :: l) → ∃ d', dl_pop_front d = Some d' ∧ holds d' l ∧ dl_fresh d' = dl_fresh d.
Proof.
  intros Hd. pose proof (split_place [] _ _ _ (ho_nodup _ _ Hd)) as Hp. pose proof (ho_head _ _ Hd) as Hhd. simpl in Hhd.
  pose proof (ho_tail _ _ Hd ltac:(done)) as Htl. destruct (ho_heap _ _ Hd) as [p Hh]. unfold dl_pop_front. rewrite Hhd. cbv iota. rewrite Hh, Htl.
  rewrite (place_deref p [] a x l Hp : deref (Some a) (cells p ((a, x) :: l) None) = _), (cells_head p a x l None : cells p ((a, x) :: l) None = _).
  rewrite (free_one p a x) by (by apply cells_None, (pl_after _ _ _ _ Hp)). bound. cbn [cl_next].
  destruct (decide (Some a = final _ None)) as [E|E]; rewrite (pl_tail _ _ _ _ Hp : Some a = final ((a, x) :: l) None ↔ _) in E.
  - subst l. eexists. split_and!; [done| |done]. apply (holds_without d [] a x []); [done|by exists None|done|done].
  - rewrite (write_prev_first (Some a) None l None E). bound. eexists. split_and!; [done| |done].
    apply (holds_without d [] a x l); [done|by exists None|done|]. intros _. simpl. by apply final_any.
Qed.

(** The walk of [size] over the cells of a list goes on with the pointer after them. *)
Lemma count_cells l2 : ∀ p k fuel n cnt (h : gmap nat DLListCell), NoDup l2.*1 → cells p l2 n ⊆ h → k = length l2 →
  count_from (k + fuel) (first l2 n) h cnt = count_from fuel n h (k + cnt).
Proof.
  induction l2 as [|[a x] l2 IH]; intros p k fuel n cnt h Hnd Hh ->; [done|]. rewrite fmap_cons, NoDup_cons in Hnd. destruct Hnd as [Ha Hnd].
  simpl in Hh |- *. rewrite (lookup_weaken _ _ _ _ (lookup_insert_eq _ _ _) Hh). simpl.
  rewrite (IH (Some a) (length l2) fuel n (S cnt) h Hnd); [f_equal; lia| |done]. etrans; [|exact Hh]. apply insert_subseteq, cells_None. done.
Qed.
Lemma size_holds d l : holds d l → dl_size d = Some (length l).
Proof.
  intros Hd. destruct (ho_heap _ _ Hd) as [p Hh]. unfold dl_size. rewrite Hh, (ho_head _ _ Hd), (size_cells p l None (ho_nodup _ _ Hd)).
  replace (S (length l)) with (length l + 1) by lia. rewrite (count_cells l p (length l) 1 None 0 _ (ho_nodup _ _ Hd)) by done. simpl. f_equal. lia.
Qed.

(** ** Sequences of operations *)

Inductive dl_op := LPushBack (x : A) | LPushFront (x : A) | LPopBack | LPopFront | LErase (a : nat) | LMoveBack (a : nat).

Definition dl_step (d : DLList) (op : dl_op) : option DLList :=
  match op with
  | LPushBack x => snd <$> dl_push_back x d
  | LPushFront x => snd <$> dl_push_front x d
  | LPopBack => dl_pop_back d
  | LPopFront => dl_pop_front d
  | LErase a => dl_erase a d
  | LMoveBack a => dl_move_back a d
  end.
Fixpoint dl_run (d : DLList) (ops : list dl_op) : option DLList :=
  match ops with [] => Some d | op :: ops => d ← dl_step d op; dl_run d ops end.

(** The sequence of cells and the number of the next one. A cell that is named is in the
    sequence, and one that is erased is not the last of several. *)
Definition list_step (s : nat * list (nat * A)) (op : dl_op) : option (nat * list (nat * A)) :=
  let '(n, l) := s in
  match op with
  | LPushBack x => Some (S n, l ++ [(n, x)])
  | LPushFront x => Some (S n, (n, x) :: l)
  | LPopBack => Some (n, removelast l)
  | LPopFront => Some (n, tail l)
  | LErase a =>
    if decide (a ∈ l.*1 ∧ (first l None = Some a ∨ final l None ≠ Some a)) then Some (n, filter (λ c, c.1 ≠ a) l) else None
  | LMoveBack a =>
    if decide (a ∈ l.*1) then Some (n, filter (λ c, c.1 ≠ a) l ++ filter (λ c, c.1 = a) l) else None
  end.
Fixpoint list_run (s : nat * list (nat * A)) (ops : list dl_op) : option (nat * list (nat * A)) :=
  match ops with [] => Some s | op :: ops => s ← list_step s op; list_run s ops end.

Lemma named_cell l a : a ∈ l.*1 → ∃ x l1 l2, l = l1 ++ (a, x) :: l2.
Proof. intros ([b x] & -> & Hin)%list_elem_of_fmap. apply list_elem_of_split in Hin as (l1 & l2 & ->). by exists x, l1, l2. Qed.

Lemma filter_same l1 a x l2 : place l1 a x l2 → filter (λ c : nat * A, c.1 = a) (l1 ++ (a, x) :: l2) = [(a, x)].
Proof.
  intros [Hb Ha _ _ _ _ _]. assert (Hnone : ∀ l, a ∉ l.*1 → filter (λ c : nat * A, c.1 = a) l = []).
  { induction l as [|[b y] l IH]; intros Hl; [done|]. rewrite fmap_cons, not_elem_of_cons in Hl. simpl in Hl. rewrite filter_cons_False by (simpl; naive_solver). apply IH. tauto. }
  by rewrite filter_app, filter_cons_True, !Hnone.
Qed.

Lemma dl_step_holds d l op s : holds d l → list_step (dl_fresh d, l) op = Some s → ∃ d', dl_step d op = Some d' ∧ holds d' s.2 ∧ dl_fresh d' = s.1.
Proof.
  intros Hd. destruct op as [x|x| | |a|a]; cbn [list_step dl_step].
  - intros [= <-]. destruct (push_back_holds d l x Hd) as (d' & -> & Hd' & Hf). by exists d'.
  - intros [= <-]. destruct (push_front_holds d l x Hd) as (d' & -> & Hd' & Hf). by exists d'.
  - intros [= <-]. destruct l as [|[a x] l _] using rev_ind.
    + exists d. unfold dl_pop_back. by rewrite (ho_head _ _ Hd).
    + destruct (pop_back_holds _ _ _ _ Hd) as (d' & E & Hd' & Hf). exists d'. simpl. by rewrite removelast_last.
  - intros [= <-]. destruct l as [|[a x] l].
    + exists d. unfold dl_pop_front. by rewrite (ho_head _ _ Hd).
    + destruct (pop_front_holds _ _ _ _ Hd) as (d' & E & Hd' & Hf). by exists d'.
  - case_decide as Hc; [|done]. intros [= <-]. destruct Hc as [(x & l1 & l2 & ->)%named_cell Hor]. pose proof (split_place _ _ _ _ (ho_nodup _ _ Hd)) as Hp.
    destruct (erase_holds _ _ _ _ _ Hd) as (d' & E & Hd' & Hf).
    { pose proof (pl_head _ _ _ _ Hp). pose proof (pl_tail _ _ _ _ Hp). destruct Hor; [left|right]; naive_solver. }
    exists d'. split_and!; [done| |done]. simpl. by rewrite (filter_middle fst (a, x) l1 l2 (ho_nodup _ _ Hd) : filter (λ c, c.1 ≠ a) _ = _).
  - case_decide as Hc; [|done]. intros [= <-]. apply named_cell in Hc as (x & l1 & l2 & ->). destruct (move_back_holds _ _ _ _ _ Hd) as (d' & E & Hd' & Hf).
    exists d'. split_and!; [done| |done]. simpl. rewrite (filter_same l1 a x l2 (split_place _ _ _ _ (ho_nodup _ _ Hd))).
    by rewrite (filter_middle fst (a, x) l1 l2 (ho_nodup _ _ Hd) : filter (λ c, c.1 ≠ a) _ = _).
Qed.

Lemma place_data d l1 a x l2 : holds d (l1 ++ (a, x) :: l2) → dl_data a d = Some x.
Proof.
  intros Hd. pose proof (split_place _ _ _ _ (ho_nodup _ _ Hd)) as Hp. destruct (ho_heap _ _ Hd) as [p Hh]. unfold dl_data. by rewrite Hh, (place_deref p _ _ _ _ Hp).
Qed.

(** C29: the doubly linked list is the sequence of its cells. Any sequence of pushes and
    pops at either end, moves to the back and erasures that is valid for the sequence
    (named cells are in it, and [erase] is not asked for the last of several cells) reads,
    writes and frees live cells only; afterwards the cells in memory are those of the
    sequence, linked in its order, [size] counts them and an iterator reads the value that
    was stored. *)
Theorem dl_list_refines ops n l : list_run (0, []) ops = Some (n, l) →
  ∃ d, dl_run dl_new ops = Some d ∧ holds d l ∧ dl_size d = Some (length l) ∧ ∀ a x, (a, x) ∈ l → dl_data a d = Some x.
Proof.
  assert (Hrun : ∀ ops d l s, holds d l → list_run (dl_fresh d, l) ops = Some s → ∃ d', dl_run d ops = Some d' ∧ holds d' s.2).
  { clear. induction ops as [|op ops IH]; intros d l s Hd; cbn [list_run dl_run]; [intros [= <-]; by exists d|]. destruct (list_step (dl_fresh d, l) op) as [s1|] eqn:E; [|done]. bound. intros Hs.
    destruct (dl_step_holds _ _ _ _ Hd E) as (d1 & -> & Hd1 & Hf). bound. apply (IH _ _ _ Hd1). by rewrite Hf, <- surjective_pairing. }
  intros Hs. destruct (Hrun ops dl_new [] _ dl_new_holds Hs) as (d & Hd & Hl). exists d. split_and!; [done|done|by apply size_holds|].
  intros a x (l1 & l2 & E)%list_elem_of_split. simpl in Hl. rewrite E in Hl. by eapply place_data.
Qed.

(** [erase] of the last of several cells frees the cell and leaves the pointer to it in
    the cell before, so every walk from the head runs into freed memory: [size], a loop
    over the iterators, a copy of the list. *)
Theorem erase_last_dangles d l a x : holds d (l ++ [(a, x)]) → l ≠ [] →
  ∃ d', dl_erase a d = Some d' ∧ dl_heap d' !! a = None ∧ dl_size d' = None ∧ ∀ fuel, count_from fuel (dl_head d') (dl_heap d') 0 = None.
Proof.
  intros Hd Hl. pose proof (split_place _ _ _ _ (ho_nodup _ _ Hd)) as Hp. pose proof (ho_tail _ _ Hd ltac:(by destruct l)) as Htl. rewrite final_last in Htl.
  destruct (ho_heap _ _ Hd) as [p Hh]. pose proof (cells_None p l (Some a) a (pl_before _ _ _ _ Hp)) as Hfree. pose proof (pl_nodup1 _ _ _ _ Hp) as Hnd.
  unfold dl_erase. rewrite (ho_head _ _ Hd), Htl, Hh. destruct (decide (Some a = first _ None)) as [E|E]; [by rewrite (pl_head _ _ _ _ Hp) in E|].
  rewrite decide_True by done. rewrite (place_deref p l a x [] Hp). bound. rewrite (cells_split p l a x []). simpl cells at 3. rewrite (right_id_L ∅ (∪)).
  rewrite map_union_comm by (apply cells_disjoint; intros c Hc ->%list_elem_of_singleton; by apply (pl_before _ _ _ _ Hp)).
  rewrite (free_one _ a x) by done. bound. eexists. split; [done|]. cbn [dl_heap dl_head]. rewrite first_app. simpl first.
  assert (Hall : ∀ fuel, count_from fuel (first l (Some a)) (cells p l (Some a)) 0 = None).
  { intros fuel. destruct (decide (length l ≤ fuel)) as [Hle|Hlt].
    - replace fuel with (length l + (fuel - length l)) by lia. rewrite (count_cells l p (length l) _ (Some a) 0 _ Hnd) by done.
      destruct (fuel - length l); [done|]. simpl. by rewrite Hfree.
    - assert (Hshort : ∀ k l p c (h : gmap nat DLListCell), NoDup l.*1 → cells p l (Some a) ⊆ h → k < length l → count_from k (first l (Some a)) h c = None); [|by eapply Hshort; [| |lia]].
      clear. induction k as [|k IH]; intros [|[b y] l] p c h Hnd Hh Hk; simpl in Hk; try lia; [done|]. simpl in Hh |- *.
      rewrite (lookup_weaken _ _ _ _ (lookup_insert_eq _ _ _) Hh). simpl. rewrite fmap_cons, NoDup_cons in Hnd. apply (IH l (Some b)); [apply Hnd| |lia].
      etrans; [|exact Hh]. apply insert_subseteq, cells_None, Hnd. }
  split_and!; [done|apply Hall|exact Hall].
Qed.

(** [destroy] of a list that is not empty frees its first cell twice. *)
Lemma destroy_frees_twice d l : holds d l → l ≠ [] → dl_destroy d = None.
Proof.
  intros Hd Hl. destruct l as [|[a x] l]; [done|]. unfold dl_destroy. rewrite (ho_head _ _ Hd). destruct (ho_heap _ _ Hd) as [p Hh]. rewrite Hh. simpl.
  unfold free_cell. simpl. rewrite lookup_insert_eq. simpl. by rewrite lookup_delete_eq.
Qed.

End List.

Arguments DLListCell : clear implicits.
Arguments DLList : clear implicits.

Lemma dl_list_refines_witness :
  ∃ d, dl_run dl_new [LPushBack 10; LPushBack 11; LPushFront 12; LMoveBack 0; LErase 1; LPopFront] = Some d ∧
    holds d [(0, 10)] ∧ dl_size d = Some 1 ∧ ∀ a x, (a, x) ∈ [(0, 10)] → dl_data a d = Some x.
Proof. exact (dl_list_refines [LPushBack 10; LPushBack 11; LPushFront 12; LMoveBack 0; LErase 1; LPopFront] 3 [(0, 10)] eq_refl). Defined.

(** Two cells: the first is 0 and the second 1. *)
Definition two_cells : DLList nat := mkDLList {[0 := mkDLListCell 10 None (Some 1); 1 := mkDLListCell 11 (Some 0) None]} (Some 0) (Some 1) 2.

Lemma two_cells_hold : holds two_cells [(0, 10); (1, 11)].
Proof.
  split; simpl; [by exists None|by apply (bool_decide_unpack _); vm_compute|done|done|]. intros a Ha. repeat (apply elem_of_cons in Ha as [->|Ha]; [lia|]). by apply not_elem_of_nil in Ha.
Qed.

Lemma erase_last_dangles_witness :
  ∃ d', dl_erase 1 two_cells = Some d' ∧ dl_heap d' !! 1 = None ∧ dl_size d' = None ∧ ∀ fuel, count_from fuel (dl_head d') (dl_heap d') 0 = None.
Proof. exact (erase_last_dangles two_cells [(0, 10)] 1 11 two_cells_hold ltac:(done)). Defined.
