(* ===== verification/LruCache.v ===== *)
(** * The cache of recently used values

    [LRUCache] of [src/common/vtl/lrucache.hpp]: a hash table from keys to the nodes of a
    list, which has the most recently used pair at its back. The hash table belongs to
    PostgreSQL and is the class [HashTable] here, with what the cache relies on as its
    laws. The list is the doubly linked list of [DlList], cell by cell. A failed assertion
    and an access to freed memory are [None]. Locks are left out. *)
From Stdlib Require Import ZArith Lia.
From stdpp Require Import prelude gmap.
From S2P Require Import Prelude DlList.

(** ** The hash table *)

Class HashTable (K H : Type) := {
  hash_create : H;
  hash_find : K → H → option nat;
  hash_enter : K → nat → H → H;
  hash_remove : K → H → H;
  hash_get_num_entries : H → nat;
}.

Class HashTableLaws (K H : Type) `{EqDecision K, !HashTable K H} := {
  hash_find_create k : hash_find (H := H) k hash_create = None;
  hash_find_enter k k' n (m : H) : hash_find k' (hash_enter k n m) = if decide (k = k') then Some n else hash_find k' m;
  hash_find_remove k k' (m : H) : hash_find k' (hash_remove k m) = if decide (k = k') then None else hash_find k' m;
  hash_entries_create : hash_get_num_entries (K := K) (H := H) hash_create = 0;
  hash_entries_enter k n (m : H) : hash_find k m = None → hash_get_num_entries (K := K) (hash_enter k n m) = S (hash_get_num_entries (K := K) m);
  hash_entries_remove k (m : H) : is_Some (hash_find k m) → hash_get_num_entries (K := K) m = S (hash_get_num_entries (K := K) (hash_remove k m));
}.

(** A finite map is such a table. *)
#[export] Instance gmap_table {K} `{Countable K} : HashTable K (gmap K nat) := {
  hash_create := ∅; hash_find := lookup; hash_enter := insert; hash_remove := delete; hash_get_num_entries := size }.
#[export] Instance gmap_table_laws {K} `{Countable K} : HashTableLaws K (gmap K nat).
Proof.
  split; simpl; intros.
  - apply lookup_empty.
  - by rewrite lookup_insert.
  - by rewrite lookup_delete.
  - apply map_size_empty.
  - by apply map_size_insert_None.
  - match goal with H : is_Some _ |- _ => destruct H as [n Hn] end. rewrite <- (insert_delete_id m k n) at 1 by done.
    apply map_size_insert_None, lookup_delete_eq.
Qed.

(** ** The cache *)

Section Cache.

Context {K V H : Type} `{EqDecision K, !HashTable K H}.

Record LRUCache := mkLRUCache {
  lc_max_size : nat;
  lc_map : H;
  lc_list : DLList (K * V);
}.

Definition cache_new (cache_size : nat) : LRUCache := mkLRUCache cache_size hash_create dl_new.

Definition cache_evict (c : LRUCache) : option LRUCache :=
  it ← dl_head (lc_list c);
  pair ← dl_data it (lc_list c);
  l ← dl_erase it (lc_list c);
  Some (mkLRUCache (lc_max_size c) (hash_remove pair.1 (lc_map c)) l).

Definition cache_put (k : K) (v : V) (c : LRUCache) : option LRUCache :=
  match hash_find k (lc_map c) with
  | Some it => l ← dl_move_back it (lc_list c); Some (mkLRUCache (lc_max_size c) (lc_map c) l)
  | None =>
    c ← (if lc_max_size c <? hash_get_num_entries (K := K) (lc_map c) then cache_evict c else Some c);
    '(it, l) ← dl_push_back (k, v) (lc_list c);
    Some (mkLRUCache (lc_max_size c) (hash_enter k it (lc_map c)) l)
  end.

Definition cache_get (k : K) (c : LRUCache) : option (option V * LRUCache) :=
  match hash_find k (lc_map c) with
  | None => Some (None, c)
  | Some it =>
    l ← dl_move_back it (lc_list c);
    pair ← dl_data it l;
    Some (Some pair.2, mkLRUCache (lc_max_size c) (lc_map c) l)
  end.

(** [operator[]]: the key has to be there. *)
Definition cache_at (k : K) (c : LRUCache) : option (V * LRUCache) :=
  it ← hash_find k (lc_map c);
  l ← dl_move_back it (lc_list c);
  pair ← dl_data it l;
  Some (pair.2, mkLRUCache (lc_max_size c) (lc_map c) l).

Definition cache_contains (k : K) (c : LRUCache) : bool := bool_decide (is_Some (hash_find k (lc_map c))).

Definition cache_erase (k : K) (c : LRUCache) : option (bool * LRUCache) :=
  match hash_find k (lc_map c) with
  | None => Some (false, c)
  | Some it => l ← dl_erase it (lc_list c); Some (true, mkLRUCache (lc_max_size c) (hash_remove k (lc_map c)) l)
  end.

Definition cache_size (c : LRUCache) : nat := hash_get_num_entries (K := K) (lc_map c).

(** The loop of [set_capacity]; each round takes one entry away. *)
Fixpoint shrink (fuel : nat) (new_size : nat) (c : LRUCache) : option LRUCache :=
  if new_size <? cache_size c then
    match fuel with
    | O => None
    | S fuel => c ← cache_evict c; shrink fuel new_size c
    end
  else Some c.
Definition cache_set_capacity (new_size : nat) (c : LRUCache) : option LRUCache :=
  c ← shrink (cache_size c) new_size c;
  Some (mkLRUCache new_size (lc_map c) (lc_list c)).

(** ** The specification: pairs from the least to the most recently used *)

Record Recent := mkRecent { rc_max_size : nat; rc_pairs : list (K * V) }.

Definition value_of (k : K) (l : list (K * V)) : option V := snd <$> (list_find (λ p, p.1 = k) l ≫= λ x, Some x.2).
Definition without (k : K) (l : list (K * V)) : list (K * V) := filter (λ p, p.1 ≠ k) l.
(** A pair that is used goes to the end. *)
Definition refresh (k : K) (l : list (K * V)) : list (K * V) :=
  match value_of k l with None => l | Some v => without k l ++ [(k, v)] end.

Inductive cache_op := CPut (k : K) (v : V) | CGet (k : K) | CAt (k : K) | CContains (k : K) | CErase (k : K) | CSetCapacity (new_size : nat).
Inductive answer := ANone | AValue (v : option V) | ABool (b : bool).

(** [operator[]] needs a key that is there, and [erase] one that is not the most recent of
    several. *)
Definition spec_step (r : Recent) (op : cache_op) : option (answer * Recent) :=
  let l := rc_pairs r in
  match op with
  | CPut k v => Some (ANone, mkRecent (rc_max_size r)
      (if value_of k l then refresh k l else (if rc_max_size r <? length l then tail l else l) ++ [(k, v)]))
  | CGet k => Some (AValue (value_of k l), mkRecent (rc_max_size r) (refresh k l))
  | CAt k => if value_of k l then Some (AValue (value_of k l), mkRecent (rc_max_size r) (refresh k l)) else None
  | CContains k => Some (ABool (bool_decide (is_Some (value_of k l))), r)
  | CErase k =>
    if decide (fst <$> last l = Some k ∧ length l ≠ 1) then None
    else Some (ABool (bool_decide (is_Some (value_of k l))), mkRecent (rc_max_size r) (without k l))
  | CSetCapacity n => Some (ANone, mkRecent n (drop (length l - n) l))
  end.

Definition cache_step (c : LRUCache) (op : cache_op) : option (answer * LRUCache) :=
  match op with
  | CPut k v => c ← cache_put k v c; Some (ANone, c)
  | CGet k => '(v, c) ← cache_get k c; Some (AValue v, c)
  | CAt k => '(v, c) ← cache_at k c; Some (AValue (Some v), c)
  | CContains k => Some (ABool (cache_contains k c), c)
  | CErase k => '(b, c) ← cache_erase k c; Some (ABool b, c)
  | CSetCapacity n => c ← cache_set_capacity n c; Some (ANone, c)
  end.

Fixpoint spec_run (r : Recent) (ops : list cache_op) : option (list answer * Recent) :=
  match ops with
  | [] => Some ([], r)
  | op :: ops => '(a, r) ← spec_step r op; '(l, r) ← spec_run r ops; Some (a :: l, r)
  end.
Fixpoint cache_run (c : LRUCache) (ops : list cache_op) : option (list answer * LRUCache) :=
  match ops with
  | [] => Some ([], c)
  | op :: ops => '(a, c) ← cache_step c op; '(l, c) ← cache_run c ops; Some (a :: l, c)
  end.

(** ** The invariant *)

Context `{!HashTableLaws K H}.

Implicit Types l : list (nat * (K * V)).

(** The list in memory is [l], its keys are different, and the table leads to its cells. *)
Record linked (c : LRUCache) l : Prop := {
  lk_holds : holds (lc_list c) l;
  lk_keys : NoDup (fst <$> l.*2);
  lk_map : ∀ k it, hash_find k (lc_map c) = Some it ↔ ∃ v, (it, (k, v)) ∈ l;
  lk_count : cache_size c = length l;
}.

Lemma new_linked n : linked (cache_new n) [].
Proof.
  split; simpl; [apply dl_new_holds|constructor| |].
  - intros k it. rewrite hash_find_create. split; [done|]. by intros (v & ?%not_elem_of_nil).
  - apply hash_entries_create.
Qed.

(** Where a key has its pair. *)
Record found_at (k : K) (it : nat) (v : V) l1 l2 : Prop := {
  fa_value : value_of k (l1 ++ (it, (k, v)) :: l2).*2 = Some v;
  fa_without : without k (l1 ++ (it, (k, v)) :: l2).*2 = (l1 ++ l2).*2;
  fa_refresh : refresh k (l1 ++ (it, (k, v)) :: l2).*2 = ((l1 ++ l2) ++ [(it, (k, v))]).*2;
}.

Lemma split_found k it v l1 l2 : NoDup (fst <$> (l1 ++ (it, (k, v)) :: l2).*2) → found_at k it v l1 l2.
Proof.
  intros Hkeys. rewrite fmap_app, fmap_cons in Hkeys. simpl in Hkeys.
  assert (Hv : value_of k (l1 ++ (it, (k, v)) :: l2).*2 = Some v). { unfold value_of. rewrite fmap_app, fmap_cons. simpl. by rewrite (find_middle fst (k, v) l1.*2 l2.*2 Hkeys). }
  assert (Hw : without k (l1 ++ (it, (k, v)) :: l2).*2 = (l1 ++ l2).*2).
  { unfold without. rewrite fmap_app, fmap_cons. simpl. rewrite fmap_app. exact (filter_middle fst (k, v) l1.*2 l2.*2 Hkeys). }
  split; [done|done|]. unfold refresh. rewrite Hv, Hw, (fmap_app _ (l1 ++ l2)). done.
Qed.
Lemma linked_found k it c l : linked c l → hash_find k (lc_map c) = Some it → ∃ v l1 l2, l = l1 ++ (it, (k, v)) :: l2 ∧ found_at k it v l1 l2.
Proof.
  intros Hl Hk. apply (lk_map _ _ Hl) in Hk as [v Hin]. apply list_elem_of_split in Hin as (l1 & l2 & E). exists v, l1, l2. split; [done|]. apply split_found. rewrite <- E. apply Hl.
Qed.

Lemma missing_value k (l : list (K * V)) : k ∉ l.*1 → value_of k l = None ∧ without k l = l ∧ refresh k l = l.
Proof. intros Hk. unfold refresh, value_of, without. by rewrite (find_absent fst k l Hk), (filter_absent fst k l Hk). Qed.
Lemma linked_absent k c l : linked c l → hash_find k (lc_map c) = None → k ∉ fst <$> l.*2.
Proof.
  intros Hl Hk (p & -> & ([it q] & -> & Hin)%list_elem_of_fmap)%list_elem_of_fmap. simpl in *.
  assert (hash_find q.1 (lc_map c) = Some it) as E by (apply (lk_map _ _ Hl); exists q.2; by destruct q). congruence.
Qed.
Lemma linked_missing k c l : linked c l → hash_find k (lc_map c) = None → value_of k l.*2 = None ∧ without k l.*2 = l.*2 ∧ refresh k l.*2 = l.*2.
Proof. intros Hl Hk. by apply missing_value, (linked_absent k c). Qed.

(** ** Moving, taking out and adding a pair *)

Lemma linked_moved k it v l1 l2 c d : linked c (l1 ++ (it, (k, v)) :: l2) → holds d ((l1 ++ l2) ++ [(it, (k, v))]) →
  linked (mkLRUCache (lc_max_size c) (lc_map c) d) ((l1 ++ l2) ++ [(it, (k, v))]).
Proof.
  intros [_ Hkeys Hmap Hcount] Hd.
  assert (P : l1 ++ (it, (k, v)) :: l2 ≡ₚ (l1 ++ l2) ++ [(it, (k, v))]) by (rewrite <- (Permutation_middle l1 l2); apply Permutation_cons_append).
  split; simpl; [done|by rewrite <- P| |].
  - intros k' j. rewrite Hmap. by setoid_rewrite P.
  - unfold cache_size in *. simpl. by rewrite <- P.
Qed.

Lemma linked_erased k it v l1 l2 c d : linked c (l1 ++ (it, (k, v)) :: l2) → holds d (l1 ++ l2) →
  linked (mkLRUCache (lc_max_size c) (hash_remove k (lc_map c)) d) (l1 ++ l2).
Proof.
  intros [_ Hkeys Hmap Hcount] Hd. assert (P : l1 ++ (it, (k, v)) :: l2 ≡ₚ (it, (k, v)) :: l1 ++ l2) by (by rewrite <- Permutation_middle).
  rewrite P in Hkeys. apply NoDup_cons in Hkeys as [Hk Hkeys]. simpl in Hk. split; simpl; [done|done| |].
  - intros k' j. rewrite hash_find_remove. case_decide as Ek.
    + subst k'. split; [done|]. intros (v' & Hin). destruct Hk. apply (list_elem_of_fmap_2 snd), (list_elem_of_fmap_2 fst) in Hin. done.
    + rewrite Hmap. setoid_rewrite P. setoid_rewrite elem_of_cons. naive_solver.
  - unfold cache_size in *. simpl in *. pose proof (hash_entries_remove k (lc_map c)) as Hn. rewrite P in Hcount. simpl in Hcount.
    assert (is_Some (hash_find k (lc_map c))) as Hf by (exists it; apply Hmap; exists v; rewrite P; left). specialize (Hn Hf). lia.
Qed.

Lemma linked_added k it v l c d : linked c l → hash_find k (lc_map c) = None → holds d (l ++ [(it, (k, v))]) →
  linked (mkLRUCache (lc_max_size c) (hash_enter k it (lc_map c)) d) (l ++ [(it, (k, v))]).
Proof.
  intros Hl Hk Hd. pose proof (linked_absent _ _ _ Hl Hk) as Hmiss. destruct Hl as [_ Hkeys Hmap Hcount]. split; simpl; [done|..].
  - rewrite !fmap_app. apply NoDup_app. split_and!; [done| |apply NoDup_singleton]. by intros j Hj ->%list_elem_of_singleton.
  - intros k' j. rewrite hash_find_enter. setoid_rewrite elem_of_app. setoid_rewrite list_elem_of_singleton. case_decide as Ek.
    + subst k'. split; [intros [= <-]; exists v; by right|]. intros (v' & [Hin|[= -> _]]); [|done].
      apply (list_elem_of_fmap_2 snd), (list_elem_of_fmap_2 fst) in Hin. done.
    + rewrite Hmap. naive_solver.
  - unfold cache_size in *. simpl. rewrite hash_entries_enter by done. rewrite length_app. simpl. lia.
Qed.

(** Eviction takes the first pair, the one used least recently. *)
Lemma evict_first c it k v l : linked c ((it, (k, v)) :: l) →
  ∃ c', cache_evict c = Some c' ∧ linked c' l ∧ lc_max_size c' = lc_max_size c ∧ ∀ k', hash_find k' (lc_map c) = None → hash_find k' (lc_map c') = None.
Proof.
  intros Hl. unfold cache_evict. rewrite (ho_head _ _ (lk_holds _ _ Hl)). simpl. rewrite (place_data _ [] it (k, v) l (lk_holds _ _ Hl)). simpl.
  destruct (erase_holds _ [] it (k, v) l (lk_holds _ _ Hl)) as (d & -> & Hd & _); [by left|]. simpl. eexists. split_and!; [done|by apply (linked_erased k it v [] l)|done|].
  intros k' Hk'. simpl. rewrite hash_find_remove. by case_decide.
Qed.

Lemma shrink_drops n fuel : ∀ c l, linked c l → length l - n ≤ fuel →
  ∃ c', shrink fuel n c = Some c' ∧ linked c' (drop (length l - n) l) ∧ lc_max_size c' = lc_max_size c.
Proof.
  induction fuel as [|fuel IH]; intros c l Hl Hfuel; cbn [shrink]; rewrite (lk_count _ _ Hl); destruct (Nat.ltb_spec n (length l)) as [Hlt|Hge].
  - lia.
  - exists c. split_and!; [done| |done]. by replace (length l - n) with 0 by lia.
  - destruct l as [|[it [k v]] l]; [simpl in Hlt; lia|]. destruct (evict_first _ _ _ _ _ Hl) as (c1 & -> & Hl1 & Hm1 & _). simpl in Hfuel, Hlt |- *.
    destruct (IH c1 l Hl1) as (c' & -> & Hl' & Hm); [lia|]. exists c'. split_and!; [done| |congruence].
    by replace (S (length l) - n) with (S (length l - n)) by lia.
  - exists c. split_and!; [done| |done]. by replace (length l - n) with 0 by lia.
Qed.

(** ** The steps *)

(** A cache and the pairs it stands for; it may be one entry over its capacity. *)
Definition related (c : LRUCache) (r : Recent) : Prop :=
  ∃ l, linked c l ∧ r = mkRecent (lc_max_size c) l.*2 ∧ length l ≤ S (lc_max_size c).

Lemma touch k it c l : linked c l → length l ≤ S (lc_max_size c) → hash_find k (lc_map c) = Some it →
  ∃ d v, dl_move_back it (lc_list c) = Some d ∧ dl_data it d = Some (k, v) ∧ value_of k l.*2 = Some v ∧
    related (mkLRUCache (lc_max_size c) (lc_map c) d) (mkRecent (lc_max_size c) (refresh k l.*2)).
Proof.
  intros Hl Hb Hk. destruct (linked_found _ _ _ _ Hl Hk) as (v & l1 & l2 & -> & [Hv _ Hr]). destruct (move_back_holds _ _ _ _ _ (lk_holds _ _ Hl)) as (d & Hd & Hh & _).
  exists d, v. split_and!; [done|by apply (place_data _ (l1 ++ l2) it (k, v) [])|done|]. exists ((l1 ++ l2) ++ [(it, (k, v))]). split_and!; [by apply linked_moved|by rewrite Hr|].
  simpl. rewrite !length_app in *. simpl in *. lia.
Qed.

Lemma put_related k v c l : linked c l → length l ≤ S (lc_max_size c) → hash_find k (lc_map c) = None →
  ∃ c', cache_put k v c = Some c' ∧ related c' (mkRecent (lc_max_size c) ((if lc_max_size c <? length l then tail l.*2 else l.*2) ++ [(k, v)])).
Proof.
  intros Hl Hb Hk. unfold cache_put. rewrite Hk. change (hash_get_num_entries (K := K) (lc_map c)) with (cache_size c). rewrite (lk_count _ _ Hl).
  assert (Hadd : ∀ c1 l1, linked c1 l1 → hash_find k (lc_map c1) = None → lc_max_size c1 = lc_max_size c → length l1 ≤ lc_max_size c →
    ∃ c', ('(it, d) ← dl_push_back (k, v) (lc_list c1); Some (mkLRUCache (lc_max_size c1) (hash_enter k it (lc_map c1)) d)) = Some c' ∧
      related c' (mkRecent (lc_max_size c) (l1.*2 ++ [(k, v)]))).
  { intros c1 l1 Hl1 Hk1 Hm Hlen. destruct (push_back_holds _ _ (k, v) (lk_holds _ _ Hl1)) as (d & -> & Hd & _). simpl. eexists. split; [done|].
    eexists. split; [by apply linked_added|]. simpl. rewrite fmap_app, Hm, length_app. simpl. split; [done|lia]. }
  destruct (Nat.ltb_spec (lc_max_size c) (length l)) as [Hfull|Hroom]; [|by apply (Hadd c l)].
  destruct l as [|[it [k0 v0]] l]; [simpl in Hfull; lia|]. destruct (evict_first _ _ _ _ _ Hl) as (c1 & -> & Hl1 & Hm1 & Hkeep).
  apply (Hadd c1 l Hl1); [by apply Hkeep|done|]. simpl in Hb. lia.
Qed.

Lemma erase_related k it c l : linked c l → length l ≤ S (lc_max_size c) → hash_find k (lc_map c) = Some it → ¬ (fst <$> last l.*2 = Some k ∧ length l.*2 ≠ 1) →
  ∃ d, dl_erase it (lc_list c) = Some d ∧ is_Some (value_of k l.*2) ∧
    related (mkLRUCache (lc_max_size c) (hash_remove k (lc_map c)) d) (mkRecent (lc_max_size c) (without k l.*2)).
Proof.
  intros Hl Hb Hk Hlast. destruct (linked_found _ _ _ _ Hl Hk) as (v & l1 & l2 & -> & [Hv Hw _]).
  destruct (erase_holds _ _ _ _ _ (lk_holds _ _ Hl)) as (d & Hd & Hh & _).
  { destruct l2 as [|y l2]; [left|by right]. destruct l1 as [|y l1]; [done|]. destruct Hlast. rewrite fmap_app, last_app. simpl. rewrite length_app. simpl. split; [done|lia]. }
  exists d. split_and!; [done|by eexists|]. eexists. split_and!; [by eapply linked_erased|by rewrite Hw|]. simpl. rewrite !length_app in *. simpl in *. lia.
Qed.

Lemma cache_step_refines c r op a r' : related c r → spec_step r op = Some (a, r') → ∃ c', cache_step c op = Some (a, c') ∧ related c' r'.
Proof.
  intros (l & Hl & -> & Hb). destruct op as [k v|k|k|k|k|n]; cbn [cache_step spec_step rc_pairs rc_max_size]; try (destruct (hash_find k (lc_map c)) as [it|] eqn:Hk).
  - intros [= <- <-]. unfold cache_put. rewrite Hk. destruct (touch _ _ _ _ Hl Hb Hk) as (d & v' & -> & _ & -> & Hr). simpl. by eexists.
  - intros [= <- <-]. destruct (linked_missing _ _ _ Hl Hk) as [-> _]. rewrite length_fmap. destruct (put_related k v c l Hl Hb Hk) as (c' & -> & Hr). simpl. by exists c'.
  - intros [= <- <-]. unfold cache_get. rewrite Hk. destruct (touch _ _ _ _ Hl Hb Hk) as (d & v & -> & Hd & -> & Hr). simpl. rewrite Hd. simpl. by eexists.
  - intros [= <- <-]. unfold cache_get. rewrite Hk. destruct (linked_missing _ _ _ Hl Hk) as (-> & _ & ->). exists c. split; [done|]. by exists l.
  - unfold cache_at. rewrite Hk. destruct (touch _ _ _ _ Hl Hb Hk) as (d & v & Hm & Hd & -> & Hr). intros [= <- <-]. simpl. rewrite Hm. simpl. rewrite Hd. simpl. by eexists.
  - by destruct (linked_missing _ _ _ Hl Hk) as (-> & _).
  - intros [= <- <-]. exists c. unfold cache_contains. rewrite Hk. destruct (touch _ _ _ _ Hl Hb Hk) as (d & v & _ & _ & -> & _). split; [done|]. by exists l.
  - intros [= <- <-]. exists c. unfold cache_contains. rewrite Hk. destruct (linked_missing _ _ _ Hl Hk) as (-> & _). split; [done|]. by exists l.
  - case_decide as Hlast; [done|]. intros [= <- <-]. unfold cache_erase. rewrite Hk. destruct (erase_related _ _ _ _ Hl Hb Hk Hlast) as (d & -> & Hv & Hr). simpl.
    rewrite bool_decide_true by done. by eexists.
  - case_decide; [done|]. intros [= <- <-]. unfold cache_erase. rewrite Hk. destruct (linked_missing _ _ _ Hl Hk) as (-> & -> & _). exists c. split; [done|]. by exists l.
  - intros [= <- <-]. unfold cache_set_capacity. destruct (shrink_drops n (cache_size c) c l Hl) as (c' & -> & Hl' & _); [rewrite (lk_count _ _ Hl); lia|]. simpl.
    eexists. split; [done|]. exists (drop (length l - n) l). destruct Hl'. rewrite length_fmap, fmap_drop, length_drop. simpl. split_and!; [by split|done|lia].
Qed.

(** C30: the cache is a list of pairs in the order of their use. A sequence of [put], [get],
    [operator[]], [contains], [erase] and [set_capacity] on a new cache, in which
    [operator[]] is asked for keys that are there and [erase] not for the most recent of
    several, touches live memory only and gives the answers of that list: [get],
    [operator[]] and a [put] of a key that is there move its pair to the end, a [put] of a
    new key drops the pair used least recently when the list is longer than the capacity,
    and the table never has more than one entry over the capacity. *)
Theorem lru_cache_refines cache_size ops answers r : spec_run (mkRecent cache_size []) ops = Some (answers, r) →
  ∃ c, cache_run (cache_new cache_size) ops = Some (answers, c) ∧ related c r ∧ hash_get_num_entries (K := K) (lc_map c) ≤ S (lc_max_size c).
Proof.
  assert (Hrun : ∀ ops c r answers r', related c r → spec_run r ops = Some (answers, r') → ∃ c', cache_run c ops = Some (answers, c') ∧ related c' r').
  { clear ops r answers. induction ops as [|op ops IH]; intros c r answers r' Hr; cbn [spec_run cache_run]; [intros [= <- <-]; by exists c|].
    destruct (spec_step r op) as [[a r1]|] eqn:E; [|done]. simpl. destruct (spec_run r1 ops) as [[answers1 r2]|] eqn:E1; [|done]. simpl. intros [= <- <-].
    destruct (cache_step_refines _ _ _ _ _ Hr E) as (c1 & -> & Hr1). simpl. destruct (IH _ _ _ _ Hr1 E1) as (c2 & -> & Hr2). by exists c2. }
  intros Hs. destruct (Hrun ops (cache_new cache_size) _ _ _ ltac:(by exists []; split_and!; [apply new_linked|done|simpl; lia]) Hs) as (c & Hc & Hr).
  exists c. split_and!; [done|done|]. destruct Hr as (l & Hl & _ & Hb). by rewrite <- (lk_count _ _ Hl) in Hb.
Qed.

End Cache.

(** A [put] of a key that is there does not store the new value, and a cache of capacity 1
    holds two pairs before the first is dropped. *)
Lemma lru_cache_run :
  (λ x, x.1) <$> cache_run (H := gmap nat nat) (cache_new 1)
    [CPut 1 10; CPut 1 11; CGet 1; CPut 2 20; CContains 1; CPut 3 30; CContains 1] =
  Some [ANone; ANone; AValue (Some 10); ANone; ABool true; ANone; ABool (V := nat) false].
Proof. vm_compute. reflexivity. Qed.

(** Erasing the most recent key, then the other one, leaves head and tail pointing to freed
    cells: the next [put] writes through them. *)
Lemma lru_cache_erase_then_put :
  cache_run (H := gmap nat nat) (cache_new 4) [CPut 1 10; CPut 2 20; CErase 2; CErase 1] ≠ None ∧
  cache_run (H := gmap nat nat) (cache_new 4) [CPut 1 10; CPut 2 20; CErase 2; CErase 1; CPut 3 30] = None.
Proof. split; [by vm_compute|vm_compute; reflexivity]. Qed.

Lemma lru_cache_refines_witness :
  ∃ c, cache_run (H := gmap nat nat) (cache_new 1) [CPut 1 10; CPut 2 20; CGet 1; CPut 3 30; CGet 2; CErase 1; CAt 3] =
      Some ([ANone; ANone; AValue (Some 10); ANone; AValue None; ABool true; AValue (Some 30)], c) ∧
    related c (mkRecent 1 [(3, 30)]) ∧ hash_get_num_entries (K := nat) (lc_map c) ≤ S (lc_max_size c).
Proof.
  apply (lru_cache_refines 1 [CPut 1 10; CPut 2 20; CGet 1; CPut 3 30; CGet 2; CErase 1; CAt 3]). vm_compute. reflexivity.
Defined.
