(* ===== verification/Dist.v ===== *)
(** * Distances

    Every distance in the index is a C++ [float]. What the graph code does with
    it is compare it ([<], [>], [<=], [>=]) and use [FLT_MAX] as "no distance
    yet" ([INVALID_DIST] of [src/common/include/graph_index/graph_index_param.h]);
    the value itself comes from the [Dister] template argument. [DistOrd] is
    that interface: the client theorems are proved against it. [float32], the
    binary32 numbers other than NaN, and [Z] (for small executable examples)
    implement it.

    NaN is excluded: with a NaN distance the C++ comparators are not strict weak
    orders and nothing below holds. *)
From Stdlib Require Import ZArith Lia SpecFloat.
From stdpp Require Import prelude.
From S2P Require Import Prelude.

Class DistOrd (D : Type) := {
  dlt : D → D → bool;
  FLT_MAX : D;
  dlt_swo :: StrictWeakOrder dlt;
}.

(** [a <= b], [a >= b] and [a > b] on NaN-free floats. *)
Definition dle {D : Type} `{DistOrd D} (a b : D) : bool := negb (dlt b a).
Definition dgt {D : Type} `{DistOrd D} (a b : D) : bool := dlt b a.
Definition dge {D : Type} `{DistOrd D} (a b : D) : bool := negb (dlt a b).

(** ** Lexicographic order on triples of integers *)

Definition lex3 (a b : Z * Z * Z) : bool :=
  let '(a1, a2, a3) := a in
  let '(b1, b2, b3) := b in
  ((a1 <? b1) || ((a1 =? b1) && ((a2 <? b2) || ((a2 =? b2) && (a3 <? b3)))))%Z.

#[export] Instance lex3_swo : StrictWeakOrder lex3.
Proof. split; intros; repeat (match goal with p : _ * _ |- _ => destruct p end); simpl in *; lia. Qed.

(** ** Binary32 *)

Definition not_nan (f : spec_float) : bool :=
  match f with S754_nan => false | _ => true end.

Definition float32 : Type := { f : spec_float | valid_binary 24 128 f && not_nan f = true }.

(** The position of a number on the line: class and sign, exponent, mantissa. *)
Definition rank (f : spec_float) : Z * Z * Z :=
  match f with
  | S754_infinity true => (-2, 0, 0)
  | S754_finite true m e => (-1, -e, Zneg m)
  | S754_zero _ | S754_nan => (0, 0, 0)
  | S754_finite false m e => (1, e, Zpos m)
  | S754_infinity false => (2, 0, 0)
  end%Z.

Lemma SFltb_rank f g :
  not_nan f = true → not_nan g = true → SFltb f g = lex3 (rank f) (rank g).
Proof.
  destruct f as [[]|[]| |[] mf ef], g as [[]|[]| |[] mg eg]; try done; intros _ _;
    unfold SFltb, SFcompare, rank, lex3; simpl; try done.
  all: destruct (Z.compare_spec ef eg); subst; simpl; [|lia..];
    fold (Pos.compare mf mg); rewrite <-?Pos2Z.opp_pos;
    destruct (Pos.compare_spec mf mg); subst; simpl; lia.
Qed.

Definition float32_ltb (a b : float32) : bool := SFltb (`a) (`b).

#[export] Instance float32_swo : StrictWeakOrder float32_ltb.
Proof.
  assert (H : ∀ a b, float32_ltb a b = lex3 (rank (`a)) (rank (`b))).
  { intros [f Hf] [g Hg]. apply SFltb_rank; simpl.
    - by apply andb_prop in Hf as [].
    - by apply andb_prop in Hg as []. }
  destruct (swo_on_key (λ a : float32, rank (`a)) lex3 lex3_swo) as [Hi Ht Hn].
  split; intros *; rewrite !H; [apply Hi|apply Ht|apply Hn].
Qed.

(** [FLT_MAX = (2^24 - 1) * 2^104]. *)
Definition FLT_MAX_spec : spec_float := S754_finite false 16777215 104.

Definition float32_max : float32 := FLT_MAX_spec ↾ eq_refl.

#[export] Instance float32_dist : DistOrd float32 := {|
  dlt := float32_ltb;
  FLT_MAX := float32_max;
  dlt_swo := float32_swo;
|}.

(** Integers as distances, with an upper bound far above the examples. *)
#[export] Instance Z_swo : StrictWeakOrder Z.ltb.
Proof. split; intros; lia. Qed.

#[export] Instance Z_dist : DistOrd Z := {|
  dlt := Z.ltb;
  FLT_MAX := 340282346638528859811704183484516925440%Z;
  dlt_swo := Z_swo;
|}.

Section dist.
Context {D : Type} `{DistOrd D}.

Lemma dle_not_after (a b : D) : dle a b = true ↔ not_after dlt a b.
Proof. unfold dle, not_after. by rewrite negb_true_iff. Qed.

Lemma dge_not_after (a b : D) : dge a b = true ↔ not_after dlt b a.
Proof. unfold dge, not_after. by rewrite negb_true_iff. Qed.
End dist.
