(* ===== verification/Graph.v ===== *)
(** * Graph index: candidates, entry point and the store a search reads

    Data of [src/common/include/graph_index/graph_index_struct.h] and the part of
    the [Store] template argument that the searches of
    [src/common/include/graph_index/graph_index_algorithm.h] use, as a class.
    The store that implements it is in [MemStore.v].

    Ids are [uint32] (the default [IdType]) kept as [N]; [INVALID_VECTOR_ID] is
    [(T)SIZE_MAX], all ones. *)
From Stdlib Require Import ZArith Lia.
From stdpp Require Import prelude gmap sorting.
From S2P Require Import Prelude Dist PriorityQueue.

Definition INVALID_VECTOR_ID : N := 4294967295.

Definition is_valid (id : N) : bool := negb (id =? INVALID_VECTOR_ID)%N.

(** [GraphIndexCandidate<T>]. [c_val] is the [const char *] set by
    [get_neighbors_data]; [None] is [nullptr]. *)
Record cand (D V : Type) := Cand {
  c_id : N;
  c_cur : N;
  c_lower : N;
  c_dist : D;
  c_val : option V;
}.
Arguments Cand {D V} _ _ _ _ _.
Arguments c_id {D V} _.
Arguments c_cur {D V} _.
Arguments c_lower {D V} _.
Arguments c_dist {D V} _.
Arguments c_val {D V} _.

(** [GraphIndexEntryInfo]; the default constructor is [empty_entry]. *)
Record entry_info := EntryInfo {
  e_id : N;
  e_cur : N;
  e_level : Z;
}.

Definition empty_entry : entry_info := EntryInfo INVALID_VECTOR_ID INVALID_VECTOR_ID (-1).

Section Cand.
Context {D V : Type} `{DistOrd D}.

Definition default_cand : cand D V :=
  Cand INVALID_VECTOR_ID INVALID_VECTOR_ID INVALID_VECTOR_ID FLT_MAX None.

Definition mk_cand (id cur : N) (dist : D) : cand D V := Cand id cur INVALID_VECTOR_ID dist None.

(** The comparators of the two queues: [cpq] is a min heap, [fpq] a max heap. *)
Definition ClosestCompare (a b : cand D V) : bool := dlt (c_dist a) (c_dist b).
Definition FurthestCompare (a b : cand D V) : bool := dgt (c_dist a) (c_dist b).

#[export] Instance closest_swo : StrictWeakOrder ClosestCompare.
Proof. exact (swo_on_key c_dist dlt dlt_swo). Qed.

#[export] Instance furthest_swo : StrictWeakOrder FurthestCompare.
Proof. exact (swo_flip ClosestCompare closest_swo). Qed.
End Cand.

(** What [get_point_info] returns: the neighbour ids, their indices in the
    layer (the second half of the upper record; the ids again in the base
    layer), and the node's index in the layer below. *)
Record point_info := PointInfo {
  pi_nbr_id : list N;
  pi_nbr_cur : list N;
  pi_lower : N;
}.

(** The store interface of a search. [Q] is the query. *)
Class SearchStore (S D Q : Type) := {
  get_point_info : S → bool → N → point_info;
  search_neighbor_count : S → bool → N → nat;
  get_distance : S → Q → N → D;
  get_entry : S → entry_info;
  search_node_count : S → N;
}.

Section Neighbors.
Context {S D Q : Type} `{SearchStore S D Q}.

(** The neighbour slots a search reads for the node at [cur], in order, with
    the matching layer indices. *)
Definition slots (s : S) (base : bool) (cur : N) : list (N * N) :=
  let info := get_point_info s base cur in
  take (search_neighbor_count s base cur) (zip (pi_nbr_id info) (pi_nbr_cur info)).

(** The scan stops at the first invalid id: the edges of the node. *)
Fixpoint valid_prefix (l : list (N * N)) : list (N * N) :=
  match l with
  | [] => []
  | (id, cur) :: l => if is_valid id then (id, cur) :: valid_prefix l else []
  end.

Definition edges (s : S) (base : bool) (cur : N) : list (N * N) :=
  valid_prefix (slots s base cur).

(** Nodes (id, layer index) reachable from a set of starting nodes. *)
Inductive reachable (s : S) (base : bool) (start : list (N * N)) : N * N → Prop :=
| reach_start p : p ∈ start → reachable s base start p
| reach_step p q : reachable s base start p → q ∈ edges s base p.2 → reachable s base start q.
End Neighbors.

Lemma valid_prefix_valid l p : p ∈ valid_prefix l → is_valid p.1 = true.
Proof.
  induction l as [|[id cur] l IH]; simpl; [by intros ?%elem_of_nil|].
  destruct (is_valid id) eqn:E; [|by intros ?%elem_of_nil].
  intros [->|?]%elem_of_cons; auto.
Qed.

Lemma valid_prefix_subset l p : p ∈ valid_prefix l → p ∈ l.
Proof.
  induction l as [|[id cur] l IH]; simpl; [done|].
  destruct (is_valid id); [|by intros ?%elem_of_nil].
  rewrite !elem_of_cons. intros [->|?]; auto.
Qed.
