(* ===== verification/GraphSearch.v ===== *)
(** * Searching the graph

    [search_layer], [search_upper_layer], [search_internal], [refine] and
    [search] of [src/common/include/graph_index/graph_index_algorithm.h] over any
    store of the [SearchStore] class. The point locks of the code are taken and
    released around each read and have no effect on a sequential search; the
    observer and the [SearchInterrupt] hook have no state the search reads.

    The loops run on fuel and return [None] when it runs out; the termination
    theorems give an amount that is always enough. *)
From Stdlib Require Import ZArith Lia.
From stdpp Require Import prelude gmap sorting.
From S2P Require Import Prelude Dist PriorityQueue Graph.

Section GraphSearch.
Context {S D Q V : Type} `{DistOrd D} `{SearchStore S D Q}.
Implicit Types (s : S) (q : Q).

(** ** Expanding one node *)

(** The neighbour scan: stop at the first invalid id, skip a visited one,
    collect the others and mark them visited. *)
Fixpoint fresh_neighbors (l : list (N * N)) (visited : gset N) : list (N * N) * gset N :=
  match l with
  | [] => ([], visited)
  | (id, cur) :: l =>
    if negb (is_valid id) then ([], visited)
    else if decide (id ∈ visited) then fresh_neighbors l visited
    else
      let '(nbr, visited) := fresh_neighbors l ({[id]} ∪ visited) in
      ((id, cur) :: nbr, visited)
  end.

(** Push the scored neighbours that are closer than the threshold. *)
Definition push_fresh s q (threshold : D) (closest : list (cand D V)) (nbr : list (N * N)) :
    list (cand D V) :=
  foldl (λ closest '(id, cur),
    let dist := get_distance s q id in
    if dge dist threshold then closest
    else push ClosestCompare closest (mk_cand id cur dist)) closest nbr.

(** [furthest.emplace(...)]; drop the furthest when there are more than [ef]. *)
Definition keep_closest (ef : nat) (furthest : list (cand D V)) (c : cand D V) : list (cand D V) :=
  let furthest := push FurthestCompare furthest c in
  if ef <? length furthest then default furthest (pop FurthestCompare furthest) else furthest.

(** [furthest.size() < ef ? FLT_MAX : furthest.top().dist] *)
Definition search_threshold (ef : nat) (furthest : list (cand D V)) : D :=
  if length furthest <? ef then FLT_MAX
  else match top furthest with Some t => c_dist t | None => FLT_MAX end.

(** [furthest.size() == ef && cur_point.dist > furthest.top().dist] *)
Definition search_stop (ef : nat) (furthest : list (cand D V)) (cur : cand D V) : bool :=
  (length furthest =? ef) &&
  match top furthest with Some t => dgt (c_dist cur) (c_dist t) | None => false end.

(** ** [search_layer] *)

Fixpoint search_layer_loop (fuel : nat) s q (base : bool) (ef : nat) (filter : N → bool)
    (closest furthest : list (cand D V)) (visited : gset N) : option (list (cand D V)) :=
  match fuel with
  | O => None
  | Datatypes.S fuel =>
    match top closest, pop ClosestCompare closest with
    | Some cur, Some closest =>
      if search_stop ef furthest cur then Some furthest
      else
        let lower := pi_lower (get_point_info s base (c_cur cur)) in
        let '(nbr, visited) := fresh_neighbors (slots s base (c_cur cur)) visited in
        let closest := push_fresh s q (search_threshold ef furthest) closest nbr in
        if negb (filter (c_id cur)) then
          search_layer_loop fuel s q base ef filter closest furthest visited
        else
          let furthest :=
            keep_closest ef furthest (Cand (c_id cur) (c_cur cur) lower (c_dist cur) None) in
          search_layer_loop fuel s q base ef filter closest furthest visited
    | _, _ => Some furthest
    end
  end.

Definition search_layer (fuel : nat) s q (base : bool) (entrypoint : list (cand D V)) (ef : nat)
    (filter : N → bool) : option (list (cand D V)) :=
  sort FurthestCompare <$>
    search_layer_loop fuel s q base ef filter
      (of_vector ClosestCompare entrypoint true) [] (list_to_set (c_id <$> entrypoint)).

(** ** [search_upper_layer]: greedy walk, [ef == 1] *)

Record greedy_state := Greedy {
  g_id : N;
  g_cur : N;
  g_closest : D;
  g_converged : bool;
}.

Definition greedy_pick s q (st : greedy_state) (nbr : list (N * N)) : greedy_state :=
  foldl (λ st '(id, cur),
    let dist := get_distance s q id in
    if dlt dist (g_closest st) then Greedy id cur dist false else st) st nbr.

Fixpoint search_upper_loop (fuel m : nat) s q (id cur : N) (closest_dist : D)
    (visited : gset N) : option (N * N * N * D) :=
  match fuel with
  | O => None
  | Datatypes.S fuel =>
    let info := get_point_info s false cur in
    let lower := pi_lower info in
    let '(nbr, visited) :=
      fresh_neighbors (take m (zip (pi_nbr_id info) (pi_nbr_cur info))) visited in
    let st := greedy_pick s q (Greedy id cur closest_dist true) nbr in
    if g_converged st then Some (g_id st, g_cur st, lower, g_closest st)
    else search_upper_loop fuel m s q (g_id st) (g_cur st) (g_closest st) visited
  end.

(** [closest_dist != FLT_MAX ? closest_dist : cur_point.dist] *)
Definition search_upper_layer (fuel m : nat) s q (cur_point : cand D V) : option (cand D V) :=
  match search_upper_loop fuel m s q (c_id cur_point) (c_cur cur_point) FLT_MAX ∅ with
  | Some (id, cur, lower, closest_dist) =>
    let dist := if dlt closest_dist FLT_MAX || dlt FLT_MAX closest_dist then closest_dist
                else c_dist cur_point in
    Some (Cand id cur lower dist (c_val cur_point))
  | None => None
  end.

Definition replace_lower_layer_idx (c : list (cand D V)) : list (cand D V) :=
  (λ p, Cand (c_id p) (c_lower p) INVALID_VECTOR_ID (c_dist p) (c_val p)) <$> c.

(** ** [search_internal] *)

Fixpoint descend (fuel m levels : nat) s q (ep : cand D V) : option (cand D V) :=
  match levels with
  | O => Some ep
  | Datatypes.S levels =>
    match search_upper_layer fuel m s q ep with
    | Some ep =>
      descend fuel m levels s q
        (Cand (c_id ep) (c_lower ep) INVALID_VECTOR_ID (c_dist ep) (c_val ep))
    | None => None
    end
  end.

(** The scan of a graph no larger than the budget; [std::sort] by distance. *)
Definition scan_all s q (node_count : N) (filter : N → bool) : list (cand D V) :=
  merge_sort (not_after ClosestCompare)
    ((λ i : nat, mk_cand (N.of_nat i) (N.of_nat i) (get_distance s q (N.of_nat i))) <$>
      base.filter (λ i, filter (N.of_nat i) = true) (seq 0 (N.to_nat node_count))).

(** [ef_search *= 1.25f]: exact in [float] for [5 * ef < 2^24]. *)
Definition refine_ef (need_refine : bool) (ef : N) : N :=
  if need_refine then (ef * 5 / 4)%N else ef.

Definition search_internal (fuel m : nat) (need_refine : bool) s q (entry : entry_info) (ef_search : N)
    (filter : N → bool) : option (list (cand D V)) :=
  let node_count := search_node_count s in
  if negb (node_count =? 0)%N && (node_count <=? ef_search)%N then
    Some (scan_all s q node_count filter)
  else
    let ef := refine_ef need_refine ef_search in
    match descend fuel m (Z.to_nat (e_level entry)) s q
            (mk_cand (e_id entry) (e_cur entry) (get_distance s q (e_id entry))) with
    | Some ep => search_layer fuel s q true [ep] (N.to_nat ef) filter
    | None => None
    end.

(** ** [refine] and [search]

    [precise id] is the distance to the vector read back from the heap table,
    [None] when [fetch_vec_from_heap] fails. *)
Definition refine (need_refine : bool) (precise : N → option D) (c : list (cand D V)) :
    list (cand D V) :=
  if need_refine then
    merge_sort (not_after ClosestCompare)
      ((λ p, Cand (c_id p) (c_cur p) (c_lower p) (default FLT_MAX (precise (c_id p))) (c_val p)) <$> c)
  else c.

Definition search {TID : Type} (fuel m : nat) (need_refine : bool) s q (ef_search : N)
    (filter : N → bool) (precise : N → option D) (get_tids : N → list TID) :
    option (list (TID * D)) :=
  let entry := get_entry s in
  if negb (is_valid (e_id entry)) then Some []
  else
    match search_internal fuel m need_refine s q entry ef_search filter with
    | Some ep =>
      let ep := refine need_refine precise ep in
      Some (c ← ep; tid ← get_tids (c_id c); [(tid, c_dist c)])
    | None => None
    end.
End GraphSearch.
