(* ===== verification/GraphSearchFacts.v ===== *)
(** * What a layer search guarantees

    Invariant of the [search_layer] loop, its termination, and the properties of
    its result: sorted, within the budget, duplicate free, filtered, at correct
    distances, and a local optimum of the graph; exact when the budget covers
    the reachable nodes. *)
From Stdlib Require Import ZArith Lia.
From stdpp Require Import prelude gmap fin_sets sorting.
From S2P Require Import Prelude Dist PriorityQueue Graph GraphSearch.

(** ** The neighbour scan *)

Lemma fresh_neighbors_spec l visited nbr visited' :
  fresh_neighbors l visited = (nbr, visited') →
  visited' = visited ∪ list_to_set (fst <$> nbr) ∧
  NoDup (fst <$> nbr) ∧
  (∀ p, p ∈ nbr → p ∈ valid_prefix l ∧ p.1 ∉ visited) ∧
  (∀ p, p ∈ valid_prefix l → p.1 ∈ visited').
Proof.
  revert visited nbr. induction l as [|[id cur] l IH]; intros visited nbr Heq; simplify_eq/=.
  { split_and!; [set_solver|constructor|set_solver|set_solver]. }
  destruct (is_valid id); simplify_eq/=;
    [|split_and!; [set_solver|constructor|set_solver|set_solver]].
  case_decide as Hin.
  - destruct (IH _ _ Heq) as (-> & Hnd & Hsub & Hcl). split_and!; [done|done| |].
    + intros p Hp. destruct (Hsub p Hp). split; [by right|done].
    + intros p [->|Hp]%elem_of_cons; simpl; [set_solver|by apply Hcl].
  - destruct (fresh_neighbors l ({[id]} ∪ visited)) as [nbr0 v0] eqn:Hrec. simplify_eq.
    destruct (IH _ _ Hrec) as (-> & Hnd & Hsub & Hcl). split_and!.
    + set_solver.
    + simpl. constructor; [|done].
      intros ([id' c'] & Hid & Hp)%list_elem_of_fmap. simpl in Hid. subst id'.
      destruct (Hsub _ Hp) as [_ Hni]. simpl in Hni. set_solver.
    + intros p [->|Hp]%elem_of_cons; [split; [by left|done]|].
      destruct (Hsub p Hp). split; [by right|set_solver].
    + intros p [->|Hp]%elem_of_cons; simpl; [set_solver|].
      specialize (Hcl p Hp). set_solver.
Qed.

Section Facts.
Context {S D Q V : Type} `{DistOrd D} `{SearchStore S D Q}.
Implicit Types (s : S) (q : Q) (c : cand D V).

Abbreviation closer := (not_after (dlt (D:=D))).

(** ** Pushing the scored neighbours *)

Definition scored s q (p : N * N) : cand D V := mk_cand p.1 p.2 (get_distance s q p.1).

Definition kept s q (threshold : D) (nbr : list (N * N)) : list (N * N) :=
  filter (λ p, dge (get_distance s q p.1) threshold = false) nbr.

Lemma push_fresh_spec s q threshold (closest : list (cand D V)) nbr :
  push_fresh s q threshold closest nbr ≡ₚ (scored s q <$> kept s q threshold nbr) ++ closest ∧
  (is_heap ClosestCompare closest →
   is_heap ClosestCompare (push_fresh s q threshold closest nbr)).
Proof.
  revert closest. induction nbr as [|[id cur] nbr IH]; intros closest; [done|].
  unfold push_fresh. simpl. unfold kept. rewrite filter_cons. simpl.
  destruct (dge (get_distance s q id) threshold) eqn:E.
  - rewrite decide_False by done. apply IH.
  - rewrite decide_True by done. destruct (IH (push ClosestCompare closest
      (mk_cand id cur (get_distance s q id)))) as [Hp Hh].
    split; [|intros Hc; apply Hh; by apply (push_is_heap _)].
    fold (kept s q threshold nbr). etransitivity; [exact Hp|].
    rewrite push_Permutation. by rewrite <-Permutation_middle.
Qed.

(** ** The bounded result queue *)

(** [d] is not closer than any of the [ef] results kept. *)
Definition beaten (ef : nat) (d : D) (furthest : list (cand D V)) : Prop :=
  length furthest = ef ∧ ∀ f, f ∈ furthest → closer (c_dist f) d.

Lemma furthest_top (furthest : list (cand D V)) t f :
  is_heap FurthestCompare furthest → top furthest = Some t → f ∈ furthest →
  closer (c_dist f) (c_dist t).
Proof. intros Hh Ht Hf. apply (heap_top_first FurthestCompare _ _ _ Hh Ht Hf). Qed.

Lemma keep_closest_spec ef (furthest : list (cand D V)) c :
  0 < ef → length furthest ≤ ef → is_heap FurthestCompare furthest →
  let f' := keep_closest ef furthest c in
  is_heap FurthestCompare f' ∧ length f' ≤ ef ∧
  ((f' ≡ₚ c :: furthest ∧ length furthest < ef) ∨
   (∃ z, c :: furthest ≡ₚ z :: f' ∧ length furthest = ef ∧
      ∀ y, y ∈ c :: furthest → closer (c_dist y) (c_dist z))).
Proof.
  intros Hef Hlen Hheap. unfold keep_closest.
  pose proof (push_Permutation FurthestCompare furthest c) as Hp.
  pose proof (push_is_heap FurthestCompare furthest c Hheap) as Hh.
  set (d := push FurthestCompare furthest c) in *.
  assert (Hl : length d = Datatypes.S (length furthest)) by (by rewrite Hp).
  destruct (Nat.ltb_spec ef (length d)) as [Hgt|Hle].
  - destruct (top d) as [z|] eqn:Hz; [|destruct d; simpl in *; [lia|done]].
    destruct (pop_nonempty FurthestCompare d z Hh Hz) as (d' & -> & Hh' & Hp'). simpl.
    assert (Hl' : length d = Datatypes.S (length d')) by (by rewrite Hp').
    split_and!; [done|lia|]. right. exists z. split_and!; [by rewrite <-Hp|lia|].
    intros y Hy. apply (furthest_top d); [done..|by rewrite Hp].
  - split_and!; [done|lia|]. left. split; [done|lia].
Qed.

Lemma beaten_keep ef d (furthest : list (cand D V)) c :
  0 < ef → length furthest ≤ ef → is_heap FurthestCompare furthest →
  beaten ef d furthest → beaten ef d (keep_closest ef furthest c).
Proof.
  intros Hef Hlen Hheap [Hfull Hall].
  destruct (keep_closest_spec ef furthest c Hef Hlen Hheap)
    as (_ & _ & [[_ ?]|(z & Hp & _ & Hz)]); [lia|].
  assert (Hl : length (c :: furthest) = length (z :: keep_closest ef furthest c))
    by (by rewrite Hp). simpl in Hl. split; [lia|]. intros f Hf.
  assert (f ∈ c :: furthest) as Hin by (rewrite Hp; by right).
  apply elem_of_cons in Hin as [->|Hin]; [|by apply Hall].
  assert (z ∈ c :: furthest) as Hzin by (rewrite Hp; by left).
  apply elem_of_cons in Hzin as [->|Hzin].
  - apply Permutation_cons_inv in Hp. apply Hall. by rewrite Hp.
  - transitivity (c_dist z); [apply Hz; by left|by apply Hall].
Qed.

Lemma keep_closest_keeps ef (furthest : list (cand D V)) c x :
  0 < ef → length furthest ≤ ef → is_heap FurthestCompare furthest → x ∈ c :: furthest →
  x ∈ keep_closest ef furthest c ∨ beaten ef (c_dist x) (keep_closest ef furthest c).
Proof.
  intros Hef Hlen Hheap Hx.
  destruct (keep_closest_spec ef furthest c Hef Hlen Hheap)
    as (_ & Hl & [[Hp _]|(z & Hp & Hfull & Hz)]); [left; by rewrite Hp|].
  assert (Hl' : length (c :: furthest) = length (z :: keep_closest ef furthest c))
    by (by rewrite Hp). simpl in Hl'.
  rewrite Hp in Hx. apply elem_of_cons in Hx as [->|?]; [|by left].
  right. split; [lia|]. intros f Hf. apply Hz. rewrite Hp. by right.
Qed.

Lemma keep_closest_subset ef (furthest : list (cand D V)) c :
  0 < ef → length furthest ≤ ef → is_heap FurthestCompare furthest →
  keep_closest ef furthest c ⊆+ c :: furthest.
Proof.
  intros Hef Hlen Hheap.
  destruct (keep_closest_spec ef furthest c Hef Hlen Hheap) as (_ & _ & [[-> _]|(z & -> & _)]);
    [done|]. by apply submseteq_cons.
Qed.

(** ** The loop invariant *)

Section Loop.
Context s q (base : bool) (ef : nat) (flt : N → bool) (start : list (N * N)).
Hypothesis ef_pos : 0 < ef.

(** The distance a node is taken at: its own, but for the nodes the search starts from,
    which come with a distance. *)
Context (dist_of : N → D).
Hypothesis dist_of_met : ∀ v, v ∉ start.*1 → dist_of v = get_distance s q v.

(** The result entry made from an expanded candidate. *)
Definition result_of c : cand D V :=
  Cand (c_id c) (c_cur c) (pi_lower (get_point_info s base (c_cur c))) (c_dist c) None.

(** A candidate is known: marked visited, at its distance, reachable. *)
Definition known (visited : gset N) c : Prop :=
  c_id c ∈ visited ∧ c_dist c = dist_of (c_id c) ∧ reachable s base start (c_id c, c_cur c).

(** [E] is the list of expanded candidates. The frontier: what is visited is
    expanded, waiting in [closest], or too far to matter. *)
Record frontier_inv (E closest furthest : list (cand D V)) (visited : gset N) : Prop := {
  fi_closest : is_heap ClosestCompare closest;
  fi_start : ∀ p, p ∈ start → p.1 ∈ visited;
  fi_nodup : NoDup (c_id <$> E ++ closest);
  fi_known : ∀ c, c ∈ E ++ closest → known visited c;
  fi_visited : ∀ v, v ∈ visited →
    v ∈ c_id <$> E ++ closest ∨ closer FLT_MAX (dist_of v) ∨ beaten ef (dist_of v) furthest;
  fi_closed : ∀ e p, e ∈ E → p ∈ edges s base (c_cur e) → p.1 ∈ visited;
}.

(** The result queue: the best [ef] of the expanded nodes that pass the filter. *)
Record results_inv (E furthest : list (cand D V)) : Prop := {
  ri_heap : is_heap FurthestCompare furthest;
  ri_len : length furthest ≤ ef;
  ri_nodup : NoDup (c_id <$> furthest);
  ri_from : ∀ f, f ∈ furthest → ∃ e, e ∈ E ∧ f = result_of e ∧ flt (c_id e) = true;
  ri_best : ∀ e, e ∈ E → flt (c_id e) = true →
    c_id e ∈ c_id <$> furthest ∨ beaten ef (c_dist e) furthest;
}.

(** What one iteration does to the result queue. *)
Record furthest_step (cur : cand D V) (furthest furthest' : list (cand D V)) : Prop := {
  fs_heap : is_heap FurthestCompare furthest';
  fs_len : length furthest' ≤ ef;
  fs_sub : furthest' ⊆+ (if flt (c_id cur) then result_of cur :: furthest else furthest);
  fs_beaten : ∀ d, beaten ef d furthest → beaten ef d furthest';
  fs_old : ∀ f, f ∈ furthest → f ∈ furthest' ∨ beaten ef (c_dist f) furthest';
  fs_new : flt (c_id cur) = true →
    result_of cur ∈ furthest' ∨ beaten ef (c_dist cur) furthest';
}.

Lemma furthest_step_skip cur furthest :
  flt (c_id cur) = false → is_heap FurthestCompare furthest → length furthest ≤ ef →
  furthest_step cur furthest furthest.
Proof. intros Hf Hh Hl. split; rewrite ?Hf; eauto. done. Qed.

Lemma furthest_step_keep cur furthest :
  flt (c_id cur) = true → is_heap FurthestCompare furthest → length furthest ≤ ef →
  furthest_step cur furthest (keep_closest ef furthest (result_of cur)).
Proof.
  intros Hf Hh Hl.
  destruct (keep_closest_spec ef furthest (result_of cur) ef_pos Hl Hh) as (Hh' & Hl' & _).
  split; rewrite ?Hf; [done|done| | | |].
  - by apply keep_closest_subset.
  - intros d. by apply beaten_keep.
  - intros f Hin. apply keep_closest_keeps; [done..|by right].
  - intros _. apply (keep_closest_keeps ef furthest (result_of cur) (result_of cur)); [done..|by left].
Qed.

Lemma search_threshold_beaten furthest d :
  is_heap FurthestCompare furthest → length furthest ≤ ef →
  dge d (search_threshold ef furthest) = true → closer FLT_MAX d ∨ beaten ef d furthest.
Proof.
  intros Hh Hl Hd%dge_not_after. unfold search_threshold in Hd.
  destruct (Nat.ltb_spec (length furthest) ef) as [|Hge]; [by left|]. right.
  split; [lia|]. intros f Hf. destruct (top furthest) as [t|] eqn:Ht;
    [|destruct furthest; [by apply elem_of_nil in Hf|done]].
  transitivity (c_dist t); [by apply (furthest_top furthest)|done].
Qed.

Lemma frontier_step E closest closest0 furthest furthest' visited visited' cur nbr :
  frontier_inv E closest furthest visited → results_inv E furthest →
  closest ≡ₚ cur :: closest0 → is_heap ClosestCompare closest0 →
  fresh_neighbors (slots s base (c_cur cur)) visited = (nbr, visited') →
  furthest_step cur furthest furthest' →
  frontier_inv (cur :: E) (push_fresh s q (search_threshold ef furthest) closest0 nbr)
    furthest' visited'.
Proof.
  intros [Hc Hs Hnd Hk Hv Hcl] [Hf Hl _ _ _] Hperm Hh0 Hfresh [_ _ _ Gb _ _].
  destruct (fresh_neighbors_spec _ _ _ _ Hfresh) as (-> & Hnnd & Hnsub & Hncl).
  destruct (push_fresh_spec s q (search_threshold ef furthest) closest0 nbr) as [Hpp Hph].
  set (closest1 := push_fresh _ _ _ _ _) in *.
  set (ks := kept s q (search_threshold ef furthest) nbr) in *.
  assert (Hnew : (cur :: E) ++ closest1 ≡ₚ (scored s q <$> ks) ++ (E ++ closest)).
  { rewrite Hpp, Hperm. simpl. rewrite <-Permutation_middle.
    rewrite (Permutation_app_swap_app _ _ closest0). by rewrite <-Permutation_middle. }
  assert (Hks : ∀ p, p ∈ ks → p ∈ edges s base (c_cur cur) ∧ p.1 ∉ visited ∧ p ∈ nbr).
  { intros p [_ Hp]%list_elem_of_filter. destruct (Hnsub p Hp). done. }
  destruct (Hk cur) as (Hcv & Hcd & Hcr); [rewrite Hperm; set_solver|].
  assert (Hids : c_id <$> (scored s q <$> ks) = fst <$> ks).
  { rewrite <-list_fmap_compose. by apply list_fmap_ext. }
  assert (Hmet : ∀ p, p ∈ nbr → dist_of p.1 = get_distance s q p.1).
  { intros p Hp. apply dist_of_met. intros (p0 & E0 & Hp0)%list_elem_of_fmap. destruct (Hnsub p Hp) as [_ Hni]. apply Hni. rewrite E0. by apply Hs. }
  split; [by apply Hph|set_solver|..].
  - rewrite Hnew, fmap_app, Hids. apply NoDup_app. split_and!; [| |done].
    + eapply sublist_NoDup; [exact Hnnd|]. apply fmap_sublist, sublist_filter.
    + intros v (p & Hvp & Hp)%list_elem_of_fmap (c & Hvc & Hcin)%list_elem_of_fmap.
      destruct (Hks _ Hp) as (_ & Hni & _). apply Hni. rewrite <-Hvp, Hvc. by apply Hk.
  - intros c. rewrite Hnew. intros [([id i] & -> & Hp)%list_elem_of_fmap|Hin]%elem_of_app.
    + destruct (Hks _ Hp) as (Hedge & _ & Hin). split_and!; simpl; [|exact (eq_sym (Hmet _ Hin))|].
      * apply elem_of_union_r, elem_of_list_to_set. by apply (list_elem_of_fmap_2 fst nbr (id, i)).
      * by eapply (reach_step _ _ _ (c_id cur, c_cur cur)).
    + destruct (Hk c Hin) as (? & ? & ?). split_and!; [set_solver|done..].
  - intros v. rewrite elem_of_union, elem_of_list_to_set, Hnew, fmap_app, elem_of_app, Hids.
    intros [Hin|(p & -> & Hp)%list_elem_of_fmap]; [destruct (Hv v Hin) as [?|[?|?]]; eauto|].
    destruct (dge (get_distance s q p.1) (search_threshold ef furthest)) eqn:Hdge.
    + right. rewrite (Hmet p Hp). destruct (search_threshold_beaten _ _ Hf Hl Hdge); auto.
    + left. left. apply (list_elem_of_fmap_2 fst ks p). by apply list_elem_of_filter.
  - intros e p [->|He]%elem_of_cons Hp; [by apply Hncl|]. apply elem_of_union_l. by eapply Hcl.
Qed.

Lemma results_step E closest closest0 furthest furthest' visited cur :
  frontier_inv E closest furthest visited → results_inv E furthest →
  closest ≡ₚ cur :: closest0 → furthest_step cur furthest furthest' →
  results_inv (cur :: E) furthest'.
Proof.
  intros [_ _ Hnd Hk _ _] [Hf Hl Hfn Hfrom Hb] Hperm [Gh Gl Gs Gb Go Gn].
  split; [done|done|..].
  - eapply submseteq_NoDup; [|apply (fmap_submseteq c_id), Gs].
    destruct (flt (c_id cur)); [|done]. simpl. constructor; [|done].
    intros (f & Hid & Hin)%list_elem_of_fmap.
    destruct (Hfrom f Hin) as (e & He & -> & _). simpl in Hid.
    rewrite Hperm, fmap_app, NoDup_app in Hnd. destruct Hnd as (_ & Hdis & _).
    apply (Hdis (c_id cur)); [rewrite Hid; by apply list_elem_of_fmap_2|]. simpl. by left.
  - intros f Hin. eapply elem_of_submseteq in Gs; [|exact Hin].
    destruct (flt (c_id cur)) eqn:Hflt; [apply elem_of_cons in Gs as [->|Gs]|].
    1: exists cur; split_and!; [by left|done..].
    all: destruct (Hfrom f Gs) as (e & ? & ? & ?); exists e; split_and!; [by right|done..].
  - intros e [->|He]%elem_of_cons Hflt.
    + destruct (Gn Hflt) as [Hin|?]; [left|by right].
      by apply (list_elem_of_fmap_2 c_id furthest' (result_of cur)).
    + destruct (Hb e He Hflt) as [(f & Hid & Hin)%list_elem_of_fmap|?]; [|right; by apply Gb].
      destruct (Go f Hin) as [Hin'|Hbt]; [left; rewrite Hid; by apply list_elem_of_fmap_2|].
      right. destruct (Hfrom f Hin) as (e' & He' & -> & _). simpl in *.
      destruct (Hk e) as (_ & -> & _); [set_solver|]. rewrite Hid.
      destruct (Hk e') as (_ & <- & _); [set_solver|]. done.
Qed.

(** ** Leaving the loop *)

(** When the loop stops, what is left in [closest] cannot improve the result. *)
Lemma frontier_stop E closest furthest visited :
  frontier_inv E closest furthest visited →
  (∀ c, c ∈ closest → beaten ef (c_dist c) furthest) →
  frontier_inv E [] furthest visited.
Proof.
  intros [Hc Hs Hnd Hk Hv Hcl] Hb. split; [by intros i Hi; simpl in Hi; lia|done|..].
  - rewrite app_nil_r. rewrite fmap_app, NoDup_app in Hnd. by destruct Hnd.
  - intros c Hin. apply Hk. rewrite app_nil_r in Hin. set_solver.
  - intros v Hin. rewrite app_nil_r. destruct (Hv v Hin) as [Hids|?]; [|by right].
    rewrite fmap_app, elem_of_app in Hids. destruct Hids as [?|(c & -> & Hcin)%list_elem_of_fmap];
      [by left|]. right; right. destruct (Hk c) as (_ & <- & _); [set_solver|]. by apply Hb.
  - done.
Qed.

Lemma search_stop_beaten furthest closest cur :
  is_heap FurthestCompare furthest → is_heap ClosestCompare closest →
  top closest = Some cur → search_stop ef furthest cur = true →
  ∀ c, c ∈ closest → beaten ef (c_dist c) furthest.
Proof.
  intros Hf Hc Hcur [Hlen%Nat.eqb_eq Hd]%andb_prop c Hin. split; [done|]. intros f Hfin.
  destruct (top furthest) as [t|] eqn:Ht; [|done].
  pose proof (heap_top_first ClosestCompare _ _ _ Hc Hcur Hin) as Hcc.
  transitivity (c_dist t); [by apply (furthest_top furthest)|].
  transitivity (c_dist cur); [exact (comp_not_after dlt _ _ Hd)|exact Hcc].
Qed.

(** ** Termination and total correctness of the loop *)

(** Iterations left: waiting candidates and nodes not yet visited. *)
Definition pending (U : gset N) (closest : list (cand D V)) (visited : gset N) : nat :=
  length closest + size (U ∖ visited).

Lemma pending_step (U visited visited' : gset N) closest closest0 threshold cur nbr :
  closest ≡ₚ cur :: closest0 →
  fresh_neighbors (slots s base (c_cur cur)) visited = (nbr, visited') →
  (∀ p, p ∈ edges s base (c_cur cur) → p.1 ∈ U) →
  pending U (push_fresh s q threshold closest0 nbr) visited' < pending U closest visited.
Proof.
  intros Hperm Hfresh HU.
  destruct (fresh_neighbors_spec _ _ _ _ Hfresh) as (-> & Hnd & Hsub & _).
  destruct (push_fresh_spec s q threshold closest0 nbr) as [Hpp _].
  unfold pending. rewrite Hpp, Hperm, length_app, length_fmap. simpl.
  pose proof (length_filter (λ p, dge (get_distance s q p.1) threshold = false) nbr).
  fold (kept s q threshold nbr) in *.
  rewrite (size_difference_fresh U visited (fst <$> nbr)), length_fmap; [lia|done|].
  intros v (p & -> & Hp)%list_elem_of_fmap. destruct (Hsub p Hp). split; [by apply HU|done].
Qed.

Lemma search_layer_loop_spec (U : gset N) fuel E closest furthest visited :
  (∀ p, reachable s base start p → p.1 ∈ U) →
  frontier_inv E closest furthest visited → results_inv E furthest →
  pending U closest visited < fuel →
  ∃ r E' visited', search_layer_loop fuel s q base ef flt closest furthest visited = Some r ∧
    frontier_inv E' [] r visited' ∧ results_inv E' r.
Proof.
  intros HU. revert E closest furthest visited.
  induction fuel as [|fuel IH]; intros E closest furthest visited Hfr Hres Hfuel; [lia|].
  simpl. destruct (top closest) as [cur|] eqn:Htop.
  2: { destruct closest; [|done]. by exists furthest, E, visited. }
  pose proof (fi_closest _ _ _ _ Hfr) as Hheap.
  destruct (pop_nonempty ClosestCompare closest cur Hheap Htop) as (closest0 & -> & Hh0 & Hperm).
  destruct (search_stop ef furthest cur) eqn:Hstop.
  { exists furthest, E, visited. split_and!; [done| |done]. apply (frontier_stop _ _ _ _ Hfr).
    by apply (search_stop_beaten _ _ cur); [apply Hres|..]. }
  destruct (fresh_neighbors _ visited) as [nbr visited'] eqn:Hfresh.
  assert (Hedge : ∀ p, p ∈ edges s base (c_cur cur) → p.1 ∈ U).
  { intros p Hp. apply HU. eapply (reach_step _ _ _ (c_id cur, c_cur cur)); [|done].
    apply (fi_known _ _ _ _ Hfr). rewrite Hperm. set_solver. }
  pose proof (pending_step U visited visited' closest closest0 (search_threshold ef furthest) cur
    nbr Hperm Hfresh Hedge).
  pose proof (ri_heap _ _ Hres) as Hfh. pose proof (ri_len _ _ Hres) as Hfl.
  destruct (flt (c_id cur)) eqn:Hflt; simpl; eapply (IH (cur :: E)); try lia.
  - eapply frontier_step; [done..|]. by apply furthest_step_keep.
  - eapply results_step; [done..|]. by apply furthest_step_keep.
  - eapply frontier_step; [done..|]. by apply furthest_step_skip.
  - eapply results_step; [done..|]. by apply furthest_step_skip.
Qed.
End Loop.

(** ** [search_layer] *)

(** The entry candidates [search_layer] expects: in heap order, distinct, at
    their true distances. *)
Record entry_ok s q (ep : list (cand D V)) : Prop := {
  eo_heap : is_heap ClosestCompare ep;
  eo_nodup : NoDup (c_id <$> ep);
  eo_dist : ∀ c, c ∈ ep → c_dist c = get_distance s q (c_id c);
}.

Definition starts (ep : list (cand D V)) : list (N * N) := (λ c, (c_id c, c_cur c)) <$> ep.

(** [U] holds every id the search can meet. *)
Definition covers s (base : bool) (ep : list (cand D V)) (U : gset N) : Prop :=
  ∀ p, reachable s base (starts ep) p → p.1 ∈ U.

(** The same, at the distances [score]. *)
Record entry_scored s q (score : N → D) (ep : list (cand D V)) : Prop := {
  es_heap : is_heap ClosestCompare ep;
  es_nodup : NoDup (c_id <$> ep);
  es_dist : ∀ c, c ∈ ep → c_dist c = score (c_id c);
  es_met : ∀ v, v ∉ (starts ep).*1 → score v = get_distance s q v;
}.
Lemma entry_ok_scored s q ep : entry_ok s q ep → entry_scored s q (get_distance s q) ep.
Proof. by intros [Hh Hnd Hd]. Qed.

Lemma frontier_init s q base ef score ep :
  entry_scored s q score ep →
  frontier_inv s base ef (starts ep) score [] ep [] (list_to_set (c_id <$> ep)).
Proof.
  intros [Hh Hnd Hd _]. split; [done| |done| | |set_solver].
  - intros p (c & -> & Hc)%list_elem_of_fmap. simpl.
    apply elem_of_list_to_set. by apply list_elem_of_fmap_2.
  - intros c Hc. simpl in Hc. split_and!.
    + apply elem_of_list_to_set. by apply list_elem_of_fmap_2.
    + by apply Hd.
    + apply reach_start. by apply (list_elem_of_fmap_2 (λ c, (c_id c, c_cur c))).
  - intros v Hv%elem_of_list_to_set. by left.
Qed.

Lemma results_init s base ef flt : results_inv s base ef flt [] [].
Proof.
  split; simpl; [by intros i Hi; simpl in Hi; lia|lia|constructor|set_solver|set_solver].
Qed.

(** Everything the loop establishes, for the sorted result. *)
Lemma search_layer_scored s q base ef flt score ep (U : gset N) fuel :
  0 < ef → entry_scored s q score ep → covers s base ep U → length ep + size U < fuel →
  ∃ r r0 E visited, search_layer fuel s q base ep ef flt = Some r ∧ r ≡ₚ r0 ∧
    StronglySorted (λ a b, closer (c_dist a) (c_dist b)) r ∧
    frontier_inv s base ef (starts ep) score E [] r0 visited ∧
    results_inv s base ef flt E r0.
Proof.
  intros Hef Hep HU Hfuel.
  destruct (search_layer_loop_spec s q base ef flt (starts ep) Hef score (es_met _ _ _ _ Hep) U fuel [] ep []
    (list_to_set (c_id <$> ep))) as (r0 & E & visited & Hloop & Hfr & Hres).
  - done.
  - by eapply frontier_init.
  - apply results_init.
  - unfold pending. assert (size (U ∖ list_to_set (c_id <$> ep)) ≤ size U); [|lia].
    apply subseteq_size. set_solver.
  - exists (sort FurthestCompare r0), r0, E, visited. split_and!; [| | |done|done].
    + unfold search_layer, of_vector. by rewrite Hloop.
    + apply sort_Permutation.
    + apply (sort_sorted FurthestCompare r0). apply Hres.
Qed.
Lemma search_layer_spec s q base ef flt ep (U : gset N) fuel :
  0 < ef → entry_ok s q ep → covers s base ep U → length ep + size U < fuel →
  ∃ r r0 E visited, search_layer fuel s q base ep ef flt = Some r ∧ r ≡ₚ r0 ∧
    StronglySorted (λ a b, closer (c_dist a) (c_dist b)) r ∧
    frontier_inv s base ef (starts ep) (get_distance s q) E [] r0 visited ∧
    results_inv s base ef flt E r0.
Proof. intros Hef Hep. by apply search_layer_scored, entry_ok_scored. Qed.

(** The order in which results are returned. *)
Definition by_distance (r : list (cand D V)) : Prop :=
  StronglySorted (λ a b, closer (c_dist a) (c_dist b)) r.

(** What the result of a layer search is. *)
Lemma search_layer_scored_result s q base ef flt score ep (U : gset N) fuel :
  0 < ef → entry_scored s q score ep → covers s base ep U → length ep + size U < fuel →
  ∃ r, search_layer fuel s q base ep ef flt = Some r ∧
    length r ≤ ef ∧ NoDup (c_id <$> r) ∧ by_distance r ∧
    ∀ c, c ∈ r →
      flt (c_id c) = true ∧ c_dist c = score (c_id c) ∧
      reachable s base (starts ep) (c_id c, c_cur c) ∧
      c_lower c = pi_lower (get_point_info s base (c_cur c)).
Proof.
  intros Hef Hep HU Hfuel.
  destruct (search_layer_scored s q base ef flt score ep U fuel Hef Hep HU Hfuel)
    as (r & r0 & E & visited & -> & Hp & Hs & Hfr & Hres).
  exists r. split_and!; [done|rewrite Hp; apply Hres|rewrite Hp; apply Hres|done|].
  intros c Hc. rewrite Hp in Hc. destruct (ri_from _ _ _ _ _ _ Hres c Hc) as (e & He & -> & Hf).
  destruct (fi_known _ _ _ _ _ _ _ _ _ Hfr e) as (_ & ? & ?); [set_solver|]. done.
Qed.
Lemma search_layer_result s q base ef flt ep (U : gset N) fuel :
  0 < ef → entry_ok s q ep → covers s base ep U → length ep + size U < fuel →
  ∃ r, search_layer fuel s q base ep ef flt = Some r ∧
    length r ≤ ef ∧ NoDup (c_id <$> r) ∧ by_distance r ∧
    ∀ c, c ∈ r →
      flt (c_id c) = true ∧ c_dist c = get_distance s q (c_id c) ∧
      reachable s base (starts ep) (c_id c, c_cur c) ∧
      c_lower c = pi_lower (get_point_info s base (c_cur c)).
Proof. intros Hef Hep. by apply search_layer_scored_result, entry_ok_scored. Qed.

(** C1: [search_layer] terminates on every graph whose reachable ids are a
    finite set, and its result is within the budget [ef], free of duplicates,
    in ascending order of distance, and holds only nodes that are reachable,
    pass the filter and carry their true distance and layer indices. *)
Theorem search_layer_sound s q base ef flt ep (U : gset N) fuel :
  0 < ef → entry_ok s q ep → covers s base ep U → length ep + size U < fuel →
  ∃ r, search_layer fuel s q base ep ef flt = Some r ∧
    length r ≤ ef ∧ NoDup (c_id <$> r) ∧ by_distance r ∧
    ∀ c, c ∈ r →
      flt (c_id c) = true ∧ c_dist c = get_distance s q (c_id c) ∧
      reachable s base (starts ep) (c_id c, c_cur c) ∧
      c_lower c = pi_lower (get_point_info s base (c_cur c)).
Proof. apply search_layer_result. Qed.

(** C2: the result of [search_layer] is a local optimum of the graph: a
    neighbour of a returned node that passes the filter (and is nearer than
    [FLT_MAX]) is returned too, unless [ef] nodes at least as close are. The
    same holds for the entry candidates. *)
Theorem search_layer_local_optimum s q base ef flt ep (U : gset N) fuel r :
  0 < ef → entry_ok s q ep → covers s base ep U → length ep + size U < fuel →
  search_layer fuel s q base ep ef flt = Some r →
  ∀ p, (p ∈ starts ep ∨ ∃ c, c ∈ r ∧ p ∈ edges s base (c_cur c)) →
    flt p.1 = true → dlt (get_distance s q p.1) FLT_MAX = true →
    p.1 ∈ c_id <$> r ∨
    (length r = ef ∧ ∀ c, c ∈ r → closer (c_dist c) (get_distance s q p.1)).
Proof.
  intros Hef Hep HU Hfuel Hr p Hp Hflt Hmax.
  destruct (search_layer_spec s q base ef flt ep U fuel Hef Hep HU Hfuel)
    as (r' & r0 & E & visited & Hr' & Hperm & _ & Hfr & Hres). rewrite Hr in Hr'. simplify_eq.
  assert (Hvis : p.1 ∈ visited).
  { destruct Hp as [Hp|(c & Hc & Hp)]; [by apply (fi_start _ _ _ _ _ _ _ _ _ Hfr)|].
    rewrite Hperm in Hc. destruct (ri_from _ _ _ _ _ _ Hres c Hc) as (e & He & -> & _).
    by eapply (fi_closed _ _ _ _ _ _ _ _ _ Hfr). }
  assert (Hbeat : ∀ d, beaten ef d r0 →
    length r' = ef ∧ ∀ c, c ∈ r' → closer (c_dist c) d)
    by (intros d [Hl Hd]; split; [by rewrite Hperm|intros c; rewrite Hperm; apply Hd]).
  destruct (fi_visited _ _ _ _ _ _ _ _ _ Hfr _ Hvis) as [He|[Hfm|Hb]]; [|exfalso|auto].
  - rewrite app_nil_r in He. apply list_elem_of_fmap in He as (e & Hid & He).
    destruct (fi_known _ _ _ _ _ _ _ _ _ Hfr e) as (_ & Hd & _); [set_solver|].
    rewrite Hid in *. destruct (ri_best _ _ _ _ _ _ Hres e He Hflt) as [Hin|Hb];
      [left; by rewrite Hperm|right]. rewrite <-Hd. auto.
  - unfold not_after in Hfm. congruence.
Qed.

(** With a budget that covers the ids the graph holds, [search_layer] is
    exact: it returns every reachable node that passes the filter, filtered-out
    nodes still being walked through. *)
Theorem search_layer_exact s q base ef flt ep (U : gset N) fuel r :
  0 < ef → size U ≤ ef → entry_ok s q ep → covers s base ep U → length ep + size U < fuel →
  (∀ v, v ∈ U → dlt (get_distance s q v) FLT_MAX = true) →
  (∀ p p', reachable s base (starts ep) p → reachable s base (starts ep) p' →
     p.1 = p'.1 → p.2 = p'.2) →
  search_layer fuel s q base ep ef flt = Some r →
  ∀ p, reachable s base (starts ep) p → flt p.1 = true → p.1 ∈ c_id <$> r.
Proof.
  intros Hef HUef Hep HU Hfuel Hmax Hfun Hr.
  destruct (search_layer_spec s q base ef flt ep U fuel Hef Hep HU Hfuel)
    as (r' & r0 & E & visited & Hr' & Hperm & _ & Hfr & Hres). rewrite Hr in Hr'. simplify_eq.
  assert (Hfull : ∀ d v, beaten ef d r0 → v ∈ U → v ∈ c_id <$> r0).
  { intros d v [Hl _]. apply NoDup_covers; [apply Hres| |rewrite length_fmap; lia].
    intros x (f & -> & Hf)%list_elem_of_fmap.
    destruct (ri_from _ _ _ _ _ _ Hres f Hf) as (e & He & -> & _).
    destruct (fi_known _ _ _ _ _ _ _ _ _ Hfr e) as (_ & _ & Hre); [set_solver|].
    apply (HU _ Hre). }
  assert (HE : ∀ v, v ∈ visited → v ∈ U → v ∈ c_id <$> E).
  { intros v Hv HvU. destruct (fi_visited _ _ _ _ _ _ _ _ _ Hfr v Hv) as [He|[Hfm|Hb]].
    - by rewrite app_nil_r in He.
    - specialize (Hmax v HvU). unfold not_after in Hfm. congruence.
    - pose proof (Hfull _ v Hb HvU) as (f & -> & Hf)%list_elem_of_fmap.
      destruct (ri_from _ _ _ _ _ _ Hres f Hf) as (e & He & -> & _).
      by apply (list_elem_of_fmap_2 c_id E e). }
  assert (Hexp : ∀ p, reachable s base (starts ep) p → p.1 ∈ c_id <$> E).
  { intros p Hp. induction Hp as [p Hp|p p' Hp IH He].
    - apply HE; [by apply (fi_start _ _ _ _ _ _ _ _ _ Hfr)|]. apply HU. by apply reach_start.
    - apply list_elem_of_fmap in IH as (e & Hid & Hin). 
      destruct (fi_known _ _ _ _ _ _ _ _ _ Hfr e) as (_ & _ & Hre); [set_solver|].
      rewrite (Hfun p _ Hp Hre Hid) in He. apply HE; [by eapply (fi_closed _ _ _ _ _ _ _ _ _ Hfr)|].
      apply HU. by eapply (reach_step _ _ _ (c_id e, c_cur e)). }
  intros p Hp Hflt. rewrite Hperm. pose proof (Hexp p Hp) as (e & Hid & He)%list_elem_of_fmap.
  rewrite Hid in *. destruct (ri_best _ _ _ _ _ _ Hres e He Hflt) as [?|Hb]; [done|].
  apply (Hfull _ _ Hb). rewrite <-Hid. by apply HU.
Qed.
(** An empty result means that nothing in reach passes the filter. *)
Lemma search_layer_empty s q base ef flt ep (U : gset N) fuel :
  0 < ef → entry_ok s q ep → covers s base ep U → length ep + size U < fuel →
  (∀ v, v ∈ U → dlt (get_distance s q v) FLT_MAX = true) →
  (∀ p p', reachable s base (starts ep) p → reachable s base (starts ep) p' → p.1 = p'.1 → p.2 = p'.2) →
  search_layer fuel s q base ep ef flt = Some [] →
  ∀ p, reachable s base (starts ep) p → flt p.1 = false.
Proof.
  intros Hef Hep HU Hfuel Hmax Hfun Hr p Hp.
  destruct (search_layer_spec s q base ef flt ep U fuel Hef Hep HU Hfuel)
    as (r' & r0 & E & visited & Hr' & Hperm & _ & Hfr & Hres). rewrite Hr in Hr'. simplify_eq.
  apply Permutation_nil_l in Hperm. subst r0.
  assert (Hnb : ∀ d, ¬ beaten ef d []) by (intros d [Hl _]; simpl in Hl; lia).
  assert (HE : ∀ v, v ∈ visited → v ∈ U → v ∈ c_id <$> E).
  { intros v Hv HvU. destruct (fi_visited _ _ _ _ _ _ _ _ _ Hfr v Hv) as [He|[Hfm|Hb]].
    - by rewrite app_nil_r in He.
    - specialize (Hmax v HvU). unfold not_after in Hfm. congruence.
    - by apply Hnb in Hb. }
  assert (Hexp : ∀ p, reachable s base (starts ep) p → p.1 ∈ c_id <$> E).
  { clear p Hp. intros p Hp. induction Hp as [p Hp|p p' Hp IH He].
    - apply HE; [by apply (fi_start _ _ _ _ _ _ _ _ _ Hfr)|]. apply HU. by apply reach_start.
    - apply list_elem_of_fmap in IH as (e & Hid & Hin).
      destruct (fi_known _ _ _ _ _ _ _ _ _ Hfr e) as (_ & _ & Hre); [set_solver|].
      rewrite (Hfun p _ Hp Hre Hid) in He. apply HE; [by eapply (fi_closed _ _ _ _ _ _ _ _ _ Hfr)|].
      apply HU. by eapply (reach_step _ _ _ (c_id e, c_cur e)). }
  pose proof (Hexp p Hp) as (e & Hid & He)%list_elem_of_fmap. rewrite Hid.
  destruct (flt (c_id e)) eqn:Hf; [|done].
  destruct (ri_best _ _ _ _ _ _ Hres e He Hf) as [Hin|Hb]; [by apply elem_of_nil in Hin|by apply Hnb in Hb].
Qed.
End Facts.
