(* ===== verification/GraphSearchTop.v ===== *)
(** * Whole searches

    The greedy descent through the upper layers, the full scan of small graphs,
    and [search] as a whole, with concrete graphs on which the theorems of this
    file and of [GraphSearchFacts.v] are applied. *)
From Stdlib Require Import ZArith Lia.
From stdpp Require Import prelude gmap fin_sets sorting.
From S2P Require Import Prelude Dist PriorityQueue Graph GraphSearch GraphSearchFacts.

Section Greedy.
Context {S D Q V : Type} `{DistOrd D} `{SearchStore S D Q}.
Implicit Types (s : S) (q : Q) (c : cand D V).

Abbreviation closer := (not_after (dlt (D:=D))).

(** The edges [search_upper_layer] reads: the first [m] slots. *)
Definition upper_edges (m : nat) s (cur : N) : list (N * N) :=
  let info := get_point_info s false cur in
  valid_prefix (take m (zip (pi_nbr_id info) (pi_nbr_cur info))).

Lemma greedy_pick_spec s q st nbr :
  let st' := greedy_pick s q st nbr in
  (∀ p, p ∈ nbr → closer (g_closest st') (get_distance s q p.1)) ∧
  closer (g_closest st') (g_closest st) ∧
  (st' = st ∨ ∃ p, p ∈ nbr ∧ st' = Greedy p.1 p.2 (get_distance s q p.1) false ∧
     dlt (get_distance s q p.1) (g_closest st) = true).
Proof.
  revert st. induction nbr as [|[id cur] nbr IH]; intros st; unfold greedy_pick; simpl.
  { split_and!; [set_solver|reflexivity|by left]. }
  fold (greedy_pick s q). destruct (dlt (get_distance s q id) (g_closest st)) eqn:Hlt.
  - destruct (IH (Greedy id cur (get_distance s q id) false)) as (Hall & Hle & Hst).
    fold (greedy_pick s q (Greedy id cur (get_distance s q id) false) nbr) in *. simpl in *.
    split_and!.
    + intros p [->|Hp]%elem_of_cons; [exact Hle|by apply Hall].
    + etransitivity; [exact Hle|]. by apply (comp_not_after dlt).
    + right. destruct Hst as [Hst|(p & Hp & Hst & Hd)].
      * exists (id, cur). split_and!; [by left|exact Hst|exact Hlt].
      * exists p. split_and!; [by right|exact Hst|by eapply swo_trans].
  - destruct (IH st) as (Hall & Hle & Hst). fold (greedy_pick s q st nbr) in *. split_and!.
    + intros p [->|Hp]%elem_of_cons; [etransitivity; [exact Hle|exact Hlt]|by apply Hall].
    + exact Hle.
    + destruct Hst as [->|(p & Hp & Hst & Hd)]; [by left|right].
      exists p. split_and!; [by right|done..].
Qed.

(** Where the walk is: at the start with nothing closer than [FLT_MAX] seen, or
    at a visited node at distance [closest]. *)
Definition walk_at s q (id0 cur0 id cur : N) (closest : D) : Prop :=
  (id = id0 ∧ cur = cur0 ∧ closest = FLT_MAX) ∨
  (closest = get_distance s q id ∧ dlt closest FLT_MAX = true).

Lemma search_upper_loop_spec (U : gset N) fuel m s q id0 cur0 id cur closest visited :
  (∀ cur p, p ∈ upper_edges m s cur → p.1 ∈ U) →
  walk_at s q id0 cur0 id cur closest →
  (∀ v, v ∈ visited → closer closest (get_distance s q v)) →
  size (U ∖ visited) < fuel →
  ∃ id' cur' closest', search_upper_loop fuel m s q id cur closest visited =
      Some (id', cur', pi_lower (get_point_info s false cur'), closest') ∧
    walk_at s q id0 cur0 id' cur' closest' ∧
    ∀ p, p ∈ upper_edges m s cur' → closer closest' (get_distance s q p.1).
Proof.
  intros HU. revert id cur closest visited.
  induction fuel as [|fuel IH]; intros id cur closest visited Hat Hvis Hfuel; [lia|]. simpl.
  destruct (fresh_neighbors _ visited) as [nbr visited'] eqn:Hfresh.
  destruct (fresh_neighbors_spec _ _ _ _ Hfresh) as (-> & Hnd & Hsub & Hcl).
  destruct (greedy_pick_spec s q (Greedy id cur closest true) nbr) as (Hall & Hle & Hst).
  assert (Hnext : ∀ v, v ∈ visited ∪ list_to_set (fst <$> nbr) →
    closer (g_closest (greedy_pick s q (Greedy id cur closest true) nbr)) (get_distance s q v)).
  { intros v [Hv|(p & -> & Hp)%elem_of_list_to_set%list_elem_of_fmap]%elem_of_union;
      [etransitivity; [exact Hle|by apply Hvis]|by apply Hall]. }
  destruct Hst as [Hpick|(p & Hp & Hpick & Hlt)]; rewrite Hpick in *; simpl in *.
  - exists id, cur, closest. split_and!; [done|done|]. intros p Hp. by apply Hnext, Hcl.
  - apply IH; [| done |].
    + right. split; [done|]. destruct Hat as [(_ & _ & ->)|[-> ?]]; [done|by eapply swo_trans].
    + rewrite (size_difference_fresh U visited (fst <$> nbr)) in Hfuel; [|done|].
      * rewrite length_fmap in Hfuel. destruct nbr; [by apply elem_of_nil in Hp|]. simpl in *. lia.
      * intros v (p' & -> & Hp')%list_elem_of_fmap. destruct (Hsub p' Hp').
        split; [by eapply HU|done].
Qed.

Lemma search_upper_layer_spec (U : gset N) fuel m s q c :
  (∀ cur p, p ∈ upper_edges m s cur → p.1 ∈ U) → size U < fuel →
  c_dist c = get_distance s q (c_id c) →
  ∃ r closest, search_upper_layer fuel m s q c = Some r ∧
    c_dist r = get_distance s q (c_id r) ∧
    c_lower r = pi_lower (get_point_info s false (c_cur r)) ∧
    walk_at s q (c_id c) (c_cur c) (c_id r) (c_cur r) closest ∧
    ∀ p, p ∈ upper_edges m s (c_cur r) → closer closest (get_distance s q p.1).
Proof.
  intros HU Hfuel Hc. unfold search_upper_layer.
  destruct (search_upper_loop_spec U fuel m s q (c_id c) (c_cur c) (c_id c) (c_cur c) FLT_MAX ∅)
    as (id & cur & cl & -> & Hat & Hmin); [done|by left|set_solver|by rewrite difference_empty_L|].
  eexists _, cl. split; [done|]. simpl. split_and!; [|done|done|done].
  destruct Hat as [(-> & -> & ->)|[-> ->]]; [by rewrite (swo_irrefl (comp:=dlt))|done].
Qed.

(** The greedy walk of an upper layer terminates at a local minimum: no
    neighbour of the returned node is closer to the query, and the node carries
    its true distance and the index to continue from in the layer below. *)
Theorem search_upper_layer_local_min (U : gset N) fuel m s q c :
  (∀ cur p, p ∈ upper_edges m s cur → p.1 ∈ U) → size U < fuel →
  c_dist c = get_distance s q (c_id c) →
  ∃ r, search_upper_layer fuel m s q c = Some r ∧
    c_dist r = get_distance s q (c_id r) ∧
    c_lower r = pi_lower (get_point_info s false (c_cur r)) ∧
    ∀ p, p ∈ upper_edges m s (c_cur r) → dlt (get_distance s q p.1) FLT_MAX = true →
      closer (c_dist r) (get_distance s q p.1).
Proof.
  intros HU Hfuel Hc.
  destruct (search_upper_layer_spec U fuel m s q c HU Hfuel Hc)
    as (r & cl & Hr & Hd & Hlow & Hat & Hmin).
  exists r. split_and!; [done..|]. intros p Hp Hlt. specialize (Hmin p Hp).
  destruct Hat as [(_ & _ & ->)|[-> _]]; [|by rewrite Hd].
  unfold not_after in Hmin. congruence.
Qed.

Lemma descend_terminates (U : gset N) fuel m levels s q c :
  (∀ cur p, p ∈ upper_edges m s cur → p.1 ∈ U) → size U < fuel →
  c_dist c = get_distance s q (c_id c) →
  ∃ r, descend fuel m levels s q c = Some r ∧ c_dist r = get_distance s q (c_id r).
Proof.
  intros HU Hfuel. revert c. induction levels as [|n IH]; intros c Hc; simpl; [eauto|].
  destruct (search_upper_layer_spec U fuel m s q c HU Hfuel Hc) as (r & cl & -> & Hr & _).
  by apply IH.
Qed.
End Greedy.

Section Whole.
Context {S D Q V : Type} `{DistOrd D} `{SearchStore S D Q}.
Implicit Types (s : S) (q : Q) (c : cand D V).

Abbreviation closer := (not_after (dlt (D:=D))).

#[local] Instance closest_total : Total (not_after (ClosestCompare (D:=D) (V:=V))).
Proof. intros a b. apply (not_after_total ClosestCompare). Qed.

(** [std::sort] of candidates by distance. *)
Lemma sort_by_distance (l : list (cand D V)) :
  by_distance (merge_sort (not_after ClosestCompare) l).
Proof. apply (StronglySorted_merge_sort (not_after ClosestCompare)). Qed.

Lemma elem_of_scan_all s q n flt c :
  c ∈ scan_all s q n flt ↔
  (c_id c < n)%N ∧ flt (c_id c) = true ∧ c = mk_cand (c_id c) (c_id c) (get_distance s q (c_id c)).
Proof.
  unfold scan_all. rewrite merge_sort_Permutation, list_elem_of_fmap. split.
  - intros (i & -> & [Hf Hi%elem_of_seq]%list_elem_of_filter). simpl. split_and!; [lia|done|done].
  - intros (Hlt & Hf & Hc). exists (N.to_nat (c_id c)). rewrite N2Nat.id. split; [done|].
    apply list_elem_of_filter. rewrite N2Nat.id, elem_of_seq. split; [done|lia].
Qed.

(** When the budget covers the number of nodes the store reports, the search
    does not depend on the edges at all: it returns exactly the ids below that
    number that pass the filter, each once, at their distances and in order. *)
Theorem search_internal_full_scan fuel m nr s q entry ef flt :
  search_node_count s ≠ 0%N → (search_node_count s ≤ ef)%N →
  ∃ r : list (cand D V), search_internal fuel m nr s q entry ef flt = Some r ∧
    by_distance r ∧ NoDup (c_id <$> r) ∧
    (∀ c, c ∈ r → c_dist c = get_distance s q (c_id c)) ∧
    ∀ id, id ∈ c_id <$> r ↔ (id < search_node_count s)%N ∧ flt id = true.
Proof.
  intros Hn0 Hle. exists (scan_all s q (search_node_count s) flt). split_and!.
  - unfold search_internal. apply N.eqb_neq in Hn0. apply N.leb_le in Hle. by rewrite Hn0, Hle.
  - apply sort_by_distance.
  - unfold scan_all. rewrite merge_sort_Permutation, <-list_fmap_compose.
    apply NoDup_fmap_2; [intros i j Hij; simpl in Hij; lia|]. apply NoDup_filter, NoDup_seq.
  - intros c (_ & _ & ->)%elem_of_scan_all. done.
  - intros id. rewrite list_elem_of_fmap. setoid_rewrite elem_of_scan_all. split.
    + intros (c & -> & ? & ? & _). done.
    + intros [? ?]. eexists (mk_cand id id (get_distance s q id)). done.
Qed.

(** Every id the edges of the store mention is in [U]. *)
Record store_closed (m : nat) s (U : gset N) : Prop := {
  sc_edges : ∀ cur p, p ∈ edges s true cur → p.1 ∈ U;
  sc_upper : ∀ cur p, p ∈ upper_edges m s cur → p.1 ∈ U;
}.

Lemma search_layer_single s q ef flt c (U : gset N) fuel :
  (∀ cur p, p ∈ edges s true cur → p.1 ∈ U) → 0 < ef → 2 + size U < fuel →
  c_dist c = get_distance s q (c_id c) →
  ∃ r, search_layer fuel s q true [c] ef flt = Some r ∧ by_distance r ∧
    ∀ x, x ∈ r → flt (c_id x) = true ∧ c_dist x = get_distance s q (c_id x).
Proof.
  intros HU Hef Hfuel Hc.
  destruct (search_layer_spec s q true ef flt [c] ({[c_id c]} ∪ U) fuel)
    as (r & r0 & E & vis & Hr & Hp & Hs & Hfr & Hres); [done| | | |].
  - split; [intros i Hi; simpl in Hi; lia|simpl; by apply NoDup_singleton|].
    by intros x ->%list_elem_of_singleton.
  - intros p Hp. induction Hp as [p Hp|p p' _ _ He]; [|apply elem_of_union_r; by eapply HU].
    simpl in Hp. apply list_elem_of_singleton in Hp as ->. set_solver.
  - rewrite size_union_alt, size_singleton. simpl.
    assert (size (U ∖ {[c_id c]}) ≤ size U); [apply subseteq_size; set_solver|lia].
  - exists r. split_and!; [done..|]. intros x Hx. rewrite Hp in Hx.
    destruct (ri_from _ _ _ _ _ _ Hres x Hx) as (e & He & -> & Hf).
    destruct (fi_known _ _ _ _ _ _ _ _ _ Hfr e) as (_ & ? & _); [set_solver|]. done.
Qed.

Lemma search_internal_spec fuel m nr s q entry ef flt (U : gset N) :
  store_closed m s U → (0 < ef)%N → 2 + size U < fuel →
  ∃ r : list (cand D V), search_internal fuel m nr s q entry ef flt = Some r ∧ by_distance r ∧
    ∀ x, x ∈ r → flt (c_id x) = true ∧ c_dist x = get_distance s q (c_id x).
Proof.
  intros [Hb Hu] Hef Hfuel. unfold search_internal.
  destruct (negb _ && _).
  - eexists. split_and!; [done|apply sort_by_distance|].
    intros x (_ & Hf & ->)%elem_of_scan_all. done.
  - destruct (descend_terminates (V:=V) U fuel m (Z.to_nat (e_level entry)) s q
      (mk_cand (e_id entry) (e_cur entry) (get_distance s q (e_id entry)))) as (ep & -> & Hep);
      [done|lia|done|].
    apply (search_layer_single s q _ flt ep U fuel); [done| |done|done].
    unfold refine_ef. destruct nr; [|lia].
    assert (0 < ef * 5 / 4)%N; [|lia]. apply N.div_str_pos. lia.
Qed.

(** The distance a result is returned with. *)
Definition final_dist (nr : bool) (precise : N → option D) s q (id : N) : D :=
  if nr then default FLT_MAX (precise id) else get_distance s q id.

Lemma refine_spec nr precise s q (ep : list (cand D V)) flt :
  by_distance ep →
  (∀ x, x ∈ ep → flt (c_id x) = true ∧ c_dist x = get_distance s q (c_id x)) →
  by_distance (refine nr precise ep) ∧
  ∀ x, x ∈ refine nr precise ep →
    flt (c_id x) = true ∧ c_dist x = final_dist nr precise s q (c_id x).
Proof.
  intros Hs Hep. unfold refine, final_dist. destruct nr; [|done].
  split; [apply sort_by_distance|]. intros x. rewrite merge_sort_Permutation.
  intros (y & -> & Hy)%list_elem_of_fmap. simpl. destruct (Hep y Hy). done.
Qed.

Lemma search_result {TID : Type} fuel m nr s q ef flt precise (get_tids : N → list TID)
    (U : gset N) :
  store_closed m s U → (0 < ef)%N → 2 + size U < fuel →
  ∃ res, search (V:=V) fuel m nr s q ef flt precise get_tids = Some res ∧
    StronglySorted (λ a b, closer a.2 b.2) res ∧
    ∀ tid d, (tid, d) ∈ res →
      ∃ id, tid ∈ get_tids id ∧ flt id = true ∧ d = final_dist nr precise s q id.
Proof.
  intros Hcl Hef Hfuel. unfold search.
  destruct (negb _); [exists []; split_and!; [done|constructor|set_solver]|].
  destruct (search_internal_spec fuel m nr s q (get_entry s) ef flt U Hcl Hef Hfuel)
    as (ep & -> & Hs & Hep).
  destruct (refine_spec nr precise s q ep flt Hs Hep) as [Hs' Hep'].
  eexists. split; [done|]. revert Hs' Hep'. generalize (refine nr precise ep).
  clear ep Hs Hep. intros l Hs Hl. split.
  - induction Hs as [|c l Hs IH Hc]; [constructor|]. rewrite bind_cons.
    apply StronglySorted_app_2; [| |apply IH; intros; apply Hl; by right].
    + intros [t1 d1] [t2 d2].
      intros (tid & [= -> ->]%list_elem_of_singleton & _)%list_elem_of_bind.
      intros (c2 & (tid2 & [= -> ->]%list_elem_of_singleton & _)%list_elem_of_bind & Hc2)%list_elem_of_bind.
      simpl. rewrite Forall_forall in Hc. by apply Hc.
    + induction (get_tids (c_id c)) as [|t ts IHt]; [constructor|]. rewrite bind_cons. simpl.
      constructor; [done|]. apply Forall_forall.
      intros [t2 d2] (tid2 & [= -> ->]%list_elem_of_singleton & _)%list_elem_of_bind. simpl. reflexivity.
  - intros tid d (c & (t & [= -> ->]%list_elem_of_singleton & Ht)%list_elem_of_bind & Hc)%list_elem_of_bind.
    destruct (Hl c Hc) as [? ->]. eauto.
Qed.

(** [search] always returns, on every closed store, for every filter, with
    or without refinement: each returned row belongs to a node that passes the
    filter, comes with the distance of that node (the recomputed one after a
    refinement), and the rows are in ascending order of distance. *)
Theorem search_sound {TID : Type} fuel m nr s q ef flt precise (get_tids : N → list TID)
    (U : gset N) :
  store_closed m s U → (0 < ef)%N → 2 + size U < fuel →
  ∃ res, search (V:=V) fuel m nr s q ef flt precise get_tids = Some res ∧
    StronglySorted (λ a b, closer a.2 b.2) res ∧
    ∀ tid d, (tid, d) ∈ res →
      ∃ id, tid ∈ get_tids id ∧ flt id = true ∧ d = final_dist nr precise s q id.
Proof. apply search_result. Qed.
End Whole.

(** ** Concrete graphs

    Rows of neighbour ids for the base layer and, for the upper layer, ids,
    layer indices and the index below; nodes are points of a line at multiples
    of ten and the query is an integer. *)

Record line_graph := LineGraph {
  lg_base : list (list N);
  lg_upper : list (list N * list N * N);
  lg_entry : entry_info;
  lg_count : N;
}.

#[export] Instance line_store : SearchStore line_graph Z Z := {|
  get_point_info g base cur :=
    if base then
      let row := default [] (lg_base g !! N.to_nat cur) in PointInfo row row cur
    else
      let '(ids, idx, low) := default ([], [], 0%N) (lg_upper g !! N.to_nat cur) in
      PointInfo ids idx low;
  search_neighbor_count g base cur := 4;
  get_distance g q id := Z.abs (10 * Z.of_N id - q);
  get_entry g := lg_entry g;
  search_node_count g := lg_count g;
|}.

(** Every id a row mentions is below [n]. *)
Definition line_ids_below (g : line_graph) (n : N) : bool :=
  forallb (forallb (λ id, id <? n)%N) (lg_base g) &&
  forallb (λ r, forallb (λ id, id <? n)%N r.1.1) (lg_upper g).

Lemma elem_of_zip_take_fst (k : nat) (l1 l2 : list N) p :
  p ∈ valid_prefix (take k (zip l1 l2)) → p.1 ∈ l1.
Proof.
  intros Hp%valid_prefix_subset. apply list_elem_of_lookup in Hp as [i Hi].
  apply lookup_take_Some in Hi as [Hi _]. apply lookup_zip_with_Some in Hi as (a & b & -> & Ha & _).
  by apply list_elem_of_lookup_2 in Ha.
Qed.

Lemma line_upper_ids g n k cur p :
  line_ids_below g n = true → p ∈ upper_edges k g cur → (p.1 < n)%N.
Proof.
  intros [_ Hu]%andb_prop. rewrite forallb_forall in Hu. unfold upper_edges. simpl.
  destruct (lg_upper g !! N.to_nat cur) as [[[ids idx] low]|] eqn:Hrow; simpl;
    [intros Hp%elem_of_zip_take_fst|rewrite take_nil; by intros ?%elem_of_nil].
  apply list_elem_of_lookup_2, list_elem_of_In, Hu in Hrow. simpl in Hrow.
  rewrite forallb_forall in Hrow. apply N.ltb_lt, Hrow. by apply list_elem_of_In.
Qed.

Lemma line_edge_ids g n base cur p :
  line_ids_below g n = true → p ∈ edges g base cur → (p.1 < n)%N.
Proof.
  intros Hok. destruct base; [|by apply (line_upper_ids g n 4 cur)].
  apply andb_prop in Hok as [Hb _]. rewrite forallb_forall in Hb.
  unfold edges, slots. simpl. intros Hp%elem_of_zip_take_fst.
  destruct (lg_base g !! N.to_nat cur) as [row|] eqn:Hrow; simpl in Hp; [|by apply elem_of_nil in Hp].
  apply list_elem_of_lookup_2, list_elem_of_In, Hb in Hrow.
  rewrite forallb_forall in Hrow. apply N.ltb_lt, Hrow. by apply list_elem_of_In.
Qed.

Definition ids_below (n : nat) : gset N := list_to_set (N.of_nat <$> seq 0 n).

Lemma elem_of_ids_below n id : id ∈ ids_below n ↔ (id < N.of_nat n)%N.
Proof.
  unfold ids_below. rewrite elem_of_list_to_set, list_elem_of_fmap. split.
  - intros (i & -> & Hi%elem_of_seq). lia.
  - intros Hid. exists (N.to_nat id). rewrite elem_of_seq. lia.
Qed.

Lemma line_covers {V : Type} g n base (ep : list (cand Z V)) :
  line_ids_below g (N.of_nat n) = true → (∀ c, c ∈ ep → c_id c < N.of_nat n)%N →
  covers g base ep (ids_below n).
Proof.
  intros Hok Hep p Hp. apply elem_of_ids_below. induction Hp as [p Hp|p p' _ _ He].
  - apply list_elem_of_fmap in Hp as (c & -> & Hc). by apply Hep.
  - by eapply line_edge_ids.
Qed.

(** Four points on a line, each linked to its neighbours; the entry is node 0. *)
Definition path4 : line_graph :=
  LineGraph [[1]; [0; 2]; [1; 3]; [2]]%N [([1]%N, [1]%N, 0%N); ([0]%N, [0]%N, 1%N)]
    (EntryInfo 0 0 1) 0.

Definition ep0 : list (cand Z unit) := [mk_cand 0 0 (get_distance path4 25%Z 0%N)].

Lemma ep0_ok : entry_ok path4 25%Z ep0.
Proof.
  split; [intros i Hi; simpl in Hi; lia|simpl; by apply NoDup_singleton|].
  by intros c ->%list_elem_of_singleton.
Qed.

Lemma ep0_covered : covers path4 true ep0 (ids_below 4).
Proof. apply line_covers; [done|]. by intros c ->%list_elem_of_singleton. Qed.

Example path4_search :
  search_layer 7 path4 25%Z true ep0 2 (λ id, negb (id =? 3)%N) =
  Some [Cand 2 2 2 5%Z None; Cand 1 1 1 15%Z None].
Proof. vm_compute. reflexivity. Qed.

Lemma search_layer_sound_witness :
  ∃ r, search_layer 7 path4 25%Z true ep0 2 (λ id, negb (id =? 3)%N) = Some r ∧ length r ≤ 2 ∧
    NoDup (c_id <$> r).
Proof.
  destruct (search_layer_sound path4 25%Z true 2 (λ id, negb (id =? 3)%N) ep0 (ids_below 4) 7)
    as (r & Hr & Hl & Hn & _).
  - lia.
  - exact ep0_ok.
  - exact ep0_covered.
  - vm_compute. lia.
  - exists r. split; [exact Hr|split; [exact Hl|exact Hn]].
Defined.

Definition path4_result : list (cand Z unit) := [Cand 2 2 2 5%Z None; Cand 1 1 1 15%Z None].

Lemma search_layer_local_optimum_witness :
  1%N ∈ c_id <$> path4_result ∨
  (length path4_result = 2 ∧
   ∀ c, c ∈ path4_result → not_after dlt (c_dist c) (get_distance path4 25%Z 1%N)).
Proof.
  apply (search_layer_local_optimum path4 25%Z true 2 (λ id, negb (id =? 3)%N) ep0
    (ids_below 4) 7 path4_result) with (p := (1, 1)%N).
  - lia.
  - exact ep0_ok.
  - exact ep0_covered.
  - vm_compute. lia.
  - vm_compute. reflexivity.
  - right. exists (Cand 2 2 2 5%Z None). split; [by left|]. vm_compute. by left.
  - reflexivity.
  - reflexivity.
Defined.

Lemma search_layer_exact_witness :
  3%N ∈ c_id <$> [Cand 2 2 2 5%Z (@None unit); Cand 3 3 3 5%Z None; Cand 0 0 0 25%Z None].
Proof.
  apply (search_layer_exact path4 25%Z true 4 (λ id, negb (id =? 1)%N) ep0 (ids_below 4) 7
    [Cand 2 2 2 5%Z None; Cand 3 3 3 5%Z None; Cand 0 0 0 25%Z None]) with (p := (3, 3)%N).
  - lia.
  - vm_compute. lia.
  - exact ep0_ok.
  - exact ep0_covered.
  - vm_compute. lia.
  - intros v Hv%elem_of_ids_below. simpl. apply Z.ltb_lt. lia.
  - assert (Hid : ∀ p, reachable path4 true (starts ep0) p → p.1 = p.2).
    { intros p Hp. induction Hp as [p Hp|p p' _ _ He].
      - by apply list_elem_of_singleton in Hp as ->.
      - apply valid_prefix_subset in He. unfold slots in He. simpl in He.
        apply list_elem_of_lookup in He as [i Hi].
        apply lookup_take_Some in Hi as [Hi _].
        by apply lookup_zip_with_Some in Hi as (a & b & -> & Ha & Hb); simplify_eq. }
    intros p p' Hp Hp' Heq. by rewrite <-(Hid p Hp), <-(Hid p' Hp').
  - vm_compute. reflexivity.
  - apply (reach_step _ _ _ (2, 2)%N); [|vm_compute; right; by left].
    apply (reach_step _ _ _ (1, 1)%N); [|vm_compute; right; by left].
    apply (reach_step _ _ _ (0, 0)%N); [|vm_compute; by left].
    apply reach_start. by left.
  - reflexivity.
Defined.

Lemma search_upper_layer_local_min_witness :
  ∃ r, search_upper_layer 5 4 path4 25%Z (mk_cand (V:=unit) 0 0 25%Z) = Some r ∧
    c_dist r = get_distance path4 25%Z (c_id r).
Proof.
  destruct (search_upper_layer_local_min (V:=unit) (ids_below 4) 5 4 path4 25%Z (mk_cand 0 0 25%Z))
    as (r & Hr & Hd & _).
  - intros cur p Hp. apply elem_of_ids_below. by apply (line_upper_ids path4 4 4 cur).
  - vm_compute. lia.
  - reflexivity.
  - by exists r.
Defined.

Definition scan4 : line_graph := LineGraph [] [] empty_entry 4.

Lemma search_internal_full_scan_witness :
  ∃ r : list (cand Z unit),
    search_internal 0 4 false scan4 25%Z empty_entry 10 (λ id, negb (id =? 2)%N) = Some r ∧
    by_distance r.
Proof.
  destruct (search_internal_full_scan (V:=unit) 0 4 false scan4 25%Z empty_entry 10
    (λ id, negb (id =? 2)%N)) as (r & Hr & Hs & _).
  - discriminate.
  - vm_compute. discriminate.
  - by exists r.
Defined.

Lemma search_sound_witness :
  ∃ res, search (V:=unit) 8 4 true path4 25%Z 2 (λ _, true) (λ id, Some (100 - Z.of_N id)%Z)
    (λ id, [id; (id + 100)%N]) = Some res ∧ StronglySorted (λ a b, not_after dlt a.2 b.2) res.
Proof.
  destruct (search_sound (V:=unit) 8 4 true path4 25%Z 2 (λ _, true)
    (λ id, Some (100 - Z.of_N id)%Z) (λ id, [id; (id + 100)%N]) (ids_below 4)) as (res & Hr & Hs & _).
  - split; intros cur p Hp; apply elem_of_ids_below;
      [by apply (line_edge_ids path4 4 true cur)|by apply (line_upper_ids path4 4 4 cur)].
  - reflexivity.
  - vm_compute. lia.
  - exists res. split; [exact Hr|exact Hs].
Defined.

(** ** The upper-layer walk may end further from the query than it began

    [closest_dist] starts at [FLT_MAX], not at the distance of the entry point,
    so the first round moves to the best neighbour even when every neighbour is
    further away; without an edge back the walk ends there. *)

Definition one_way : line_graph :=
  LineGraph [[]; []] [([1]%N, [1]%N, 0%N); ([], [], 1%N)] (EntryInfo 0 0 1) 0.

(** Starting at a node at distance 0 from the query, the upper-layer walk
    can return a node at distance 10: the start is not kept as a candidate. *)
Theorem search_upper_layer_moves_away :
  search_upper_layer 5 4 one_way 0%Z (mk_cand (V:=unit) 0 0 (get_distance one_way 0%Z 0%N)) =
  Some (Cand 1 1 1 10%Z None).
Proof. vm_compute. reflexivity. Qed.
