(* ===== verification/GraphPoint.v ===== *)
(** * Heap tids of a graph point

    [GraphIndexElementBase] and [GraphIndexPoint] of
    [src/common/include/graph_index/graph_index_cluster.h]: a flag byte, ten
    inline tids, and, once these overflow, up to ten keys of a [PlainStore] each
    holding a page of tids.

    [PlainStore] (built on the host database's page functions) is an interface
    here: its operations are the class [PlainStore] and what the point relies on
    is [PlainStoreLaws]. A stored item is its tids and its size in bytes; an item
    of [size] bytes holds [size / 6] tids. *)
From Stdlib Require Import ZArith Lia.
From stdpp Require Import prelude gmap.
From S2P Require Import Prelude.

(** [ItemPointerData]: block number and offset; a [PlainStore] key is one too. *)
Definition tid : Type := N * N.

Definition sizeof_tid : nat := 6.
(** [BLCKSZ - SizeOfPageHeaderData - sizeof(PlainStoreOpaqueData) - 16]. *)
Definition max_size : nat := 8192 - 24 - 8 - 16.
Definition tid_page_cap : nat := max_size / sizeof_tid.
Definition GRAPH_INDEX_MAX_HEAPTIDS : nat := 10.

Record item := Item { it_tids : list tid; it_size : nat }.

Definition item_of (l : list tid) : item := Item l (sizeof_tid * length l).

Class PlainStore (PS : Type) := {
  ps_get : PS → tid → option item;
  ps_put : PS → item → PS * tid;
  ps_set : PS → tid → item → PS * tid;
  ps_erase : PS → tid → PS;
}.

(** [put] uses a free slot; [set] overwrites in place or moves the item to a free
    slot; no operation touches another item. *)
Class PlainStoreLaws (PS : Type) `{PlainStore PS} : Prop := {
  ps_put_fresh : ∀ ps it, ps_get ps (ps_put ps it).2 = None;
  ps_put_get : ∀ ps it k, ps_get (ps_put ps it).1 k =
    if decide (k = (ps_put ps it).2) then Some it else ps_get ps k;
  ps_set_key : ∀ ps k it, is_Some (ps_get ps k) →
    (ps_set ps k it).2 = k ∨ ps_get ps (ps_set ps k it).2 = None;
  ps_set_get : ∀ ps k it k', is_Some (ps_get ps k) → ps_get (ps_set ps k it).1 k' =
    if decide (k' = (ps_set ps k it).2) then Some it
    else if decide (k' = k) then None else ps_get ps k';
  ps_erase_get : ∀ ps k k', ps_get (ps_erase ps k) k' =
    if decide (k' = k) then None else ps_get ps k';
}.

(** ** The flag byte *)

Record point := Point { flag : Z; heaptids : list tid }.

Definition is_deleted (p : point) : bool := negb (Z.land (flag p) 0x01 =? 0)%Z.
Definition is_async (p : point) : bool := negb (Z.land (flag p) 0x02 =? 0)%Z.
Definition is_extended (p : point) : bool := negb (Z.land (flag p) 0x40 =? 0)%Z.
Definition is_double_extended (p : point) : bool := negb (Z.land (flag p) 0x80 =? 0)%Z.
Definition ntids (p : point) : nat := Z.to_nat (Z.land (Z.shiftr (flag p) 2) 0x0f).
Definition empty (p : point) : bool := ntids p =? 0.

Definition set_flag (p : point) (f : Z) : point := Point (u8 f) (heaptids p).
Definition set_deleted (p : point) : point := set_flag p (Z.lor (flag p) 0x01).
Definition set_async (p : point) (v : bool) : point :=
  set_flag p (if v then Z.lor (flag p) 0x02 else Z.land (flag p) (Z.lnot 0x02)).
Definition set_extended (p : point) : point := set_flag p (Z.lor (flag p) 0x40).
Definition set_double_extended (p : point) (v : bool) : point :=
  set_flag p (if v then Z.lor (flag p) 0x80 else Z.land (flag p) 0x7f).
Definition set_ntids (p : point) (n : nat) : point :=
  set_flag p (Z.lor (Z.land (flag p) 0xc3) (Z.shiftl (Z.of_nat n) 2)).
Definition set_heaptid (p : point) (i : nat) (t : tid) : point :=
  Point (flag p) (<[i:=t]> (heaptids p)).

(** The array a fresh point holds before any tid is written; the content of the
    unused cells is never read. *)
Definition blank_heaptids : list tid := replicate GRAPH_INDEX_MAX_HEAPTIDS (0, 0)%N.

(** [GraphIndexPoint(const ItemPointerData &)] *)
Definition new_point (t : tid) : point :=
  set_heaptid (set_ntids (Point 0 blank_heaptids) 1) 0 t.

(** Writing [l] from cell [i] on. *)
Definition write_tids (p : point) (i : nat) (l : list tid) : point :=
  Point (flag p) (list_inserts i l (heaptids p)).

(** ** Reading *)

Section Ops.
Context {PS : Type} `{PlainStore PS}.

(** [PlainStore::get] with a callback; [None] when an [Assert] fails. *)
Definition page_tids (ps : PS) (k : tid) : option (list tid) :=
  (λ it, take (it_size it / sizeof_tid) (it_tids it)) <$> ps_get ps k.

Fixpoint get_pages (ps : PS) (keys : list tid) : option (list tid) :=
  match keys with
  | [] => Some []
  | k :: keys => l ← page_tids ps k; r ← get_pages ps keys; Some (l ++ r)
  end.

Definition get_tids (p : point) (ctx : option PS) : option (list tid) :=
  if negb (is_extended p) then Some (take (ntids p) (heaptids p))
  else ps ← ctx; get_pages ps (take (ntids p) (heaptids p)).

Fixpoint count_pages (ps : PS) (keys : list tid) : option nat :=
  match keys with
  | [] => Some 0
  | k :: keys => it ← ps_get ps k; r ← count_pages ps keys; Some (it_size it / sizeof_tid + r)
  end.

Definition actual_ntids (p : point) (ctx : option PS) : option nat :=
  if negb (is_extended p) then Some (ntids p)
  else ps ← ctx; count_pages ps (take (ntids p) (heaptids p)).

(** [apply_on_tids]: the tids are visited from the last to the first, until [f]
    returns true; the model returns the tids visited and whether it stopped. *)
Fixpoint do_apply (f : tid → bool) (rev_l : list tid) : list tid * bool :=
  match rev_l with
  | [] => ([], false)
  | t :: l => if f t then ([t], true) else let '(r, stop) := do_apply f l in (t :: r, stop)
  end.

Fixpoint apply_pages (ps : PS) (f : tid → bool) (rev_keys : list tid) : option (list tid * bool) :=
  match rev_keys with
  | [] => Some ([], false)
  | k :: keys =>
    l ← page_tids ps k;
    let '(r, stop) := do_apply f (reverse l) in
    if stop then Some (r, true)
    else '(r', stop) ← apply_pages ps f keys; Some (r ++ r', stop)
  end.

Definition apply_on_tids (p : point) (ctx : option PS) (f : tid → bool) : option (list tid * bool) :=
  if negb (is_extended p) then Some (do_apply f (reverse (take (ntids p) (heaptids p))))
  else ps ← ctx; apply_pages ps f (reverse (take (ntids p) (heaptids p))).

(** ** [insert_tid]

    [None] is a failed [Assert]; otherwise the point, the store, the returned
    flag and [overwriten] ([None] while the callee leaves it unset). *)
Definition insert_tid (p : point) (ctx : option PS) (data : list tid) :
    option (point * option PS * bool * option bool) :=
  if length data =? 0 then None
  else if empty p then Some (p, ctx, false, None)
  else if negb (sizeof_tid * length data <=? max_size) then None
  else
    let nentry := ntids p in
    if negb (is_extended p) && (nentry + length data <=? GRAPH_INDEX_MAX_HEAPTIDS) then
      Some (set_ntids (write_tids p nentry data) (nentry + length data), ctx, true, Some true)
    else
      match ctx with
      | None => Some (p, ctx, false, None)
      | Some ps =>
        if negb (is_extended p) then
          if negb (nentry + length data <=? tid_page_cap) then None
          else
            let '(ps, k) := ps_put ps (item_of (take nentry (heaptids p) ++ data)) in
            Some (set_heaptid (set_ntids (set_extended p) 1) 0 k, Some ps, true, Some true)
        else
          key ← heaptids p !! (nentry - 1);
          it ← ps_get ps key;
          let old_size := it_size it in
          if max_size <? old_size + sizeof_tid then
            if nentry <? GRAPH_INDEX_MAX_HEAPTIDS then
              let '(ps, k) := ps_put ps (item_of data) in
              Some (set_ntids (set_heaptid p nentry k) (nentry + 1), Some ps, true, Some true)
            else Some (p, ctx, false, None)
          else
            let new_size := Nat.min max_size (old_size + sizeof_tid * length data) in
            let space := (max_size - old_size) / sizeof_tid in
            let nnew := Nat.min space (length data) in
            if (nnew <? length data) && (GRAPH_INDEX_MAX_HEAPTIDS <=? nentry) then
              Some (p, ctx, false, None)
            else
              let buf := Item (take (old_size / sizeof_tid) (it_tids it) ++ take nnew data) new_size in
              let '(ps, k) := ps_set ps key buf in
              let p := set_heaptid p (nentry - 1) k in
              if nnew <? length data then
                let '(ps, k) := ps_put ps (item_of (drop nnew data)) in
                Some (set_ntids (set_heaptid p nentry k) (nentry + 1), Some ps, true, Some true)
              else Some (p, Some ps, true, Some (bool_decide (key = k)))
      end.

(** [GraphIndexPoint(ctx, data, is_async)] *)
Definition make_point (ctx : option PS) (data : list tid) (async : bool) : option (point * option PS) :=
  match data with
  | [] => None
  | t :: rest =>
    let p := new_point t in
    let p := if async then set_async p true else p in
    if 1 <? length data then
      '(p, ctx, _, _) ← insert_tid p ctx rest; Some (p, ctx)
    else Some (p, ctx)
  end.

(** ** [vacuum_tids] *)

(** The inline case: compact the kept tids in place. *)
Fixpoint compact (filter : tid → bool) (fuel i start_idx : nat) (l : list tid) : list tid * nat :=
  match fuel with
  | O => (l, start_idx)
  | S fuel =>
    match l !! i with
    | None => (l, start_idx)
    | Some t =>
      if filter t then compact filter fuel (S i) start_idx l
      else compact filter fuel (S i) (S start_idx) (<[start_idx:=t]> l)
    end
  end.

Record vac := Vac {
  v_heaptids : list tid;
  v_ps : PS;
  v_buf : list tid;
  v_removed : nat;
  v_start : nat;
  v_dirty : bool;
}.

(** [set] the page [start_idx]; the key and [dirty] are updated when the returned
    key equals the old one. *)
Definition write_page (v : vac) (it : item) : option vac :=
  old ← v_heaptids v !! v_start v;
  _ ← ps_get (v_ps v) old;
  let '(ps, k) := ps_set (v_ps v) old it in
  Some (if bool_decide (k = old)
        then Vac (<[v_start v:=k]> (v_heaptids v)) ps (v_buf v) (v_removed v) (v_start v) true
        else Vac (v_heaptids v) ps (v_buf v) (v_removed v) (v_start v) (v_dirty v)).

(** One iteration of the page loop. *)
Definition vacuum_page (filter : tid → bool) (i : nat) (v : vac) : option vac :=
  key ← v_heaptids v !! i;
  l ← page_tids (v_ps v) key;
  let kept := List.filter (λ t, negb (filter t)) l in
  let v := Vac (v_heaptids v) (v_ps v) (v_buf v ++ kept)
             (v_removed v + (length l - length kept)) (v_start v) (v_dirty v) in
  if tid_page_cap <=? length (v_buf v) then
    v ← (if 0 <? v_removed v then write_page v (item_of (take tid_page_cap (v_buf v))) else Some v);
    Some (Vac (v_heaptids v) (v_ps v) (drop tid_page_cap (v_buf v)) (v_removed v)
            (S (v_start v)) (v_dirty v))
  else Some v.

Fixpoint vacuum_pages (filter : tid → bool) (idxs : list nat) (v : vac) : option vac :=
  match idxs with
  | [] => Some v
  | i :: idxs => v ← vacuum_page filter i v; vacuum_pages filter idxs v
  end.

(** The point, the store, the number of removed tids and [dirty]. *)
Definition vacuum_tids (filter : tid → bool) (p : point) (ctx : option PS) :
    option (point * option PS * nat * bool) :=
  let ntid := ntids p in
  if ntid =? 0 then Some (p, ctx, 0, false)
  else if negb (is_extended p) then
    let '(l, start_idx) := compact filter ntid 0 0 (heaptids p) in
    Some (set_ntids (Point (flag p) l) start_idx, ctx, ntid - start_idx,
          negb (start_idx =? ntid))
  else
    ps ← ctx;
    v ← vacuum_pages filter (seq 0 ntid) (Vac (heaptids p) ps [] 0 0 false);
    v ← (if (0 <? v_removed v) && (0 <? length (v_buf v)) then
           v ← write_page v (item_of (v_buf v));
           Some (Vac (v_heaptids v) (v_ps v) (v_buf v) (v_removed v) (S (v_start v)) (v_dirty v))
         else Some v);
    let p := Point (flag p) (v_heaptids v) in
    if v_start v <? ntid then
      let ps := foldl ps_erase (v_ps v) (drop (v_start v) (take ntid (heaptids p))) in
      Some (set_ntids p (v_start v), Some ps, v_removed v, true)
    else Some (p, Some (v_ps v), v_removed v, v_dirty v).
End Ops.
