(* ===== verification/GraphPointFacts.v ===== *)
(** * Correctness of the heap tids of a graph point

    The well-formedness invariant of [GraphPoint.v] (flag byte, keys, pages), the
    tids a point stands for, and what [insert_tid] and [vacuum_tids] do to them. *)
From Stdlib Require Import ZArith Lia.
From stdpp Require Import prelude gmap.
From S2P Require Import Prelude GraphPoint.

(** ** The flag byte, by enumeration *)

Definition flag_case (f : Z) (n : nat) : bool :=
  let p := Point f [] in
  let q := set_ntids p n in
  let e := set_extended p in
  (ntids q =? n) && Bool.eqb (is_extended q) (is_extended p) &&
  Bool.eqb (is_deleted q) (is_deleted p) && Bool.eqb (is_async q) (is_async p) &&
  Bool.eqb (is_double_extended q) (is_double_extended p) &&
  (0 <=? flag q)%Z && (flag q <? 256)%Z &&
  is_extended e && (ntids e =? ntids p) && (0 <=? flag e)%Z && (flag e <? 256)%Z.

Lemma flag_cases : forallb (λ f, forallb (flag_case f) (seq 0 16)) (seqZ 0 256) = true.
Proof. vm_compute. reflexivity. Qed.

Definition flag_ok (p : point) : Prop := (0 <= flag p < 256)%Z.

Lemma flag_case_all p n : flag_ok p → n ≤ 15 → flag_case (flag p) n = true.
Proof.
  intros Hf Hn. pose proof flag_cases as Hall. rewrite forallb_forall in Hall.
  assert (In (flag p) (seqZ 0 256)) as Hin by (apply list_elem_of_In, elem_of_seqZ; unfold flag_ok in *; lia).
  specialize (Hall _ Hin). rewrite forallb_forall in Hall. apply Hall.
  apply list_elem_of_In, elem_of_seq. lia.
Qed.

Lemma set_ntids_spec p n :
  flag_ok p → n ≤ 15 →
  ntids (set_ntids p n) = n ∧ is_extended (set_ntids p n) = is_extended p ∧
  flag_ok (set_ntids p n) ∧ heaptids (set_ntids p n) = heaptids p ∧
  is_deleted (set_ntids p n) = is_deleted p ∧ is_async (set_ntids p n) = is_async p.
Proof.
  intros Hf Hn. pose proof (flag_case_all p n Hf Hn) as H. unfold flag_case in H.
  rewrite !andb_true_iff, !eqb_true_iff, !Nat.eqb_eq, Z.leb_le, Z.ltb_lt in H.
  unfold flag_ok. destruct_and!. repeat split; assumption.
Qed.

Lemma set_extended_spec p :
  flag_ok p →
  is_extended (set_extended p) = true ∧ flag_ok (set_extended p) ∧
  heaptids (set_extended p) = heaptids p.
Proof.
  intros Hf. pose proof (flag_case_all p 0 Hf ltac:(lia)) as H. unfold flag_case in H.
  rewrite !andb_true_iff, !Z.leb_le, !Z.ltb_lt in H.
  unfold flag_ok. destruct_and!. repeat split; assumption.
Qed.

Lemma ntids_le_15 p : ntids p ≤ 15.
Proof.
  unfold ntids. rewrite (Z.land_ones _ 4) by lia.
  pose proof (Z.mod_pos_bound (Z.shiftr (flag p) 2) (2 ^ 4)). lia.
Qed.

(** ** Pages *)

Lemma max_size_val : max_size = 6 * 1357 + 2.
Proof. reflexivity. Qed.
Lemma tid_page_cap_val : tid_page_cap = 1357.
Proof. reflexivity. Qed.

(** A stored page: never empty, its size is that of its tids, or the whole of
    [max_size] once full. *)
Record item_ok (it : item) : Prop := {
  ok_nonempty : 0 < length (it_tids it);
  ok_size : it_size it = sizeof_tid * length (it_tids it) ∨
            it_size it = max_size ∧ length (it_tids it) = tid_page_cap;
  ok_max : it_size it ≤ max_size;
}.

Lemma item_ok_count it : item_ok it → it_size it / sizeof_tid = length (it_tids it).
Proof.
  intros [_ [->|[-> ->]] _]; [|reflexivity].
  rewrite Nat.mul_comm. by apply Nat.div_mul.
Qed.

Lemma item_of_ok l : 0 < length l ≤ tid_page_cap → item_ok (item_of l).
Proof.
  intros [? Hl]. rewrite tid_page_cap_val in Hl.
  split; simpl; [done|by left|]. rewrite max_size_val. unfold sizeof_tid. lia.
Qed.

Section Pages.
Context {PS : Type} `{PlainStoreLaws PS}.
Implicit Types (ps : PS) (keys : list tid) (pgs : list (list tid)).

Definition holds ps (k : tid) (l : list tid) : Prop :=
  ∃ it, ps_get ps k = Some it ∧ item_ok it ∧ it_tids it = l.

Definition full_but_last pgs : Prop :=
  ∀ i l, pgs !! i = Some l → S i < length pgs → length l = tid_page_cap.

(** The keys of a point and the pages behind them. *)
Record pages ps keys pgs : Prop := {
  pages_nodup : NoDup keys;
  pages_held : Forall2 (holds ps) keys pgs;
  pages_full : full_but_last pgs;
}.

Lemma holds_page_tids ps k l : holds ps k l → page_tids ps k = Some l.
Proof.
  intros (it & Hk & Hok & <-). unfold page_tids. rewrite Hk. cbn -[Nat.div].
  by rewrite item_ok_count, firstn_all.
Qed.

Lemma get_pages_held ps keys pgs : Forall2 (holds ps) keys pgs → get_pages ps keys = Some (concat pgs).
Proof.
  induction 1 as [|k l keys pgs Hk _ IH]; simpl; [done|].
  by rewrite (holds_page_tids _ _ _ Hk), IH.
Qed.

Lemma count_pages_held ps keys pgs :
  Forall2 (holds ps) keys pgs → count_pages ps keys = Some (length (concat pgs)).
Proof.
  induction 1 as [|k l keys pgs (it & Hk & Hok & <-) _ IH]; [done|].
  cbn -[Nat.div]. rewrite Hk, IH. cbn -[Nat.div]. by rewrite item_ok_count, length_app.
Qed.

Lemma held_frame ps ps' keys pgs :
  Forall2 (holds ps) keys pgs → (∀ k, k ∈ keys → ps_get ps' k = ps_get ps k) →
  Forall2 (holds ps') keys pgs.
Proof.
  intros Hh Hf. induction Hh as [|k l keys pgs (it & Hk & Hok & Hl) _ IH]; constructor.
  - exists it. rewrite Hf by by left. done.
  - apply IH. intros k' Hk'. apply Hf. by right.
Qed.

Lemma held_fresh ps keys pgs k : Forall2 (holds ps) keys pgs → ps_get ps k = None → k ∉ keys.
Proof.
  intros Hh Hk Hin. apply list_elem_of_lookup in Hin as [i Hi].
  destruct (Forall2_lookup_l _ _ _ _ _ Hh Hi) as (l & _ & it & Hit & _). congruence.
Qed.

Lemma full_but_last_app pgs l :
  full_but_last pgs → (∀ l', last pgs = Some l' → length l' = tid_page_cap) →
  full_but_last (pgs ++ [l]).
Proof.
  intros Hf Hlast i l' Hi Hlt. rewrite length_app in Hlt. simpl in Hlt.
  rewrite lookup_app_l in Hi by lia. destruct (decide (S i < length pgs)); [by eapply Hf|].
  apply Hlast. rewrite last_lookup. by replace (Init.Nat.pred (length pgs)) with i by lia.
Qed.

Lemma full_but_last_replace pgs l l' :
  full_but_last (pgs ++ [l]) → full_but_last (pgs ++ [l']).
Proof.
  intros Hf i x Hi Hlt. rewrite length_app in Hlt. simpl in Hlt.
  apply (Hf i x); rewrite ?length_app; simpl; [|lia].
  rewrite lookup_app_l in Hi |- * by lia. done.
Qed.

(** [put]: a new page behind a fresh key. *)
Lemma pages_put ps keys pgs l :
  pages ps keys pgs → 0 < length l ≤ tid_page_cap →
  (∀ l', last pgs = Some l' → length l' = tid_page_cap) →
  pages (ps_put ps (item_of l)).1 (keys ++ [(ps_put ps (item_of l)).2]) (pgs ++ [l]).
Proof.
  intros [Hn Hh Hf] Hl Hlast. set (r := ps_put ps (item_of l)).
  assert (Hfresh : ps_get ps r.2 = None) by apply ps_put_fresh.
  assert (Hget : ∀ k, ps_get r.1 k = if decide (k = r.2) then Some (item_of l) else ps_get ps k)
    by (intros; apply ps_put_get).
  pose proof (held_fresh _ _ _ _ Hh Hfresh) as Hnin. split.
  - apply NoDup_app. split; [done|]. split; [|apply NoDup_singleton].
    by intros k Hk ->%list_elem_of_singleton.
  - apply Forall2_app.
    + eapply held_frame; [exact Hh|]. intros k Hk. rewrite Hget. by rewrite decide_False by congruence.
    + constructor; [|constructor]. exists (item_of l). rewrite Hget, decide_True by done.
      split; [done|]. by split; [apply item_of_ok|].
  - by apply full_but_last_app.
Qed.

(** [set] on the last page. *)
Lemma pages_set_last ps keys pgs k l it' :
  pages ps (keys ++ [k]) (pgs ++ [l]) → item_ok it' →
  pages (ps_set ps k it').1 (keys ++ [(ps_set ps k it').2]) (pgs ++ [it_tids it']).
Proof.
  intros [Hn Hh Hf] Hok. set (r := ps_set ps k it').
  apply Forall2_app_inv in Hh as [Hh Hk];
    [|apply Forall2_length in Hh; rewrite !length_app in Hh; simpl in Hh; lia].
  apply Forall2_cons in Hk as [(it & Hk & _) _].
  apply NoDup_app in Hn as (Hn & Hd & _).
  assert (is_Some (ps_get ps k)) as Hsome by eauto.
  assert (Hnin : r.2 ∉ keys).
  { destruct (ps_set_key ps k it' Hsome) as [Hr|Hr]; fold r in Hr.
    - rewrite Hr. intros Hin. apply (Hd k Hin). by left.
    - by eapply held_fresh. }
  assert (Hget : ∀ k', ps_get r.1 k' = if decide (k' = r.2) then Some it'
    else if decide (k' = k) then None else ps_get ps k') by (intros; by apply ps_set_get).
  split.
  - apply NoDup_app. split; [done|]. split; [|apply NoDup_singleton].
    by intros k' Hk' ->%list_elem_of_singleton.
  - apply Forall2_app.
    + eapply held_frame; [exact Hh|]. intros k' Hk'. rewrite Hget.
      rewrite decide_False by congruence. rewrite decide_False; [done|].
      intros ->. apply (Hd k Hk'). by left.
    + constructor; [|constructor]. exists it'. rewrite Hget, decide_True by done. done.
  - by eapply full_but_last_replace.
Qed.
End Pages.

(** ** The tids a point stands for *)

Definition keys (p : point) : list tid := take (ntids p) (heaptids p).

Section Represents.
Context {PS : Type} `{PlainStoreLaws PS}.
Implicit Types (ps : PS) (ctx : option PS) (p : point).

Record point_ok p : Prop := {
  point_flag : flag_ok p;
  point_len : length (heaptids p) = GRAPH_INDEX_MAX_HEAPTIDS;
  point_ntids : ntids p ≤ GRAPH_INDEX_MAX_HEAPTIDS;
}.

(** The point is well formed and holds exactly [l], in insertion order. *)
Record represents p ctx (l : list tid) : Prop := {
  rep_ok : point_ok p;
  rep_inline : is_extended p = false → l = keys p;
  rep_pages : is_extended p = true →
    ∃ ps pgs, ctx = Some ps ∧ pages ps (keys p) pgs ∧ l = concat pgs;
}.

(** Items of the store that are not pages of [p] survive. *)
Definition others_kept p ctx ctx' : Prop :=
  ∀ ps k it, ctx = Some ps → ps_get ps k = Some it →
    ¬ (is_extended p = true ∧ k ∈ keys p) →
    ∃ ps', ctx' = Some ps' ∧ ps_get ps' k = Some it.

Lemma represents_get_tids p ctx l : represents p ctx l → get_tids p ctx = Some l.
Proof.
  intros [Hok Hin Hpg]. unfold get_tids. destruct (is_extended p); simpl.
  - destruct (Hpg eq_refl) as (ps & pgs & -> & [_ Hh _] & ->). simpl. by apply get_pages_held.
  - by rewrite Hin.
Qed.

Lemma represents_actual_ntids p ctx l :
  represents p ctx l → actual_ntids p ctx = Some (length l).
Proof.
  intros [[Hf Hlen Hle] Hin Hpg]. unfold actual_ntids. destruct (is_extended p); simpl.
  - destruct (Hpg eq_refl) as (ps & pgs & -> & [_ Hh _] & ->). simpl. by apply count_pages_held.
  - rewrite Hin by done. unfold keys. rewrite length_take. f_equal. lia.
Qed.

Lemma others_kept_refl p ctx : others_kept p ctx ctx.
Proof. intros ps k it -> Hk _. eauto. Qed.

Lemma put_keeps ps it k it' : ps_get ps k = Some it' → ps_get (ps_put ps it).1 k = Some it'.
Proof.
  intros Hk. rewrite ps_put_get. rewrite decide_False; [done|].
  intros ->. by rewrite ps_put_fresh in Hk.
Qed.

Lemma set_keeps ps k0 it k it' :
  is_Some (ps_get ps k0) → k ≠ k0 → ps_get ps k = Some it' →
  ps_get (ps_set ps k0 it).1 k = Some it'.
Proof.
  intros Hk0 Hne Hk. rewrite ps_set_get by done. rewrite decide_False; [by rewrite decide_False|].
  intros ->. destruct (ps_set_key ps k0 it Hk0) as [?|Hn]; congruence.
Qed.

Lemma point_ok_set_ntids p n :
  flag_ok p → length (heaptids p) = GRAPH_INDEX_MAX_HEAPTIDS → n ≤ GRAPH_INDEX_MAX_HEAPTIDS →
  point_ok (set_ntids p n) ∧ is_extended (set_ntids p n) = is_extended p ∧
  keys (set_ntids p n) = take n (heaptids p).
Proof.
  intros Hf Hlen Hn. assert (n ≤ 15) as Hn' by (unfold GRAPH_INDEX_MAX_HEAPTIDS in *; lia).
  destruct (set_ntids_spec p n Hf Hn') as (Hnt & He & Hf' & Hh & _).
  unfold keys. rewrite Hnt, Hh, He. split; [|done]. split; rewrite ?Hnt, ?Hh; done.
Qed.

(** The cells of the key array: the last key, and what replacing and appending
    do to the prefix in use. *)
Lemma keys_last p : point_ok p → 0 < ntids p →
  ∃ k, heaptids p !! (ntids p - 1) = Some k ∧ keys p = take (ntids p - 1) (heaptids p) ++ [k].
Proof.
  intros [_ Hlen Hle] Hpos. destruct (lookup_lt_is_Some_2 (heaptids p) (ntids p - 1)) as [k Hk]; [lia|].
  exists k. split; [done|]. unfold keys.
  replace (take (ntids p) (heaptids p)) with (take (S (ntids p - 1)) (heaptids p)) by (f_equal; lia).
  by apply take_S_r.
Qed.

Lemma take_replace_last (l : list tid) n k :
  0 < n ≤ length l → take n (<[n - 1:=k]> l) = take (n - 1) l ++ [k].
Proof.
  intros Hn. replace (take n (<[n - 1:=k]> l)) with (take (S (n - 1)) (<[n - 1:=k]> l)) by (f_equal; lia).
  rewrite (take_S_r _ _ k) by (apply list_lookup_insert_eq; lia). by rewrite take_insert_ge by lia.
Qed.

Lemma take_append (l : list tid) n k :
  n < length l → take (n + 1) (<[n:=k]> l) = take n l ++ [k].
Proof.
  intros Hn. rewrite Nat.add_1_r. rewrite (take_S_r _ _ k) by by apply list_lookup_insert_eq.
  by rewrite take_insert_ge by lia.
Qed.

(** ** [insert_tid], case by case *)

Lemma insert_inline p ctx l data :
  represents p ctx l → is_extended p = false →
  ntids p + length data ≤ GRAPH_INDEX_MAX_HEAPTIDS →
  represents (set_ntids (write_tids p (ntids p) data) (ntids p + length data)) ctx (l ++ data).
Proof.
  intros [[Hf Hlen Hle] Hin _] He Hsz. rewrite Hin by done.
  destruct (point_ok_set_ntids (write_tids p (ntids p) data) (ntids p + length data))
    as (Hok & He' & Hk); [done|by simpl; rewrite length_inserts|done|].
  split; [done|intros _|rewrite He'; unfold is_extended in *; simpl; congruence].
  rewrite Hk. unfold keys. simpl. apply list_eq. intros i.
  destruct (decide (i < ntids p)) as [Hi|Hi].
  - rewrite lookup_app_l by (rewrite length_take; lia).
    rewrite !lookup_take_lt, list_lookup_inserts_lt by lia. done.
  - rewrite lookup_app_r by (rewrite length_take; lia). rewrite length_take.
    replace (ntids p `min` length (heaptids p)) with (ntids p) by lia.
    destruct (decide (i < ntids p + length data)).
    + rewrite lookup_take_lt, list_lookup_inserts by lia. done.
    + rewrite lookup_take_ge by lia. rewrite lookup_ge_None_2; [done|lia].
Qed.

Lemma represents_extended p ps n pgs :
  flag_ok p → length (heaptids p) = GRAPH_INDEX_MAX_HEAPTIDS → n ≤ GRAPH_INDEX_MAX_HEAPTIDS →
  is_extended p = true → pages ps (take n (heaptids p)) pgs →
  represents (set_ntids p n) (Some ps) (concat pgs).
Proof.
  intros Hf Hlen Hn He Hpg.
  destruct (point_ok_set_ntids p n Hf Hlen Hn) as (Hok & He' & Hk).
  split; [done|congruence|]. intros _. exists ps, pgs. by rewrite Hk.
Qed.

Lemma insert_extend p ps l data :
  represents p (Some ps) l → is_extended p = false → 0 < length data →
  ntids p + length data ≤ tid_page_cap →
  let r := ps_put ps (item_of (keys p ++ data)) in
  represents (set_heaptid (set_ntids (set_extended p) 1) 0 r.2) (Some r.1) (l ++ data).
Proof.
  intros [[Hf Hlen Hle] Hin _] He Hd Hsz r. rewrite Hin by done.
  destruct (set_extended_spec p Hf) as (He' & Hf' & Hh).
  assert (Heq : set_heaptid (set_ntids (set_extended p) 1) 0 r.2 =
                set_ntids (set_heaptid (set_extended p) 0 r.2) 1) by done.
  rewrite Heq, <-(app_nil_r (keys p ++ data)). apply (represents_extended _ _ 1 [keys p ++ data]);
    [done|simpl; rewrite length_insert; congruence|unfold GRAPH_INDEX_MAX_HEAPTIDS; lia|done|].
  replace (take 1 (heaptids (set_heaptid (set_extended p) 0 r.2))) with ([] ++ [r.2]).
  - assert (Hnil : pages ps [] []) by (split; [constructor|constructor|by intros ? ? ?]).
    apply (pages_put ps [] [] (keys p ++ data) Hnil); [|done].
    unfold keys. rewrite length_app, length_take. lia.
  - simpl. destruct (heaptids p); [simpl in *; discriminate|]. simpl. by rewrite take_0.
Qed.

(** A new page after the last one. *)
Lemma append_page p ps pgs l :
  point_ok p → is_extended p = true → pages ps (keys p) pgs →
  ntids p < GRAPH_INDEX_MAX_HEAPTIDS → 0 < length l ≤ tid_page_cap →
  (∀ l', last pgs = Some l' → length l' = tid_page_cap) →
  let r := ps_put ps (item_of l) in
  represents (set_ntids (set_heaptid p (ntids p) r.2) (ntids p + 1)) (Some r.1) (concat pgs ++ l).
Proof.
  intros [Hf Hlen Hle] He Hpg Hn Hl Hlast r.
  replace (concat pgs ++ l) with (concat (pgs ++ [l])) by (by rewrite concat_app; simpl; rewrite app_nil_r).
  apply represents_extended; [done|simpl; by rewrite length_insert|lia|done|].
  simpl. rewrite take_append by lia. by apply pages_put.
Qed.

Lemma concat_snoc {B : Type} (pgs : list (list B)) l : concat (pgs ++ [l]) = concat pgs ++ l.
Proof. rewrite concat_app. simpl. by rewrite app_nil_r. Qed.

(** The page [insert_tid] writes back: as many of the new tids as fit. *)
Definition filled (it : item) (data : list tid) : item :=
  let nnew := Nat.min ((max_size - it_size it) / sizeof_tid) (length data) in
  Item (take (it_size it / sizeof_tid) (it_tids it) ++ take nnew data)
    (Nat.min max_size (it_size it + sizeof_tid * length data)).

Lemma filled_spec it data :
  item_ok it → it_size it + sizeof_tid ≤ max_size →
  let nnew := Nat.min ((max_size - it_size it) / sizeof_tid) (length data) in
  item_ok (filled it data) ∧ it_tids (filled it data) = it_tids it ++ take nnew data ∧
  (nnew < length data → length (it_tids (filled it data)) = tid_page_cap).
Proof.
  intros Hok Hsz nnew. assert (Ht : it_tids (filled it data) = it_tids it ++ take nnew data).
  { unfold filled. cbn -[Nat.div]. by rewrite item_ok_count, firstn_all. }
  assert (Hlen : length (it_tids (filled it data)) = length (it_tids it) + nnew)
    by (rewrite Ht, length_app, length_take; lia).
  destruct Hok as [Hne [Hs|[Hs _]] Hmax]; [|rewrite Hs, max_size_val in *; unfold sizeof_tid in *; lia].
  assert (Hsp : (max_size - it_size it) / sizeof_tid = 1357 - length (it_tids it)).
  { rewrite Hs in Hsz |- *. rewrite max_size_val in *. unfold sizeof_tid in *.
    symmetry. apply (Nat.div_unique _ _ _ 2); lia. }
  unfold nnew in *. rewrite Hsp in *. rewrite tid_page_cap_val.
  rewrite Hs, max_size_val in Hsz. unfold sizeof_tid in Hsz.
  split; [|split; [done|lia]]. split; [lia| |].
  - rewrite Hlen, tid_page_cap_val.
    change (it_size (filled it data)) with (Nat.min max_size (it_size it + sizeof_tid * length data)).
    rewrite Hs, max_size_val. unfold sizeof_tid. lia.
  - apply Nat.le_min_l.
Qed.

Lemma insert_last_page p ps pgs it k key pgs0 :
  point_ok p → is_extended p = true → 0 < ntids p →
  keys p = take (ntids p - 1) (heaptids p) ++ [key] →
  pgs = pgs0 ++ [k] → pages ps (keys p) pgs → item_ok it →
  let r := ps_set ps key it in
  let p' := set_heaptid p (ntids p - 1) r.2 in
  point_ok p' ∧ is_extended p' = true ∧ ntids p' = ntids p ∧
  pages r.1 (keys p') (pgs0 ++ [it_tids it]).
Proof.
  intros [Hf Hlen Hle] He Hpos Hk -> Hpg Hok r p'. split.
  { split; [done|simpl; by rewrite length_insert|done]. }
  split; [done|]. split; [done|]. unfold keys, p'. simpl.
  change (ntids (set_heaptid p (ntids p - 1) r.2)) with (ntids p).
  rewrite take_replace_last by lia. rewrite Hk in Hpg. by eapply pages_set_last.
Qed.

Lemma others_kept_put p ps it : others_kept p (Some ps) (Some (ps_put ps it).1).
Proof. intros ps0 k it' [= <-] Hk _. eexists. split; [done|]. by apply put_keeps. Qed.

Lemma others_kept_set p ps key it :
  is_extended p = true → key ∈ keys p → is_Some (ps_get ps key) →
  others_kept p (Some ps) (Some (ps_set ps key it).1).
Proof.
  intros He Hin Hs ps0 k it' [= <-] Hk Hno. eexists. split; [done|]. apply set_keeps; [done| |done].
  intros ->. by apply Hno.
Qed.

Lemma others_kept_trans p ctx ctx' ps'' ps' it :
  others_kept p ctx (Some ps') → ps'' = (ps_put ps' it).1 → others_kept p ctx (Some ps'').
Proof.
  intros Hk -> ps k it' Hc Hget Hno. destruct (Hk ps k it' Hc Hget Hno) as (? & [= <-] & Hget').
  eexists. split; [done|]. by apply put_keeps.
Qed.

(** When [insert_tid] refuses: an emptied point, an overflow without a store, or
    ten pages the last of which cannot take all of [data]. *)
Definition refuses p ctx (data : list tid) : bool :=
  empty p ||
  (negb (negb (is_extended p) && (ntids p + length data <=? GRAPH_INDEX_MAX_HEAPTIDS)) &&
   match ctx with
   | None => true
   | Some ps =>
     is_extended p && (GRAPH_INDEX_MAX_HEAPTIDS <=? ntids p) &&
     match heaptids p !! (ntids p - 1) ≫= ps_get ps with
     | Some it => (max_size - it_size it) / sizeof_tid <? length data
     | None => true
     end
   end).

Lemma refuses_extended p ps it data :
  is_extended p = true → 0 < ntids p → heaptids p !! (ntids p - 1) ≫= ps_get ps = Some it →
  refuses p (Some ps) data =
  (GRAPH_INDEX_MAX_HEAPTIDS <=? ntids p) && ((max_size - it_size it) / sizeof_tid <? length data).
Proof.
  intros He Hpos Hit. unfold refuses, empty. rewrite He, Hit.
  destruct (Nat.eqb_spec (ntids p) 0); [lia|done].
Qed.

(** The last page of a point with pages. *)
Lemma extended_last p ps l :
  represents p (Some ps) l → is_extended p = true → 0 < ntids p →
  ∃ key it pgs, heaptids p !! (ntids p - 1) = Some key ∧ ps_get ps key = Some it ∧ item_ok it ∧
    keys p = take (ntids p - 1) (heaptids p) ++ [key] ∧
    pages ps (keys p) (pgs ++ [it_tids it]) ∧ l = concat (pgs ++ [it_tids it]).
Proof.
  intros [Hok _ Hpg] He Hpos. destruct (Hpg He) as (? & pgs & [= <-] & Hp & ->).
  destruct (keys_last p Hok Hpos) as (key & Hkey & Hks).
  pose proof (pages_held _ _ _ Hp) as Hh. rewrite Hks in Hh.
  apply Forall2_app_inv_l in Hh as (pgs0 & x & _ & Hx & ->).
  apply Forall2_cons_inv_l in Hx as (lp & x' & (it & Hit & Hiok & <-) & Hnil & ->).
  apply Forall2_nil_inv_l in Hnil as ->. by exists key, it, pgs0.
Qed.

(** What [insert_tid] computes on a point with pages. *)
Definition insert_extended p ps (data : list tid) (key : tid) (it : item) :
    point * option PS * bool * option bool :=
  if max_size <? it_size it + sizeof_tid then
    if ntids p <? GRAPH_INDEX_MAX_HEAPTIDS then
      let '(ps, k) := ps_put ps (item_of data) in
      (set_ntids (set_heaptid p (ntids p) k) (ntids p + 1), Some ps, true, Some true)
    else (p, Some ps, false, None)
  else
    let nnew := Nat.min ((max_size - it_size it) / sizeof_tid) (length data) in
    if (nnew <? length data) && (GRAPH_INDEX_MAX_HEAPTIDS <=? ntids p) then (p, Some ps, false, None)
    else
      let '(ps, k) := ps_set ps key (filled it data) in
      let p := set_heaptid p (ntids p - 1) k in
      if nnew <? length data then
        let '(ps, k) := ps_put ps (item_of (drop nnew data)) in
        (set_ntids (set_heaptid p (ntids p) k) (ntids p + 1), Some ps, true, Some true)
      else (p, Some ps, true, Some (bool_decide (key = k))).

Lemma insert_tid_extended_eq p ps data key it :
  is_extended p = true → 0 < ntids p → 0 < length data → length data ≤ tid_page_cap →
  heaptids p !! (ntids p - 1) = Some key → ps_get ps key = Some it →
  insert_tid p (Some ps) data = Some (insert_extended p ps data key it).
Proof.
  intros He Hpos Hd Hcap Hkey Hit. unfold insert_tid, empty, insert_extended. rewrite He, Hkey.
  destruct (Nat.eqb_spec (length data) 0); [lia|]. destruct (Nat.eqb_spec (ntids p) 0); [lia|].
  destruct (Nat.leb_spec (sizeof_tid * length data) max_size) as [_|Hbad];
    [|rewrite max_size_val in Hbad; rewrite tid_page_cap_val in Hcap; unfold sizeof_tid in Hbad; lia].
  cbn [negb andb mbind option_bind]. rewrite Hit. cbn [mbind option_bind]. fold (filled it data).
  change (ntids (set_heaptid p (ntids p - 1) _)) with (ntids p).
  destruct (max_size <? _); [by repeat case_match|].
  destruct (_ && _); [done|]. destruct (ps_set _ _ _) as [ps1 k1].
  change (ntids (set_heaptid p (ntids p - 1) k1)) with (ntids p). by repeat case_match.
Qed.

Lemma insert_full_page p ps l data key it pgs :
  represents p (Some ps) l → is_extended p = true → 0 < length data ≤ tid_page_cap →
  item_ok it → max_size < it_size it + sizeof_tid →
  pages ps (keys p) (pgs ++ [it_tids it]) → l = concat (pgs ++ [it_tids it]) →
  ∃ p' ctx' ok ov, insert_extended p ps data key it = (p', ctx', ok, ov) ∧
    ok = (ntids p <? GRAPH_INDEX_MAX_HEAPTIDS) ∧
    represents p' ctx' (if ok then l ++ data else l) ∧ others_kept p (Some ps) ctx'.
Proof.
  intros Hrep He Hd Hiok Hfull Hpg ->. unfold insert_extended.
  destruct (Nat.ltb_spec max_size (it_size it + sizeof_tid)); [|lia].
  destruct (Nat.ltb_spec (ntids p) GRAPH_INDEX_MAX_HEAPTIDS) as [Hlt|Hge].
  - assert (Hap := append_page p ps _ data (rep_ok _ _ _ Hrep) He Hpg Hlt).
    assert (Hk := others_kept_put p ps (item_of data)).
    destruct (ps_put ps (item_of data)) as [ps' k]. cbn [fst snd] in *.
    eexists _, _, _, _. split; [done|]. split; [done|]. split; [|done].
    apply Hap; [lia|]. intros l'. rewrite last_snoc. intros [= <-].
    destruct (ok_size it Hiok) as [Hs|[_ ?]]; [|done].
    pose proof (ok_max it Hiok). rewrite Hs, max_size_val, tid_page_cap_val in *.
    unfold sizeof_tid in *. lia.
  - eexists _, _, _, _. split; [done|]. split; [done|]. split; [exact Hrep|apply others_kept_refl].
Qed.

Lemma insert_roomy_page p ps l data key it pgs :
  represents p (Some ps) l → is_extended p = true → 0 < ntids p → 0 < length data ≤ tid_page_cap →
  item_ok it → it_size it + sizeof_tid ≤ max_size → ps_get ps key = Some it →
  keys p = take (ntids p - 1) (heaptids p) ++ [key] →
  pages ps (keys p) (pgs ++ [it_tids it]) → l = concat (pgs ++ [it_tids it]) →
  ∃ p' ctx' ok ov, insert_extended p ps data key it = (p', ctx', ok, ov) ∧
    ok = negb ((GRAPH_INDEX_MAX_HEAPTIDS <=? ntids p) &&
               ((max_size - it_size it) / sizeof_tid <? length data)) ∧
    represents p' ctx' (if ok then l ++ data else l) ∧ others_kept p (Some ps) ctx'.
Proof.
  intros Hrep He Hpos Hd Hiok Hroom Hit Hks Hpg ->. unfold insert_extended.
  destruct (Nat.ltb_spec max_size (it_size it + sizeof_tid)); [lia|].
  destruct (filled_spec it data Hiok Hroom) as (Hfok & Hft & Hfull).
  set (space := (max_size - it_size it) / sizeof_tid) in *.
  assert (Hcmp : (space `min` length data <? length data) = (space <? length data))
    by (apply Bool.eq_iff_eq_true; rewrite !Nat.ltb_lt; lia).
  rewrite Hcmp, andb_comm.
  destruct ((GRAPH_INDEX_MAX_HEAPTIDS <=? ntids p) && (space <? length data)) eqn:Href.
  { eexists _, _, _, _. split; [done|]. split; [done|]. split; [exact Hrep|apply others_kept_refl]. }
  assert (Hin : key ∈ keys p) by (rewrite Hks; apply elem_of_app; right; by left).
  destruct (insert_last_page p ps _ (filled it data) _ key pgs (rep_ok _ _ _ Hrep) He Hpos Hks
    eq_refl Hpg Hfok) as (Hpok' & He' & Hn' & Hpg').
  assert (Hset := others_kept_set p ps key (filled it data) He Hin ltac:(eauto)).
  destruct (ps_set ps key (filled it data)) as [ps1 k1]. cbn [fst snd] in *. rewrite Hn'.
  destruct (Nat.ltb_spec space (length data)) as [Hsp|Hsp].
  - rewrite andb_true_r in Href. apply Nat.leb_gt in Href.
    replace (space `min` length data) with space in * by lia.
    assert (Hap := append_page _ ps1 _ (drop space data) Hpok' He' Hpg').
    rewrite Hn' in Hap. specialize (Hap Href).
    assert (Hput := others_kept_trans p (Some ps) None _ ps1 (item_of (drop space data)) Hset eq_refl).
    destruct (ps_put ps1 (item_of (drop space data))) as [ps2 k2]. cbn [fst snd] in *.
    eexists _, _, _, _. split; [done|]. split; [done|]. split; [|done].
    rewrite concat_snoc, <-app_assoc, <-(take_drop space data) at 1.
    rewrite app_assoc, app_assoc, <-(app_assoc _ (it_tids it)), <-Hft, <-concat_snoc.
    apply Hap; [rewrite length_drop; lia|]. intros l'. rewrite last_snoc. intros [= <-]. apply Hfull. lia.
  - replace (space `min` length data) with (length data) in * by lia. rewrite firstn_all in Hft.
    eexists _, _, _, _. split; [done|]. split; [done|]. split; [|done].
    split; [done|congruence|]. intros _. eexists ps1, _. split; [done|]. split; [done|].
    by rewrite !concat_snoc, Hft, app_assoc.
Qed.

Lemma insert_tid_extended p ps l data :
  represents p (Some ps) l → is_extended p = true → 0 < ntids p → 0 < length data ≤ tid_page_cap →
  let ok := negb (refuses p (Some ps) data) in
  ∃ p' ctx' ov, insert_tid p (Some ps) data = Some (p', ctx', ok, ov) ∧
    represents p' ctx' (if ok then l ++ data else l) ∧ others_kept p (Some ps) ctx'.
Proof.
  intros Hrep He Hpos Hd ok.
  destruct (extended_last p ps l Hrep He Hpos) as (key & it & pgs & Hkey & Hit & Hiok & Hks & Hpg & Hl).
  rewrite (insert_tid_extended_eq p ps data key it) by (done || lia).
  unfold ok. rewrite (refuses_extended p ps it) by (done || by rewrite Hkey). clear ok.
  destruct (decide (max_size < it_size it + sizeof_tid)) as [Hfull|Hroom].
  - destruct (insert_full_page p ps l data key it pgs Hrep He Hd Hiok Hfull Hpg Hl)
      as (p' & ctx' & ok & ov & -> & -> & Hrep' & Hk).
    rewrite Nat.div_small by (pose proof (ok_max it Hiok); lia).
    destruct (Nat.ltb_spec 0 (length data)); [|lia]. rewrite andb_true_r, Nat.leb_antisym, negb_involutive.
    by exists p', ctx', ov.
  - destruct (insert_roomy_page p ps l data key it pgs Hrep He Hpos Hd Hiok ltac:(lia) Hit Hks Hpg Hl)
      as (p' & ctx' & ok & ov & -> & -> & Hrep' & Hk). by exists p', ctx', ov.
Qed.

(** All cases of [insert_tid]. *)
Lemma insert_tid_spec p ctx l data :
  represents p ctx l → 0 < length data → length data + GRAPH_INDEX_MAX_HEAPTIDS ≤ tid_page_cap →
  let ok := negb (refuses p ctx data) in
  ∃ p' ctx' ov, insert_tid p ctx data = Some (p', ctx', ok, ov) ∧
    represents p' ctx' (if ok then l ++ data else l) ∧
    get_tids p' ctx' = Some (if ok then l ++ data else l) ∧ others_kept p ctx ctx'.
Proof.
  intros Hrep Hd Hcap ok.
  assert (∃ p' ctx' ov, insert_tid p ctx data = Some (p', ctx', ok, ov) ∧
    represents p' ctx' (if ok then l ++ data else l) ∧ others_kept p ctx ctx') as (p' & ctx' & ov & ?&?&?);
    [|exists p', ctx', ov; split_and!; [done|done|by apply represents_get_tids|done]].
  destruct (decide (ntids p = 0)) as [Hz|Hpos].
  { assert (He : empty p = true) by (unfold empty; by rewrite Hz).
    unfold ok, refuses, insert_tid. rewrite He. destruct (Nat.eqb_spec (length data) 0); [lia|]. simpl.
    eexists _, _, _. split; [done|]. split; [done|apply others_kept_refl]. }
  destruct (is_extended p) eqn:He.
  { destruct (rep_pages _ _ _ Hrep He) as (ps & _ & -> & _). apply insert_tid_extended; [done..|lia|lia]. }
  assert (Hm : sizeof_tid * length data <=? max_size = true).
  { apply Nat.leb_le. rewrite max_size_val. rewrite tid_page_cap_val in Hcap.
    unfold sizeof_tid. lia. }
  assert (Hemp : empty p = false) by (unfold empty; by apply Nat.eqb_neq).
  unfold ok, refuses, insert_tid. rewrite He, Hemp, Hm.
  destruct (Nat.eqb_spec (length data) 0); [lia|]. cbn [negb andb orb].
  destruct (Nat.leb_spec (ntids p + length data) GRAPH_INDEX_MAX_HEAPTIDS) as [Hfit|Hover]; cbn [negb andb].
  { eexists _, _, _. split; [done|]. split; [by apply insert_inline|apply others_kept_refl]. }
  destruct ctx as [ps|]; cbn [negb].
  - pose proof (point_ntids _ (rep_ok _ _ _ Hrep)).
    destruct (Nat.leb_spec (ntids p + length data) tid_page_cap); [|lia]. cbn [negb].
    assert (Hx := insert_extend p ps l data Hrep He Hd ltac:(lia)).
    assert (Hk := others_kept_put p ps (item_of (keys p ++ data))). fold (keys p).
    destruct (ps_put ps (item_of (keys p ++ data))) as [ps' k]. cbn [fst snd] in *.
    eexists _, _, _. split; [done|]. by split.
  - eexists _, _, _. split; [done|]. split; [done|apply others_kept_refl].
Qed.

(** On every well-formed point, [insert_tid] appends the new tids to the
    point's tids when it returns true and changes nothing when it returns false;
    it refuses exactly when the point was emptied by vacuum, when ten inline tids
    overflow without a store, or when the tenth page cannot take them all. The
    point stays well formed and no other item of the store is touched. *)
Theorem insert_tid_appends p ctx l data :
  represents p ctx l → 0 < length data → length data + GRAPH_INDEX_MAX_HEAPTIDS ≤ tid_page_cap →
  let ok := negb (refuses p ctx data) in
  ∃ p' ctx' ov, insert_tid p ctx data = Some (p', ctx', ok, ov) ∧
    represents p' ctx' (if ok then l ++ data else l) ∧
    get_tids p' ctx' = Some (if ok then l ++ data else l) ∧ others_kept p ctx ctx'.
Proof. apply insert_tid_spec. Qed.
End Represents.
