(* ===== verification/GraphPointVacuum.v ===== *)
(** * Vacuuming the heap tids of a graph point

    What [vacuum_tids] of [GraphPoint.v] does: exact on inline tids; exact on
    pages when the store overwrites in place and at least one tid is removed;
    and the loss of the last page when nothing is removed. *)
From Stdlib Require Import ZArith Lia.
From stdpp Require Import prelude gmap.
From S2P Require Import Prelude GraphPoint GraphPointFacts.

#[local] Opaque tid_page_cap max_size.

(** The tids [vacuum_tids filter] should leave. *)
Definition kept (filter : tid → bool) (l : list tid) : list tid := List.filter (λ t, negb (filter t)) l.

Lemma kept_app f l1 l2 : kept f (l1 ++ l2) = kept f l1 ++ kept f l2.
Proof. apply List.filter_app. Qed.

Lemma kept_length f l : length (kept f l) ≤ length l.
Proof. apply List.filter_length_le. Qed.

Lemma kept_all f l : length (kept f l) = length l → kept f l = l.
Proof.
  induction l as [|t l IH]; [done|]. pose proof (kept_length f l).
  change (kept f (t :: l)) with (if negb (f t) then t :: kept f l else kept f l).
  destruct (f t); simpl; intros Hl; [lia|]. f_equal. apply IH. lia.
Qed.

Lemma kept_none f l : (∀ t, t ∈ l → f t = false) → kept f l = l.
Proof.
  induction l as [|t l IH]; intros Hl; [done|]. unfold kept. simpl. rewrite Hl by by left. simpl.
  f_equal. apply IH. intros t' Ht'. apply Hl. by right.
Qed.

Lemma concat_full_length (w : list (list tid)) :
  Forall (λ l, length l = tid_page_cap) w → length (concat w) = tid_page_cap * length w.
Proof. induction 1 as [|l w Hl _ IH]; simpl; [lia|]. rewrite length_app, Hl, IH. lia. Qed.

(** ** Inline tids *)

Lemma compact_spec f fuel i s l :
  s ≤ i → i + fuel ≤ length l →
  let r := compact f fuel i s l in
  length r.1 = length l ∧
  take r.2 r.1 = take s l ++ kept f (take fuel (drop i l)) ∧
  r.2 = s + length (kept f (take fuel (drop i l))).
Proof.
  revert i s l. induction fuel as [|n IH]; intros i s l Hs Hlen; simpl.
  { rewrite app_nil_r. split_and!; [done|done|lia]. }
  destruct (lookup_lt_is_Some_2 l i) as [t Ht]; [lia|]. rewrite Ht, (drop_S l t i Ht). simpl.
  destruct (f t) eqn:Hf; simpl.
  - destruct (IH (S i) s l) as (H1 & H2 & H3); [lia..|]. done.
  - destruct (IH (S i) (S s) (<[s:=t]> l)) as (H1 & H2 & H3); [lia|rewrite length_insert; lia|].
    rewrite H2, H3, H1, length_insert, drop_insert_lt by lia. split_and!; [done| |unfold kept; lia].
    rewrite (take_S_r _ _ t) by (apply list_lookup_insert_eq; lia).
    rewrite take_insert_ge by lia. by rewrite <-app_assoc.
Qed.

Section Vacuum.
Context {PS : Type} `{PlainStoreLaws PS}.
Implicit Types (ps : PS) (ctx : option PS) (p : point).

(** On a point whose tids are inline, [vacuum_tids] keeps exactly the tids
    the filter does not match, in order, returns how many it removed and sets
    [dirty] exactly when it removed some. *)
Theorem vacuum_tids_inline f p ctx l :
  represents p ctx l → is_extended p = false →
  ∃ p', vacuum_tids f p ctx = Some (p', ctx, length l - length (kept f l),
                                    negb (length (kept f l) =? length l)) ∧
    represents p' ctx (kept f l).
Proof.
  intros Hrep He. pose proof Hrep as [[Hf Hlen Hle] Hin _]. unfold vacuum_tids. rewrite He. simpl negb.
  assert (Hl : length l = ntids p) by (rewrite Hin by done; unfold keys; rewrite length_take; lia).
  destruct (Nat.eqb_spec (ntids p) 0) as [Hz|Hpos].
  { assert (l = []) as -> by (apply nil_length_inv; lia). simpl. exists p. by split. }
  destruct (compact_spec f (ntids p) 0 0 (heaptids p)) as (Hl' & Ht & Hs); [lia..|].
  rewrite drop_0 in *. fold (keys p) in *. rewrite <-Hin in Ht, Hs by done.
  destruct (compact f (ntids p) 0 0 (heaptids p)) as [l' s]. simpl in *. subst s.
  rewrite <-Hl. eexists. split; [done|]. pose proof (kept_length f l).
  destruct (point_ok_set_ntids (Point (flag p) l') (length (kept f l))) as (Hok & He' & Hk);
    [done|simpl; lia|lia|].
  split; [done| |unfold is_extended in *; simpl in *; congruence].
  intros _. by rewrite Hk.
Qed.

(** ** Pages *)

Section Pages.
Context (f : tid → bool) (ps0 : PS) (hts : list tid) (n : nat) (pgs : list (list tid)).
Context (Hn : n ≤ length hts) (Hpages : pages ps0 (take n hts) pgs).

Lemma pgs_length : length pgs = n.
Proof.
  pose proof (Forall2_length _ _ _ (pages_held _ _ _ Hpages)) as Hl.
  rewrite length_take in Hl. lia.
Qed.

Lemma pgs_lookup i l : pgs !! i = Some l → ∃ k, hts !! i = Some k ∧ take n hts !! i = Some k ∧ holds ps0 k l.
Proof.
  intros Hi. destruct (Forall2_lookup_r _ _ _ _ _ (pages_held _ _ _ Hpages) Hi) as (k & Hk & Hh).
  exists k. split; [|done]. by apply lookup_take_Some in Hk as [? _].
Qed.

Lemma holds_length ps k l : holds ps k l → 0 < length l ≤ tid_page_cap.
Proof.
  intros (it & _ & [Hne Hs Hmax] & <-). split; [done|]. destruct Hs as [Hs|[_ ->]]; [|done].
  rewrite Hs, max_size_val in Hmax. rewrite tid_page_cap_val. unfold sizeof_tid in *. lia.
Qed.

Lemma concat_length_le m : length (concat (take m pgs)) ≤ tid_page_cap * m.
Proof.
  induction m as [|m IH]; [simpl; lia|]. destruct (pgs !! m) as [l|] eqn:Hl.
  - rewrite (take_S_r _ _ _ Hl), concat_snoc, length_app.
    destruct (pgs_lookup _ _ Hl) as (k & _ & _ & Hh). apply holds_length in Hh. lia.
  - rewrite take_ge in * by (apply lookup_ge_None in Hl; lia). lia.
Qed.

(** After the first [i] pages: [w] are the complete pages written (or left) so
    far, [v_buf] the tids carried over. *)
Record vac_inv (i : nat) (v : vac) (w : list (list tid)) : Prop := {
  vi_keys : v_heaptids v = hts;
  vi_out : concat w ++ v_buf v = kept f (concat (take i pgs));
  vi_start : length w = v_start v;
  vi_le : v_start v ≤ i;
  vi_full : Forall (λ l, length l = tid_page_cap) w;
  vi_buf : length (v_buf v) < tid_page_cap;
  vi_w : Forall2 (holds (v_ps v)) (take (v_start v) (take n hts)) w;
  vi_rest : Forall2 (holds (v_ps v)) (drop i (take n hts)) (drop i pgs);
  vi_some : ∀ k, k ∈ take n hts → is_Some (ps_get (v_ps v) k);
  vi_removed : v_removed v + length (kept f (concat (take i pgs))) = length (concat (take i pgs));
  vi_clean : v_removed v = 0 → i < n → v_start v = i ∧ v_buf v = [];
  vi_frame : ∀ k, k ∉ take n hts → ps_get (v_ps v) k = ps_get ps0 k;
}.

Lemma vac_inv_init : vac_inv 0 (Vac hts ps0 [] 0 0 false) [].
Proof.
  split; simpl; try done; [rewrite tid_page_cap_val; lia|apply Hpages|].
  - intros k [i Hi]%list_elem_of_lookup.
    destruct (Forall2_lookup_l _ _ _ _ _ (pages_held _ _ _ Hpages) Hi) as (l & _ & it & Hit & _). eauto.
Qed.

(** The store overwrites in place. *)
Definition in_place : Prop := ∀ ps k it, (ps_set ps k it).2 = k.

Lemma set_in_place_get ps k it k' :
  in_place → is_Some (ps_get ps k) →
  ps_get (ps_set ps k it).1 k' = if decide (k' = k) then Some it else ps_get ps k'.
Proof. intros Hip Hs. rewrite ps_set_get by done. rewrite Hip. by repeat case_decide. Qed.

Lemma write_page_in_place (v : vac) it k :
  in_place → v_heaptids v = hts → take n hts !! v_start v = Some k → is_Some (ps_get (v_ps v) k) →
  write_page v it = Some (Vac hts (ps_set (v_ps v) k it).1 (v_buf v) (v_removed v) (v_start v) true).
Proof.
  intros Hip Hh Hk [it' Hs]. apply lookup_take_Some in Hk as [Hk _].
  unfold write_page. rewrite Hh, Hk. cbn [mbind option_bind]. rewrite Hs. cbn [mbind option_bind].
  pose proof (Hip (v_ps v) k it) as Hp. destruct (ps_set (v_ps v) k it) as [ps' k']. simpl in *. subst k'.
  rewrite bool_decide_true by done. by rewrite list_insert_id.
Qed.

(** Writing page [s] leaves the pages before [s] and after [i] alone. *)
Lemma write_keeps_pages ps k it s i w :
  in_place → s ≤ i → take n hts !! s = Some k → is_Some (ps_get ps k) → item_ok it →
  Forall2 (holds ps) (take s (take n hts)) w →
  Forall2 (holds ps) (drop (S i) (take n hts)) (drop (S i) pgs) →
  let ps' := (ps_set ps k it).1 in
  Forall2 (holds ps') (take (S s) (take n hts)) (w ++ [it_tids it]) ∧
  Forall2 (holds ps') (drop (S i) (take n hts)) (drop (S i) pgs).
Proof.
  intros Hip Hsi Hk Hs Hok Hw Hr ps'. pose proof (pages_nodup _ _ _ Hpages) as Hnd.
  assert (Hne : ∀ j k', take n hts !! j = Some k' → j ≠ s → ps_get ps' k' = ps_get ps k').
  { intros j k' Hj Hjs. unfold ps'. rewrite set_in_place_get by done. rewrite decide_False; [done|].
    intros ->. apply Hjs. by eapply NoDup_lookup. }
  split.
  - rewrite (take_S_r _ _ _ Hk). apply Forall2_app.
    + eapply held_frame; [exact Hw|]. intros k' [j Hj]%list_elem_of_lookup.
      apply lookup_take_Some in Hj as [Hj ?]. apply (Hne j); [done|lia].
    + constructor; [|constructor]. exists it. unfold ps'. rewrite set_in_place_get by done.
      by rewrite decide_True.
  - eapply held_frame; [exact Hr|]. intros k' [j Hj]%list_elem_of_lookup.
    rewrite lookup_drop in Hj. apply (Hne (S i + j)); [done|lia].
Qed.

(** What page [i] adds, before the carried tids are written out. *)
Definition fed (v : vac (PS:=PS)) (l : list tid) : vac (PS:=PS) :=
  Vac (v_heaptids v) (v_ps v) (v_buf v ++ kept f l) (v_removed v + (length l - length (kept f l)))
    (v_start v) (v_dirty v).

Lemma vacuum_page_eq i v w l :
  vac_inv i v w → pgs !! i = Some l →
  vacuum_page f i v =
    (let v := fed v l in
     if tid_page_cap <=? length (v_buf v) then
       v ← (if 0 <? v_removed v then write_page v (item_of (take tid_page_cap (v_buf v))) else Some v);
       Some (Vac (v_heaptids v) (v_ps v) (drop tid_page_cap (v_buf v)) (v_removed v)
               (S (v_start v)) (v_dirty v))
     else Some v) ∧
  holds (v_ps v) (hts !!! i) l ∧ take n hts !! i = Some (hts !!! i).
Proof.
  intros Hv Hl. destruct (pgs_lookup _ _ Hl) as (k & Hk & Hk' & _).
  rewrite (list_lookup_total_correct _ _ _ Hk).
  assert (Hh : holds (v_ps v) k l).
  { destruct (Forall2_lookup_lr _ _ _ 0 k l (vi_rest _ _ _ Hv)); rewrite ?lookup_drop, ?Nat.add_0_r; eauto.
    eexists. eauto. }
  split; [|done]. unfold vacuum_page. rewrite (vi_keys _ _ _ Hv), Hk. cbn [mbind option_bind].
  rewrite (holds_page_tids _ _ _ Hh). cbn [mbind option_bind]. unfold fed. by rewrite (vi_keys _ _ _ Hv).
Qed.

(** The accounting part of the invariant after feeding page [i]. *)
Lemma fed_inv i v w l :
  vac_inv i v w → pgs !! i = Some l →
  concat w ++ v_buf (fed v l) = kept f (concat (take (S i) pgs)) ∧
  v_removed (fed v l) + length (kept f (concat (take (S i) pgs))) = length (concat (take (S i) pgs)) ∧
  length (v_buf (fed v l)) < 2 * tid_page_cap.
Proof.
  intros Hv Hl. rewrite (take_S_r _ _ _ Hl), concat_snoc, kept_app, !length_app.
  destruct (pgs_lookup _ _ Hl) as (k & _ & _ & Hh). apply holds_length in Hh.
  pose proof (kept_length f l). pose proof (vi_removed _ _ _ Hv). pose proof (vi_buf _ _ _ Hv).
  cbn [fed v_buf v_removed]. rewrite app_assoc, (vi_out _ _ _ Hv), length_app. split_and!; [done|lia|lia].
Qed.

(** Nothing removed yet: the carried tids are exactly page [i]. *)
Lemma fed_clean i v w l :
  vac_inv i v w → pgs !! i = Some l → v_removed (fed v l) = 0 →
  v_start v = i ∧ v_buf (fed v l) = l ∧ (S i < n → length l = tid_page_cap).
Proof.
  intros Hv Hl Hz. simpl in Hz. pose proof (lookup_lt_Some _ _ _ Hl) as Hi. rewrite pgs_length in Hi.
  pose proof (kept_length f l).
  destruct (vi_clean _ _ _ Hv) as [Hs Hb]; [lia..|]. simpl. rewrite Hb. simpl.
  rewrite kept_all by lia. split_and!; [done..|]. intros Hlt.
  apply (pages_full _ _ _ Hpages i l Hl). by rewrite pgs_length.
Qed.

Lemma holds_is_Some ps k l : holds ps k l → is_Some (ps_get ps k).
Proof. intros (it & -> & _). eauto. Qed.

Lemma is_Some_set ps k it k' :
  in_place → is_Some (ps_get ps k) → is_Some (ps_get ps k') → is_Some (ps_get (ps_set ps k it).1 k').
Proof. intros Hip Hk Hk'. rewrite set_in_place_get by done. case_decide; eauto. Qed.

(** The state after a complete page was written (or left in place). *)
Definition advanced (v : vac (PS:=PS)) (ps : PS) (dirty : bool) : vac (PS:=PS) :=
  Vac hts ps (drop tid_page_cap (v_buf v)) (v_removed v) (S (v_start v)) dirty.

(** What [advanced] keeps of the invariant, whatever was done to the store. *)
Lemma advanced_inv i v w l ps dirty :
  vac_inv i v w → pgs !! i = Some l → tid_page_cap ≤ length (v_buf (fed v l)) →
  let pg := take tid_page_cap (v_buf (fed v l)) in
  Forall2 (holds ps) (take (S (v_start v)) (take n hts)) (w ++ [pg]) →
  Forall2 (holds ps) (drop (S i) (take n hts)) (drop (S i) pgs) →
  (∀ k, k ∈ take n hts → is_Some (ps_get ps k)) →
  (∀ k, k ∉ take n hts → ps_get ps k = ps_get ps0 k) →
  vac_inv (S i) (advanced (fed v l) ps dirty) (w ++ [pg]).
Proof.
  intros Hv Hl Hge pg Hw Hr Hs Hfr. destruct (fed_inv i v w l Hv Hl) as (Hout & Hrem & Hlen).
  assert (Hpg : length pg = tid_page_cap) by (unfold pg; rewrite length_take; lia).
  pose proof (vi_le _ _ _ Hv) as Hle. pose proof (vi_start _ _ _ Hv) as Hst.
  split; cbn [advanced v_heaptids v_ps v_buf v_removed v_start v_dirty]; [done| | | | | |done|done|done|done| |done].
  - rewrite concat_snoc, <-app_assoc. unfold pg. by rewrite take_drop.
  - rewrite length_app, Hst. simpl. lia.
  - simpl. lia.
  - apply Forall_app. split; [apply Hv|by constructor].
  - rewrite length_drop. lia.
  - intros Hz Hsi. split.
    + destruct (fed_clean i v w l Hv Hl Hz) as (Hs' & _). simpl. lia.
    + destruct (fed_clean i v w l Hv Hl Hz) as (_ & Hb & Hc). rewrite Hb. apply drop_ge. by rewrite Hc.
Qed.

Lemma rest_tail i v w l k :
  vac_inv i v w → pgs !! i = Some l → take n hts !! i = Some k →
  Forall2 (holds (v_ps v)) (drop (S i) (take n hts)) (drop (S i) pgs).
Proof.
  intros Hv Hl Hk. pose proof (vi_rest _ _ _ Hv) as Hrest.
  rewrite (drop_S _ _ _ Hk), (drop_S _ _ _ Hl) in Hrest. by apply Forall2_cons in Hrest as [_ ?].
Qed.

(** Something was removed: the carried tids overwrite the next output page. *)
Lemma vac_step_write i v w l k :
  in_place → vac_inv i v w → pgs !! i = Some l → take n hts !! i = Some k →
  tid_page_cap ≤ length (v_buf (fed v l)) →
  let pg := take tid_page_cap (v_buf (fed v l)) in
  ∃ k', write_page (fed v l) (item_of pg) =
      Some (Vac hts (ps_set (v_ps v) k' (item_of pg)).1 (v_buf (fed v l)) (v_removed (fed v l))
              (v_start v) true) ∧
    vac_inv (S i) (advanced (fed v l) (ps_set (v_ps v) k' (item_of pg)).1 true) (w ++ [pg]).
Proof.
  intros Hip Hv Hl Hki Hge pg. pose proof (vi_le _ _ _ Hv) as Hle.
  pose proof (lookup_lt_Some _ _ _ Hki) as Hin. rewrite length_take in Hin.
  destruct (lookup_lt_is_Some_2 (take n hts) (v_start v)) as [k' Hk]; [rewrite length_take; lia|].
  assert (Hks : is_Some (ps_get (v_ps v) k')) by (apply Hv; by eapply list_elem_of_lookup_2).
  assert (Hok : item_ok (item_of pg)).
  { apply item_of_ok. unfold pg. rewrite length_take, tid_page_cap_val in *. lia. }
  destruct (write_keeps_pages (v_ps v) k' (item_of pg) (v_start v) i w Hip Hle Hk Hks Hok
    (vi_w _ _ _ Hv) (rest_tail i v w l k Hv Hl Hki)) as [Hw' Hr'].
  exists k'. split; [exact (write_page_in_place (fed v l) _ k' Hip (vi_keys _ _ _ Hv) Hk Hks)|].
  apply (advanced_inv i v w l); [done..| |].
  - intros k'' Hk''. apply is_Some_set; [done|done|]. by apply Hv.
  - intros k'' Hk''. rewrite set_in_place_get by done. rewrite decide_False; [by apply Hv|].
    intros ->. apply Hk''. by eapply list_elem_of_lookup_2.
Qed.

(** Nothing removed so far: a full page is left where it is. *)
Lemma vac_step_clean i v w l k :
  vac_inv i v w → pgs !! i = Some l → take n hts !! i = Some k → holds (v_ps v) k l →
  tid_page_cap ≤ length (v_buf (fed v l)) → v_removed (fed v l) = 0 →
  vac_inv (S i) (advanced (fed v l) (v_ps v) (v_dirty v)) (w ++ [take tid_page_cap (v_buf (fed v l))]).
Proof.
  intros Hv Hl Hki Hh Hge Hz. destruct (fed_clean i v w l Hv Hl Hz) as (Hs & Hb & _).
  apply (advanced_inv i v w l); [done..| |by eapply rest_tail|apply Hv|apply Hv].
  rewrite Hs, (take_S_r _ _ _ Hki), Hb. apply Forall2_app.
  - rewrite <-Hs at 1. apply Hv.
  - pose proof (holds_length _ _ _ Hh). rewrite take_ge by lia. by constructor.
Qed.

(** The store overwrites in place, or there is nothing to overwrite. *)
Definition safe : Prop := in_place ∨ ∀ t, t ∈ concat pgs → f t = false.

Lemma safe_write i v w l : safe → vac_inv i v w → pgs !! i = Some l → 0 < v_removed (fed v l) → in_place.
Proof.
  intros [Hip|Hnone] Hv Hl Hpos; [done|]. destruct (fed_inv i v w l Hv Hl) as (_ & Hrem & _).
  rewrite kept_none in Hrem; [lia|]. intros t Ht. apply Hnone.
  rewrite <-(take_drop (S i) pgs), concat_app. apply elem_of_app. by left.
Qed.

Lemma vac_step i v w l :
  safe → vac_inv i v w → pgs !! i = Some l →
  ∃ v' w', vacuum_page f i v = Some v' ∧ vac_inv (S i) v' w'.
Proof.
  intros Hsafe Hv Hl. destruct (vacuum_page_eq i v w l Hv Hl) as (-> & Hh & Hki). cbv zeta.
  destruct (Nat.leb_spec tid_page_cap (length (v_buf (fed v l)))) as [Hge|Hlt].
  - destruct (Nat.ltb_spec 0 (v_removed (fed v l))) as [Hpos|Hzero].
    + pose proof (safe_write i v w l Hsafe Hv Hl Hpos) as Hip.
      destruct (vac_step_write i v w l _ Hip Hv Hl Hki Hge) as (k' & -> & Hinv).
      eexists _, _. split; [done|]. exact Hinv.
    + pose proof (vac_step_clean i v w l _ Hv Hl Hki Hh Hge ltac:(lia)) as Hinv.
      eexists _, _. split; [done|]. unfold advanced in Hinv.
      by rewrite <-(vi_keys _ _ _ Hv) in Hinv at 1.
  - destruct (fed_inv i v w l Hv Hl) as (Hout & Hrem & _).
    exists (fed v l), w. split; [done|].
    split; try apply Hv; [done|simpl; pose proof (vi_le _ _ _ Hv); lia|done|exact (rest_tail i v w l _ Hv Hl Hki)|done|].
    intros Hz Hsi. destruct (fed_clean i v w l Hv Hl Hz) as (_ & Hb & Hlast). rewrite Hb in Hlt. lia.
Qed.

Lemma vac_loop m i v w :
  safe → vac_inv i v w → i + m = n →
  ∃ v' w', vacuum_pages f (seq i m) v = Some v' ∧ vac_inv n v' w'.
Proof.
  revert i v w. induction m as [|m IH]; intros i v w Hip Hv Hm; simpl.
  { assert (i = n) as -> by lia. eauto. }
  destruct (lookup_lt_is_Some_2 pgs i) as [l Hl]; [rewrite pgs_length; lia|].
  destruct (vac_step i v w l Hip Hv Hl) as (v1 & w1 & -> & Hv1). cbn [mbind option_bind].
  apply (IH (S i) v1 w1); [done|done|lia].
Qed.

Lemma vac_inv_final v w :
  vac_inv n v w →
  concat w ++ v_buf v = kept f (concat pgs) ∧
  v_removed v + length (kept f (concat pgs)) = length (concat pgs) ∧
  tid_page_cap * v_start v + length (v_buf v) = length (kept f (concat pgs)) ∧
  length (concat pgs) ≤ tid_page_cap * n.
Proof.
  intros Hv. pose proof (concat_length_le n) as Hle.
  pose proof (vi_out _ _ _ Hv) as Ho. pose proof (vi_removed _ _ _ Hv) as Hr.
  rewrite take_ge in * by (rewrite pgs_length; lia). split_and!; [done|done| |done].
  by rewrite <-Ho, length_app, concat_full_length, (vi_start _ _ _ Hv) by apply Hv.
Qed.
End Pages.

Lemma erase_all_get ps (l : list tid) k :
  ps_get (foldl ps_erase ps l) k = if decide (k ∈ l) then None else ps_get ps k.
Proof.
  revert ps. induction l as [|k' l IH]; intros ps; simpl; [done|]. rewrite IH, ps_erase_get.
  repeat case_decide; set_solver.
Qed.

(** The end of [vacuum_tids]: keep the first [s] keys, erase the pages of the
    others. *)
Lemma shrink_point p ps ps1 s w :
  point_ok p → is_extended p = true → s ≤ ntids p → NoDup (keys p) →
  Forall2 (holds ps1) (take s (keys p)) w → full_but_last w →
  (∀ k, k ∉ keys p → ps_get ps1 k = ps_get ps k) →
  let ps2 := foldl ps_erase ps1 (drop s (keys p)) in
  represents (set_ntids p s) (Some ps2) (concat w) ∧ others_kept p (Some ps) (Some ps2).
Proof.
  intros [Hf Hlen Hle] He Hs Hnd Hw Hfull Hfr ps2.
  assert (Hget : ∀ k, k ∉ drop s (keys p) → ps_get ps2 k = ps_get ps1 k)
    by (intros k Hk; unfold ps2; by rewrite erase_all_get, decide_False).
  rewrite <-(take_drop s (keys p)) in Hnd. apply NoDup_app in Hnd as (Hnd1 & Hdis & _).
  assert (Htk : take s (keys p) = take s (heaptids p))
    by (unfold keys; rewrite take_take; f_equal; lia). split.
  - apply represents_extended; [done|done|lia|done|]. rewrite <-Htk. split; [done| |done].
    eapply held_frame; [exact Hw|]. intros k Hk. apply Hget. by apply Hdis.
  - intros ? k it [= <-] Hk Hno. exists ps2. split; [done|].
    assert (k ∉ keys p) by naive_solver. rewrite Hget, Hfr; [done|done|].
    intros Hd. apply H1. rewrite <-(take_drop s (keys p)). apply elem_of_app. by right.
Qed.

(** Keeping all keys. *)
Lemma same_keys_point p ps ps1 w :
  point_ok p → is_extended p = true → NoDup (keys p) →
  Forall2 (holds ps1) (keys p) w → full_but_last w →
  (∀ k, k ∉ keys p → ps_get ps1 k = ps_get ps k) →
  represents p (Some ps1) (concat w) ∧ others_kept p (Some ps) (Some ps1).
Proof.
  intros Hok He Hnd Hw Hfull Hfr. split.
  - split; [done|congruence|]. intros _. by exists ps1, w.
  - intros ? k it [= <-] Hk Hno. exists ps1. split; [done|]. rewrite Hfr; naive_solver.
Qed.

Lemma full_pages (w : list (list tid)) :
  Forall (λ l, length l = tid_page_cap) w → full_but_last w.
Proof. intros Hw i l Hi _. by eapply (Forall_lookup_1 (λ l, length l = tid_page_cap)). Qed.

Lemma full_pages_snoc (w : list (list tid)) l :
  Forall (λ l, length l = tid_page_cap) w → full_but_last (w ++ [l]).
Proof.
  intros Hw. apply full_but_last_app; [by apply full_pages|].
  intros l' Hl'. rewrite last_lookup in Hl'. by eapply (Forall_lookup_1 (λ l, length l = tid_page_cap)).
Qed.

(** The last, partial page written after the loop. *)
Lemma vac_last_write f ps hts n pgs v w :
  in_place → n ≤ length hts → pages ps (take n hts) pgs →
  vac_inv f ps hts n pgs n v w → 0 < length (v_buf v) →
  ∃ k, write_page v (item_of (v_buf v)) =
      Some (Vac hts (ps_set (v_ps v) k (item_of (v_buf v))).1 (v_buf v) (v_removed v) (v_start v) true) ∧
    v_start v < n ∧
    let ps1 := (ps_set (v_ps v) k (item_of (v_buf v))).1 in
    Forall2 (holds ps1) (take (S (v_start v)) (take n hts)) (w ++ [v_buf v]) ∧
    ∀ k', k' ∉ take n hts → ps_get ps1 k' = ps_get ps k'.
Proof.
  intros Hip Hn Hpg Hv Hb. destruct (vac_inv_final f ps hts n pgs Hn Hpg v w Hv) as (_ & Hr & Hl & Hm).
  pose proof (vi_buf _ _ _ _ _ _ _ _ Hv) as Hbuf.
  assert (Hlt : v_start v < n) by (rewrite tid_page_cap_val in *; lia).
  destruct (lookup_lt_is_Some_2 (take n hts) (v_start v)) as [k Hk]; [rewrite length_take; lia|].
  assert (Hks : is_Some (ps_get (v_ps v) k))
    by (eapply vi_some; [exact Hv|]; by eapply list_elem_of_lookup_2).
  assert (Hok : item_ok (item_of (v_buf v))) by (apply item_of_ok; lia).
  destruct (write_keeps_pages ps hts n pgs Hn Hpg (v_ps v) k (item_of (v_buf v)) (v_start v) (pred n) w)
    as [Hw' _]; [done|lia|done|done|done|eapply vi_w; exact Hv| |].
  { replace (S (pred n)) with n by lia. eapply vi_rest. exact Hv. }
  exists k. split; [by apply (write_page_in_place hts n); [|eapply vi_keys; exact Hv|..]|].
  split; [done|]. split; [done|]. intros k' Hk'. rewrite set_in_place_get by done.
  rewrite decide_False; [by eapply vi_frame|]. intros ->. apply Hk'. by eapply list_elem_of_lookup_2.
Qed.

(** On a point whose tids are in pages, when the store overwrites pages in
    place and at least one tid matches the filter, [vacuum_tids] leaves exactly
    the tids that do not match, in order, compacted into full pages; it reports
    the number removed and a dirty point, and touches no other item. *)
Theorem vacuum_tids_pages f p ps l :
  in_place → represents p (Some ps) l → is_extended p = true → length (kept f l) < length l →
  ∃ p' ps', vacuum_tids f p (Some ps) = Some (p', Some ps', length l - length (kept f l), true) ∧
    represents p' (Some ps') (kept f l) ∧ others_kept p (Some ps) (Some ps').
Proof.
  intros Hip [Hok _ Hpg] He Hlt. destruct (Hpg He) as (? & pgs & [= <-] & Hp & ->).
  assert (Hn : ntids p ≤ length (heaptids p)) by (destruct Hok; lia).
  pose proof (pages_nodup _ _ _ Hp) as Hnd. fold (keys p) in Hnd.
  destruct (vac_loop f ps (heaptids p) (ntids p) pgs Hn Hp (ntids p) 0 (Vac (heaptids p) ps [] 0 0 false) [])
    as (v & w & Hrun & Hv); [by left|by apply vac_inv_init|lia|].
  destruct (vac_inv_final _ _ _ _ _ Hn Hp v w Hv) as (Hout & Hrem & Hlen & Hmax).
  pose proof (vi_full _ _ _ _ _ _ _ _ Hv) as Hfull.
  unfold vacuum_tids. rewrite He. cbn [negb mbind option_bind]. rewrite Hrun. cbn [mbind option_bind].
  destruct (Nat.eqb_spec (ntids p) 0); [lia|].
  assert (Hr : v_removed v = length (concat pgs) - length (kept f (concat pgs))) by lia.
  assert (Hpos : (0 <? v_removed v) = true) by (apply Nat.ltb_lt; lia). rewrite Hpos. cbn [andb].
  destruct (Nat.ltb_spec 0 (length (v_buf v))) as [Hb|Hb].
  - destruct (vac_last_write f ps _ _ pgs v w Hip Hn Hp Hv Hb) as (k & -> & Hs & Hw & Hfr).
    cbn [mbind option_bind v_heaptids v_ps v_buf v_removed v_start v_dirty].
    set (ps1 := (ps_set (v_ps v) k (item_of (v_buf v))).1) in *.
    rewrite <-Hout, <-concat_snoc in *. rewrite Hr.
    assert (Hf' := full_pages_snoc w (v_buf v) Hfull).
    assert (Hpe : Point (flag p) (heaptids p) = p) by by destruct p. rewrite Hpe.
    destruct (Nat.ltb_spec (S (v_start v)) (ntids p)) as [Hlt'|Hge'].
    + destruct (shrink_point p ps ps1 (S (v_start v)) (w ++ [v_buf v])) as [Hrep Hk]; [done|done|lia|done..|].
      eexists _, _. split; [done|]. by split.
    + assert (ntids p = S (v_start v)) as Heq by lia.
      destruct (same_keys_point p ps ps1 (w ++ [v_buf v])) as [Hrep Hk]; [done|done|done| |done|done|].
      { unfold keys. rewrite Heq at 1. rewrite <-Heq. rewrite <-(firstn_all (take (ntids p) (heaptids p))).
        rewrite length_take. replace (ntids p `min` length (heaptids p)) with (S (v_start v)) by lia. done. }
      eexists _, _. split; [done|]. by split.
  - assert (v_buf v = []) as Hnil by (apply nil_length_inv; lia). rewrite Hnil, app_nil_r in Hout.
    cbn [mbind option_bind]. rewrite (vi_keys _ _ _ _ _ _ _ _ Hv), Hr.
    assert (Hpe : Point (flag p) (heaptids p) = p) by by destruct p. rewrite Hpe.
    destruct (Nat.ltb_spec (v_start v) (ntids p)) as [Hlt'|Hge'];
      [|rewrite Hnil in Hlen; simpl in Hlen; rewrite tid_page_cap_val in *; lia].
    destruct (shrink_point p ps (v_ps v) (v_start v) w) as [Hrep Hk];
      [done|done|lia|done|eapply vi_w; exact Hv|by apply full_pages|eapply vi_frame; exact Hv|].
    rewrite <-Hout. eexists _, _. split; [done|]. by split.
Qed.

(** C27: when no tid of a point with pages matches the filter and its last page
    is not full, [vacuum_tids] reports zero removed tids yet drops the whole last
    page: the point keeps only the tids of its full pages. (The partial page is
    counted as kept only inside [if (nremoved > 0 && nremain > 0)].) *)
Theorem vacuum_tids_loses_last_page f p ps l :
  represents p (Some ps) l → is_extended p = true → (∀ t, t ∈ l → f t = false) →
  length l `mod` tid_page_cap ≠ 0 →
  ∃ p' ps', vacuum_tids f p (Some ps) = Some (p', Some ps', 0, true) ∧
    represents p' (Some ps') (take (tid_page_cap * (length l / tid_page_cap)) l).
Proof.
  intros [Hok _ Hpg] He Hnone Hmod. destruct (Hpg He) as (? & pgs & [= <-] & Hp & ->).
  assert (Hn : ntids p ≤ length (heaptids p)) by (destruct Hok; lia).
  pose proof (pages_nodup _ _ _ Hp) as Hnd. fold (keys p) in Hnd.
  destruct (vac_loop f ps (heaptids p) (ntids p) pgs Hn Hp (ntids p) 0 (Vac (heaptids p) ps [] 0 0 false) [])
    as (v & w & Hrun & Hv); [by right|by apply vac_inv_init|lia|].
  destruct (vac_inv_final _ _ _ _ _ Hn Hp v w Hv) as (Hout & Hrem & Hlen & Hmax).
  rewrite kept_none in * by done. pose proof (vi_buf _ _ _ _ _ _ _ _ Hv) as Hbuf.
  pose proof (vi_full _ _ _ _ _ _ _ _ Hv) as Hfull.
  assert (Hdiv : length (concat pgs) / tid_page_cap = v_start v)
    by (symmetry; apply (Nat.div_unique _ _ _ (length (v_buf v))); lia).
  rewrite Nat.Div0.mod_eq, Hdiv in Hmod.
  assert (Hs : v_start v < ntids p) by (rewrite tid_page_cap_val in *; lia).
  assert (Hw : take (tid_page_cap * v_start v) (concat pgs) = concat w).
  { rewrite <-Hout. rewrite <-(vi_start _ _ _ _ _ _ _ _ Hv), <-concat_full_length by done.
    apply take_app_length. }
  unfold vacuum_tids. rewrite He. cbn [negb mbind option_bind]. rewrite Hrun. cbn [mbind option_bind].
  destruct (Nat.eqb_spec (ntids p) 0); [lia|].
  assert (Hz : v_removed v = 0) by lia. rewrite Hz. change (0 <? 0) with false.
  cbn [andb mbind option_bind]. rewrite Hz, (vi_keys _ _ _ _ _ _ _ _ Hv).
  assert (Hpe : Point (flag p) (heaptids p) = p) by by destruct p. rewrite Hpe.
  destruct (Nat.ltb_spec (v_start v) (ntids p)); [|lia].
  destruct (shrink_point p ps (v_ps v) (v_start v) w) as [Hrep _];
    [done|done|lia|done|eapply vi_w; exact Hv|by apply full_pages|eapply vi_frame; exact Hv|].
  eexists _, _. split; [done|]. by rewrite Hdiv, Hw.
Qed.
End Vacuum.

(** ** Two stores

    [gmap] with in-place overwriting, and one that always moves the item it
    overwrites, as the page store does when an item no longer fits its page. *)

Definition next_block (m : gmap tid item) : N := map_fold (λ k _ acc, N.max (k.1 + 1) acc) 0%N m.

Lemma next_block_gt m k it : m !! k = Some it → (k.1 < next_block m)%N.
Proof.
  revert k it. unfold next_block. apply (map_fold_weak_ind (λ acc (m : gmap tid item),
    ∀ k it, m !! k = Some it → (k.1 < acc)%N)).
  - intros k it. by rewrite lookup_empty.
  - intros k0 it0 m' acc _ IH k it. destruct (decide (k0 = k)) as [->|Hne].
    + intros _. lia.
    + rewrite lookup_insert_ne by done. intros Hk. specialize (IH _ _ Hk). lia.
Qed.

Lemma next_block_free m i : m !! (next_block m, i) = None.
Proof.
  destruct (m !! (next_block m, i)) as [it|] eqn:Hk; [|done].
  apply next_block_gt in Hk. simpl in Hk. lia.
Qed.

#[export] Instance gmap_store : PlainStore (gmap tid item) := {|
  ps_get m k := m !! k;
  ps_put m it := (<[(next_block m, 1%N):=it]> m, (next_block m, 1%N));
  ps_set m k it := (<[k:=it]> m, k);
  ps_erase m k := delete k m;
|}.

#[export] Instance gmap_store_laws : PlainStoreLaws (gmap tid item).
Proof.
  split; simpl.
  - intros m it. apply next_block_free.
  - intros m it k. case_decide as Hk; [subst; apply lookup_insert_eq|by apply lookup_insert_ne].
  - intros. by left.
  - intros m k it k' _. case_decide as Hk; [subst; apply lookup_insert_eq|by apply lookup_insert_ne].
  - intros m k k'. case_decide as Hk; [subst; apply lookup_delete_eq|by apply lookup_delete_ne].
Qed.

Record moving := Moving { items : gmap tid item }.

#[export] Instance moving_store : PlainStore moving := {|
  ps_get m k := items m !! k;
  ps_put m it := (Moving (<[(next_block (items m), 1%N):=it]> (items m)), (next_block (items m), 1%N));
  ps_set m k it :=
    (Moving (<[(next_block (items m), 1%N):=it]> (delete k (items m))), (next_block (items m), 1%N));
  ps_erase m k := Moving (delete k (items m));
|}.

#[export] Instance moving_store_laws : PlainStoreLaws moving.
Proof.
  split; simpl.
  - intros m it. apply next_block_free.
  - intros m it k. case_decide as Hk; [subst; apply lookup_insert_eq|by apply lookup_insert_ne].
  - intros. right. apply next_block_free.
  - intros m k it k' _. case_decide as Hk; [subst; apply lookup_insert_eq|].
    rewrite lookup_insert_ne by done.
    case_decide as Hk'; [subst; apply lookup_delete_eq|by apply lookup_delete_ne].
  - intros m k k'. case_decide as Hk; [subst; apply lookup_delete_eq|by apply lookup_delete_ne].
Qed.

(** ** Concrete points *)

Definition tids_from (i n : nat) : list tid := (λ j, (7%N, N.of_nat j)) <$> seq i n.

Lemma new_point_represents {PS : Type} `{PlainStore PS} t (ctx : option PS) :
  represents (new_point t) ctx [t].
Proof.
  split; [split; vm_compute; [by split|reflexivity|lia]|by vm_compute|by vm_compute].
Qed.

Lemma insert_tid_appends_witness :
  let ok := negb (refuses (new_point (7, 0)%N) (Some (∅ : gmap tid item)) (tids_from 1 12)) in
  ∃ p' ctx' ov, insert_tid (new_point (7, 0)%N) (Some ∅) (tids_from 1 12) = Some (p', ctx', ok, ov) ∧
    get_tids p' ctx' = Some (if ok then [(7, 0)%N] ++ tids_from 1 12 else [(7, 0)%N]).
Proof.
  destruct (insert_tid_appends (new_point (7, 0)%N) (Some (∅ : gmap tid item)) [(7, 0)%N]
    (tids_from 1 12)) as (p' & ctx' & ov & Hi & _ & Hg & _).
  - apply new_point_represents.
  - vm_compute. lia.
  - vm_compute. lia.
  - exists p', ctx', ov. split; [exact Hi|exact Hg].
Defined.

Lemma vacuum_tids_inline_witness :
  ∃ p', vacuum_tids (PS:=gmap tid item) (λ t, (t.2 =? 0)%N) (new_point (7, 0)%N) None = Some (p', None, 1, true) ∧
    represents p' (None : option (gmap tid item)) [].
Proof.
  exact (vacuum_tids_inline (λ t, (t.2 =? 0)%N) (new_point (7, 0)%N) (None : option (gmap tid item))
    [(7, 0)%N] (new_point_represents _ _) eq_refl).
Defined.

(** A point that took twelve more tids: its thirteen tids are in one page. *)
Definition paged_item : item := item_of (tids_from 0 13).
Definition paged_point (k : tid) : point :=
  set_heaptid (set_ntids (set_extended (new_point (7, 0)%N)) 1) 0 k.

Lemma paged_represents {PS : Type} `{PlainStoreLaws PS} (ps : PS) :
  represents (paged_point (ps_put ps paged_item).2) (Some (ps_put ps paged_item).1) (tids_from 0 13).
Proof.
  apply (insert_extend (new_point (7, 0)%N) ps [(7, 0)%N] (tids_from 1 12));
    [apply new_point_represents|reflexivity|vm_compute; lia|vm_compute; lia].
Qed.

Lemma vacuum_tids_pages_witness :
  ∃ p' ps', vacuum_tids (λ t, (t.2 <? 5)%N) (paged_point (0, 1)%N) (Some {[(0, 1)%N := paged_item]}) =
    Some (p', Some ps', 5, true) ∧
    represents (PS:=gmap tid item) p' (Some ps') (tids_from 5 8).
Proof.
  destruct (vacuum_tids_pages (λ t, (t.2 <? 5)%N) (paged_point (0, 1)%N)
    {[(0, 1)%N := paged_item]} (tids_from 0 13)) as (p' & ps' & Hv & Hr & _).
  - intros ps k it. reflexivity.
  - exact (paged_represents (∅ : gmap tid item)).
  - reflexivity.
  - vm_compute. lia.
  - exists p', ps'. split; [exact Hv|exact Hr].
Defined.

Lemma vacuum_tids_loses_last_page_witness :
  ∃ p' ps', vacuum_tids (λ _, false) (paged_point (0, 1)%N) (Some {[(0, 1)%N := paged_item]}) =
    Some (p', Some ps', 0, true) ∧
    represents (PS:=gmap tid item) p' (Some ps') [].
Proof.
  destruct (vacuum_tids_loses_last_page (λ _, false) (paged_point (0, 1)%N)
    {[(0, 1)%N := paged_item]} (tids_from 0 13)) as (p' & ps' & Hv & Hr).
  - exact (paged_represents (∅ : gmap tid item)).
  - reflexivity.
  - intros t _. reflexivity.
  - vm_compute. discriminate.
  - exists p', ps'. split; [exact Hv|exact Hr].
Defined.

(** When the store moves the page that [vacuum_tids] rewrites, the point
    keeps the old key and is not reported dirty: its tids can no longer be read.
    (The key is updated only when the returned key equals the old one.) *)
Theorem vacuum_tids_keeps_stale_key :
  ∃ p' ps', vacuum_tids (λ t, (t.2 <? 5)%N) (paged_point (0, 1)%N)
      (Some (Moving {[(0, 1)%N := paged_item]})) = Some (p', Some ps', 5, false) ∧
    heaptids p' !! 0 = Some (0, 1)%N ∧ ps_get ps' (0, 1)%N = None ∧ get_tids p' (Some ps') = None.
Proof. eexists _, _. split_and!; [vm_compute; reflexivity..]. Qed.
