(* ===== verification/MemStore.v ===== *)
(** * The in-memory store of an index build

    [MemStore] of [src/common/include/graph_index/graph_index_storage.h]: three
    pools of fixed-size records (vectors, base points, upper points), the entry
    point, the id counters and the elements holding the heap tids.

    A pool is a finite map from index to record; a record that was never written
    reads as the [0xFF] bytes a new chunk is filled with, that is invalid ids and
    set stat bits. (The cached distances of such a record are NaN in C++; the
    model says [FLT_MAX], and no distance is read before it is written, see
    [GraphBuildFacts.v].) The chunk addressing of the pools is modelled apart, in
    the section [MemPool]. Locks are not modelled: the operations below are those
    of one thread. *)
From Stdlib Require Import ZArith Lia.
From stdpp Require Import prelude gmap.
From S2P Require Import Prelude Dist PriorityQueue Graph GraphPoint.

(** ** Chunk addressing of [MemPool] *)

Section MemPool.
Context (elem_size pow_elem_nums_per_chunk : Z).

Definition one_chunk_elem_nums : Z := Z.shiftl 1 pow_elem_nums_per_chunk.
Definition chunk_size : Z := (elem_size * one_chunk_elem_nums)%Z.
Definition get_chunk_no (idx : Z) : Z := u32 (Z.shiftr idx pow_elem_nums_per_chunk).
Definition get_chunk_offset (idx : Z) : Z := u32 (Z.land idx (one_chunk_elem_nums - 1) * elem_size).
Definition get_lock_idx (idx : Z) : Z := u32 (Z.land idx (one_chunk_elem_nums - 1)).
End MemPool.

(** ** Records *)

Record base_point (D : Type) := BasePoint {
  bp_ids : list N;
  bp_dists : list D;
  bp_stat : list bool;
}.
Arguments BasePoint {D} _ _ _.
Arguments bp_ids {D} _.
Arguments bp_dists {D} _.
Arguments bp_stat {D} _.

Record upper_point (D : Type) := UpperPoint {
  up_ids : list N;
  up_cur : list N;
  up_lower : N;
  up_id : N;
  up_dists : list D;
  up_stat : list bool;
}.
Arguments UpperPoint {D} _ _ _ _ _ _.
Arguments up_ids {D} _.
Arguments up_cur {D} _.
Arguments up_lower {D} _.
Arguments up_id {D} _.
Arguments up_dists {D} _.
Arguments up_stat {D} _.

Record mem_store (D Vec : Type) := MemStore {
  ms_m : nat;
  vector_pool : gmap N Vec;
  basepoint_pool : gmap N (base_point D);
  upperpoint_pool : gmap N (upper_point D);
  ms_entry : entry_info;
  num_vectors : N;
  num_uppers : N;
  ms_elems : gmap N point;
}.
Arguments MemStore {D Vec} _ _ _ _ _ _ _ _.
Arguments ms_m {D Vec} _.
Arguments vector_pool {D Vec} _.
Arguments basepoint_pool {D Vec} _.
Arguments upperpoint_pool {D Vec} _.
Arguments ms_entry {D Vec} _.
Arguments num_vectors {D Vec} _.
Arguments num_uppers {D Vec} _.
Arguments ms_elems {D Vec} _.

Section Store.
Context {D Vec : Type} `{DistOrd D}.
Implicit Types s : mem_store D Vec.

(** The [0xFF] records of a fresh chunk. *)
Definition blank_base (m : nat) : base_point D :=
  BasePoint (replicate (2 * m) INVALID_VECTOR_ID) (replicate (2 * m) FLT_MAX)
    (replicate (2 * m + 1) true).
Definition blank_upper (m : nat) : upper_point D :=
  UpperPoint (replicate m INVALID_VECTOR_ID) (replicate m INVALID_VECTOR_ID)
    INVALID_VECTOR_ID INVALID_VECTOR_ID (replicate m FLT_MAX) (replicate (m + 1) true).

Definition get_base s (id : N) : base_point D := default (blank_base (ms_m s)) (basepoint_pool s !! id).
Definition get_upper s (cur : N) : upper_point D :=
  default (blank_upper (ms_m s)) (upperpoint_pool s !! cur).

Definition set_base s (id : N) (b : base_point D) : mem_store D Vec :=
  MemStore (ms_m s) (vector_pool s) (<[id:=b]> (basepoint_pool s)) (upperpoint_pool s)
    (ms_entry s) (num_vectors s) (num_uppers s) (ms_elems s).
Definition set_upper s (cur : N) (u : upper_point D) : mem_store D Vec :=
  MemStore (ms_m s) (vector_pool s) (basepoint_pool s) (<[cur:=u]> (upperpoint_pool s))
    (ms_entry s) (num_vectors s) (num_uppers s) (ms_elems s).

(** [MemStore(dim, m, ...)] *)
Definition empty_store (m : nat) : mem_store D Vec := MemStore m ∅ ∅ ∅ empty_entry 0 0 ∅.

(** ** Ids, vectors, entry *)

(** [assign_vector_id<true>] and [<false>]: [fetch_add] on a [uint32]. *)
Definition assign_vector_id (base : bool) s : mem_store D Vec * N :=
  if base then
    (MemStore (ms_m s) (vector_pool s) (basepoint_pool s) (upperpoint_pool s) (ms_entry s)
       ((num_vectors s + 1) `mod` 2 ^ 32)%N (num_uppers s) (ms_elems s), num_vectors s)
  else
    (MemStore (ms_m s) (vector_pool s) (basepoint_pool s) (upperpoint_pool s) (ms_entry s)
       (num_vectors s) ((num_uppers s + 1) `mod` 2 ^ 32)%N (ms_elems s), num_uppers s).

Definition add_vector s (id : N) (v : Vec) : mem_store D Vec :=
  MemStore (ms_m s) (<[id:=v]> (vector_pool s)) (basepoint_pool s) (upperpoint_pool s)
    (ms_entry s) (num_vectors s) (num_uppers s) (ms_elems s).

Definition get_data s (id : N) : option Vec := vector_pool s !! id.

Definition set_entrypoint s (id cur : N) (level : Z) : mem_store D Vec :=
  MemStore (ms_m s) (vector_pool s) (basepoint_pool s) (upperpoint_pool s)
    (EntryInfo id cur level) (num_vectors s) (num_uppers s) (ms_elems s).

Definition set_elem s (id : N) (p : point) : mem_store D Vec :=
  MemStore (ms_m s) (vector_pool s) (basepoint_pool s) (upperpoint_pool s)
    (ms_entry s) (num_vectors s) (num_uppers s) (<[id:=p]> (ms_elems s)).

(** ** Points

    Adding a point copies the neighbour ids over the record and clears the
    "has statistics" bit; the cached distances and the other bits stay. *)
Definition add_basepoint s (id : N) (ids : list N) : mem_store D Vec :=
  let b := get_base s id in
  set_base s id (BasePoint ids (bp_dists b) (<[2 * ms_m s:=false]> (bp_stat b))).

Definition add_upperpoint s (cur lower id : N) (ids curs : list N) : mem_store D Vec :=
  let u := get_upper s cur in
  set_upper s cur (UpperPoint ids curs lower id (up_dists u) (<[ms_m s:=false]> (up_stat u))).

(** [get_neighbor_stats]: the cached distances and the stat bits of a node. *)
Definition get_stats (base : bool) s (cur : N) : list D * list bool :=
  if base then (bp_dists (get_base s cur), bp_stat (get_base s cur))
  else (up_dists (get_upper s cur), up_stat (get_upper s cur)).

Definition set_stats (base : bool) s (cur : N) (dists : list D) (stat : list bool) : mem_store D Vec :=
  if base then set_base s cur (BasePoint (bp_ids (get_base s cur)) dists stat)
  else
    let u := get_upper s cur in
    set_upper s cur (UpperPoint (up_ids u) (up_cur u) (up_lower u) (up_id u) dists stat).

Definition has_stat (stat : list bool) : bool := default false (last stat).
Definition set_stat (stat : list bool) : list bool := <[length stat - 1:=true]> stat.

(** [get_neighbors]: the valid slots as candidates with their cached distances.
    The base layer is read at the point's id, an upper layer at its layer index. *)
Fixpoint read_neighbors {V : Type} (l : list (N * N * D)) : list (cand D V) :=
  match l with
  | [] => []
  | (id, cur, d) :: l => if is_valid id then mk_cand id cur d :: read_neighbors l else []
  end.

Definition get_neighbors {V : Type} (base : bool) s (p : cand D V) : list (cand D V) :=
  if base then
    let b := get_base s (c_id p) in
    read_neighbors (zip (zip (take (2 * ms_m s) (bp_ids b)) (bp_ids b)) (bp_dists b))
  else
    let u := get_upper s (c_cur p) in
    read_neighbors (zip (zip (take (ms_m s) (up_ids u)) (up_cur u)) (up_dists u)).

Definition set_neighbor (base : bool) s (cur : N) (idx : nat) (new_id new_cur : N) : mem_store D Vec :=
  if base then
    let b := get_base s cur in
    set_base s cur (BasePoint (<[idx:=new_id]> (bp_ids b)) (bp_dists b) (bp_stat b))
  else
    let u := get_upper s cur in
    set_upper s cur (UpperPoint (<[idx:=new_id]> (up_ids u)) (<[idx:=new_cur]> (up_cur u))
      (up_lower u) (up_id u) (up_dists u) (up_stat u)).
End Store.

(** ** As a store to search

    [distance] is the [Dister]'s; a vector that was never written has no
    distance. [MemStore] has neither [search_neighbor_count] nor
    [search_node_count]: the algorithm falls back to the layer's neighbour count
    and to no full scan. *)
Section Search.
Context {D Vec : Type} `{DistOrd D} (distance : Vec → Vec → D).

#[export] Instance mem_search : SearchStore (mem_store D Vec) D Vec := {|
  get_point_info s base cur :=
    if base then
      let ids := bp_ids (get_base s cur) in PointInfo ids ids INVALID_VECTOR_ID
    else
      let u := get_upper s cur in PointInfo (up_ids u) (up_cur u) (up_lower u);
  search_neighbor_count s base _ := if base then 2 * ms_m s else ms_m s;
  get_distance s q id := match get_data s id with Some v => distance q v | None => FLT_MAX end;
  get_entry s := ms_entry s;
  search_node_count _ := 0%N;
|}.
End Search.
