(* ===== verification/GraphBuild.v ===== *)
(** * Building the graph

    [insert] of [src/common/include/graph_index/graph_index_algorithm.h] and all
    it calls, over the in-memory store of [MemStore.v]: neighbour selection,
    pruning of reverse edges with its incremental statistics, duplicate
    detection, new upper levels, entry-point update.

    The random level of a new point is an argument. The distance of two stored
    vectors is the argument [distance]; [use_dist_cache] selects the branches the
    code compiles for a store with a pair-distance cache (the cache itself returns
    what [distance] returns, so it is not state here). *)
From Stdlib Require Import ZArith Lia.
From stdpp Require Import prelude gmap.
From S2P Require Import Prelude Dist PriorityQueue Graph GraphSearch GraphPoint MemStore.

Section Build.
Context {D Vec : Type} `{DistOrd D} `{EqDecision Vec} (distance : Vec → Vec → D).
Implicit Types s : mem_store D Vec.

#[local] Hint Extern 0 (SearchStore (mem_store D Vec) _ _) => exact (mem_search distance) : typeclass_instances.

Abbreviation cand' := (cand D Vec).

(** [get_distance(a.val, b.val)]; the code dereferences both pointers. *)
Definition val_distance (a b : option Vec) : D :=
  match a, b with Some x, Some y => distance x y | _, _ => FLT_MAX end.

Definition get_nbr_num (base : bool) (m : nat) : nat := if base then 2 * m else m.

Definition get_neighbors_data s (c : list cand') : list cand' :=
  (λ p, Cand (c_id p) (c_cur p) (c_lower p) (c_dist p) (get_data s (c_id p))) <$> c.

(** ** Forward selection: the neighbours of a new point *)

Definition is_closer (cur : cand') (r : list cand') : bool :=
  forallb (λ ri, negb (dle (val_distance (c_val cur) (c_val ri)) (c_dist cur))) r.

Fixpoint select_loop (fuel nbr_num : nat) (closest r discarded : list cand') :
    list cand' * list cand' :=
  match fuel with
  | O => (r, discarded)
  | S fuel =>
    match top closest, pop ClosestCompare closest with
    | Some cur, Some rest =>
      if length r <? nbr_num then
        if is_closer cur r then select_loop fuel nbr_num rest (r ++ [cur]) discarded
        else select_loop fuel nbr_num rest r (discarded ++ [cur])
      else (r, discarded)
    | _, _ => (r, discarded)
    end
  end.

Definition select_neighbors (nbr_num : nat) (c : list cand') : list cand' :=
  if length c <=? nbr_num then c ++ replicate (nbr_num - length c) default_cand
  else
    let '(r, discarded) :=
      select_loop (S (length c)) nbr_num (of_vector ClosestCompare c true) [] [] in
    r ++ take (nbr_num - length r) discarded.

(** ** Backward selection: which neighbour a new reverse edge replaces *)

(** [PruneNeighbor]; the index of the new point, [(T)INVALID_VECTOR_ID], is [None]. *)
Record prune_neighbor := PruneNeighbor {
  pn_val : option Vec;
  pn_idx : option nat;
  pn_dist : D;
  pn_id : N;
}.

Definition prune_lt (a b : prune_neighbor) : bool :=
  dlt (pn_dist a) (pn_dist b) ||
  (negb (dlt (pn_dist a) (pn_dist b)) && negb (dlt (pn_dist b) (pn_dist a)) && (pn_id a <? pn_id b)%N).

Definition elem_closer (set : list prune_neighbor) (p : prune_neighbor) : bool :=
  forallb (λ ri, negb (dle (val_distance (pn_val p) (pn_val ri)) (pn_dist p))) set.

(** The bits of a node: one per slot, and the "has statistics" bit. *)
Definition stat_get (stat : list bool) (i : option nat) : bool :=
  match i with Some i => default false (stat !! i) | None => false end.
Definition stat_set (stat : list bool) (i : option nat) (v : bool) : list bool :=
  match i with Some i => <[i:=v]> stat | None => stat end.

Record prune_state := PruneState {
  pr_r : list prune_neighbor;
  pr_discarded : list prune_neighbor;
  pr_added : list prune_neighbor;
  pr_stat : list bool;
  pr_has_remove : bool;
  pr_closer : option bool;
}.

(** Is the current point closer to the node than to every selected one? With
    statistics the recorded answer is reused as far as it is still known to hold. *)
Definition judge (use_dist_cache has_stats : bool) (self_id : N) (st : prune_state)
    (cur : prune_neighbor) : bool * prune_state :=
  let 'PruneState r disc added stat has_remove closer := st in
  if use_dist_cache then (elem_closer r cur, st)
  else if negb has_stats then
    let b := elem_closer r cur in
    if negb (pn_id cur =? self_id)%N
    then (b, PruneState r disc added (stat_set stat (pn_idx cur) b) has_remove closer)
    else (b, PruneState r disc added stat has_remove (Some b))
  else if 0 <? length added then
    if stat_get stat (pn_idx cur) then
      let b := elem_closer added cur in
      if negb b then (b, PruneState r disc added (stat_set stat (pn_idx cur) true) true closer)
      else (b, st)
    else if has_remove then
      let b := elem_closer r cur in
      if b then (b, PruneState r disc (added ++ [cur]) (stat_set stat (pn_idx cur) true) has_remove closer)
      else (b, st)
    else (false, st)
  else if (pn_id cur =? self_id)%N then
    let b := elem_closer r cur in
    (b, PruneState r disc (if b then added ++ [cur] else added) stat has_remove (Some b))
  else (stat_get stat (pn_idx cur), st).

(** The [do ... while]: [closest] is not empty when it is entered; the [break]
    leaves the current point on the queue. *)
Fixpoint prune_loop (fuel : nat) (use_dist_cache has_stats : bool) (nbr_num : nat) (self_id : N)
    (closest : list prune_neighbor) (st : prune_state) : list prune_neighbor * prune_state :=
  match fuel with
  | O => (closest, st)
  | S fuel =>
    match top closest, pop prune_lt closest with
    | Some cur, Some rest =>
      let '(b, PruneState r disc added stat hr cl) := judge use_dist_cache has_stats self_id st cur in
      if b then
        let st := PruneState (r ++ [cur]) disc added stat hr cl in
        if nbr_num <=? length (pr_r st) then (closest, st)
        else prune_loop fuel use_dist_cache has_stats nbr_num self_id rest st
      else
        prune_loop fuel use_dist_cache has_stats nbr_num self_id rest
          (PruneState r (disc ++ [cur]) added stat hr cl)
    | _, _ => (closest, st)
    end
  end.

(** [while (closest.size() > 1) closest.pop(); closest.top()] *)
Fixpoint pop_to_last (fuel : nat) (closest : list prune_neighbor) : option prune_neighbor :=
  match fuel with
  | O => None
  | S fuel =>
    if 1 <? length closest then
      match pop prune_lt closest with Some rest => pop_to_last fuel rest | None => None end
    else top closest
  end.

(** The entry the queue starts with. *)
Definition prune_queue s (use_dist_cache : bool) (c : list cand') (self : cand') (new_id : N) :
    list prune_neighbor :=
  let c := get_neighbors_data s c in
  let self_val := get_data s (c_id self) in
  let q := foldl (λ q '(i, nbr),
      push prune_lt q (PruneNeighbor (c_val nbr) (Some i)
        (if use_dist_cache then val_distance self_val (c_val nbr) else c_dist nbr) (c_id nbr)))
    [] (imap (λ i nbr, (i, nbr)) c) in
  push prune_lt q (PruneNeighbor (get_data s new_id) None (c_dist self)
    (if use_dist_cache then new_id else c_id self)).

(** [int16 pruned]: [-1], or the slot to overwrite; with the new stat bits. *)
Definition select_pruned (use_dist_cache check_exist : bool) s (nbr_num : nat) (c : list cand')
    (new_id : N) (stat : list bool) (self : cand') : Z * list bool :=
  if check_exist && existsb (λ can, c_id can =? new_id)%N c then ((-1)%Z, stat)
  else if length c <? nbr_num then (Z.of_nat (length c), stat)
  else
    let queue := prune_queue s use_dist_cache c self new_id in
    let has_stats := has_stat stat in
    let stat := set_stat stat in
    let '(closest, st) :=
      prune_loop (S (length queue)) use_dist_cache has_stats nbr_num (c_id self) queue
        (PruneState [] [] [] stat false None) in
    let discarded_idx := Nat.min (length (pr_discarded st)) (nbr_num - length (pr_r st)) in
    let victim :=
      match pr_discarded st !! discarded_idx with
      | Some d => pn_idx d
      | None => match pop_to_last (S (length closest)) closest with Some p => pn_idx p | None => None end
      end in
    match victim with
    | None => ((-1)%Z, pr_stat st)
    | Some i =>
      (Z.of_nat i,
       if use_dist_cache then pr_stat st
       else stat_set (pr_stat st) (Some i) (default false (pr_closer st)))
    end.

(** ** Reverse edges *)

Definition update_reverse_edge (base check_exist : bool) s (nbr : cand') (new_id new_cur : N) :
    mem_store D Vec :=
  let r := get_neighbors base s nbr in
  let '(dists, stat) := get_stats base s (c_cur nbr) in
  let '(pruned, stat) :=
    select_pruned false check_exist s (get_nbr_num base (ms_m s)) r new_id stat nbr in
  let s := set_stats base s (c_cur nbr) dists stat in
  if (0 <=? pruned)%Z then
    let s := set_neighbor base s (c_cur nbr) (Z.to_nat pruned) new_id new_cur in
    let '(dists, stat) := get_stats base s (c_cur nbr) in
    set_stats base s (c_cur nbr) (<[Z.to_nat pruned:=c_dist nbr]> dists) stat
  else s.

Fixpoint update_reverse_edges (base check_exist : bool) s (neighbors : list cand')
    (new_id new_cur : N) : mem_store D Vec :=
  match neighbors with
  | [] => s
  | nbr :: rest =>
    if is_valid (c_id nbr) then
      update_reverse_edges base check_exist (update_reverse_edge base check_exist s nbr new_id new_cur)
        rest new_id new_cur
    else s
  end.

(** ** Adding points

    [add_basepoint] and [add_upperpoint] of the algorithm: the store's, then the
    cached distances. *)
Definition add_base s (id : N) (neighbors : list cand') : mem_store D Vec :=
  let s := MemStore.add_basepoint s id (take (2 * ms_m s) (c_id <$> neighbors)) in
  set_stats true s id (take (2 * ms_m s) (c_dist <$> neighbors)) (get_stats true s id).2.

Definition add_upper s (cur lower id : N) (neighbors : list cand') : mem_store D Vec :=
  let s := MemStore.add_upperpoint s cur lower id (take (ms_m s) (c_id <$> neighbors))
             (take (ms_m s) (c_cur <$> neighbors)) in
  set_stats false s cur (take (ms_m s) (c_dist <$> neighbors)) (get_stats false s cur).2.

Definition add_first_basepoint s : mem_store D Vec :=
  MemStore.add_basepoint s 0 (replicate (2 * ms_m s) INVALID_VECTOR_ID).

Definition add_first_upperpoint s (cur lower id : N) : mem_store D Vec :=
  MemStore.add_upperpoint s cur lower id (replicate (ms_m s) INVALID_VECTOR_ID)
    (replicate (ms_m s) INVALID_VECTOR_ID).

(** [update_entry]: the levels above the old entry. *)
Fixpoint add_levels (n : nat) s (id cur : N) : mem_store D Vec * N :=
  match n with
  | O => (s, cur)
  | S n =>
    let lower := cur in
    let '(s, cur) := assign_vector_id false s in
    add_levels n (add_first_upperpoint s cur lower id) id cur
  end.

Definition update_entry s (id cur : N) (entry_level insert_level : Z) : mem_store D Vec :=
  if (entry_level <? insert_level)%Z then
    let '(s, cur) := add_levels (Z.to_nat (insert_level - entry_level)) s id cur in
    set_entrypoint s id cur insert_level
  else s.

(** ** [insert] *)

Section Insert.
Context {PS : Type} `{PlainStore PS}.
Implicit Types ctx : option PS.

(** [init_range_elem] with the one tid of an [InsertContext]. *)
Definition init_range_elem s ctx (id : N) (t : tid) : option (mem_store D Vec * option PS) :=
  '(p, ctx) ← make_point ctx [t] false; Some (set_elem s id p, ctx).

Inductive insert_strategy := Trivial (id : N) | InsertPoint.

(** [apply_arrangement]: the nearest candidates that hold the very vector take
    the tid, unless vacuum emptied them or they are full. *)
Fixpoint apply_arrangement s ctx (query : Vec) (t : tid) (ep : list cand') :
    option (mem_store D Vec * option PS * insert_strategy) :=
  match ep with
  | [] => Some (s, ctx, InsertPoint)
  | p :: ep =>
    if decide (c_val p = Some query) then
      pt ← ms_elems s !! c_id p;
      if empty pt then apply_arrangement s ctx query t ep
      else
        '(pt, ctx, ok, _) ← insert_tid pt ctx [t];
        let s := set_elem s (c_id p) pt in
        if (ok : bool) then Some (s, ctx, Trivial (c_id p))
        else apply_arrangement s ctx query t ep
    else Some (s, ctx, InsertPoint)
  end.

(** The upper levels of a new point, from level 1 on. *)
Fixpoint insert_uppers s (id cur : N) (nbr_record : list (list cand')) : mem_store D Vec * N :=
  match nbr_record with
  | [] => (s, cur)
  | c :: rest =>
    let lower := cur in
    let '(s, cur) := assign_vector_id false s in
    let neighbors := select_neighbors (get_nbr_num false (ms_m s)) (get_neighbors_data s c) in
    let s := add_upper s cur lower id neighbors in
    let s := update_reverse_edges false false s neighbors id cur in
    insert_uppers s id cur rest
  end.

Definition insert_new_point s ctx (query : Vec) (t : tid) (ep : list cand')
    (nbr_record : list (list cand')) : option (mem_store D Vec * option PS * N * N) :=
  let '(s, id) := assign_vector_id true s in
  '(s, ctx) ← init_range_elem s ctx id t;
  let neighbors := select_neighbors (get_nbr_num true (ms_m s)) ep in
  let s := add_base s id neighbors in
  let s := add_vector s id query in
  let s := update_reverse_edges true false s neighbors id id in
  let '(s, cur) := insert_uppers s id id nbr_record in
  Some (s, ctx, id, cur).

(** Levels [l], ..., 1 with the full candidate list; [nbr_record] by level. *)
Fixpoint search_down (fuel ef : nat) s (query : Vec) (l : nat) (ep : list cand') :
    option (list cand' * list (list cand')) :=
  match l with
  | O => Some (ep, [])
  | S l =>
    ep ← search_layer fuel s query false ep ef (λ _, true);
    '(ep', record) ← search_down fuel ef s query l (replace_lower_layer_idx ep);
    Some (ep', record ++ [ep])
  end.

(** The result carries [ctx.result_id]. *)
Definition insert (fuel ef_construction : nat) s ctx (insert_level : nat) (query : Vec) (t : tid) :
    option (mem_store D Vec * option PS * N) :=
  let entry := get_entry s in
  if (e_level entry =? -1)%Z then
    let '(s, id) := assign_vector_id true s in
    '(s, ctx) ← init_range_elem s ctx id t;
    let s := add_first_basepoint s in
    let s := add_vector s id query in
    Some (set_entrypoint s id id 0, ctx, id)
  else
    let ep := mk_cand (e_id entry) (e_cur entry) (get_distance s query (e_id entry)) in
    ep ← descend fuel (ms_m s) (Z.to_nat (e_level entry - Z.of_nat insert_level)) s query ep;
    let search_level := Z.to_nat (Z.min (Z.of_nat insert_level) (e_level entry)) in
    '(ep, nbr_record) ← search_down fuel ef_construction s query search_level [ep];
    ep ← search_layer fuel s query true ep ef_construction (λ _, true);
    let ep := get_neighbors_data s ep in
    '(s, ctx, strat) ← apply_arrangement s ctx query t ep;
    match strat with
    | Trivial id => Some (s, ctx, id)
    | InsertPoint =>
      '(s, ctx, id, cur) ← insert_new_point s ctx query t ep nbr_record;
      Some (update_entry s id cur (e_level entry) (Z.of_nat insert_level), ctx, id)
    end.
End Insert.
End Build.
