(* ===== verification/GraphPrune.v ===== *)
(** * Neighbour selection against a reference

    The diversification rule of the graph, as a function on a list in order of
    distance: take a point when it is closer to the centre than to every point
    taken before, until [nbr_num] are taken; fill up with the nearest points passed
    over. Forward selection computes it; backward selection finds the one entry it
    leaves out. *)
From Stdlib Require Import Permutation ZArith Lia.
From stdpp Require Import prelude gmap sorting.
From S2P Require Import Prelude Dist PriorityQueue Graph GraphSearch GraphPoint MemStore GraphBuild.

(** ** The order in which a heap is emptied *)

Section Pops.
Context {A : Type} (comp : A → A → bool).

Inductive pops : list A → list A → Prop :=
| pops_nil : pops [] []
| pops_cons h x h' l : top h = Some x → pop comp h = Some h' → pops h' l → pops h (x :: l).

Context `{!StrictWeakOrder comp}.

Lemma pops_exists h :
  is_heap comp h → ∃ l, pops h l ∧ l ≡ₚ h ∧ StronglySorted (not_after comp) l.
Proof.
  remember (length h) as n eqn:Hn. revert h Hn.
  induction n as [|n IH]; intros h Hn Hh.
  { destruct h; [|done]. exists []. split; [constructor|]. split; [done|constructor]. }
  destruct (top h) as [x|] eqn:Hx; [|by destruct h].
  destruct (pop_nonempty comp h x Hh Hx) as (h' & Hp & Hh' & Hperm).
  destruct (IH h') as (l & Hl & Hlp & Hs); [rewrite Hperm in Hn; simpl in Hn; lia|done|].
  exists (x :: l). split; [by econstructor|]. split; [by rewrite Hlp, Hperm|].
  constructor; [done|]. apply Forall_forall. intros y Hy. rewrite Hlp in Hy.
  apply (heap_top_first comp h); [done|done|]. rewrite Hperm. by right.
Qed.

Lemma pops_inv_cons h x l : pops h (x :: l) → top h = Some x ∧ ∃ h', pop comp h = Some h' ∧ pops h' l.
Proof. inversion 1; subst; eauto. Qed.

Lemma pops_inv_nil h : pops h [] → h = [].
Proof. by inversion 1. Qed.

Lemma pop_length h h' : pop comp h = Some h' → length h = S (length h').
Proof.
  unfold pop. destruct h as [|x [|y h]]; [done|by intros [= <-]|]. intros [= <-].
  rewrite (Permutation_length (sift_down_Permutation comp _ _)), length_take.
  case_match; rewrite ?length_insert; simpl; lia.
Qed.

Lemma pops_length h l : pops h l → length h = length l.
Proof. induction 1 as [|h x h' l _ Hp _ IH]; [done|]. apply pop_length in Hp. simpl. lia. Qed.
End Pops.

(** ** The reference *)

Section Reference.
Context {A : Type} (closer : list A → A → bool) (nbr_num : nat).

(** The points taken, the points passed over, the points not looked at. *)
Fixpoint diversify (l r disc : list A) : list A * list A * list A :=
  match l with
  | [] => (r, disc, [])
  | p :: l' =>
    if length r <? nbr_num then
      if closer r p then diversify l' (r ++ [p]) disc else diversify l' r (disc ++ [p])
    else (r, disc, l)
  end.

Definition select_ref (l : list A) : list A :=
  let '(r, disc, _) := diversify l [] [] in r ++ take (nbr_num - length r) disc.

Lemma diversify_spec l r disc :
  let '(r', disc', rest) := diversify l r disc in
  r' ++ disc' ++ rest ≡ₚ r ++ disc ++ l ∧
  (length r ≤ nbr_num → length r' ≤ nbr_num) ∧ (rest ≠ [] → nbr_num ≤ length r').
Proof.
  revert r disc. induction l as [|p l IH]; intros r disc; simpl; [split_and!; done|].
  destruct (Nat.ltb_spec (length r) nbr_num) as [Hlt|Hge]; [|split_and!; [done|done|lia]].
  destruct (closer r p).
  - specialize (IH (r ++ [p]) disc). destruct (diversify l (r ++ [p]) disc) as [[r' disc'] rest].
    destruct IH as (Hp & Hl & Hr). split_and!; [|rewrite length_app in Hl; simpl in Hl; lia|done].
    rewrite Hp, <-app_assoc. simpl. apply Permutation_app_head. apply Permutation_middle.
  - specialize (IH r (disc ++ [p])). destruct (diversify l r (disc ++ [p])) as [[r' disc'] rest].
    destruct IH as (Hp & Hl & Hr). split_and!; [|done|done].
    rewrite Hp. by rewrite <-!app_assoc.
Qed.

(** The reference keeps as many points as fit. *)
Lemma select_ref_length l : length (select_ref l) = Nat.min nbr_num (length l).
Proof.
  unfold select_ref. pose proof (diversify_spec l [] []) as Hd.
  destruct (diversify l [] []) as [[r disc] rest]. destruct Hd as (Hp & Hl & Hr).
  apply Permutation_length in Hp. rewrite !length_app in Hp. simpl in *.
  rewrite length_app, length_take. specialize (Hl ltac:(lia)).
  destruct rest as [|x rest]; [simpl in *; lia|]. specialize (Hr ltac:(done)). simpl in *. lia.
Qed.

Lemma select_ref_submseteq l : select_ref l ⊆+ l.
Proof.
  unfold select_ref. pose proof (diversify_spec l [] []) as Hd.
  destruct (diversify l [] []) as [[r disc] rest]. destruct Hd as (Hp & _). simpl in Hp.
  rewrite <-Hp. apply submseteq_app; [done|].
  etransitivity; [apply sublist_submseteq, sublist_take|]. apply submseteq_inserts_r. done.
Qed.

(** The first point, the nearest one, is always kept. *)
Lemma select_ref_first p l : 0 < nbr_num → closer [] p = true → p ∈ select_ref (p :: l).
Proof.
  intros Hn Hc. unfold select_ref. simpl.
  destruct (Nat.ltb_spec 0 nbr_num); [|lia]. rewrite Hc. simpl.
  assert (H' : ∀ l r disc, p ∈ r → let '(r', _, _) := diversify l r disc in p ∈ r').
  { clear. induction l as [|q l IH]; intros r disc Hr; simpl; [done|].
    destruct (length r <? nbr_num); [|done].
    destruct (closer r q); apply IH; [apply elem_of_app; by left|done]. }
  specialize (H' l [p] []). destruct (diversify l [p] []) as [[r disc] rest].
  apply elem_of_app. left. apply H'. by left.
Qed.

(** With one point too many, exactly one is left out: the last one passed over,
    or the one not looked at. *)
Lemma select_ref_all_but_one l :
  length l = S nbr_num →
  let '(r, disc, rest) := diversify l [] [] in
  ∃ v, select_ref l ++ [v] ≡ₚ l ∧
    ((length r < nbr_num ∧ rest = [] ∧ disc !! (nbr_num - length r) = Some v) ∨
     (length r = nbr_num ∧ rest = [] ∧ disc = [v]) ∨
     (length r = nbr_num ∧ rest = [v] ∧ disc = [])).
Proof.
  intros Hlen. unfold select_ref. pose proof (diversify_spec l [] []) as Hd.
  destruct (diversify l [] []) as [[r disc] rest]. destruct Hd as (Hp & Hl & Hr). simpl in Hp.
  pose proof (Permutation_length Hp) as Hpl. rewrite !length_app, Hlen in Hpl. simpl in Hl.
  destruct (decide (length r < nbr_num)) as [Hlt|Hge].
  - assert (rest = []) as -> by (destruct rest; [done|]; specialize (Hr ltac:(done)); lia).
    simpl in Hpl. destruct (lookup_lt_is_Some_2 disc (nbr_num - length r)) as [v Hv]; [lia|].
    exists v. split; [|left; by split_and!].
    rewrite <-Hp, app_nil_r, <-app_assoc. apply Permutation_app_head.
    rewrite <-(take_S_r _ _ _ Hv). rewrite take_ge; [done|lia].
  - assert (length r = nbr_num) as Hrn by lia. rewrite Hrn, Nat.sub_diag. simpl. rewrite app_nil_r.
    destruct disc as [|v [|? disc]], rest as [|v' [|? rest]]; simpl in Hpl; try lia.
    + exists v'. split; [by rewrite <-Hp|]. by auto.
    + exists v. split; [by rewrite <-Hp|]. by auto.
Qed.
End Reference.

(** ** What the rule selects *)

Section Diverse.
Context {A : Type} (near : A → A → bool) (before : relation A).

(** No point is near one that was taken earlier. *)
Definition diverse (r : list A) : Prop := ∀ i j a b, i < j → r !! i = Some a → r !! j = Some b → near b a = false.
(** Every point passed over is near one taken before it. *)
Definition covered (r disc : list A) : Prop := ∀ p, p ∈ disc → ∃ a, a ∈ r ∧ before a p ∧ near p a = true.

Record diversified (r disc rest : list A) : Prop := {
  dv_diverse : diverse r;
  dv_covered : covered r disc;
  dv_taken : StronglySorted before r;
  dv_passed : StronglySorted before disc;
  dv_rest : ∀ x y, x ∈ r ++ disc → y ∈ rest → before x y;
  dv_rest_sorted : StronglySorted before rest;
}.

Lemma diverse_snoc r p : diverse r → (∀ a, a ∈ r → near p a = false) → diverse (r ++ [p]).
Proof.
  intros Hr Hp i j a b Hij Ha Hb. apply lookup_snoc_Some in Hb as [[Hj Hb]|[-> <-]].
  - rewrite lookup_app_l in Ha by lia. exact (Hr i j a b Hij Ha Hb).
  - rewrite lookup_app_l in Ha by lia. by eapply Hp, list_elem_of_lookup_2.
Qed.
Lemma sorted_snoc l p : StronglySorted before l → (∀ x, x ∈ l → before x p) → StronglySorted before (l ++ [p]).
Proof. intros Hl Hp. apply StronglySorted_app_2; [|done|repeat constructor]. intros x y Hx ->%list_elem_of_singleton. by apply Hp. Qed.

Lemma diversified_step r disc p l : diversified r disc (p :: l) →
  (∀ a, a ∈ r → near p a = false) → diversified (r ++ [p]) disc l.
Proof.
  intros [H1 H2 H3 H4 H5 H6] Hp. apply StronglySorted_inv in H6 as [H6 Hl]. rewrite Forall_forall in Hl. split; [by apply diverse_snoc| | |done| |done].
  - intros x (a & Ha & Hb & Hn)%H2. exists a. split_and!; [apply elem_of_app; by left|done|done].
  - apply sorted_snoc; [done|]. intros x Hx. apply H5; [apply elem_of_app; by left|left].
  - intros x y Hx Hy. rewrite <- app_assoc in Hx. simpl in Hx. apply elem_of_app in Hx as [Hx|[->|Hx]%elem_of_cons]; [|by apply Hl|];
      (apply H5; [apply elem_of_app; auto|by right]).
Qed.
Lemma diversified_pass r disc p l a : diversified r disc (p :: l) → a ∈ r → near p a = true → diversified r (disc ++ [p]) l.
Proof.
  intros [H1 H2 H3 H4 H5 H6] Ha Hn. apply StronglySorted_inv in H6 as [H6 Hl]. rewrite Forall_forall in Hl. split; [done| |done| | |done].
  - intros x [Hx| ->%list_elem_of_singleton]%elem_of_app; [by apply H2|]. exists a. split_and!; [done|apply H5; [apply elem_of_app; by left|left]|done].
  - apply sorted_snoc; [done|]. intros x Hx. apply H5; [apply elem_of_app; by right|left].
  - intros x y Hx Hy. rewrite app_assoc in Hx. apply elem_of_app in Hx as [Hx| ->%list_elem_of_singleton]; [|by apply Hl]. apply H5; [done|by right].
Qed.

Lemma diversify_diverse closer nbr_num l : ∀ r disc,
  (∀ r p, closer r p = true ↔ ∀ a, a ∈ r → near p a = false) → (∀ r p, closer r p = false → ∃ a, a ∈ r ∧ near p a = true) →
  diversified r disc l → let '(r', disc', rest) := diversify closer nbr_num l r disc in diversified r' disc' rest.
Proof.
  induction l as [|p l IH]; intros r disc Ht Hf Hd; cbn [diversify]; [done|]. destruct (length r <? nbr_num); [|done].
  destruct (closer r p) eqn:E.
  - apply IH; [done|done|]. apply diversified_step; [done|]. by apply Ht.
  - apply IH; [done|done|]. destruct (Hf _ _ E) as (a & Ha & Hn). by eapply diversified_pass.
Qed.
End Diverse.

(** ** Forward selection *)

Section Select.
Context {D Vec : Type} `{DistOrd D} `{EqDecision Vec} (distance : Vec → Vec → D).
Implicit Types (s : mem_store D Vec) (c r disc : list (cand D Vec)).

Definition cand_closer r (p : cand D Vec) : bool := is_closer distance p r.

Lemma select_loop_ref fuel nbr_num closest order r disc :
  pops ClosestCompare closest order → length order < fuel →
  select_loop distance fuel nbr_num closest r disc = (diversify cand_closer nbr_num order r disc).1.
Proof.
  revert fuel closest r disc. induction order as [|p order IH]; intros fuel closest r disc Hpop Hf;
    (destruct fuel as [|fuel]; [simpl in Hf; lia|]).
  { apply pops_inv_nil in Hpop as ->. done. }
  apply pops_inv_cons in Hpop as (Htop & h' & Hp & Hrest). simpl in *. rewrite Htop, Hp.
  destruct (length r <? nbr_num); [|done].
  unfold cand_closer at 1. destruct (is_closer distance p r); apply IH; (done || lia).
Qed.

Lemma select_neighbors_short nbr_num c :
  length c ≤ nbr_num →
  select_neighbors distance nbr_num c = c ++ replicate (nbr_num - length c) default_cand.
Proof. intros Hc. unfold select_neighbors. by destruct (Nat.leb_spec (length c) nbr_num); [|lia]. Qed.

Lemma select_neighbors_long nbr_num c :
  nbr_num < length c → is_heap ClosestCompare c →
  ∃ order, order ≡ₚ c ∧ StronglySorted (not_after ClosestCompare) order ∧
    select_neighbors distance nbr_num c = select_ref cand_closer nbr_num order.
Proof.
  intros Hc Hh. destruct (pops_exists ClosestCompare c Hh) as (order & Hpop & Hperm & Hs).
  exists order. split_and!; [done..|]. unfold select_neighbors, select_ref, of_vector.
  destruct (Nat.leb_spec (length c) nbr_num); [lia|].
  rewrite (select_loop_ref _ _ _ _ _ _ Hpop) by (rewrite <-(Permutation_length Hperm); lia).
  by destruct (diversify cand_closer nbr_num order [] []) as [[r disc] rest].
Qed.

(** A candidate list is kept as it is and padded, or cut down: in both cases the
    result is [nbr_num] long and its valid part comes from the candidates. *)
Lemma select_neighbors_spec nbr_num c :
  is_heap ClosestCompare c →
  ∃ k, select_neighbors distance nbr_num c = k ++ replicate (nbr_num - length k) default_cand ∧
    k ⊆+ c ∧ length k ≤ nbr_num ∧ length k = Nat.min nbr_num (length c).
Proof.
  intros Hh. destruct (decide (length c ≤ nbr_num)) as [Hle|Hgt].
  - exists c. split; [by apply select_neighbors_short|]. split_and!; [done|done|lia].
  - destruct (select_neighbors_long nbr_num c) as (order & Hp & _ & Heq); [lia|done|].
    exists (select_ref cand_closer nbr_num order). rewrite Heq.
    pose proof (select_ref_length cand_closer nbr_num order) as Hl.
    rewrite (Permutation_length Hp) in Hl. split_and!; [|by rewrite <-Hp; apply select_ref_submseteq|lia|done].
    replace (nbr_num - length (select_ref cand_closer nbr_num order)) with 0 by lia. by rewrite app_nil_r.
Qed.

(** [p] is at least as close to [a] as to the centre of the selection. *)
Definition near_cand (p a : cand D Vec) : bool := dle (val_distance distance (c_val p) (c_val a)) (c_dist p).

Lemma cand_closer_true r p : cand_closer r p = true ↔ ∀ a, a ∈ r → near_cand p a = false.
Proof.
  unfold cand_closer, is_closer. rewrite forallb_forall. setoid_rewrite <- list_elem_of_In. by setoid_rewrite negb_true_iff.
Qed.
Lemma cand_closer_false r p : cand_closer r p = false → ∃ a, a ∈ r ∧ near_cand p a = true.
Proof.
  intros E. destruct (decide (Exists (λ a, near_cand p a = true) r)) as [(a & Ha & Hn)%Exists_exists|Hno]; [by exists a|].
  assert (cand_closer r p = true); [|congruence]. apply cand_closer_true. intros a Ha. apply not_true_iff_false. intros Hn. apply Hno, Exists_exists. eauto.
Qed.

(** The distance between two candidates that carry their vectors. *)
Definition apart (p a : cand D Vec) (d : D) : Prop := ∃ x y, c_val p = Some x ∧ c_val a = Some y ∧ d = distance x y.
Lemma near_apart p a : is_Some (c_val p) → is_Some (c_val a) → ∃ d, apart p a d ∧ near_cand p a = negb (dlt (c_dist p) d).
Proof. intros [x Hx] [y Hy]. exists (distance x y). split; [by exists x, y|]. unfold near_cand, dle. by rewrite Hx, Hy. Qed.
Lemma apart_unique p a d d' : apart p a d → apart p a d' → d = d'.
Proof. intros (x & y & Hx & Hy & ->) (x' & y' & Hx' & Hy' & ->). congruence. Qed.

(** C25: forward neighbour selection diversifies. Candidates that fit are all kept and
    the row is padded with invalid ids at the largest distance. Of more candidates
    exactly [nbr_num] are kept, first those taken, then as many as fit of those passed
    over, each group from the nearest on: a point taken is closer to the centre than to
    every point taken before it, a point passed over is not closer to the centre than to
    some point taken before it, and only points behind all of these go unexamined, when
    [nbr_num] have been taken; a candidate with none before it is always kept. *)
Theorem select_neighbors_is_diversification nbr_num c :
  0 < nbr_num → is_heap ClosestCompare c → (∀ p, p ∈ c → is_Some (c_val p)) →
  let kept := select_neighbors distance nbr_num c in
  (length c ≤ nbr_num → ∃ pad, kept = c ++ pad ∧ length kept = nbr_num ∧
    ∀ p, p ∈ pad → c_id p = INVALID_VECTOR_ID ∧ c_cur p = INVALID_VECTOR_ID ∧ c_dist p = FLT_MAX) ∧
  (nbr_num < length c → ∃ taken passed rest,
    taken ++ passed ++ rest ≡ₚ c ∧ kept = taken ++ take (nbr_num - length taken) passed ∧ length kept = nbr_num ∧
    (rest ≠ [] → length taken = nbr_num) ∧
    StronglySorted (not_after ClosestCompare) taken ∧ StronglySorted (not_after ClosestCompare) passed ∧
    (∀ x y, x ∈ taken ++ passed → y ∈ rest → not_after ClosestCompare x y) ∧
    (∀ i j a b d, i < j → taken !! i = Some a → taken !! j = Some b → apart b a d → dlt (c_dist b) d = true) ∧
    (∀ p, p ∈ passed → ∃ a d, a ∈ taken ∧ not_after ClosestCompare a p ∧ apart p a d ∧ dlt (c_dist p) d = false) ∧
    ∃ p, p ∈ kept ∧ ∀ q, q ∈ c → not_after ClosestCompare p q).
Proof.
  intros Hn Hh Hval kept. subst kept. split; intros Hc.
  { rewrite select_neighbors_short by done. eexists. split; [done|]. rewrite length_app, length_replicate. split; [lia|].
    by intros p [-> _]%elem_of_replicate. }
  destruct (select_neighbors_long nbr_num c Hc Hh) as (order & Hp & Hs & ->).
  pose proof (select_ref_length cand_closer nbr_num order) as Hlen. pose proof (diversify_spec cand_closer nbr_num order [] []) as Hspec.
  pose proof (diversify_diverse near_cand (not_after ClosestCompare) cand_closer nbr_num order [] [] cand_closer_true cand_closer_false) as Hdiv.
  assert (Hfirst : ∃ p, p ∈ select_ref cand_closer nbr_num order ∧ ∀ q, q ∈ c → not_after ClosestCompare p q).
  { destruct order as [|p order]; [apply Permutation_length in Hp; simpl in Hp; lia|]. exists p. split; [by apply select_ref_first|].
    intros q Hq. rewrite <- Hp in Hq. apply StronglySorted_inv in Hs as [_ Hs]. rewrite Forall_forall in Hs.
    apply elem_of_cons in Hq as [->|Hq]; [|by apply Hs]. apply (not_after_refl ClosestCompare). }
  unfold select_ref in *. destruct (diversify cand_closer nbr_num order [] []) as [[taken passed] rest]. destruct Hspec as (Hperm & Hle & Hrest).
  simpl in Hperm, Hle. rewrite (Permutation_length Hp), Nat.min_l in Hlen by lia.
  destruct Hdiv as [D1 D2 D3 D4 D5 _]. { split; try constructor; [by intros ? ?|by intros ? ?%not_elem_of_nil|by intros ? ? ?%not_elem_of_nil|done]. }
  assert (Hall : ∀ x, x ∈ taken ++ passed → is_Some (c_val x)).
  { intros x Hx. apply Hval. rewrite <- Hp, <- Hperm, app_assoc. apply elem_of_app. by left. }
  exists taken, passed, rest. split_and!; [by rewrite Hperm|done|done| |done|done|done| | |done].
  - intros Hr. specialize (Hrest Hr). lia.
  - intros i j a b d Hij Ha Hb Hd. destruct (near_apart b a) as (d' & Hd' & E); [apply Hall, elem_of_app; left; by eapply list_elem_of_lookup_2..|].
    rewrite (D1 i j a b Hij Ha Hb) in E. rewrite (apart_unique _ _ _ _ Hd Hd'). by apply symmetry, negb_false_iff in E.
  - intros p Hpp. destruct (D2 p Hpp) as (a & Ha & Hb & E). destruct (near_apart p a) as (d & Hd & E'); [apply Hall, elem_of_app; auto..|].
    exists a, d. split_and!; [done|done|done|]. rewrite E in E'. by apply symmetry, negb_true_iff in E'.
Qed.

(** ** Backward selection *)

#[local] Instance prune_lt_swo : StrictWeakOrder (prune_lt (D:=D) (Vec:=Vec)).
Proof.
  apply (swo_lex (λ a b, dlt (pn_dist a) (pn_dist b)) (λ a b, (pn_id a <? pn_id b)%N)).
  - exact (swo_on_key pn_dist dlt dlt_swo).
  - split; intros *; rewrite ?N.ltb_lt, ?N.ltb_ge; lia.
Qed.

Abbreviation pn := (@prune_neighbor D Vec).
Abbreviation pstate := (@prune_state D Vec).
Implicit Types (st : pstate) (closest order : list pn).

Lemma judge_keeps cache has self st cur :
  pr_r (judge distance cache has self st cur).2 = pr_r st ∧
  pr_discarded (judge distance cache has self st cur).2 = pr_discarded st ∧
  length (pr_stat (judge distance cache has self st cur).2) = length (pr_stat st).
Proof.
  destruct st as [r disc added stat hr cl]. unfold judge, stat_set.
  repeat case_match; simplify_eq/=; rewrite ?length_insert; done.
Qed.

(** Judging without statistics asks the reference's question. *)
Lemma judge_plain cache has self st cur :
  cache = true ∨ has = false →
  (judge distance cache has self st cur).1 = elem_closer distance (pr_r st) cur.
Proof.
  destruct st as [r disc added stat hr cl]. unfold judge.
  intros [->| ->]; [done|]. destruct cache; [done|]. simpl. by case_match.
Qed.

(** Where the loop ends: the queue is empty and there is still room, or the last
    slot was just filled and the rest of the queue was not looked at. *)
Definition loop_end (nbr_num : nat) (r : list pn) (closest rest : list pn) : Prop :=
  (length r < nbr_num ∧ closest = [] ∧ rest = []) ∨
  (length r = nbr_num ∧ ∃ x, pops prune_lt closest (x :: rest)).

Lemma prune_loop_spec cache has nbr_num self fuel closest order st :
  pops prune_lt closest order → length order < fuel → length (pr_r st) < nbr_num →
  let '(closest', st') := prune_loop distance fuel cache has nbr_num self closest st in
  length (pr_stat st') = length (pr_stat st) ∧
  ∃ rest, pr_r st' ++ pr_discarded st' ++ rest ≡ₚ pr_r st ++ pr_discarded st ++ order ∧
    loop_end nbr_num (pr_r st') closest' rest ∧
    (cache = true ∨ has = false →
     diversify (elem_closer distance) nbr_num order (pr_r st) (pr_discarded st) =
       (pr_r st', pr_discarded st', rest)).
Proof.
  revert fuel closest st. induction order as [|p order IH]; intros fuel closest st Hpop Hf Hr;
    (destruct fuel as [|fuel]; [simpl in Hf; lia|]).
  { apply pops_inv_nil in Hpop as ->. simpl. split; [done|]. exists []. split_and!; [done|by left|done]. }
  pose proof Hpop as Hpop'. apply pops_inv_cons in Hpop as (Htop & h' & Hp & Hrest).
  cbn [prune_loop]. rewrite Htop, Hp.
  destruct (judge_keeps cache has self st p) as (Hjr & Hjd & Hjs).
  pose proof (judge_plain cache has self st p) as Hplain.
  destruct (judge distance cache has self st p) as [b [r disc added stat hr cl]]. simpl in *. subst r disc.
  destruct (Nat.ltb_spec (length (pr_r st)) nbr_num) as [_|]; [|lia]. destruct b.
  - destruct (Nat.leb_spec nbr_num (length (pr_r st ++ [p]))) as [Hfull|Hroom].
    + simpl. split; [done|]. exists order. rewrite length_app in Hfull. simpl in Hfull. split_and!.
      * rewrite <-app_assoc. simpl. apply Permutation_app_head, Permutation_middle.
      * right. split; [rewrite length_app; simpl; lia|]. eauto.
      * intros Hpl. rewrite <-Hplain by done. destruct order as [|p' order]; simpl; [done|].
        destruct (Nat.ltb_spec (length (pr_r st ++ [p])) nbr_num); [|done].
        rewrite length_app in *. simpl in *. lia.
    + specialize (IH fuel h' (PruneState (pr_r st ++ [p]) (pr_discarded st) added stat hr cl) Hrest).
      destruct (prune_loop distance fuel cache has nbr_num self h' _) as [closest' st'].
      simpl in IH. destruct IH as (Hs & rest & Hperm & Hend & Hdiv); [lia|lia|].
      split; [congruence|]. exists rest. split_and!; [|done|].
      * rewrite Hperm, <-app_assoc. simpl. apply Permutation_app_head, Permutation_middle.
      * intros Hpl. rewrite <-Hplain by done. auto.
  - specialize (IH fuel h' (PruneState (pr_r st) (pr_discarded st ++ [p]) added stat hr cl) Hrest).
    destruct (prune_loop distance fuel cache has nbr_num self h' _) as [closest' st'].
    simpl in IH. destruct IH as (Hs & rest & Hperm & Hend & Hdiv); [lia|lia|].
    split; [congruence|]. exists rest. split_and!; [|done|].
    * rewrite Hperm. by rewrite <-!app_assoc.
    * intros Hpl. rewrite <-Hplain by done. auto.
Qed.

Lemma pop_to_last_spec fuel closest order x :
  pops prune_lt closest (x :: order) → length order < fuel →
  pop_to_last fuel closest = last (x :: order).
Proof.
  revert fuel closest x. induction order as [|y order IH]; intros fuel closest x Hpop Hf;
    (destruct fuel as [|fuel]; [simpl in Hf; lia|]);
    pose proof (pops_length _ _ _ Hpop) as Hlen;
    apply pops_inv_cons in Hpop as (Htop & h' & Hp & Hrest); simpl in *; rewrite Hlen.
  - done.
  - simpl. rewrite Hp. rewrite (IH fuel h' y); [done|done|lia].
Qed.

(** ** The queue of [select_pruned] *)

Definition prune_entries s (cache : bool) c (self : cand D Vec) (new_id : N) : list pn :=
  imap (λ i nbr, PruneNeighbor (get_data s (c_id nbr)) (Some i)
    (if cache then val_distance distance (get_data s (c_id self)) (get_data s (c_id nbr)) else c_dist nbr)
    (c_id nbr)) c ++
  [PruneNeighbor (get_data s new_id) None (c_dist self) (if cache then new_id else c_id self)].

Lemma push_all_heap {B : Type} (f : B → pn) (l : list B) h :
  is_heap prune_lt h →
  foldl (λ q x, push prune_lt q (f x)) h l ≡ₚ h ++ (f <$> l) ∧
  is_heap prune_lt (foldl (λ q x, push prune_lt q (f x)) h l).
Proof.
  revert h. induction l as [|x l IH]; intros h Hh; simpl; [by rewrite app_nil_r|].
  destruct (IH (push prune_lt h (f x))) as [Hp Hh']; [exact (push_is_heap prune_lt h (f x) Hh)|].
  split; [|done]. rewrite Hp, (push_Permutation prune_lt h (f x)). simpl.
  by rewrite Permutation_middle.
Qed.

Lemma prune_queue_spec s cache c self new_id :
  prune_queue distance s cache c self new_id ≡ₚ prune_entries s cache c self new_id ∧
  is_heap prune_lt (prune_queue distance s cache c self new_id).
Proof.
  unfold prune_queue.
  set (f := λ x : nat * cand D Vec, PruneNeighbor (c_val x.2) (Some x.1)
    (if cache then val_distance distance (get_data s (c_id self)) (c_val x.2) else c_dist x.2) (c_id x.2)).
  set (l := imap (λ i nbr, (i, nbr)) (get_neighbors_data s c)).
  assert (Hfold : ∀ h, foldl (λ (q : list pn) '((i, nbr) : nat * cand D Vec), push prune_lt q (PruneNeighbor (c_val nbr) (Some i)
    (if cache then val_distance distance (get_data s (c_id self)) (c_val nbr) else c_dist nbr) (c_id nbr)))
    h l = foldl (λ q x, push prune_lt q (f x)) h l).
  { clear. intros h. revert h. induction l as [|[i nbr] l IH]; intros h; simpl; [done|]. apply IH. }
  rewrite Hfold. destruct (push_all_heap f l []) as [Hp Hh]; [intros i Hi; simpl in Hi; lia|].
  split; [|exact (push_is_heap prune_lt _ _ Hh)].
  assert (Heq : f <$> l = imap (λ i nbr, PruneNeighbor (get_data s (c_id nbr)) (Some i)
    (if cache then val_distance distance (get_data s (c_id self)) (get_data s (c_id nbr)) else c_dist nbr)
    (c_id nbr)) c).
  { apply list_eq. intros i. unfold l, get_neighbors_data.
    rewrite list_lookup_fmap, !list_lookup_imap, list_lookup_fmap. by destruct (c !! i). }
  rewrite push_Permutation, Hp, app_nil_l, Heq. unfold prune_entries. by rewrite Permutation_app_comm.
Qed.

(** The entry the code drops, given what the loop selected. *)
Definition victim_of (nbr_num : nat) (r disc closest : list pn) : option nat :=
  match disc !! Nat.min (length disc) (nbr_num - length r) with
  | Some d => pn_idx d
  | None => match pop_to_last (S (length closest)) closest with Some p => pn_idx p | None => None end
  end.

Lemma victim_spec nbr_num (r disc rest closest order : list pn) :
  r ++ disc ++ rest ≡ₚ order → length order = S nbr_num → loop_end nbr_num r closest rest →
  ∃ v, victim_of nbr_num r disc closest = pn_idx v ∧
    (r ++ take (nbr_num - length r) disc) ++ [v] ≡ₚ order ∧
    (v ∈ disc ∨ length r = nbr_num ∧ rest = [v] ∧ disc = []).
Proof.
  intros Hp Hlen Hend. pose proof (Permutation_length Hp) as Hl. rewrite !length_app, Hlen in Hl.
  unfold victim_of. destruct Hend as [(Hr & -> & ->)|(Hr & x & Hx)].
  - simpl in Hl. destruct (lookup_lt_is_Some_2 disc (nbr_num - length r)) as [v Hv]; [lia|].
    replace (length disc `min` (nbr_num - length r)) with (nbr_num - length r) by lia.
    rewrite Hv. exists v. split; [done|]. split; [|left; by eapply list_elem_of_lookup_2].
    rewrite <-Hp, app_nil_r, <-app_assoc, <-(take_S_r _ _ _ Hv), take_ge; [done|lia].
  - rewrite Hr, Nat.sub_diag, Nat.min_0_r. simpl take. rewrite app_nil_r.
    destruct disc as [|d [|? disc]], rest as [|v' [|? rest]]; simpl in Hl; try lia.
    + exists v'. pose proof (pops_length _ _ _ Hx) as Hxl.
      simpl lookup. rewrite (pop_to_last_spec _ _ _ _ Hx) by (simpl in *; lia).
      split; [done|]. split; [by rewrite <-Hp|by right].
    + exists d. split; [done|]. split; [by rewrite <-Hp|left; by left].
Qed.

(** What [select_pruned] does on a full neighbour list. *)
Lemma select_pruned_full cache s nbr_num c new_id stat self check :
  length c = nbr_num → 0 < nbr_num →
  check && existsb (λ can, c_id can =? new_id)%N c = false →
  ∃ order keep v, order ≡ₚ prune_entries s cache c self new_id ∧
    StronglySorted (not_after prune_lt) order ∧ keep ++ [v] ≡ₚ order ∧
    (select_pruned distance cache check s nbr_num c new_id stat self).1 =
      match pn_idx v with Some i => Z.of_nat i | None => (-1)%Z end ∧
    (cache = true ∨ has_stat stat = false → keep = select_ref (elem_closer distance) nbr_num order) ∧
    length (select_pruned distance cache check s nbr_num c new_id stat self).2 = length stat.
Proof.
  intros Hc Hpos Hex. unfold select_pruned. rewrite Hex, Hc, Nat.ltb_irrefl.
  destruct (prune_queue_spec s cache c self new_id) as [Hq Hh].
  set (queue := prune_queue distance s cache c self new_id) in *.
  destruct (pops_exists prune_lt queue Hh) as (order & Hpops & Hperm & Hsort).
  assert (Hlen : length order = S nbr_num).
  { rewrite (Permutation_length Hperm), (Permutation_length Hq). unfold prune_entries.
    rewrite length_app, length_imap. simpl. lia. }
  pose proof (prune_loop_spec cache (has_stat stat) nbr_num (c_id self) (S (length queue)) queue order
    (PruneState [] [] [] (set_stat stat) false None) Hpops) as Hloop.
  destruct (prune_loop _ _ _ _ _ _ _ _) as [closest st].
  destruct Hloop as (Hst & rest & Hp & Hend & Hdiv);
    [rewrite <-(Permutation_length Hperm); lia|simpl; lia|]. simpl in Hp, Hdiv, Hst.
  unfold set_stat in Hst. rewrite length_insert in Hst.
  destruct (victim_spec nbr_num _ _ _ _ _ Hp Hlen Hend) as (v & Hv & Hkeep & _).
  fold (victim_of nbr_num (pr_r st) (pr_discarded st) closest). rewrite Hv.
  exists order, (pr_r st ++ take (nbr_num - length (pr_r st)) (pr_discarded st)), v.
  split_and!; [by rewrite Hperm|done|done|by destruct (pn_idx v)| |].
  - intros Hpl. unfold select_ref. by rewrite (Hdiv Hpl).
  - destruct (pn_idx v); [|done]. destruct cache; [done|]. simpl. by rewrite length_insert.
Qed.

Lemma prune_entries_idx s cache c self new_id v i :
  v ∈ prune_entries s cache c self new_id → pn_idx v = Some i → i < length c.
Proof.
  unfold prune_entries. rewrite elem_of_app, list_elem_of_singleton.
  intros [Hv| ->]; [|done]. apply elem_of_lookup_imap_1 in Hv as (j & x & -> & Hj).
  intros [= ->]. by eapply lookup_lt_Some.
Qed.

(** The slot [select_pruned] names: the first free one, an occupied one of a full
    list, or none. *)
Lemma select_pruned_slot cache check s nbr_num c new_id stat self :
  length c ≤ nbr_num → 0 < nbr_num →
  let r := select_pruned distance cache check s nbr_num c new_id stat self in
  length r.2 = length stat ∧
  (r.1 = (-1)%Z ∨ ∃ i, r.1 = Z.of_nat i ∧ i < nbr_num ∧ i ≤ length c).
Proof.
  intros Hc Hpos r. destruct (check && existsb (λ can, c_id can =? new_id)%N c) eqn:Hex.
  { unfold r, select_pruned. rewrite Hex. auto. }
  destruct (decide (length c < nbr_num)) as [Hlt|Hge].
  { unfold r, select_pruned. rewrite Hex. destruct (Nat.ltb_spec (length c) nbr_num); [|lia].
    split; [done|]. right. exists (length c). simpl. split_and!; [done|done|done]. }
  destruct (select_pruned_full cache s nbr_num c new_id stat self check) as
    (order & keep & v & Hp & _ & Hk & Hr & _ & Hl); [lia|done|done|].
  split; [done|]. unfold r. rewrite Hr. destruct (pn_idx v) as [i|] eqn:Hi; [right|by left].
  exists i. assert (v ∈ order) as Hv by (rewrite <-Hk; apply elem_of_app; right; by left).
  rewrite Hp in Hv. pose proof (prune_entries_idx _ _ _ _ _ _ _ Hv Hi). split_and!; [done|lia|lia].
Qed.

(** When a reverse edge arrives at a node whose neighbour list is full and
    that has no statistics yet (or uses the distance cache), the entries that stay,
    the new point among the candidates, are the reference diversification of the
    old neighbours and the new point in order of distance: the slot that is
    overwritten is the one entry the reference leaves out, or no slot at all when
    that entry is the new point. *)
Theorem reverse_edge_keeps_diversification cache s nbr_num c new_id stat self :
  length c = nbr_num → 0 < nbr_num → cache = true ∨ has_stat stat = false →
  ∃ order v, order ≡ₚ prune_entries s cache c self new_id ∧
    StronglySorted (not_after prune_lt) order ∧
    select_ref (elem_closer distance) nbr_num order ++ [v] ≡ₚ prune_entries s cache c self new_id ∧
    (select_pruned distance cache false s nbr_num c new_id stat self).1 =
      match pn_idx v with Some i => Z.of_nat i | None => (-1)%Z end.
Proof.
  intros Hc Hpos Hplain.
  destruct (select_pruned_full cache s nbr_num c new_id stat self false Hc Hpos eq_refl) as
    (order & keep & v & Hp & Hs & Hk & Hr & Hpl & _).
  exists order, v. split_and!; [done|done|by rewrite <-Hpl, Hk|done].
Qed.

(** ** [closer] is written before it is read *)

(** The flag is set once the new point (the entry marked with the node's own id)
    was looked at, and [added] is only filled after that. *)
Definition closer_inv (self : N) st : Prop :=
  (∀ p, p ∈ pr_r st ++ pr_discarded st → pn_id p = self → is_Some (pr_closer st)) ∧
  (pr_added st ≠ [] → is_Some (pr_closer st)).

Lemma judge_closer has self st cur :
  closer_inv self st →
  let st' := (judge distance false has self st cur).2 in
  closer_inv self st' ∧ (pn_id cur = self → is_Some (pr_closer st')).
Proof.
  destruct st as [r disc added stat hr cl]. unfold closer_inv, judge. simpl. intros [Hr Ha].
  destruct has; simpl.
  - destruct (Nat.ltb_spec 0 (length added)) as [Hadd|Hadd].
    + assert (is_Some cl) by (apply Ha; by destruct added; [simpl in Hadd; lia|]).
      repeat case_match; simpl; auto.
    + destruct (N.eqb_spec (pn_id cur) self); simpl; split_and!; eauto; congruence.
  - destruct (N.eqb_spec (pn_id cur) self); simpl; split_and!; eauto; congruence.
Qed.

Lemma prune_loop_closer has nbr_num self fuel closest order st :
  pops prune_lt closest order → closer_inv self st →
  closer_inv self (prune_loop distance fuel false has nbr_num self closest st).2.
Proof.
  revert closest order st. induction fuel as [|fuel IH]; intros closest order st Hpop Hinv; [done|].
  cbn [prune_loop]. destruct (top closest) as [cur|] eqn:Htop; [|done].
  destruct (pop prune_lt closest) as [rest|] eqn:Hp; [|done].
  destruct order as [|x order]; [apply pops_inv_nil in Hpop; by subst|].
  apply pops_inv_cons in Hpop as (_ & rest' & Hp' & Hrest). rewrite Hp in Hp'. injection Hp' as <-.
  destruct (judge_closer has self st cur Hinv) as ([Hr Ha] & Hcur).
  destruct (judge distance false has self st cur) as [b [r disc added stat hr cl]]. simpl in *.
  assert (Hnext : ∀ r' disc' : list pn, r' ++ disc' ≡ₚ cur :: (r ++ disc) →
    closer_inv self (PruneState r' disc' added stat hr cl)).
  { intros r' disc' Hperm. split; simpl; [|done]. intros p Hpin Hid. rewrite Hperm in Hpin.
    apply elem_of_cons in Hpin as [-> |Hpin]; eauto. }
  destruct b; [case_match|]; simpl; [|eapply IH; [done|]..]; apply Hnext;
    [by rewrite <-app_assoc; simpl; rewrite <-Permutation_middle..|].
  by rewrite app_assoc, <-Permutation_cons_append.
Qed.

(** [select_pruned] never reads an uninitialised [closer]: whenever it names a
    slot of a full neighbour list to overwrite, the loop has looked at the new
    point and has set the flag it stores for that slot. *)
Theorem pruned_slot_has_closer s nbr_num c new_id stat self :
  length c = nbr_num → 0 < nbr_num → (∀ x, x ∈ c → c_id x ≠ c_id self) →
  let queue := prune_queue distance s false c self new_id in
  let '(closest, st) :=
    prune_loop distance (S (length queue)) false (has_stat stat) nbr_num (c_id self) queue
      (PruneState [] [] [] (set_stat stat) false None) in
  victim_of nbr_num (pr_r st) (pr_discarded st) closest ≠ None → is_Some (pr_closer st).
Proof.
  intros Hc Hpos Hids queue. destruct (prune_queue_spec s false c self new_id) as [Hq Hh].
  fold queue in Hq, Hh. destruct (pops_exists prune_lt queue Hh) as (order & Hpops & Hperm & _).
  assert (Hlen : length order = S nbr_num).
  { rewrite (Permutation_length Hperm), (Permutation_length Hq). unfold prune_entries.
    rewrite length_app, length_imap. simpl. lia. }
  set (st0 := PruneState [] [] [] (set_stat stat) false None).
  pose proof (prune_loop_spec false (has_stat stat) nbr_num (c_id self) (S (length queue)) queue order
    st0 Hpops) as Hloop.
  pose proof (prune_loop_closer (has_stat stat) nbr_num (c_id self) (S (length queue)) queue order
    st0 Hpops) as Hcl.
  destruct (prune_loop _ _ _ _ _ _ _ _) as [closest st].
  destruct Hloop as (_ & rest & Hp & Hend & _);
    [rewrite <-(Permutation_length Hperm); lia|simpl; lia|]. simpl in Hp, Hcl.
  destruct Hcl as [Hr _]; [split; [by intros p ?%elem_of_nil|done]|].
  destruct (victim_spec nbr_num _ _ _ _ _ Hp Hlen Hend) as (v & -> & Hkeep & Hv). intros Hi.
  set (new := PruneNeighbor (get_data s new_id) None (c_dist self) (c_id self)).
  assert (Hnew : new ∈ pr_r st ++ pr_discarded st ++ rest).
  { rewrite Hp, Hperm, Hq. unfold prune_entries. apply elem_of_app. right. by left. }
  rewrite app_assoc in Hnew. apply elem_of_app in Hnew as [Hnew|Hnew]; [by apply (Hr new)|].
  destruct Hv as [Hv|(_ & -> & _)]; [|apply list_elem_of_singleton in Hnew; by subst v].
  destruct Hend as [(_ & _ & ->)|(Hrn & x & _)]; [by apply elem_of_nil in Hnew|].
  apply Permutation_length in Hp. rewrite !length_app, Hlen in Hp.
  destruct (pr_discarded st), rest; simpl in *;
    [by apply elem_of_nil in Hv|by apply elem_of_nil in Hv|by apply elem_of_nil in Hnew|lia].
Qed.
End Select.

(** ** Stale statistics

    A node at 0 on a line with two slots, holding points 1 (at 11) and 2 (at 12).
    The reverse edge from point 3 (at 13) computes the statistics; the one from
    point 4 (at 10) replaces point 2 and finds point 1 covered by point 4; the
    bit of point 1 stays set. *)

Module Stale.

Definition dist1 (a b : Z) : Z := Z.abs (a - b).
Definition at_ (id : N) (x : Z) : cand Z Z := mk_cand id id (dist1 0 x).
Definition store : mem_store Z Z :=
  MemStore 2 (list_to_map [(0%N, 0%Z); (1%N, 11%Z); (2%N, 12%Z); (3%N, 13%Z); (4%N, 10%Z); (5%N, (-20)%Z)])
    ∅ ∅ empty_entry 6 0 ∅.

Definition prune (c : list (cand Z Z)) (new_id : N) (x : Z) (stat : list bool) : Z * list bool :=
  select_pruned dist1 false false store 2 c new_id stat (mk_cand 0 0 (dist1 0 x)).

Definition stat0 : list bool := [true; true; false].
Definition stat1 : list bool := (prune [at_ 1 11; at_ 2 12] 3 13 stat0).2.
Definition stat2 : list bool := (prune [at_ 1 11; at_ 2 12] 4 10 stat1).2.

(** With the statistics the previous two reverse edges left behind, the node
    refuses the reverse edge from point 5 (at -20), although the reference
    diversification, which the code computes when it has no statistics, puts
    point 5 in the slot of point 1: point 1 was covered by point 4 in the previous
    round, but its bit was set again instead of being cleared. *)
Theorem stale_statistics_refuse_edge :
  (prune [at_ 1 11; at_ 2 12] 3 13 stat0).1 = (-1)%Z ∧
  (prune [at_ 1 11; at_ 2 12] 4 10 stat1).1 = 1%Z ∧
  (prune [at_ 1 11; at_ 4 10] 5 (-20) stat2).1 = (-1)%Z ∧
  (prune [at_ 1 11; at_ 4 10] 5 (-20) stat0).1 = 0%Z.
Proof. vm_compute. done. Qed.

(** ** The selection theorems on this node *)

Definition three : list (cand Z Z) := get_neighbors_data store [at_ 4 10; at_ 1 11; at_ 5 (-20)].

Lemma three_heap : is_heap ClosestCompare three.
Proof.
  intros i Hi _ x y Hx Hy.
  do 3 (destruct i as [|i]; [vm_compute in Hx; vm_compute in Hy; simplify_eq; vm_compute; try reflexivity; simpl in Hi; lia|]).
  simpl in Hi. lia.
Qed.

Lemma select_neighbors_is_diversification_witness :
  select_neighbors dist1 2 three = get_neighbors_data store [at_ 4 10; at_ 5 (-20)] ∧
  length (select_neighbors dist1 2 three) = 2.
Proof.
  split; [vm_compute; reflexivity|].
  destruct (select_neighbors_is_diversification dist1 2 three) as [_ H].
  - lia.
  - exact three_heap.
  - intros p [->|[->|[->|[]%elem_of_nil]%elem_of_cons]%elem_of_cons]%elem_of_cons; eexists; reflexivity.
  - destruct H as (taken & passed & rest & _ & _ & H & _); [simpl; lia|exact H].
Defined.

Lemma reverse_edge_keeps_diversification_witness :
  ∃ order (v : @prune_neighbor Z Z), order ≡ₚ prune_entries dist1 store false [at_ 1 11; at_ 4 10] (at_ 0 20) 5 ∧
    (prune [at_ 1 11; at_ 4 10] 5 (-20) stat0).1 =
      match pn_idx v with Some i => Z.of_nat i | None => (-1)%Z end.
Proof.
  destruct (reverse_edge_keeps_diversification dist1 false store 2 [at_ 1 11; at_ 4 10] 5 stat0 (at_ 0 20))
    as (order & v & Hp & _ & _ & Hr).
  - reflexivity.
  - lia.
  - right. reflexivity.
  - exists order, v. split; [exact Hp|exact Hr].
Defined.

Lemma pruned_slot_has_closer_witness :
  let queue := prune_queue dist1 store false [at_ 1 11; at_ 4 10] (at_ 0 20) 5 in
  let '(closest, st) :=
    prune_loop dist1 (S (length queue)) false (has_stat stat0) 2 0 queue
      (PruneState [] [] [] (set_stat stat0) false None) in
  victim_of 2 (pr_r st) (pr_discarded st) closest ≠ None → is_Some (pr_closer st).
Proof.
  apply (pruned_slot_has_closer dist1 store 2 [at_ 1 11; at_ 4 10] 5 stat0 (at_ 0 20)).
  - reflexivity.
  - lia.
  - intros x [->|[->|[]%elem_of_nil]%elem_of_cons]%elem_of_cons; discriminate.
Defined.
End Stale.
