(* ===== verification/GraphRows.v ===== *)
(** * Neighbour rows

    A uniform view of the neighbour records of [MemStore.v]: the row of a node at
    a layer is the list of its (id, layer index) pairs; the record holds it padded
    with invalid ids. What searching reads and what a reverse edge does, in terms of
    rows. *)
From Stdlib Require Import Permutation ZArith Lia.
From stdpp Require Import prelude gmap.
From S2P Require Import Prelude Dist PriorityQueue Graph GraphSearch GraphPoint MemStore GraphBuild GraphPrune.

Definition pad (w : nat) (v : list N) : list N := v ++ replicate (w - length v) INVALID_VECTOR_ID.

Lemma pad_length w v : length v ≤ w → length (pad w v) = w.
Proof. intros. unfold pad. rewrite length_app, length_replicate. lia. Qed.

Lemma valid_prefix_stop l : valid_prefix ((INVALID_VECTOR_ID, INVALID_VECTOR_ID) :: l) = [].
Proof. done. Qed.

(** The scan of a padded row sees the row. *)
Lemma valid_prefix_pad w (v : list (N * N)) curs :
  (∀ p, p ∈ v → is_valid p.1 = true) → length v ≤ w → length curs = w →
  take (length v) curs = snd <$> v →
  valid_prefix (take w (zip (pad w (fst <$> v)) curs)) = v.
Proof.
  revert w curs. induction v as [|[id cur] v IH]; intros w curs Hval Hle Hlen Hcurs; simpl in *.
  - unfold pad. simpl. destruct w as [|w]; [done|]. destruct curs as [|c curs]; [done|].
    rewrite Nat.sub_0_r. done.
  - destruct w as [|w]; [lia|]. destruct curs as [|c curs]; [done|]. simpl in *.
    injection Hcurs as -> Hcurs. unfold pad in *. simpl.
    pose proof (Hval (id, cur) ltac:(by left)) as Hv. simpl in Hv. rewrite Hv. f_equal. apply IH; [|lia|lia|done].
    intros p Hp. apply Hval. by right.
Qed.

(** Overwriting slot [i] of a row, or appending at its end. *)
Definition put {A : Type} (v : list A) (i : nat) (x : A) : list A := take i v ++ x :: drop (S i) v.

Section put.
Context {A : Type}.
Implicit Types v : list A.

Lemma put_length v i x : i ≤ length v → length (put v i x) = Nat.max (length v) (S i).
Proof. intros. unfold put. rewrite length_app. simpl. rewrite length_take, length_drop. lia. Qed.

Lemma elem_of_put v i x y : y ∈ put v i x → y = x ∨ y ∈ v.
Proof.
  unfold put. rewrite elem_of_app, elem_of_cons. intros [Hy|[->|Hy]]; [right|by left|right].
  - by eapply elem_of_take in Hy as (? & Hy & _); eapply list_elem_of_lookup_2.
  - apply list_elem_of_lookup in Hy as [j Hj]. rewrite lookup_drop in Hj. by eapply list_elem_of_lookup_2.
Qed.

Lemma put_lookup v i x j :
  i ≤ length v → put v i x !! j = if decide (j = i) then Some x else v !! j.
Proof.
  intros Hi. unfold put. case_decide as Hj; [subst j|].
  - rewrite lookup_app_r by (rewrite length_take; lia). rewrite length_take.
    by replace (i - i `min` length v) with 0 by lia.
  - destruct (decide (j < i)).
    + rewrite lookup_app_l by (rewrite length_take; lia). by rewrite lookup_take_lt.
    + rewrite lookup_app_r by (rewrite length_take; lia). rewrite length_take.
      replace (j - i `min` length v) with (S (j - S i)) by lia. simpl. rewrite lookup_drop.
      f_equal. lia.
Qed.

Lemma put_fmap {B : Type} (f : A → B) v i x : f <$> put v i x = put (f <$> v) i (f x).
Proof. unfold put. by rewrite fmap_app, fmap_cons, fmap_take, fmap_drop. Qed.

Lemma put_NoDup v i x : i ≤ length v → x ∉ v → NoDup v → NoDup (put v i x).
Proof.
  intros Hi Hx Hnd. apply NoDup_alt. intros j k y. rewrite !put_lookup by done.
  pose proof (proj1 (NoDup_alt v) Hnd) as Hn.
  do 2 case_decide; intros Hj Hk; simplify_eq; [done| | |by eapply Hn].
  - by apply list_elem_of_lookup_2 in Hk.
  - by apply list_elem_of_lookup_2 in Hj.
Qed.
End put.

(** Writing a record's cell below or at the end of the row is [put] on the row. *)
Lemma insert_pad w v i x :
  i ≤ length v → i < w → length v ≤ w → <[i:=x]> (pad w v) = pad w (put v i x).
Proof.
  intros Hi Hw Hv. apply list_eq. intros j. unfold pad at 2.
  destruct (decide (j < w)) as [Hj|Hj];
    [|rewrite !lookup_ge_None_2; [done|..];
      rewrite ?length_insert, ?pad_length, ?length_app, ?length_replicate, ?put_length by lia; lia].
  rewrite list_lookup_insert. rewrite pad_length by done. destruct (decide (i = j)) as [->|Hne].
  - rewrite decide_True by done.
    rewrite lookup_app_l by (rewrite put_length; lia). rewrite put_lookup by done. by rewrite decide_True.
  - rewrite decide_False by naive_solver. unfold pad.
    destruct (decide (j < length v)).
    + rewrite !lookup_app_l by (rewrite ?put_length; lia). rewrite put_lookup by done.
      by rewrite decide_False by done.
    + rewrite !lookup_app_r by (rewrite ?put_length; lia).
      rewrite !lookup_replicate_2; [done|..]; rewrite ?put_length by done; lia.
Qed.

Lemma take_insert_put {A : Type} (l v : list A) i x :
  take (length v) l = v → i ≤ length v → i < length l →
  take (length (put v i x)) (<[i:=x]> l) = put v i x.
Proof.
  intros Hl Hi Hw. apply list_eq. intros j. rewrite put_lookup by done.
  destruct (decide (j < length (put v i x))) as [Hj|Hj].
  - rewrite lookup_take_lt, list_lookup_insert by done.
    destruct (decide (j = i)) as [->|Hne]; [by rewrite decide_True|].
    rewrite decide_False by naive_solver. rewrite put_length in Hj by done.
    transitivity (take (length v) l !! j); [by rewrite lookup_take_lt by lia|by rewrite Hl].
  - rewrite lookup_take_ge by lia. rewrite put_length in Hj by done.
    rewrite decide_False by lia. rewrite lookup_ge_None_2; [done|lia].
Qed.

(** ** Rows of the store *)

Section Rows.
Context {D Vec : Type} `{DistOrd D} `{EqDecision Vec} (distance : Vec → Vec → D).
Implicit Types (s : mem_store D Vec) (v : list (N * N)) (nbr : cand D Vec).

Definition row_ids (base : bool) s (cur : N) : list N :=
  if base then bp_ids (get_base s cur) else up_ids (get_upper s cur).
Definition row_curs (base : bool) s (cur : N) : list N :=
  if base then bp_ids (get_base s cur) else up_cur (get_upper s cur).

(** The record of node [cur] holds the row [v], the distances [ds] in its used
    slots, and has the sizes of its layer. *)
Record row_is (base : bool) s (cur : N) v (ds : list D) : Prop := {
  row_w : length v ≤ get_nbr_num base (ms_m s);
  row_valid : ∀ p, p ∈ v → is_valid p.1 = true;
  row_idsE : row_ids base s cur = pad (get_nbr_num base (ms_m s)) (fst <$> v);
  row_cursL : length (row_curs base s cur) = get_nbr_num base (ms_m s);
  row_cursE : take (length v) (row_curs base s cur) = snd <$> v;
  row_distL : length (get_stats base s cur).1 = get_nbr_num base (ms_m s);
  row_distE : take (length v) (get_stats base s cur).1 = ds;
  row_statL : length (get_stats base s cur).2 = S (get_nbr_num base (ms_m s));
  row_base : base = true → ∀ p, p ∈ v → p.2 = p.1;
}.

Lemma row_ds_length base s cur v ds : row_is base s cur v ds → length ds = length v.
Proof.
  intros Hr. rewrite <-(row_distE _ _ _ _ _ Hr), length_take, (row_distL _ _ _ _ _ Hr).
  pose proof (row_w _ _ _ _ _ Hr). lia.
Qed.

#[local] Hint Extern 0 (SearchStore (mem_store D Vec) _ _) => exact (mem_search distance) : typeclass_instances.

Lemma row_edges base s cur v ds : row_is base s cur v ds → edges s base cur = v.
Proof.
  intros Hr. unfold edges, slots. pose proof (valid_prefix_pad (get_nbr_num base (ms_m s)) v
    (row_curs base s cur) (row_valid _ _ _ _ _ Hr) (row_w _ _ _ _ _ Hr) (row_cursL _ _ _ _ _ Hr)
    (row_cursE _ _ _ _ _ Hr)) as Hv.
  rewrite <-(row_idsE _ _ _ _ _ Hr) in Hv. by destruct base.
Qed.

Lemma read_neighbors_row w v curs (ds : list D) :
  (∀ p, p ∈ v → is_valid p.1 = true) → length v ≤ w → length curs = w →
  take (length v) curs = snd <$> v → take (length v) ds = ds → length ds = length v →
  ∀ ds', read_neighbors (V:=Vec) (zip (zip (take w (pad w (fst <$> v))) curs) (ds ++ ds')) =
    zip_with (λ p d, mk_cand p.1 p.2 d) v ds.
Proof.
  intros Hval Hle Hlen Hcurs _ Hds ds'. rewrite take_ge by (rewrite pad_length; rewrite ?length_fmap; lia).
  revert w curs ds Hval Hle Hlen Hcurs Hds.
  induction v as [|[id cur] v IH]; intros w curs ds Hval Hle Hlen Hcurs Hds; simpl in *.
  - destruct ds; [|done]. unfold pad. simpl. rewrite Nat.sub_0_r.
    destruct w as [|w]; [done|]. destruct curs as [|c curs]; [done|]. by destruct ds'.
  - destruct w as [|w]; [lia|]. destruct curs as [|c curs]; [done|]. destruct ds as [|d ds]; [done|].
    simpl in *. injection Hcurs as -> Hcurs. unfold pad in *. simpl.
    pose proof (Hval (id, cur) ltac:(by left)) as Hv. simpl in Hv. rewrite Hv. f_equal. apply IH; [|lia|lia|done|lia].
    intros p Hp. apply Hval. by right.
Qed.

Lemma row_get_neighbors base s nbr v ds :
  row_is base s (c_cur nbr) v ds → (base = true → c_id nbr = c_cur nbr) →
  get_neighbors base s nbr = zip_with (λ p d, mk_cand p.1 p.2 d) v ds.
Proof.
  intros Hr Hb. pose proof (row_ds_length _ _ _ _ _ Hr) as Hdl.
  pose proof (read_neighbors_row (get_nbr_num base (ms_m s)) v (row_curs base s (c_cur nbr)) ds
    (row_valid _ _ _ _ _ Hr) (row_w _ _ _ _ _ Hr) (row_cursL _ _ _ _ _ Hr)
    (row_cursE _ _ _ _ _ Hr) ltac:(apply take_ge; lia) Hdl
    (drop (length v) (get_stats base s (c_cur nbr)).1)) as Hrd.
  rewrite <-(row_idsE _ _ _ _ _ Hr) in Hrd.
  rewrite <-(row_distE _ _ _ _ _ Hr) in Hrd at 1. rewrite take_drop in Hrd.
  unfold get_neighbors, row_ids, row_curs, get_stats in *. destruct base; [rewrite Hb by done|]; exact Hrd.
Qed.

(** ** Edits of one record *)

Lemma get_base_set s cur b cur' :
  get_base (set_base s cur b) cur' = if decide (cur' = cur) then b else get_base s cur'.
Proof.
  unfold get_base, set_base. simpl. case_decide as Hc; [subst; by rewrite lookup_insert_eq|].
  by rewrite lookup_insert_ne.
Qed.

Lemma get_upper_set s cur u cur' :
  get_upper (set_upper s cur u) cur' = if decide (cur' = cur) then u else get_upper s cur'.
Proof.
  unfold get_upper, set_upper. simpl. case_decide as Hc; [subst; by rewrite lookup_insert_eq|].
  by rewrite lookup_insert_ne.
Qed.

Lemma set_base_set s cur b b' : set_base (set_base s cur b) cur b' = set_base s cur b'.
Proof. unfold set_base. simpl. by rewrite insert_insert_eq. Qed.

Lemma set_upper_set s cur u u' : set_upper (set_upper s cur u) cur u' = set_upper s cur u'.
Proof. unfold set_upper. simpl. by rewrite insert_insert_eq. Qed.

(** Only the neighbour slots, distances or bits of one record differ. *)
Definition edited (base : bool) s (cur : N) s' : Prop :=
  if base then ∃ b, s' = set_base s cur b
  else ∃ u, s' = set_upper s cur u ∧ up_lower u = up_lower (get_upper s cur) ∧
         up_id u = up_id (get_upper s cur).

Lemma edited_row_ne base s cur s' base' cur' v ds :
  edited base s cur s' → base' ≠ base ∨ cur' ≠ cur → row_is base' s cur' v ds → row_is base' s' cur' v ds.
Proof.
  intros He Hne [H1 H2 H3 H4 H5 H6 H7 H8 H9].
  unfold edited in He. destruct base; [destruct He as [b ->]|destruct He as (u & -> & _)];
    destruct base'; split; try done; unfold row_ids, row_curs, get_stats in *;
    rewrite ?get_base_set, ?get_upper_set; try rewrite decide_False by naive_solver; done.
Qed.

(** The record after the reverse edge: slot [i] overwritten and its distance
    stored, or only the bits changed. *)
Definition edit_row (base : bool) s (cur : N) (stat : list bool) (slot : option (nat * N * N * D)) :
    mem_store D Vec :=
  if base then
    let b := get_base s cur in
    set_base s cur (match slot with
      | Some (i, id, _, d) => BasePoint (<[i:=id]> (bp_ids b)) (<[i:=d]> (bp_dists b)) stat
      | None => BasePoint (bp_ids b) (bp_dists b) stat end)
  else
    let u := get_upper s cur in
    set_upper s cur (match slot with
      | Some (i, id, c, d) => UpperPoint (<[i:=id]> (up_ids u)) (<[i:=c]> (up_cur u)) (up_lower u)
                                (up_id u) (<[i:=d]> (up_dists u)) stat
      | None => UpperPoint (up_ids u) (up_cur u) (up_lower u) (up_id u) (up_dists u) stat end).

Lemma update_reverse_edge_eq base check s nbr new_id new_cur :
  let r := select_pruned distance false check s (get_nbr_num base (ms_m s)) (get_neighbors base s nbr)
             new_id (get_stats base s (c_cur nbr)).2 nbr in
  update_reverse_edge distance base check s nbr new_id new_cur =
  edit_row base s (c_cur nbr) r.2
    (if (0 <=? r.1)%Z then Some (Z.to_nat r.1, new_id, new_cur, c_dist nbr) else None).
Proof.
  intros r. unfold update_reverse_edge, edit_row. fold r.
  destruct (get_stats base s (c_cur nbr)) as [dists stat] eqn:Hs. simpl in r. fold r.
  destruct r as [pruned stat']. simpl. unfold get_stats in Hs.
  destruct base; injection Hs as <- <-; unfold set_stats, set_neighbor, get_stats;
    (destruct (0 <=? pruned)%Z; [|done]); simpl.
  - by rewrite !get_base_set, !decide_True, !set_base_set by done.
  - by rewrite !get_upper_set, !decide_True, !set_upper_set by done.
Qed.

Lemma edit_row_edited base s cur stat slot : edited base s cur (edit_row base s cur stat slot).
Proof.
  unfold edited, edit_row. destruct base; [by eexists|].
  destruct slot as [[[[i id] c] d]|]; by eexists.
Qed.

Lemma edit_row_is base s cur v ds stat :
  row_is base s cur v ds → length stat = S (get_nbr_num base (ms_m s)) →
  row_is base (edit_row base s cur stat None) cur v ds ∧
  ∀ i id c d, i ≤ length v → i < get_nbr_num base (ms_m s) → is_valid id = true →
    (base = true → c = id) →
    row_is base (edit_row base s cur stat (Some (i, id, c, d))) cur (put v i (id, c)) (put ds i d).
Proof.
  intros Hr Hst. pose proof (row_ds_length _ _ _ _ _ Hr) as Hdl.
  destruct Hr as [H1 H2 H3 H4 H5 H6 H7 H8 H9]. split.
  - unfold row_ids, row_curs, get_stats, edit_row in *.
    destruct base; split; try done; unfold row_ids, row_curs, get_stats;
      rewrite ?get_base_set, ?get_upper_set, decide_True by done; done.
  - intros i id c d Hi Hw Hv Hc.
    assert (Hfst : ∀ p, p ∈ put v i (id, c) → is_valid p.1 = true)
      by (intros p [->|Hp]%elem_of_put; [done|by apply H2]).
    assert (Hb : base = true → ∀ p, p ∈ put v i (id, c) → p.2 = p.1)
      by (intros Hb p [->|Hp]%elem_of_put; [by apply Hc|by apply H9]).
    assert (Hlp : length (put v i (id, c)) ≤ get_nbr_num base (ms_m s)) by (rewrite put_length; lia).
    assert (Hli : length (put v i (id, c)) = length (put (fst <$> v) i id))
      by (rewrite !put_length; rewrite ?length_fmap; lia).
    assert (Hls : length (put v i (id, c)) = length (put (snd <$> v) i c))
      by (rewrite !put_length; rewrite ?length_fmap; lia).
    assert (Hld : length (put v i (id, c)) = length (put ds i d)) by (rewrite !put_length; lia).
    unfold row_ids, row_curs, get_stats, edit_row in *.
    destruct base; split; try done; unfold row_ids, row_curs, get_stats;
      rewrite ?get_base_set, ?get_upper_set, decide_True by done; simpl; rewrite ?length_insert; try done.
    + rewrite H3, put_fmap. apply insert_pad; rewrite ?length_fmap; done.
    + specialize (Hc eq_refl) as ->. rewrite put_fmap. simpl. rewrite Hls.
      apply take_insert_put; rewrite ?length_fmap; [done|done|lia].
    + rewrite Hld. apply take_insert_put; [by rewrite Hdl|lia|simpl in *; lia].
    + rewrite H3, put_fmap. apply insert_pad; rewrite ?length_fmap; done.
    + rewrite put_fmap. simpl. rewrite Hls. apply take_insert_put; rewrite ?length_fmap; [done|done|simpl in *; lia].
    + rewrite Hld. apply take_insert_put; [by rewrite Hdl|lia|simpl in *; lia].
Qed.

(** What a reverse edge does to the row of its target. *)
Lemma update_reverse_edge_row base s nbr new_id new_cur v ds :
  row_is base s (c_cur nbr) v ds → (base = true → c_id nbr = c_cur nbr) →
  0 < get_nbr_num base (ms_m s) → is_valid new_id = true → (base = true → new_cur = new_id) →
  let s' := update_reverse_edge distance base false s nbr new_id new_cur in
  edited base s (c_cur nbr) s' ∧
  ∃ v' ds', row_is base s' (c_cur nbr) v' ds' ∧
    ((v' = v ∧ ds' = ds) ∨
     ∃ i, i ≤ length v ∧ v' = put v i (new_id, new_cur) ∧ ds' = put ds i (c_dist nbr)).
Proof.
  intros Hr Hb Hw Hv Hc s'. unfold s'. rewrite update_reverse_edge_eq.
  split; [apply edit_row_edited|]. rewrite (row_get_neighbors base s nbr v ds Hr Hb).
  set (c := zip_with _ v ds). pose proof (row_ds_length _ _ _ _ _ Hr) as Hdl.
  assert (Hlen : length c = length v) by (unfold c; rewrite length_zip_with; lia).
  destruct (select_pruned_slot distance false false s (get_nbr_num base (ms_m s)) c new_id
    (get_stats base s (c_cur nbr)).2 nbr) as [Hl Hslot]; [rewrite Hlen; apply Hr|done|].
  rewrite (row_statL _ _ _ _ _ Hr) in Hl.
  destruct (edit_row_is base s (c_cur nbr) v ds _ Hr Hl) as [Hnone Hsome].
  destruct Hslot as [->|(i & -> & Hi & Hiv)]; simpl.
  - exists v, ds. split; [done|by left].
  - destruct (Z.leb_spec 0 (Z.of_nat i)); [|lia]. rewrite Nat2Z.id. rewrite Hlen in Hiv.
    exists (put v i (new_id, new_cur)), (put ds i (c_dist nbr)).
    split; [by apply Hsome|]. right. by exists i.
Qed.
End Rows.
