(* ===== verification/GraphInv.v ===== *)
(** * The graph invariant of a build

    What holds of the in-memory store between two insertions: ids and layer
    indices in range, rows padded and duplicate free, neighbours on the same layer,
    links to the layer below, cached distances equal to the distances they stand
    for, an entry point on the top layer. [lev] is the layer of each upper record,
    which the code never stores. *)
From Stdlib Require Import Permutation ZArith Lia.
From stdpp Require Import prelude gmap.
From S2P Require Import Prelude Dist PriorityQueue Graph GraphSearch GraphPoint MemStore GraphBuild GraphPrune GraphRows.

Definition is_base (l : nat) : bool := match l with O => true | S _ => false end.

Section Inv.
Context {D Vec : Type} `{DistOrd D} `{EqDecision Vec} (distance : Vec → Vec → D).
Implicit Types (s : mem_store D Vec) (lev : N → nat).

(** Node [id] has layer index [cur] in layer [l]. *)
Definition node_at lev s (l : nat) (id cur : N) : Prop :=
  match l with
  | O => (id < num_vectors s)%N ∧ cur = id
  | S _ => (cur < num_uppers s)%N ∧ lev cur = l ∧ up_id (get_upper s cur) = id
  end.

Definition link_dist s (a b : N) (d : D) : Prop :=
  ∃ x y, get_data s a = Some x ∧ get_data s b = Some y ∧ d = distance x y.

Definition node_row lev s (l : nat) (id cur : N) : Prop :=
  ∃ v ds, row_is (is_base l) s cur v ds ∧ NoDup (fst <$> v) ∧
    (∀ p, p ∈ v → p.1 ≠ id ∧ node_at lev s l p.1 p.2) ∧
    Forall2 (λ p d, link_dist s id p.1 d) v ds.

Record upper_ok lev s (cur : N) : Prop := {
  uo_id : (up_id (get_upper s cur) < num_vectors s)%N;
  uo_lev : 0 < lev cur;
  uo_row : node_row lev s (lev cur) (up_id (get_upper s cur)) cur;
  uo_lower : node_at lev s (pred (lev cur)) (up_id (get_upper s cur)) (up_lower (get_upper s cur));
}.

Definition entry_inv lev s : Prop :=
  (num_vectors s = 0%N ∧ ms_entry s = empty_entry) ∨
  (0 <= e_level (ms_entry s))%Z ∧ (e_id (ms_entry s) < num_vectors s)%N ∧
  node_at lev s (Z.to_nat (e_level (ms_entry s))) (e_id (ms_entry s)) (e_cur (ms_entry s)).

(** No record lies above the level of the entry point. *)
Definition entry_top lev s : Prop :=
  ∀ cur, (cur < num_uppers s)%N → (Z.of_nat (lev cur) <= e_level (ms_entry s))%Z.

Record graph_ok lev s : Prop := {
  g_m : 0 < ms_m s;
  g_n : (num_vectors s <= INVALID_VECTOR_ID)%N;
  g_u : (num_uppers s <= INVALID_VECTOR_ID)%N;
  g_vec : ∀ id, is_Some (get_data s id) ↔ (id < num_vectors s)%N;
  g_elem : ∀ id, is_Some (ms_elems s !! id) ↔ (id < num_vectors s)%N;
  g_base : ∀ id, (id < num_vectors s)%N → node_row lev s 0 id id;
  g_base_none : ∀ id, (num_vectors s <= id)%N → basepoint_pool s !! id = None;
  g_upper : ∀ cur, (cur < num_uppers s)%N → upper_ok lev s cur;
  g_upper_none : ∀ cur, (num_uppers s <= cur)%N → upperpoint_pool s !! cur = None;
  g_entry : entry_inv lev s;
}.

Lemma node_at_id lev s l id cur : graph_ok lev s → node_at lev s l id cur → (id < num_vectors s)%N.
Proof. intros Hg. destruct l; simpl; [by intros []|]. intros (Hc & _ & <-). exact (uo_id _ _ _ (g_upper _ _ Hg cur Hc)). Qed.

Lemma node_at_row lev s l id cur : graph_ok lev s → node_at lev s l id cur → node_row lev s l id cur.
Proof.
  intros Hg. destruct l; simpl; [intros [? ->]; by apply Hg|].
  intros (Hc & Hl & Hid). pose proof (uo_row _ _ _ (g_upper _ _ Hg cur Hc)) as Hr. by rewrite Hl, Hid in Hr.
Qed.

Lemma is_valid_below (id n : N) : (n <= INVALID_VECTOR_ID)%N → (id < n)%N → is_valid id = true.
Proof. intros Hn Hid. unfold is_valid. apply negb_true_iff, N.eqb_neq. lia. Qed.

(** ** Growing stores

    [s'] keeps the vectors, layers and owners of [s]. *)
Record grows lev s lev' s' : Prop := {
  gr_m : ms_m s' = ms_m s;
  gr_n : (num_vectors s <= num_vectors s')%N;
  gr_u : (num_uppers s <= num_uppers s')%N;
  gr_data : ∀ id, (id < num_vectors s)%N → get_data s' id = get_data s id;
  gr_lev : ∀ cur, (cur < num_uppers s)%N → lev' cur = lev cur;
  gr_id : ∀ cur, (cur < num_uppers s)%N → up_id (get_upper s' cur) = up_id (get_upper s cur);
}.

Lemma grows_refl lev s : grows lev s lev s.
Proof. split; done || lia. Qed.

Lemma grows_trans lev s lev1 s1 lev2 s2 :
  grows lev s lev1 s1 → grows lev1 s1 lev2 s2 → grows lev s lev2 s2.
Proof.
  intros [A1 A2 A3 A4 A5 A6] [B1 B2 B3 B4 B5 B6]. split; [congruence|lia|lia|..]; intros.
  - rewrite B4, A4; [done|done|lia].
  - rewrite B5, A5; [done|done|lia].
  - rewrite B6, A6; [done|done|lia].
Qed.

Lemma node_at_grows lev s lev' s' l id cur :
  grows lev s lev' s' → node_at lev s l id cur → node_at lev' s' l id cur.
Proof.
  intros [_ Hn Hu _ Hl Hi]. destruct l; simpl; [intros [? ->]; split; [lia|done]|].
  intros (Hc & Hlev & Hid). rewrite Hl, Hi by done. split_and!; [lia|done|done].
Qed.

Lemma link_dist_grows lev s lev' s' a b d :
  graph_ok lev s → grows lev s lev' s' → link_dist s a b d → link_dist s' a b d.
Proof.
  intros Hg Hgr (x & y & Ha & Hb & Hd). exists x, y.
  rewrite !(gr_data _ _ _ _ Hgr) by (apply (g_vec _ _ Hg); eauto). done.
Qed.

(** A row whose record is untouched stays good. *)
Lemma node_row_grows lev s lev' s' l id cur :
  graph_ok lev s → grows lev s lev' s' →
  (∀ v ds, row_is (is_base l) s cur v ds → row_is (is_base l) s' cur v ds) →
  node_row lev s l id cur → node_row lev' s' l id cur.
Proof.
  intros Hg Hgr Hrow (v & ds & Hr & Hnd & Hp & Hd). exists v, ds. split_and!; [by apply Hrow|done| |].
  - intros p Hpin. destruct (Hp p Hpin). split; [done|]. by eapply node_at_grows.
  - eapply Forall2_impl; [exact Hd|]. intros p d. by apply (link_dist_grows lev s lev').
Qed.

Lemma entry_inv_grows lev s lev' s' :
  grows lev s lev' s' → ms_entry s' = ms_entry s → num_vectors s ≠ 0%N →
  entry_inv lev s → entry_inv lev' s'.
Proof.
  intros Hgr He Hn [[? _]|(Hl & Hi & Ha)]; [done|]. right. rewrite He.
  split_and!; [done|pose proof (gr_n _ _ _ _ Hgr); lia|]. by eapply node_at_grows.
Qed.

(** The records that [s'] has beyond those of [s] lie at most on layer [top]. *)
Definition new_below s lev' s' (top : nat) : Prop :=
  ∀ cur, (num_uppers s <= cur)%N → (cur < num_uppers s')%N → lev' cur ≤ top.

Lemma new_below_trans s lev1 s1 lev2 s2 top1 top2 :
  grows lev1 s1 lev2 s2 → new_below s lev1 s1 top1 → new_below s1 lev2 s2 top2 → top1 ≤ top2 →
  new_below s lev2 s2 top2.
Proof.
  intros Hgr H1 H2 Ht cur Hc Hc2. destruct (decide (cur < num_uppers s1)%N) as [Hlt|Hge]; [|apply H2; lia].
  rewrite (gr_lev _ _ _ _ Hgr) by done. specialize (H1 cur Hc Hlt). lia.
Qed.

Lemma entry_top_grows lev s lev' s' top :
  grows lev s lev' s' → entry_top lev s → new_below s lev' s' top →
  (e_level (ms_entry s) <= e_level (ms_entry s'))%Z → (Z.of_nat top <= e_level (ms_entry s'))%Z →
  entry_top lev' s'.
Proof.
  intros Hgr Ht Hnew He Htop cur Hc. destruct (decide (cur < num_uppers s)%N) as [Hlt|Hge].
  - rewrite (gr_lev _ _ _ _ Hgr) by done. specialize (Ht cur Hlt). lia.
  - specialize (Hnew cur ltac:(lia) Hc). lia.
Qed.

(** ** Reverse edges keep the invariant *)

(** Everything but the neighbour records is the same. *)
Record same_core s s' : Prop := {
  sc_m : ms_m s' = ms_m s;
  sc_vec : vector_pool s' = vector_pool s;
  sc_entry : ms_entry s' = ms_entry s;
  sc_n : num_vectors s' = num_vectors s;
  sc_u : num_uppers s' = num_uppers s;
  sc_elems : ms_elems s' = ms_elems s;
}.

Lemma same_core_trans s s1 s2 : same_core s s1 → same_core s1 s2 → same_core s s2.
Proof. intros [] []. split; congruence. Qed.

Lemma edited_core base s cur s' : edited base s cur s' → same_core s s'.
Proof. unfold edited. destruct base; [intros [b ->]|intros (u & -> & _)]; done. Qed.

Lemma edited_upper base s cur s' c :
  edited base s cur s' →
  up_id (get_upper s' c) = up_id (get_upper s c) ∧ up_lower (get_upper s' c) = up_lower (get_upper s c).
Proof.
  unfold edited. destruct base; [by intros [b ->]|]. intros (u & -> & Hl & Hi).
  rewrite get_upper_set. case_decide; [by subst|done].
Qed.

Lemma edited_grows base lev s cur s' : edited base s cur s' → grows lev s lev s'.
Proof.
  intros He. pose proof (edited_core _ _ _ _ He) as [Hm Hv Hen Hn Hu Hel].
  split; [done|lia|lia| |done|].
  - intros id _. unfold get_data. by rewrite Hv.
  - intros c _. by apply (edited_upper _ _ _ _ c He).
Qed.

(** The row after the edit, as a row of the node. *)
Lemma put_row_ok lev s s' l id cur v ds i new_id new_cur d :
  graph_ok lev s → grows lev s lev s' →
  row_is (is_base l) s' cur (put v i (new_id, new_cur)) (put ds i d) → i ≤ length v →
  length ds = length v → NoDup (fst <$> v) → (∀ p, p ∈ v → p.1 ≠ id ∧ node_at lev s l p.1 p.2) →
  Forall2 (λ p d, link_dist s id p.1 d) v ds →
  node_at lev s l new_id new_cur → new_id ≠ id → (∀ p, p ∈ v → p.1 ≠ new_id) →
  link_dist s id new_id d → node_row lev s' l id cur.
Proof.
  intros Hg Hgr Hr Hi Hdl Hnd Hp Hd Hat Hne Hfresh Hlink.
  exists (put v i (new_id, new_cur)), (put ds i d). split_and!; [done| | |].
  - rewrite put_fmap. apply put_NoDup; [by rewrite length_fmap| |done].
    intros ([x y] & Hx & Hin)%list_elem_of_fmap. simpl in Hx. subst x. by apply (Hfresh _ Hin).
  - intros p [->|Hpin]%elem_of_put; [split; [done|by eapply node_at_grows]|].
    destruct (Hp p Hpin). split; [done|]. by eapply node_at_grows.
  - assert (Hlink' : ∀ a b x, link_dist s a b x → link_dist s' a b x)
      by (intros a b x; by apply (link_dist_grows lev s lev)).
    apply Forall2_same_length_lookup. split; [rewrite !put_length; lia|].
    intros j p x. rewrite !put_lookup by lia. case_decide; intros Hj Hx; simplify_eq; [by apply Hlink'|].
    apply Hlink'. by apply (Forall2_lookup_lr _ _ _ _ _ _ Hd Hj Hx).
Qed.

(** A node's edges, as the search reads them. *)
#[local] Hint Extern 0 (SearchStore (mem_store D Vec) _ _) => exact (mem_search distance) : typeclass_instances.

Lemma node_edges lev s l id cur p :
  graph_ok lev s → node_at lev s l id cur → p ∈ edges s (is_base l) cur →
  p.1 ≠ id ∧ node_at lev s l p.1 p.2.
Proof.
  intros Hg Hat Hp. destruct (node_at_row _ _ _ _ _ Hg Hat) as (v & ds & Hr & _ & Hv & _).
  rewrite (row_edges distance _ _ _ _ _ Hr) in Hp. by apply Hv.
Qed.

Lemma node_at_same_cur lev s l id id' cur :
  node_at lev s l id cur → node_at lev s l id' cur → id = id'.
Proof. destruct l; simpl; [intros [_ ->] [_ ->]|intros (_ & _ & <-) (_ & _ & <-)]; done. Qed.

Lemma update_reverse_edge_ok lev s l (nbr : cand D Vec) new_id new_cur :
  graph_ok lev s → node_at lev s l (c_id nbr) (c_cur nbr) → node_at lev s l new_id new_cur →
  new_id ≠ c_id nbr → (∀ p, p ∈ edges s (is_base l) (c_cur nbr) → p.1 ≠ new_id) →
  link_dist s (c_id nbr) new_id (c_dist nbr) →
  let s' := update_reverse_edge distance (is_base l) false s nbr new_id new_cur in
  graph_ok lev s' ∧ edited (is_base l) s (c_cur nbr) s'.
Proof.
  intros Hg Hat Hnew Hne Hfresh Hlink s'.
  destruct (node_at_row _ _ _ _ _ Hg Hat) as (v & ds & Hr & Hnd & Hv & Hds).
  rewrite (row_edges distance _ _ _ _ _ Hr) in Hfresh.
  destruct (update_reverse_edge_row distance (is_base l) s nbr new_id new_cur v ds Hr) as (He & v' & ds' & Hr' & Hcase).
  { destruct l; [|done]. simpl in Hat. by destruct Hat. }
  { pose proof (g_m _ _ Hg). unfold get_nbr_num. destruct (is_base l); lia. }
  { eapply is_valid_below; [apply Hg|]. by eapply node_at_id. }
  { destruct l; [|done]. simpl in Hnew. by destruct Hnew. }
  fold s' in He, Hr'. split; [|done].
  pose proof (edited_core _ _ _ _ He) as [Hm Hvec Hen Hn Hu Hel].
  pose proof (edited_grows _ lev _ _ _ He) as Hgr.
  assert (Hrow : node_row lev s' l (c_id nbr) (c_cur nbr)).
  { destruct Hcase as [[-> ->]|(i & Hi & -> & ->)].
    - exists v, ds. split_and!; [done|done| |].
      + intros p Hp. destruct (Hv p Hp). split; [done|]. by eapply node_at_grows.
      + eapply Forall2_impl; [exact Hds|]. intros p d. by apply (link_dist_grows lev s lev).
    - apply (put_row_ok lev s s' l (c_id nbr) (c_cur nbr) v ds i new_id new_cur (c_dist nbr)); try done.
      by eapply row_ds_length. }
  split; [by rewrite Hm; apply Hg|by rewrite Hn; apply Hg|by rewrite Hu; apply Hg| | | | | | |].
  - intros id. rewrite Hn. unfold get_data. rewrite Hvec. apply Hg.
  - intros id. rewrite Hn, Hel. apply Hg.
  - intros id Hid. rewrite Hn in Hid.
    destruct (decide (is_base l = true ∧ id = c_cur nbr)) as [[Hl ->]|Hno].
    + destruct l; [|done]. simpl in Hat. destruct Hat as [_ Hc]. by rewrite Hc in Hrow |- *.
    + apply (node_row_grows lev s lev s' 0 id id Hg Hgr); [|by apply Hg].
      intros v0 ds0. apply (edited_row_ne _ _ _ _ true id v0 ds0 He).
      destruct (is_base l); [right; naive_solver|by left].
  - intros id Hid. rewrite Hn in Hid. unfold edited in He.
    destruct l; simpl in *; [|destruct He as (u & -> & _); by apply Hg].
    destruct He as [b ->]. simpl. rewrite lookup_insert_ne; [by apply Hg|lia].
  - intros cur Hc. rewrite Hu in Hc. destruct (g_upper _ _ Hg cur Hc) as [U1 U2 U3 U4].
    destruct (edited_upper _ _ _ _ cur He) as [Hi Hlow]. split; rewrite ?Hi, ?Hlow, ?Hn; [done|done| |].
    + destruct (decide (is_base l = false ∧ cur = c_cur nbr)) as [[Hl ->]|Hno].
      * destruct l; [done|]. simpl in Hat. destruct Hat as (_ & Hlev & Hid). by rewrite Hlev, Hid.
      * apply (node_row_grows lev s lev s' _ _ _ Hg Hgr); [|done]. intros v0 ds0.
        destruct (lev cur) as [|k] eqn:Hk; [lia|]. apply (edited_row_ne _ _ _ _ false cur v0 ds0 He).
        destruct (is_base l); [by left|right; naive_solver].
    + by eapply node_at_grows.
  - intros cur Hc. rewrite Hu in Hc. unfold edited in He.
    destruct l; simpl in *; [destruct He as [b ->]; by apply Hg|].
    destruct He as (u & -> & _). simpl. rewrite lookup_insert_ne; [by apply Hg|].
    destruct Hat as (? & _). lia.
  - destruct (decide (num_vectors s = 0%N)) as [Hz|Hnz]; [|by apply (entry_inv_grows lev s); [..|apply Hg]].
    pose proof (node_at_id _ _ _ _ _ Hg Hat). lia.
Qed.
End Inv.
