(* ===== verification/GraphGrow.v ===== *)
(** * Adding points keeps the graph invariant

    The three ways [insert] grows the store: a new base point with its vector and
    element, a new upper point, and the reverse edges to either; and the first
    point of an empty graph. *)
From Stdlib Require Import Permutation ZArith Lia.
From stdpp Require Import prelude gmap.
From S2P Require Import Prelude Dist PriorityQueue Graph GraphSearch GraphPoint MemStore GraphBuild GraphPrune GraphRows GraphInv.

Section Grow.
Context {D Vec : Type} `{DistOrd D} `{EqDecision Vec} (distance : Vec → Vec → D).
Implicit Types (s : mem_store D Vec) (lev : N → nat) (k : list (cand D Vec)).
#[local] Hint Extern 0 (SearchStore (mem_store D Vec) _ _) => exact (mem_search distance) : typeclass_instances.

Lemma edited_edges_ne base s cur s' cur' :
  edited base s cur s' → cur' ≠ cur → edges s' base cur' = edges s base cur'.
Proof.
  intros He Hne. pose proof (edited_core _ _ _ _ He) as [Hm _ _ _ _ _]. unfold edges, slots. simpl.
  unfold edited in He. destruct base; [destruct He as [b ->]|destruct He as (u & -> & _)]; simpl;
    rewrite ?get_base_set, ?get_upper_set; by rewrite decide_False.
Qed.

(** What the targets of the reverse edges must satisfy. *)
Definition target_ok lev s (l : nat) (new_id : N) (c : cand D Vec) : Prop :=
  node_at lev s l (c_id c) (c_cur c) ∧ c_id c ≠ new_id ∧
  link_dist distance s (c_id c) new_id (c_dist c) ∧
  ∀ p, p ∈ edges s (is_base l) (c_cur c) → p.1 ≠ new_id.

Lemma update_reverse_edges_ok lev s l k n new_id new_cur :
  graph_ok distance lev s → (∀ c, c ∈ k → target_ok lev s l new_id c) → NoDup (c_id <$> k) →
  node_at lev s l new_id new_cur →
  let s' := update_reverse_edges distance (is_base l) false s (k ++ replicate n default_cand) new_id new_cur in
  graph_ok distance lev s' ∧ same_core s s' ∧ grows lev s lev s'.
Proof.
  revert s. induction k as [|c k IH]; intros s Hg Hk Hnd Hnew; simpl.
  { split_and!; [|destruct n; simpl; split; done|destruct n; apply grows_refl]. by destruct n. }
  destruct (Hk c) as (Hat & Hne & Hlink & Hfresh); [by left|].
  assert (Hval : is_valid (c_id c) = true).
  { eapply is_valid_below; [apply Hg|]. by eapply (node_at_id distance). }
  rewrite Hval.
  destruct (update_reverse_edge_ok distance lev s l c new_id new_cur Hg Hat Hnew) as [Hg' He]; [done..|].
  set (s1 := update_reverse_edge distance (is_base l) false s c new_id new_cur) in *.
  pose proof (edited_grows _ lev _ _ _ He) as Hgr. pose proof (edited_core _ _ _ _ He) as Hsc.
  rewrite fmap_cons in Hnd. apply NoDup_cons in Hnd as [Hnin Hnd].
  destruct (IH s1 Hg') as (Hg2 & Hsc2 & Hgr2); [|done|by eapply node_at_grows|].
  - intros c' Hc'. destruct (Hk c') as (Hat' & Hne' & Hlink' & Hfresh'); [by right|].
    split_and!; [by eapply node_at_grows|done|by apply (link_dist_grows distance lev s lev)|].
    rewrite (edited_edges_ne _ _ _ _ _ He); [done|]. intros Heq. rewrite Heq in Hat'.
    apply Hnin. rewrite (node_at_same_cur _ _ _ _ _ _ Hat Hat'). by apply list_elem_of_fmap_2.
  - split_and!; [done|by eapply same_core_trans|by eapply grows_trans].
Qed.

(** ** A new base point *)

Definition new_base s (p : point) (query : Vec) (neighbors : list (cand D Vec)) : mem_store D Vec :=
  let '(s, id) := assign_vector_id true s in
  add_vector (add_base (set_elem s id p) id neighbors) id query.

(** Candidates that can become the row of a new point of layer [l]. *)
Record row_source lev s (l : nat) (query : Vec) k : Prop := {
  rs_at : ∀ c, c ∈ k → node_at lev s l (c_id c) (c_cur c);
  rs_nodup : NoDup (c_id <$> k);
  rs_dist : ∀ c, c ∈ k → ∃ y, get_data s (c_id c) = Some y ∧ c_dist c = distance query y;
}.

Lemma take_pad_ids w k :
  length k ≤ w →
  take w (c_id <$> (k ++ replicate (w - length k) default_cand)) = pad w (c_id <$> k) ∧
  take w (c_cur <$> (k ++ replicate (w - length k) default_cand)) = pad w (c_cur <$> k) ∧
  take w (c_dist <$> (k ++ replicate (w - length k) (default_cand (V:=Vec)))) =
    (c_dist <$> k) ++ replicate (w - length k) FLT_MAX.
Proof.
  intros Hw. rewrite !fmap_app, !fmap_replicate. unfold pad. rewrite !length_fmap.
  rewrite !take_ge by (rewrite length_app, length_fmap, length_replicate; lia). done.
Qed.

Lemma fresh_base_row s id k :
  length k ≤ 2 * ms_m s → basepoint_pool s !! id = None →
  (∀ c, c ∈ k → is_valid (c_id c) = true) → (∀ c, c ∈ k → c_cur c = c_id c) →
  row_is true (add_base s id (k ++ replicate (2 * ms_m s - length k) default_cand)) id
    ((λ c, (c_id c, c_cur c)) <$> k) (c_dist <$> k).
Proof.
  intros Hlen Hnone Hval Hcur. destruct (take_pad_ids (2 * ms_m s) k Hlen) as (Hids & _ & Hds).
  unfold add_base. set (s1 := MemStore.add_basepoint _ _ _).
  assert (Hs1 : s1 = MemStore.add_basepoint s id (pad (2 * ms_m s) (c_id <$> k)))
    by (unfold s1; by rewrite Hids). clearbody s1. subst s1.
  unfold MemStore.add_basepoint.
  unfold set_stats, get_stats. rewrite set_base_set, get_base_set, decide_True by done. simpl.
  simpl in Hds. rewrite Hds.
  split; unfold row_ids, row_curs, get_stats; rewrite ?get_base_set, ?decide_True by done; simpl;
    rewrite ?length_fmap; try done.
  - intros p (c & -> & Hc)%list_elem_of_fmap. by apply Hval.
  - f_equal. by rewrite <-list_fmap_compose.
  - apply pad_length. by rewrite length_fmap.
  - unfold pad. rewrite take_app_le by (rewrite length_fmap; lia). rewrite take_ge by (rewrite length_fmap; lia).
    rewrite <-list_fmap_compose. apply list_fmap_ext. intros i c Hc. simpl. symmetry. apply Hcur.
    by eapply list_elem_of_lookup_2.
  - rewrite length_app, length_fmap, length_replicate. simpl in Hlen. lia.
  - rewrite take_app_le by (rewrite length_fmap; lia). by rewrite take_ge by (rewrite length_fmap; lia).
  - rewrite length_insert. unfold get_base. rewrite Hnone. simpl. rewrite length_replicate. lia.
  - intros _ p (c & -> & Hc)%list_elem_of_fmap. by apply Hcur.
Qed.

Lemma add_base_eq s id nb : ∃ b, add_base s id nb = set_base s id b.
Proof. unfold add_base, MemStore.add_basepoint, set_stats. rewrite set_base_set. by eexists. Qed.

Lemma add_upper_eq s cur lower id nb :
  ∃ u, add_upper s cur lower id nb = set_upper s cur u ∧ up_lower u = lower ∧ up_id u = id.
Proof.
  unfold add_upper, MemStore.add_upperpoint, set_stats. rewrite set_upper_set.
  eexists. split; [done|]. by rewrite get_upper_set, decide_True.
Qed.

Lemma row_is_ext (base : bool) s s' cur v ds :
  ms_m s' = ms_m s →
  (if base then get_base s' cur = get_base s cur else get_upper s' cur = get_upper s cur) →
  row_is base s cur v ds → row_is base s' cur v ds.
Proof.
  intros Hm He [H1 H2 H3 H4 H5 H6 H7 H8 H9]. unfold row_ids, row_curs, get_stats in *.
  destruct base; split; unfold row_ids, row_curs, get_stats; rewrite ?Hm, ?He; done.
Qed.

Lemma succ_mod_u32 (n : N) : (n < INVALID_VECTOR_ID)%N → ((n + 1) `mod` 2 ^ 32 = n + 1)%N.
Proof. intros Hn. apply N.mod_small. unfold INVALID_VECTOR_ID in Hn. lia. Qed.

(** What a new base point leaves as it was. *)
Lemma new_base_frame s p query nb :
  (num_vectors s < INVALID_VECTOR_ID)%N →
  let id := num_vectors s in
  let s1 := new_base s p query nb in
  ms_m s1 = ms_m s ∧ num_vectors s1 = (id + 1)%N ∧ num_uppers s1 = num_uppers s ∧
  ms_entry s1 = ms_entry s ∧ ms_elems s1 = <[id:=p]> (ms_elems s) ∧
  vector_pool s1 = <[id:=query]> (vector_pool s) ∧ upperpoint_pool s1 = upperpoint_pool s ∧
  (∀ id', id' ≠ id → basepoint_pool s1 !! id' = basepoint_pool s !! id').
Proof.
  intros Hn id s1. subst id s1. unfold new_base. simpl assign_vector_id. cbv iota beta zeta.
  destruct (add_base_eq (set_elem (assign_vector_id true s).1 (num_vectors s) p) (num_vectors s) nb) as [b Hb].
  simpl in Hb. rewrite Hb. simpl. rewrite succ_mod_u32 by done.
  split_and!; try done. intros id' Hne. by rewrite lookup_insert_ne.
Qed.

(** ** Changing only the entry point and the elements *)

Record same_graph s s' : Prop := {
  sg_m : ms_m s' = ms_m s;
  sg_vec : vector_pool s' = vector_pool s;
  sg_base : basepoint_pool s' = basepoint_pool s;
  sg_upper : upperpoint_pool s' = upperpoint_pool s;
  sg_n : num_vectors s' = num_vectors s;
  sg_u : num_uppers s' = num_uppers s;
}.

Lemma same_graph_grows lev s s' : same_graph s s' → grows lev s lev s'.
Proof.
  intros [Hm Hv Hb Hup Hn Hu]. split; [done|lia|lia| |done|].
  - intros id _. unfold get_data. by rewrite Hv.
  - intros cur _. unfold get_upper. by rewrite Hup, Hm.
Qed.

(** The store after a new base point, whatever its entry point becomes. *)
Lemma new_base_core lev s p query k s1 :
  graph_ok distance lev s → (num_vectors s < INVALID_VECTOR_ID)%N →
  row_source lev s 0 query k → length k ≤ 2 * ms_m s →
  let s0 := new_base s p query (k ++ replicate (2 * ms_m s - length k) default_cand) in
  same_graph s0 s1 → ms_elems s1 = ms_elems s0 →
  grows lev s lev s1 ∧ (entry_inv lev s1 → graph_ok distance lev s1).
Proof.
  intros Hg Hn Hk Hlen s0 Hsg Hel. set (id := num_vectors s).
  destruct (new_base_frame s p query (k ++ replicate (2 * ms_m s - length k) default_cand) Hn)
    as (Fm & Fn & Fu & _ & Fel & Fv & Fup & Fb). fold s0 id in Fm, Fn, Fu, Fel, Fv, Fup, Fb.
  assert (Hrow0 : row_is true s0 id ((λ c, (c_id c, c_cur c)) <$> k) (c_dist <$> k)).
  { assert (Hrow := fresh_base_row (set_elem (assign_vector_id true s).1 id p) id k). simpl in Hrow.
    apply (row_is_ext true (add_base (set_elem (assign_vector_id true s).1 id p) id
      (k ++ replicate (2 * ms_m s - length k) default_cand))); [by rewrite Fm|done|].
    apply Hrow; [done|apply Hg; done| |].
    - intros c Hc. eapply is_valid_below; [apply Hg|].
      eapply (node_at_id distance); [done|]. by apply (rs_at _ _ _ _ _ Hk).
    - intros c Hc. by apply (rs_at _ _ _ _ _ Hk). }
  clearbody s0. destruct Hsg as [Sm Sv Sb Sup Sn Su].
  assert (Hrow : row_is true s1 id ((λ c, (c_id c, c_cur c)) <$> k) (c_dist <$> k)).
  { apply (row_is_ext true s0); [done| |done]. unfold get_base. by rewrite Sb, Sm. }
  rewrite <-Sm in Fm. rewrite <-Sn in Fn. rewrite <-Su in Fu. rewrite <-Hel in Fel. rewrite <-Sv in Fv.
  rewrite <-Sup in Fup. rewrite <-Sb in Fb. clear Hrow0 Sm Sv Sb Sup Sn Su Hel s0.
  assert (Hgu : ∀ cur, get_upper s1 cur = get_upper s cur)
    by (intros cur; unfold get_upper; by rewrite Fup, Fm).
  assert (Hgb : ∀ id', id' ≠ id → get_base s1 id' = get_base s id')
    by (intros id' Hne; unfold get_base; by rewrite Fb, Fm).
  assert (Hdata : ∀ id', id' ≠ id → get_data s1 id' = get_data s id')
    by (intros id' Hne; unfold get_data; by rewrite Fv, lookup_insert_ne).
  assert (Hgr : grows lev s lev s1).
  { split; [done|rewrite Fn; lia|rewrite Fu; lia| |done|].
    - intros id' Hid. apply Hdata. unfold id. lia.
    - intros cur _. by rewrite Hgu. }
  split; [done|]. intros Hen. split.
  - rewrite Fm. apply Hg.
  - rewrite Fn. unfold id. lia.
  - rewrite Fu. apply Hg.
  - intros id'. rewrite Fn. unfold get_data. rewrite Fv. destruct (decide (id' = id)) as [->|Hne].
    + rewrite lookup_insert_eq. split; [lia|by eexists].
    + rewrite lookup_insert_ne by done. pose proof (g_vec _ _ _ Hg id') as Hv. unfold get_data in Hv.
      rewrite Hv. unfold id in *. lia.
  - intros id'. rewrite Fn, Fel. destruct (decide (id' = id)) as [->|Hne].
    + rewrite lookup_insert_eq. split; [lia|by eexists].
    + rewrite lookup_insert_ne by done. rewrite (g_elem _ _ _ Hg id'). unfold id in *. lia.
  - intros id' Hid'. rewrite Fn in Hid'. destruct (decide (id' = id)) as [->|Hne].
    + exists ((λ c, (c_id c, c_cur c)) <$> k), (c_dist <$> k). split_and!.
      * exact Hrow.
      * rewrite <-list_fmap_compose. apply Hk.
      * intros q (c & -> & Hc)%list_elem_of_fmap. simpl.
        pose proof (rs_at _ _ _ _ _ Hk c Hc) as [Hci Hcc]. unfold id in *. split; [lia|]. split; [rewrite Fn; lia|done].
      * apply Forall2_fmap_2, Forall_Forall2_diag, Forall_forall. intros c Hc.
        destruct (rs_dist _ _ _ _ _ Hk c Hc) as (y & Hy & Hd). exists query, y. split_and!; [|rewrite Hdata; [done|]|done].
        -- unfold get_data. rewrite Fv. apply lookup_insert_eq.
        -- pose proof (rs_at _ _ _ _ _ Hk c Hc) as [Hci _]. unfold id. simpl. lia.
    + apply (node_row_grows distance lev s lev s1 0 id' id' Hg Hgr); [|apply (g_base _ _ _ Hg); unfold id in *; lia].
      intros v ds. apply row_is_ext; [done|]. by apply Hgb.
  - intros id' Hid'. rewrite Fn in Hid'. rewrite Fb by lia. apply Hg. unfold id in *. lia.
  - intros cur Hc. rewrite Fu in Hc. destruct (g_upper _ _ _ Hg cur Hc) as [U1 U2 U3 U4].
    split; rewrite ?Hgu, ?Fn; [unfold id; lia|done| |exact (node_at_grows _ _ _ _ _ _ _ Hgr U4)].
    apply (node_row_grows distance lev s lev s1 _ _ _ Hg Hgr); [|done].
    intros v ds. destruct (lev cur); [lia|]. apply (row_is_ext false); [done|apply Hgu].
  - intros cur Hc. rewrite Fu in Hc. rewrite Fup. by apply Hg.
  - exact Hen.
Qed.

Lemma new_base_ok lev s p query k :
  graph_ok distance lev s → (num_vectors s < INVALID_VECTOR_ID)%N → num_vectors s ≠ 0%N →
  row_source lev s 0 query k → length k ≤ 2 * ms_m s →
  let s1 := new_base s p query (k ++ replicate (2 * ms_m s - length k) default_cand) in
  graph_ok distance lev s1 ∧ grows lev s lev s1.
Proof.
  intros Hg Hn Hnz Hk Hlen s1.
  destruct (new_base_core lev s p query k s1 Hg Hn Hk Hlen) as [Hgr Hok]; [done|done|].
  split; [|done]. apply Hok. apply (entry_inv_grows lev s); [done| |done|apply Hg].
  by apply new_base_frame.
Qed.

(** ** A new upper point *)

Definition with_level lev (cur : N) (l : nat) : N → nat := λ c, if decide (c = cur) then l else lev c.

Definition next_upper s (u : upper_point D) : mem_store D Vec :=
  set_upper (assign_vector_id false s).1 (num_uppers s) u.

Lemma next_upper_frame s u :
  (num_uppers s < INVALID_VECTOR_ID)%N →
  let s1 := next_upper s u in
  ms_m s1 = ms_m s ∧ vector_pool s1 = vector_pool s ∧ ms_entry s1 = ms_entry s ∧
  num_vectors s1 = num_vectors s ∧ ms_elems s1 = ms_elems s ∧
  num_uppers s1 = (num_uppers s + 1)%N ∧ basepoint_pool s1 = basepoint_pool s ∧
  (∀ cur, get_upper s1 cur = if decide (cur = num_uppers s) then u else get_upper s cur).
Proof.
  intros Hu s1. unfold s1, next_upper, set_upper. simpl. rewrite succ_mod_u32 by done.
  split_and!; [done..|].
  intros cur. unfold get_upper. simpl. case_decide as Hc; [subst; by rewrite lookup_insert_eq|].
  by rewrite lookup_insert_ne.
Qed.

Lemma next_upper_ok lev s u l v ds :
  graph_ok distance lev s → (num_uppers s < INVALID_VECTOR_ID)%N →
  node_at lev s l (up_id u) (up_lower u) →
  row_is false (next_upper s u) (num_uppers s) v ds → NoDup (fst <$> v) →
  (∀ p, p ∈ v → p.1 ≠ up_id u ∧ node_at lev s (S l) p.1 p.2) →
  Forall2 (λ p d, link_dist distance s (up_id u) p.1 d) v ds →
  let lev' := with_level lev (num_uppers s) (S l) in
  let s1 := next_upper s u in
  graph_ok distance lev' s1 ∧ grows lev s lev' s1 ∧ node_at lev' s1 (S l) (up_id u) (num_uppers s).
Proof.
  intros Hg Hu Hlow Hrow Hnd Hv Hds lev' s1. fold s1 in Hrow.
  destruct (next_upper_frame s u Hu) as (Fm & Fv & Fe & Fn & Fel & Fu & Fb & Fg).
  fold s1 in Fm, Fv, Fe, Fn, Fel, Fu, Fb, Fg.
  assert (Fup : ∀ cur, cur ≠ num_uppers s → upperpoint_pool s1 !! cur = upperpoint_pool s !! cur)
    by (intros cur Hne; apply lookup_insert_ne; congruence).
  assert (Hgb : ∀ id, get_base s1 id = get_base s id) by (intros; unfold get_base; by rewrite Fb, Fm).
  assert (Hgr : grows lev s lev' s1).
  { split; [done|rewrite Fn; lia|rewrite Fu; lia|intros id _; unfold get_data; by rewrite Fv| |].
    - intros cur Hc. unfold lev', with_level. rewrite decide_False; [done|lia].
    - intros cur Hc. rewrite Fg, decide_False; [done|lia]. }
  clearbody s1. assert (Hat : node_at lev' s1 (S l) (up_id u) (num_uppers s)).
  { simpl. rewrite Fu, Fg, decide_True by done. unfold lev', with_level. rewrite decide_True by done.
    split_and!; [lia|done|done]. }
  split_and!; [|done|done]. split.
  - rewrite Fm. apply Hg.
  - rewrite Fn. apply Hg.
  - rewrite Fu. lia.
  - intros id. rewrite Fn. unfold get_data. rewrite Fv. apply (g_vec _ _ _ Hg).
  - intros id. rewrite Fn, Fel. apply (g_elem _ _ _ Hg).
  - intros id Hid. rewrite Fn in Hid.
    apply (node_row_grows distance lev s lev' s1 0 id id Hg Hgr); [|by apply (g_base _ _ _ Hg)].
    intros v0 ds0. apply (row_is_ext true); [done|apply Hgb].
  - intros id Hid. rewrite Fn in Hid. rewrite Fb. by apply Hg.
  - intros cur Hc. rewrite Fu in Hc. destruct (decide (cur = num_uppers s)) as [->|Hne].
    + assert (Hl : lev' (num_uppers s) = S l) by (unfold lev', with_level; by rewrite decide_True).
      split; rewrite ?Fg, ?decide_True, ?Hl, ?Fn by done; simpl pred.
      * by eapply (node_at_id distance).
      * lia.
      * exists v, ds. split_and!; [done|done| |].
        -- intros p Hp. destruct (Hv p Hp). split; [done|]. by eapply node_at_grows.
        -- eapply Forall2_impl; [exact Hds|]. intros p d. by apply (link_dist_grows distance lev s lev').
      * by eapply node_at_grows.
    + assert (Hcu : (cur < num_uppers s)%N) by lia.
      destruct (g_upper _ _ _ Hg cur Hcu) as [U1 U2 U3 U4].
      assert (Hl : lev' cur = lev cur) by (apply (gr_lev _ _ _ _ Hgr); done).
      split; rewrite ?Fg, ?decide_False, ?Hl, ?Fn by done; [done|done| |exact (node_at_grows _ _ _ _ _ _ _ Hgr U4)].
      apply (node_row_grows distance lev s lev' s1 _ _ _ Hg Hgr); [|done].
      intros v0 ds0. destruct (lev cur); [lia|]. apply (row_is_ext false); [done|].
      by rewrite Fg, decide_False.
  - intros cur Hc. rewrite Fu in Hc. rewrite Fup by lia. apply Hg. lia.
  - apply (entry_inv_grows lev s); [done|done| |apply Hg].
    pose proof (node_at_id distance _ _ _ _ _ Hg Hlow). lia.
Qed.

(** The record [add_upperpoint] of the algorithm writes. *)
Lemma new_upper_ok lev s l id lower query k :
  graph_ok distance lev s → (num_uppers s < INVALID_VECTOR_ID)%N → node_at lev s l id lower →
  get_data s id = Some query → row_source lev s (S l) query k → (∀ c, c ∈ k → c_id c ≠ id) →
  length k ≤ ms_m s →
  let lev' := with_level lev (num_uppers s) (S l) in
  let s1 := add_upper (assign_vector_id false s).1 (num_uppers s) lower id
              (k ++ replicate (ms_m s - length k) default_cand) in
  graph_ok distance lev' s1 ∧ grows lev s lev' s1 ∧ node_at lev' s1 (S l) id (num_uppers s) ∧
  ms_elems s1 = ms_elems s ∧ ms_entry s1 = ms_entry s ∧ num_vectors s1 = num_vectors s ∧
  num_uppers s1 = (num_uppers s + 1)%N.
Proof.
  intros Hg Hu Hlow Hq Hk Hne Hlen lev' s1.
  destruct (take_pad_ids (ms_m s) k Hlen) as (Hids & Hcurs & Hds).
  set (st := <[ms_m s:=false]> (up_stat (blank_upper (ms_m s) : upper_point D))).
  set (u := UpperPoint (pad (ms_m s) (c_id <$> k)) (pad (ms_m s) (c_cur <$> k)) lower id
              ((c_dist <$> k) ++ replicate (ms_m s - length k) FLT_MAX) st).
  assert (Hs1 : s1 = next_upper s u).
  { unfold s1, add_upper, MemStore.add_upperpoint, set_stats, next_upper. rewrite set_upper_set.
    unfold get_stats. rewrite !get_upper_set, !decide_True by done. simpl. rewrite Hids, Hcurs, Hds.
    unfold get_upper. simpl. by rewrite (g_upper_none _ _ _ Hg) by lia. }
  destruct (next_upper_frame s u Hu) as (Fm & _ & Fe & Fn & Fel & Fu & _ & Fg).
  destruct (next_upper_ok lev s u l ((λ c, (c_id c, c_cur c)) <$> k) (c_dist <$> k)) as (R1 & R2 & R3);
    [done|done|done| | | | |rewrite Hs1; by split_and!].
  - assert (Hg1 : get_upper (next_upper s u) (num_uppers s) = u) by (rewrite Fg; by apply decide_True).
    split; unfold row_ids, row_curs, get_stats; rewrite ?Hg1, ?Fm, ?length_fmap; simpl; try done.
    + intros p (c & -> & Hc)%list_elem_of_fmap. eapply is_valid_below; [apply Hg|].
      eapply (node_at_id distance); [done|]. by apply (rs_at _ _ _ _ _ Hk).
    + f_equal. by rewrite <-list_fmap_compose.
    + apply pad_length. by rewrite length_fmap.
    + unfold pad. rewrite take_app_le by (rewrite length_fmap; lia).
      rewrite take_ge by (rewrite length_fmap; lia). by rewrite <-list_fmap_compose.
    + rewrite length_app, length_fmap, length_replicate. lia.
    + rewrite take_app_le by (rewrite length_fmap; lia). by rewrite take_ge by (rewrite length_fmap; lia).
    + unfold st. rewrite length_insert. simpl. rewrite length_replicate. lia.
  - rewrite <-list_fmap_compose. apply Hk.
  - intros p (c & -> & Hc)%list_elem_of_fmap. simpl. split; [by apply Hne|]. by apply (rs_at _ _ _ _ _ Hk).
  - apply Forall2_fmap_2, Forall_Forall2_diag, Forall_forall. intros c Hc.
    destruct (rs_dist _ _ _ _ _ Hk c Hc) as (y & Hy & Hd). by exists query, y.
Qed.

(** The record of a level above the old top. *)
Lemma first_upper_ok lev s l id lower :
  graph_ok distance lev s → (num_uppers s < INVALID_VECTOR_ID)%N → node_at lev s l id lower →
  let lev' := with_level lev (num_uppers s) (S l) in
  let s1 := add_first_upperpoint (assign_vector_id false s).1 (num_uppers s) lower id in
  graph_ok distance lev' s1 ∧ grows lev s lev' s1 ∧ node_at lev' s1 (S l) id (num_uppers s) ∧
  ms_elems s1 = ms_elems s ∧ ms_entry s1 = ms_entry s ∧ num_vectors s1 = num_vectors s ∧
  num_uppers s1 = (num_uppers s + 1)%N.
Proof.
  intros Hg Hu Hlow lev' s1.
  set (u := UpperPoint (replicate (ms_m s) INVALID_VECTOR_ID) (replicate (ms_m s) INVALID_VECTOR_ID)
    lower id (replicate (ms_m s) FLT_MAX) (<[ms_m s:=false]> (replicate (ms_m s + 1) true))).
  assert (Hs1 : s1 = next_upper s u).
  { unfold s1, add_first_upperpoint, MemStore.add_upperpoint, next_upper, get_upper. simpl.
    by rewrite (g_upper_none _ _ _ Hg) by lia. }
  destruct (next_upper_frame s u Hu) as (Fm & _ & Fe & Fn & Fel & Fu & _ & Fg).
  destruct (next_upper_ok lev s u l [] []) as (R1 & R2 & R3);
    [done|done|done| |constructor|by intros p ?%elem_of_nil|constructor|rewrite Hs1; by split_and!].
  assert (Hg1 : get_upper (next_upper s u) (num_uppers s) = u) by (rewrite Fg; by apply decide_True).
  split; unfold row_ids, row_curs, get_stats; rewrite ?Hg1, ?Fm; simpl; try done.
  - lia.
  - by intros p ?%elem_of_nil.
  - unfold pad. simpl. by rewrite Nat.sub_0_r.
  - by rewrite length_replicate.
  - by rewrite length_replicate.
  - rewrite length_insert, length_replicate. lia.
Qed.

Lemma same_graph_ok lev s s' :
  graph_ok distance lev s → same_graph s s' →
  (∀ id, is_Some (ms_elems s' !! id) ↔ is_Some (ms_elems s !! id)) → entry_inv lev s' →
  graph_ok distance lev s'.
Proof.
  intros Hg Hsg Hel He. pose proof (same_graph_grows lev s s' Hsg) as Hgr.
  destruct Hsg as [Hm Hv Hb Hup Hn Hu].
  assert (Hrow : ∀ l id cur, node_row distance lev s l id cur → node_row distance lev s' l id cur).
  { intros l id cur. apply (node_row_grows distance lev s lev s' l id cur Hg Hgr).
    intros v ds. apply row_is_ext; [done|]. unfold get_base, get_upper. rewrite Hb, Hup, Hm.
    by destruct (is_base l). }
  split; [by rewrite Hm; apply Hg|by rewrite Hn; apply Hg|by rewrite Hu; apply Hg| | | | | | |done].
  - intros id. unfold get_data. rewrite Hv, Hn. apply (g_vec _ _ _ Hg).
  - intros id. rewrite Hel, Hn. apply (g_elem _ _ _ Hg).
  - intros id Hid. rewrite Hn in Hid. apply Hrow. by apply (g_base _ _ _ Hg).
  - intros id. rewrite Hn, Hb. apply (g_base_none _ _ _ Hg).
  - intros cur Hc. rewrite Hu in Hc. destruct (g_upper _ _ _ Hg cur Hc) as [U1 U2 U3 U4].
    assert (Hgu : get_upper s' cur = get_upper s cur) by (unfold get_upper; by rewrite Hup, Hm).
    split; rewrite ?Hgu, ?Hn; [done|done|by apply Hrow|exact (node_at_grows _ _ _ _ _ _ _ Hgr U4)].
  - intros cur. rewrite Hu, Hup. apply (g_upper_none _ _ _ Hg).
Qed.
End Grow.
