(* ===== verification/GraphBuildFacts.v ===== *)
(** * Insertion keeps the graph well formed

    The searches [insert] starts with stay on their layer and find candidates a
    row can be made of; putting the pieces of [GraphGrow.v] together, [insert]
    always returns, keeps the invariant of [GraphInv.v] and records the tid with a
    node that holds the very vector. The build is the one without an overflow store
    ([PointExtensionContext] of a concurrent build), so tids stay inline. *)
From Stdlib Require Import Permutation Sorted ZArith Lia.
From stdpp Require Import prelude gmap sorting.
From S2P Require Import Prelude Dist PriorityQueue Graph GraphSearch GraphSearchFacts GraphSearchTop GraphPoint GraphPointFacts MemStore GraphBuild GraphPrune GraphRows GraphInv GraphGrow.

Lemma size_ids_below n : size (ids_below n) = n.
Proof.
  unfold ids_below. rewrite size_list_to_set; [by rewrite length_fmap, length_seq|].
  apply NoDup_fmap_2; [intros x y Hxy; lia|apply NoDup_seq].
Qed.

(** The greedy walk only visits nodes of a set closed under edges. *)
Lemma search_upper_loop_closed {S D Q : Type} `{DistOrd D} `{SearchStore S D Q} (P : N → N → Prop)
    fuel m (s : S) (q : Q) id cur closest visited id' cur' lower closest' :
  (∀ id cur p, P id cur → p ∈ upper_edges m s cur → P p.1 p.2) → P id cur →
  search_upper_loop fuel m s q id cur closest visited = Some (id', cur', lower, closest') →
  P id' cur'.
Proof.
  intros Hcl. revert id cur closest visited.
  induction fuel as [|fuel IH]; intros id cur closest visited HP; [done|]. simpl.
  destruct (fresh_neighbors _ visited) as [nbr visited'] eqn:Hfresh.
  destruct (fresh_neighbors_spec _ _ _ _ Hfresh) as (_ & _ & Hsub & _).
  destruct (greedy_pick_spec s q (Greedy id cur closest true) nbr) as (_ & _ & Hst).
  destruct Hst as [Hpick|(p & Hp & Hpick & _)]; rewrite Hpick; simpl; [by intros [= <- <- _ _]|].
  apply IH. apply (Hcl id cur p HP). by apply Hsub.
Qed.

Section Search.
Context {D Vec : Type} `{DistOrd D} `{EqDecision Vec} (distance : Vec → Vec → D).
Implicit Types (s : mem_store D Vec) (lev : N → nat) (c : list (cand D Vec)) (q : Vec).
#[local] Hint Extern 0 (SearchStore (mem_store D Vec) _ _) => exact (mem_search distance) : typeclass_instances.

(** Candidates of layer [l]: distinct nodes of the layer, at their distances, in
    order. *)
Record layer_cands lev s (l : nat) q c : Prop := {
  lc_at : ∀ x, x ∈ c → node_at lev s l (c_id x) (c_cur x);
  lc_nodup : NoDup (c_id <$> c);
  lc_dist : ∀ x, x ∈ c → c_dist x = get_distance s q (c_id x);
  lc_sorted : StronglySorted (λ a b, not_after dlt (c_dist a) (c_dist b)) c;
}.

Lemma layer_cands_heap lev s l q c : layer_cands lev s l q c → is_heap ClosestCompare c.
Proof. intros Hc. apply (sorted_is_heap ClosestCompare). exact (lc_sorted _ _ _ _ _ Hc). Qed.

Lemma layer_cands_entry lev s l q c : layer_cands lev s l q c → GraphSearchFacts.entry_ok s q c.
Proof.
  intros Hc. split; [by eapply layer_cands_heap|exact (lc_nodup _ _ _ _ _ Hc)|exact (lc_dist _ _ _ _ _ Hc)].
Qed.

Lemma layer_closed lev s l c p :
  graph_ok distance lev s → (∀ x, x ∈ c → node_at lev s l (c_id x) (c_cur x)) →
  reachable s (is_base l) (starts c) p → node_at lev s l p.1 p.2.
Proof.
  intros Hg Hc Hp. induction Hp as [p Hp|p p' _ IH He].
  - apply list_elem_of_fmap in Hp as (x & -> & Hx). by apply Hc.
  - by apply (node_edges distance lev s l p.1 p.2 p' Hg IH He).
Qed.

Lemma layer_search lev s l q c ef fuel :
  graph_ok distance lev s → layer_cands lev s l q c → 0 < ef →
  length c + N.to_nat (num_vectors s) < fuel →
  ∃ r, search_layer fuel s q (is_base l) c ef (λ _, true) = Some r ∧ length r ≤ ef ∧
    layer_cands lev s l q r ∧
    ∀ x, x ∈ r → c_lower x = pi_lower (get_point_info s (is_base l) (c_cur x)).
Proof.
  intros Hg Hc Hef Hfuel.
  destruct (search_layer_result s q (is_base l) ef (λ _, true) c (ids_below (N.to_nat (num_vectors s))) fuel)
    as (r & Hr & Hlen & Hnd & Hs & Hall); [done|by eapply layer_cands_entry| |by rewrite size_ids_below|].
  { intros p Hp. apply elem_of_ids_below. rewrite N2Nat.id. eapply (node_at_id distance); [done|].
    by eapply layer_closed; [..|exact Hp]; [|apply Hc]. }
  exists r. split_and!; [done|done| |].
  - split; [|done| |done].
    + intros x Hx. destruct (Hall x Hx) as (_ & _ & Hre & _).
      apply (layer_closed lev s l c _ Hg (lc_at _ _ _ _ _ Hc) Hre).
    + intros x Hx. by apply Hall.
  - intros x Hx. by apply Hall.
Qed.

(** Going down one layer. *)
Lemma lower_cands lev s l q r :
  graph_ok distance lev s → layer_cands lev s (S l) q r →
  (∀ x, x ∈ r → c_lower x = pi_lower (get_point_info s false (c_cur x))) →
  layer_cands lev s l q (replace_lower_layer_idx r).
Proof.
  intros Hg [Hat Hnd Hd Hs] Hlow. unfold replace_lower_layer_idx. split.
  - intros x (y & -> & Hy)%list_elem_of_fmap. simpl. rewrite (Hlow y Hy). simpl.
    destruct (Hat y Hy) as (Hc & Hl & Hid). pose proof (uo_lower _ _ _ _ (g_upper _ _ _ Hg _ Hc)) as Hlo.
    by rewrite Hl, Hid in Hlo.
  - by rewrite <-list_fmap_compose.
  - intros x (y & -> & Hy)%list_elem_of_fmap. exact (Hd y Hy).
  - clear -Hs. induction Hs as [|x r Hs IH Hx]; rewrite ?fmap_cons; constructor; [exact IH|].
    apply Forall_fmap. eapply Forall_impl; [exact Hx|]. done.
Qed.

Lemma single_cand lev s l q x :
  node_at lev s l (c_id x) (c_cur x) → c_dist x = get_distance s q (c_id x) →
  layer_cands lev s l q [x].
Proof.
  intros Hat Hd. split; simpl; [by intros y ->%list_elem_of_singleton|apply NoDup_singleton|
    by intros y ->%list_elem_of_singleton|by repeat constructor].
Qed.

Lemma blank_edges w m (p : N * N) (curs : list N) :
  p ∈ valid_prefix (take w (zip (replicate m INVALID_VECTOR_ID) curs)) → False.
Proof.
  intros Hp. apply valid_prefix_valid in Hp as Hval.
  apply valid_prefix_subset in Hp. apply list_elem_of_lookup in Hp as [i Hi].
  apply lookup_take_Some in Hi as [Hi _]. apply lookup_zip_with_Some in Hi as (a & b & -> & Ha & _).
  apply lookup_replicate in Ha as [-> _]. done.
Qed.

(** The rows of a graph only name nodes of the graph. *)
Lemma graph_store_closed lev s :
  graph_ok distance lev s → store_closed (ms_m s) s (ids_below (N.to_nat (num_vectors s))).
Proof.
  intros Hg. split; intros cur p Hp; apply elem_of_ids_below; rewrite N2Nat.id.
  - destruct (decide (cur < num_vectors s)%N) as [Hc|Hc].
    + eapply (node_at_id distance lev s 0); [done|]. by apply (node_edges distance lev s 0 cur cur).
    + unfold edges, slots in Hp. simpl in Hp. unfold get_base in Hp.
      rewrite (g_base_none _ _ _ Hg) in Hp by lia. simpl in Hp. by apply blank_edges in Hp.
  - destruct (decide (cur < num_uppers s)%N) as [Hc|Hc].
    + destruct (g_upper _ _ _ Hg cur Hc) as [_ Hl (v & ds & Hr & _ & Hv & _) _].
      destruct (lev cur) as [|k] eqn:Hlev; [lia|].
      rewrite <-(row_edges distance false s cur v ds Hr) in Hv.
      by eapply (node_at_id distance), Hv.
    + unfold upper_edges in Hp. simpl in Hp. unfold get_upper in Hp.
      rewrite (g_upper_none _ _ _ Hg) in Hp by lia. simpl in Hp. by apply blank_edges in Hp.
Qed.

Lemma upper_walk lev s l q (x : cand D Vec) fuel :
  graph_ok distance lev s → node_at lev s (S l) (c_id x) (c_cur x) →
  c_dist x = get_distance s q (c_id x) → N.to_nat (num_vectors s) < fuel →
  ∃ r, search_upper_layer fuel (ms_m s) s q x = Some r ∧
    node_at lev s (S l) (c_id r) (c_cur r) ∧ c_dist r = get_distance s q (c_id r) ∧
    c_lower r = pi_lower (get_point_info s false (c_cur r)).
Proof.
  intros Hg Hat Hd Hfuel. set (U := ids_below (N.to_nat (num_vectors s))).
  pose proof (sc_upper _ _ _ (graph_store_closed lev s Hg)) as HU. fold U in HU.
  destruct (search_upper_layer_spec U fuel (ms_m s) s q x HU) as (r & cl & Hr & Hrd & Hrl & _);
    [by unfold U; rewrite size_ids_below|done|].
  exists r. split_and!; [done| |done|done].
  unfold search_upper_layer in Hr.
  destruct (search_upper_loop fuel (ms_m s) s q (c_id x) (c_cur x) FLT_MAX ∅) as [[[[id cur] low] cd]|] eqn:Hloop;
    [|done]. injection Hr as <-. simpl.
  eapply (search_upper_loop_closed (S:=mem_store D Vec) (D:=D) (Q:=Vec) (node_at lev s (S l))); [|exact Hat|exact Hloop].
  intros id0 cur0 p Hp He. by apply (node_edges distance lev s (S l) id0 cur0 p Hg Hp).
Qed.

Lemma descend_at lev s q fuel n l (x : cand D Vec) :
  graph_ok distance lev s → node_at lev s (n + l) (c_id x) (c_cur x) →
  c_dist x = get_distance s q (c_id x) → N.to_nat (num_vectors s) < fuel →
  ∃ r, descend fuel (ms_m s) n s q x = Some r ∧ node_at lev s l (c_id r) (c_cur r) ∧
    c_dist r = get_distance s q (c_id r).
Proof.
  intros Hg. revert x. induction n as [|n IH]; intros x Hat Hd Hfuel; simpl; [eauto|].
  destruct (upper_walk lev s (n + l) q x fuel Hg Hat Hd Hfuel) as (r & -> & Hr & Hrd & Hrl).
  apply IH; simpl; [|done|done]. rewrite Hrl. simpl.
  destruct Hr as (Hc & Hl & Hid). pose proof (uo_lower _ _ _ _ (g_upper _ _ _ Hg _ Hc)) as Hlo.
  by rewrite Hl, Hid in Hlo.
Qed.

Lemma search_down_spec lev s q fuel ef l c :
  graph_ok distance lev s → layer_cands lev s l q c → 0 < ef →
  Nat.max (length c) ef + N.to_nat (num_vectors s) < fuel →
  ∃ ep record, search_down distance fuel ef s q l c = Some (ep, record) ∧
    layer_cands lev s 0 q ep ∧ length ep ≤ Nat.max (length c) ef ∧ length record = l ∧
    ∀ i k, record !! i = Some k → layer_cands lev s (S i) q k.
Proof.
  intros Hg. revert c. induction l as [|l IH]; intros c Hc Hef Hfuel; simpl.
  { exists c, []. split_and!; [done|done|lia|done|done]. }
  destruct (layer_search lev s (S l) q c ef fuel Hg Hc Hef) as (r & Hr & Hlen & Hrc & Hlow); [lia|].
  simpl in Hr. rewrite Hr. cbn [mbind option_bind].
  pose proof (lower_cands lev s l q r Hg Hrc Hlow) as Hnext.
  destruct (IH (replace_lower_layer_idx r)) as (ep & record & -> & Hep & Hel & Hrl & Hrec); [done|done| |].
  { unfold replace_lower_layer_idx. rewrite length_fmap. lia. }
  cbn [mbind option_bind]. exists ep, (record ++ [r]). split_and!; [done|done| | |].
  - unfold replace_lower_layer_idx in Hel. rewrite length_fmap in Hel. lia.
  - rewrite length_app. simpl. lia.
  - intros i k Hi. apply lookup_app_Some in Hi as [Hi|[Hi Hk]]; [by apply Hrec|].
    apply list_lookup_singleton_Some in Hk as [Hi0 <-]. by replace i with l by lia.
Qed.
End Search.

Section Insert.
Context {D Vec : Type} `{DistOrd D} `{EqDecision Vec} (distance : Vec → Vec → D).
Context {PS : Type} `{PlainStore PS, !PlainStoreLaws PS}.
Context (dist_sym : ∀ x y, distance x y = distance y x).
Implicit Types (s : mem_store D Vec) (lev : N → nat) (c k : list (cand D Vec)) (q : Vec) (t : tid).
#[local] Hint Extern 0 (SearchStore (mem_store D Vec) _ _) => exact (mem_search distance) : typeclass_instances.

(** ** From candidates to rows *)

Lemma neighbors_data_fields s c :
  c_id <$> get_neighbors_data s c = c_id <$> c ∧
  (∀ x, x ∈ get_neighbors_data s c → c_val x = get_data s (c_id x) ∧
     ∃ y, y ∈ c ∧ c_id x = c_id y ∧ c_cur x = c_cur y ∧ c_dist x = c_dist y).
Proof.
  unfold get_neighbors_data. split; [by rewrite <-list_fmap_compose|].
  intros x (y & -> & Hy)%list_elem_of_fmap. simpl. split; [done|]. by exists y.
Qed.

Lemma neighbors_data_cands lev s s0 l q c :
  layer_cands distance lev s l q c → layer_cands distance lev s l q (get_neighbors_data s0 c).
Proof.
  intros [Hat Hnd Hd Hs]. destruct (neighbors_data_fields s0 c) as [Hids Hall]. split.
  - intros x Hx. destruct (Hall x Hx) as (_ & y & Hy & -> & -> & _). by apply Hat.
  - by rewrite Hids.
  - intros x Hx. destruct (Hall x Hx) as (_ & y & Hy & -> & _ & ->). by apply Hd.
  - clear -Hs. unfold get_neighbors_data.
    induction Hs as [|x r Hs IH Hx]; rewrite ?fmap_cons; constructor; [exact IH|].
    apply Forall_fmap. eapply Forall_impl; [exact Hx|]. done.
Qed.

(** Forward selection makes a row source of the candidates of a layer. *)
Lemma selected_source lev s l q c nbr_num :
  graph_ok distance lev s → layer_cands distance lev s l q c →
  ∃ k, select_neighbors distance nbr_num c = k ++ replicate (nbr_num - length k) default_cand ∧
    row_source distance lev s l q k ∧ length k ≤ nbr_num ∧ k ⊆+ c.
Proof.
  intros Hg Hc.
  destruct (select_neighbors_spec distance nbr_num c) as (k & Hk & Hsub & Hlen & _);
    [by eapply layer_cands_heap|].
  exists k. split_and!; [done| |done|done]. destruct Hc as [Hat Hnd Hd _].
  assert (Hin : ∀ x, x ∈ k → x ∈ c) by (intros x Hx; by eapply elem_of_submseteq).
  split.
  - intros x Hx. by apply Hat, Hin.
  - eapply submseteq_NoDup; [exact Hnd|]. by apply fmap_submseteq.
  - intros x Hx. pose proof (Hat x (Hin x Hx)) as Hx'. apply (node_at_id distance) in Hx'; [|done].
    destruct (proj2 (g_vec _ _ _ Hg (c_id x)) Hx') as [y Hy]. exists y. split; [done|].
    rewrite Hd by by apply Hin. simpl. by rewrite Hy.
Qed.

Lemma row_source_grows lev s lev' s' l q k :
  graph_ok distance lev s → grows lev s lev' s' →
  row_source distance lev s l q k → row_source distance lev' s' l q k.
Proof.
  intros Hg Hgr [Hat Hnd Hd]. split; [|done|].
  - intros x Hx. by eapply node_at_grows, Hat.
  - intros x Hx. destruct (Hd x Hx) as (y & Hy & ?). exists y. split; [|done].
    rewrite (gr_data _ _ _ _ Hgr); [done|]. apply (g_vec _ _ _ Hg). eauto.
Qed.

Lemma layer_cands_grows lev s lev' s' l q c :
  graph_ok distance lev s → grows lev s lev' s' →
  layer_cands distance lev s l q c → layer_cands distance lev' s' l q c.
Proof.
  intros Hg Hgr [Hat Hnd Hd Hs]. split; [|done| |done].
  - intros x Hx. by eapply node_at_grows, Hat.
  - intros x Hx. rewrite Hd by done. simpl. rewrite (gr_data _ _ _ _ Hgr); [done|].
    eapply (node_at_id distance); [done|]. by apply Hat.
Qed.

(** ** Levels of the new point *)

(** The highest layer on which [id] has a record. *)
Definition top_level lev s (id : N) (l : nat) : Prop :=
  ∀ cur, (cur < num_uppers s)%N → up_id (get_upper s cur) = id → lev cur ≤ l.

Lemma upper_edges_same s s1 cur :
  ms_m s1 = ms_m s → get_upper s1 cur = get_upper s cur → edges s1 false cur = edges s false cur.
Proof. intros Hm Hc. unfold edges, slots. simpl. by rewrite Hm, Hc. Qed.

Lemma insert_uppers_ok lev s l id lower q recs :
  graph_ok distance lev s → node_at lev s l id lower → get_data s id = Some q → top_level lev s id l →
  (num_uppers s + N.of_nat (length recs) <= INVALID_VECTOR_ID)%N →
  (∀ i c, recs !! i = Some c → layer_cands distance lev s (S (l + i)) q c ∧ id ∉ c_id <$> c) →
  let r := insert_uppers distance s id lower recs in
  ∃ lev', graph_ok distance lev' r.1 ∧ grows lev s lev' r.1 ∧
    node_at lev' r.1 (l + length recs) id r.2 ∧
    ms_elems r.1 = ms_elems s ∧ ms_entry r.1 = ms_entry s ∧ num_vectors r.1 = num_vectors s ∧
    num_uppers r.1 = (num_uppers s + N.of_nat (length recs))%N ∧ new_below s lev' r.1 (l + length recs).
Proof.
  revert lev s l lower. induction recs as [|c recs IH]; intros lev s l lower Hg Hat Hq Htop Hu Hrec.
  { simpl. exists lev. rewrite Nat.add_0_r, N.add_0_r. split_and!; [done|apply grows_refl|done..|]. intros cur Hc1 Hc2. lia. }
  destruct (Hrec 0 c eq_refl) as [Hc Hnin]. rewrite Nat.add_0_r in Hc. simpl in Hu.
  assert (Hu1 : (num_uppers s < INVALID_VECTOR_ID)%N) by lia.
  set (s0 := (assign_vector_id false s).1).
  assert (Hc0 : layer_cands distance lev s (S l) q (get_neighbors_data s0 c)) by by apply neighbors_data_cands.
  destruct (selected_source lev s (S l) q (get_neighbors_data s0 c) (ms_m s) Hg Hc0) as (k & Hk & Hsrc & Hlen & Hsub).
  assert (Hkid : ∀ x, x ∈ k → c_id x ≠ id).
  { intros x Hx Heq. apply Hnin. destruct (neighbors_data_fields s0 c) as [<- _]. rewrite <-Heq.
    apply list_elem_of_fmap_2. by eapply elem_of_submseteq. }
  destruct (new_upper_ok distance lev s l id lower q k Hg Hu1 Hat Hq Hsrc Hkid Hlen)
    as (Hg1 & Hgr1 & Hat1 & Hel1 & Hen1 & Hn1 & Hnu1). fold s0 in Hg1, Hgr1, Hat1, Hel1, Hen1, Hn1, Hnu1.
  set (lev1 := with_level lev (num_uppers s) (S l)) in *.
  set (s1 := add_upper s0 (num_uppers s) lower id (k ++ replicate (ms_m s - length k) default_cand)) in *.
  assert (Hup1 : ∀ cur, cur ≠ num_uppers s → get_upper s1 cur = get_upper s cur).
  { intros cur Hne. unfold s1. destruct (add_upper_eq s0 (num_uppers s) lower id
      (k ++ replicate (ms_m s - length k) default_cand)) as (u & -> & _).
    rewrite get_upper_set, decide_False by done. done. }
  destruct (update_reverse_edges_ok distance lev1 s1 (S l) k (ms_m s - length k) id (num_uppers s) Hg1)
    as (Hg2 & Hsc2 & Hgr2); [|apply Hsrc|done|].
  { intros x Hx. pose proof (rs_at _ _ _ _ _ _ Hsrc x Hx) as Hxat. split_and!.
    - by eapply node_at_grows.
    - by apply Hkid.
    - apply (link_dist_grows distance lev s lev1); [done..|].
      destruct (rs_dist _ _ _ _ _ _ Hsrc x Hx) as (y & Hy & Hd). exists y, q. by rewrite dist_sym.
    - destruct Hxat as (Hxc & _). intros p Hp Heq. simpl in Hp.
      rewrite (upper_edges_same s s1) in Hp by (apply Hgr1 || (apply Hup1; lia)).
      destruct (node_edges distance lev s (S l) (c_id x) (c_cur x) p Hg) as (_ & Hpc & Hpl & Hpi);
        [by apply (rs_at _ _ _ _ _ _ Hsrc)|done|].
      specialize (Htop p.2 Hpc ltac:(congruence)). lia. }
  simpl is_base in *. set (s2 := update_reverse_edges distance false false s1 _ id (num_uppers s)) in *.
  pose proof (grows_trans _ _ _ _ _ _ Hgr1 Hgr2) as Hgr.
  destruct (IH lev1 s2 (S l) (num_uppers s)) as (lev' & R1 & R2 & R3 & R4 & R5 & R6 & R7 & R8); [done| | | | | |].
  - exact (node_at_grows _ _ _ _ _ _ _ Hgr2 Hat1).
  - rewrite (gr_data _ _ _ _ Hgr); [done|]. apply (g_vec _ _ _ Hg). eauto.
  - intros cur Hcur Hid. rewrite (sc_u _ _ Hsc2), Hnu1 in Hcur.
    rewrite (gr_id _ _ _ _ Hgr2) in Hid by (rewrite Hnu1; lia).
    destruct (decide (cur = num_uppers s)) as [->|Hne];
      [unfold lev1, with_level; rewrite decide_True by done; lia|].
    rewrite Hup1 in Hid by done. rewrite (gr_lev _ _ _ _ Hgr1) by lia.
    specialize (Htop cur ltac:(lia) Hid). lia.
  - rewrite (sc_u _ _ Hsc2), Hnu1. lia.
  - intros i c' Hi. destruct (Hrec (S i) c' Hi) as [Hc' Hn']. split; [|done].
    replace (S (S l + i)) with (S (l + S i)) by lia. exact (layer_cands_grows lev s lev1 s2 _ q c' Hg Hgr Hc').
  - exists lev'. simpl in Hk.
    assert (Heq : insert_uppers distance s id lower (c :: recs) =
      insert_uppers distance s2 id (num_uppers s) recs).
    { cbn [insert_uppers]. change (assign_vector_id false s) with (s0, num_uppers s). cbv beta iota zeta.
      change (get_nbr_num false (ms_m s0)) with (ms_m s). by rewrite Hk. }
    rewrite Heq. simpl length.
    rewrite (sc_elems _ _ Hsc2) in R4. rewrite (sc_entry _ _ Hsc2) in R5. rewrite (sc_n _ _ Hsc2) in R6.
    rewrite (sc_u _ _ Hsc2), Hnu1 in R7.
    split_and!; [done|by eapply grows_trans|by replace (l + S (length recs)) with (S l + length recs) by lia| | | | |].
    + by rewrite R4, Hel1.
    + by rewrite R5, Hen1.
    + by rewrite R6, Hn1.
    + rewrite R7. lia.
    + replace (l + S (length recs)) with (S l + length recs) by lia. apply (new_below_trans s lev1 s2 _ _ (S l)); [done| |done|lia].
      intros cur Hc1 Hc2. rewrite (sc_u _ _ Hsc2), Hnu1 in Hc2. unfold lev1, with_level. rewrite decide_True by lia. done.
Qed.

Lemma base_edges_same s s1 cur :
  ms_m s1 = ms_m s → basepoint_pool s1 !! cur = basepoint_pool s !! cur →
  edges s1 true cur = edges s true cur.
Proof. intros Hm Hc. unfold edges, slots. simpl. unfold get_base. by rewrite Hm, Hc. Qed.

Lemma insert_new_point_ok lev s q t ep recs :
  graph_ok distance lev s → num_vectors s ≠ 0%N → (num_vectors s < INVALID_VECTOR_ID)%N →
  (num_uppers s + N.of_nat (length recs) <= INVALID_VECTOR_ID)%N →
  layer_cands distance lev s 0 q ep →
  (∀ i c, recs !! i = Some c → layer_cands distance lev s (S i) q c) →
  ∃ s' cur lev', insert_new_point distance (PS:=PS) s None q t ep recs =
      Some (s', None, num_vectors s, cur) ∧
    graph_ok distance lev' s' ∧ grows lev s lev' s' ∧
    node_at lev' s' (length recs) (num_vectors s) cur ∧
    ms_elems s' = <[num_vectors s:=new_point t]> (ms_elems s) ∧ ms_entry s' = ms_entry s ∧
    num_vectors s' = (num_vectors s + 1)%N ∧
    num_uppers s' = (num_uppers s + N.of_nat (length recs))%N ∧
    get_data s' (num_vectors s) = Some q ∧ new_below s lev' s' (length recs).
Proof.
  intros Hg Hnz Hn Hu Hep Hrecs. set (id := num_vectors s).
  destruct (selected_source lev s 0 q ep (2 * ms_m s) Hg Hep) as (k & Hk & Hsrc & Hlen & _).
  destruct (new_base_ok distance lev s (new_point t) q k Hg Hn Hnz Hsrc Hlen) as [Hg1 Hgr1].
  destruct (new_base_frame s (new_point t) q (k ++ replicate (2 * ms_m s - length k) default_cand) Hn)
    as (Fm & Fn & Fu & Fe & Fel & Fv & _ & Fb).
  set (s1 := new_base s (new_point t) q (k ++ replicate (2 * ms_m s - length k) default_cand)) in *.
  assert (Hid1 : node_at lev s1 0 id id) by (split; [rewrite Fn; unfold id; lia|done]).
  assert (Hq1 : get_data s1 id = Some q) by (unfold get_data; rewrite Fv; apply lookup_insert_eq).
  assert (Hkat : ∀ x, x ∈ k → (c_id x < id)%N ∧ c_cur x = c_id x)
    by (intros x Hx; apply (rs_at _ _ _ _ _ _ Hsrc x Hx)).
  destruct (update_reverse_edges_ok distance lev s1 0 k (2 * ms_m s - length k) id id Hg1)
    as (Hg2 & Hsc2 & Hgr2); [|apply Hsrc|done|].
  { intros x Hx. destruct (Hkat x Hx) as [Hxi Hxc]. split_and!.
    - exact (node_at_grows _ _ _ _ _ _ _ Hgr1 (rs_at _ _ _ _ _ _ Hsrc x Hx)).
    - lia.
    - destruct (rs_dist _ _ _ _ _ _ Hsrc x Hx) as (y & Hy & Hd). exists y, q.
      rewrite (gr_data _ _ _ _ Hgr1) by done. by rewrite dist_sym.
    - intros p Hp Heq. simpl in Hp. rewrite (base_edges_same s s1) in Hp by (done || (apply Fb; lia)).
      destruct (node_edges distance lev s 0 (c_id x) (c_cur x) p Hg) as (_ & Hpn & _); [by split|done|].
      unfold id in *. lia. }
  simpl is_base in *. set (s2 := update_reverse_edges distance true false s1 _ id id) in *.
  pose proof (grows_trans _ _ _ _ _ _ Hgr1 Hgr2) as Hgr.
  destruct (insert_uppers_ok lev s2 0 id id q recs) as (lev' & R1 & R2 & R3 & R4 & R5 & R6 & R7 & R8);
    [done|exact (node_at_grows _ _ _ _ _ _ _ Hgr2 Hid1)| | | | |].
  { rewrite (gr_data _ _ _ _ Hgr2); [done|]. rewrite Fn. unfold id. lia. }
  { intros cur Hc Hi. rewrite (sc_u _ _ Hsc2), Fu in Hc. rewrite (gr_id _ _ _ _ Hgr) in Hi by done.
    pose proof (uo_id _ _ _ _ (g_upper _ _ _ Hg cur Hc)). unfold id in *. lia. }
  { rewrite (sc_u _ _ Hsc2), Fu. done. }
  { intros i c Hi. split; [exact (layer_cands_grows lev s lev s2 _ q c Hg Hgr (Hrecs i c Hi))|].
    intros (x & Hxi & Hx)%list_elem_of_fmap. pose proof (lc_at _ _ _ _ _ _ (Hrecs i c Hi) x Hx) as Hat.
    apply (node_at_id distance) in Hat; [|done]. unfold id in *. lia. }
  destruct (insert_uppers distance s2 id id recs) as [s' cur] eqn:Hup. simpl in R1, R2, R3, R4, R5, R6, R7, R8.
  exists s', cur, lev'. split_and!.
  - unfold insert_new_point. change (assign_vector_id true s) with ((assign_vector_id true s).1, id).
    cbv beta iota. unfold init_range_elem. cbn [make_point length Nat.ltb Nat.leb mbind option_bind].
    change (get_nbr_num true _) with (2 * ms_m s). rewrite Hk.
    change (add_vector _ _ _) with s1. fold s2. by rewrite Hup.
  - done.
  - by eapply grows_trans.
  - done.
  - by rewrite R4, (sc_elems _ _ Hsc2).
  - by rewrite R5, (sc_entry _ _ Hsc2).
  - by rewrite R6, (sc_n _ _ Hsc2).
  - by rewrite R7, (sc_u _ _ Hsc2), Fu.
  - rewrite (gr_data _ _ _ _ R2); [|rewrite (sc_n _ _ Hsc2), Fn; unfold id; lia].
    rewrite (gr_data _ _ _ _ Hgr2); [done|]. rewrite Fn. unfold id. lia.
  - intros c Hc1 Hc2. apply R8; [|done]. by rewrite (sc_u _ _ Hsc2), Fu.
Qed.

(** ** New top levels *)

Lemma add_levels_ok n lev s l id cur :
  graph_ok distance lev s → node_at lev s l id cur →
  (num_uppers s + N.of_nat n <= INVALID_VECTOR_ID)%N →
  let r := add_levels n s id cur in
  ∃ lev', graph_ok distance lev' r.1 ∧ grows lev s lev' r.1 ∧ node_at lev' r.1 (n + l) id r.2 ∧
    ms_elems r.1 = ms_elems s ∧ num_vectors r.1 = num_vectors s ∧
    num_uppers r.1 = (num_uppers s + N.of_nat n)%N ∧ new_below s lev' r.1 (n + l).
Proof.
  revert lev s l cur. induction n as [|n IH]; intros lev s l cur Hg Hat Hu.
  { simpl. exists lev. split_and!; [done|apply grows_refl|done|done|done|lia|]. intros c Hc1 Hc2. lia. }
  destruct (first_upper_ok distance lev s l id cur Hg ltac:(lia) Hat)
    as (Hg1 & Hgr1 & Hat1 & Hel1 & _ & Hn1 & Hnu1).
  set (s1 := add_first_upperpoint _ _ _ _) in *.
  destruct (IH _ s1 (S l) (num_uppers s) Hg1 Hat1) as (lev' & R1 & R2 & R3 & R4 & R5 & R6 & R7);
    [rewrite Hnu1; lia|].
  assert (Heq : add_levels (S n) s id cur = add_levels n s1 id (num_uppers s)) by done.
  rewrite Heq. exists lev'. split_and!; [done|by eapply grows_trans| |by rewrite R4|by rewrite R5|rewrite R6; lia|];
    replace (S n + l) with (n + S l) by lia; [done|].
  eapply (new_below_trans s _ s1 _ _ (S l)); [exact R2| |exact R7|lia].
  intros c Hc1 Hc2. rewrite Hnu1 in Hc2. unfold with_level. by rewrite decide_True by lia.
Qed.

Lemma set_entrypoint_ok lev s id cur l :
  graph_ok distance lev s → node_at lev s l id cur →
  graph_ok distance lev (set_entrypoint s id cur (Z.of_nat l)).
Proof.
  intros Hg Hat. pose proof (node_at_id distance _ _ _ _ _ Hg Hat) as Hid.
  apply (same_graph_ok distance lev s); [done|done|done|].
  right. simpl. rewrite Nat2Z.id. split_and!; [lia|done|].
  exact (node_at_grows lev s lev _ l id cur (same_graph_grows lev s (set_entrypoint s id cur (Z.of_nat l)) ltac:(done)) Hat).
Qed.

Lemma update_entry_ok lev s id cur entry_level insert_level l :
  graph_ok distance lev s → node_at lev s l id cur →
  l = Z.to_nat (Z.min insert_level entry_level) → (0 <= insert_level)%Z → (0 <= entry_level)%Z →
  (num_uppers s + Z.to_N (insert_level - entry_level) <= INVALID_VECTOR_ID)%N →
  let s' := update_entry s id cur entry_level insert_level in
  ∃ lev', graph_ok distance lev' s' ∧ grows lev s lev' s' ∧
    ms_elems s' = ms_elems s ∧ num_vectors s' = num_vectors s ∧
    num_uppers s' = (num_uppers s + Z.to_N (insert_level - entry_level))%N ∧
    ms_entry s' = (if decide (entry_level < insert_level)%Z then EntryInfo id (e_cur (ms_entry s')) insert_level else ms_entry s) ∧
    (entry_level = e_level (ms_entry s) → entry_top lev s → entry_top lev' s') ∧
    ∃ cur', node_at lev' s' (Z.to_nat insert_level) id cur'.
Proof.
  intros Hg Hat -> Hi He Hu s'. unfold s', update_entry.
  destruct (Z.ltb_spec entry_level insert_level) as [Hlt|Hge].
  2: { exists lev. split_and!; [done|apply grows_refl|done|done|lia|by rewrite decide_False by lia|done|].
    exists cur. by replace (Z.to_nat insert_level) with (Z.to_nat (insert_level `min` entry_level)) by lia. }
  destruct (add_levels_ok (Z.to_nat (insert_level - entry_level)) lev s _ id cur Hg Hat)
    as (lev' & R1 & R2 & R3 & R4 & R5 & R6 & R7); [lia|].
  destruct (add_levels _ s id cur) as [s1 cur1]. simpl in *.
  replace (Z.to_nat (insert_level - entry_level) + Z.to_nat (insert_level `min` entry_level))
    with (Z.to_nat insert_level) in R3 by lia.
  exists lev'. pose proof (set_entrypoint_ok _ _ _ _ _ R1 R3) as R. rewrite Z2Nat.id in R by done.
  assert (Hgr : grows lev s lev' (set_entrypoint s1 id cur1 insert_level))
    by (eapply grows_trans; [exact R2|]; by apply same_graph_grows).
  split_and!; [done|done|done|done|rewrite R6; lia|by rewrite decide_True by done| |].
  - intros Hel Ht. apply (entry_top_grows lev s _ _ (Z.to_nat insert_level) Hgr Ht); [|simpl; lia|simpl; lia].
    by replace (Z.to_nat (insert_level - entry_level) + Z.to_nat (insert_level `min` entry_level)) with (Z.to_nat insert_level) in R7 by lia.
  - exists cur1. eapply node_at_grows; [|exact R3]. by apply same_graph_grows.
Qed.

(** ** Elements *)

(** Node [id] holds the tids [l]. *)
Definition elem_tids s (id : N) (l : list tid) : Prop :=
  ∃ p, ms_elems s !! id = Some p ∧ represents p (None : option PS) l.

Definition elems_ok s : Prop := ∀ id, is_Some (ms_elems s !! id) → ∃ l, elem_tids s id l.

(** No node loses a tid. *)
Definition tids_kept s s' : Prop :=
  ∀ id l, elem_tids s id l → ∃ l', elem_tids s' id l' ∧ l `prefix_of` l'.

Lemma tids_kept_refl s : tids_kept s s.
Proof. intros id l Hl. by exists l. Qed.

Lemma tids_kept_trans s s1 s2 : tids_kept s s1 → tids_kept s1 s2 → tids_kept s s2.
Proof.
  intros H1 H2 id l Hl. destruct (H1 id l Hl) as (l1 & Hl1 & Hp1).
  destruct (H2 id l1 Hl1) as (l2 & Hl2 & Hp2). exists l2. split; [done|by etrans].
Qed.

(** Every tid of [s'] was there before, apart from [t] with node [id]. *)
Definition tids_from s s' (t : tid) (id : N) : Prop :=
  ∀ x l u, elem_tids s' x l → u ∈ l → (∃ l0, elem_tids s x l0 ∧ u ∈ l0) ∨ (u = t ∧ x = id).

Lemma tids_from_refl s t id : tids_from s s t id.
Proof. intros x l u Hl Hu. left. by exists l. Qed.

Lemma tids_from_trans s s1 s2 t id : tids_from s s1 t id → tids_from s1 s2 t id → tids_from s s2 t id.
Proof.
  intros H1 H2 x l u Hl Hu. destruct (H2 x l u Hl Hu) as [(l1 & Hl1 & Hu1)|]; [eauto|by right].
Qed.

Lemma represents_unique p l l' :
  represents p (None : option PS) l → represents p (None : option PS) l' → l = l'.
Proof.
  intros E1%represents_get_tids E2%represents_get_tids. rewrite E1 in E2. by injection E2.
Qed.

Lemma elem_tids_set s id p l id' :
  elem_tids (set_elem s id p) id' l ↔
  if decide (id' = id) then represents p (None : option PS) l else elem_tids s id' l.
Proof.
  unfold elem_tids, set_elem. simpl. case_decide as Hid.
  - subst. setoid_rewrite lookup_insert_eq. naive_solver.
  - setoid_rewrite lookup_insert_ne; [done|congruence].
Qed.

(** Writing an element that keeps its tids. *)
Lemma set_elem_ok s id p p' l l' :
  ms_elems s !! id = Some p → represents p (None : option PS) l → represents p' (None : option PS) l' →
  l `prefix_of` l' → elems_ok s →
  let s' := set_elem s id p' in
  elems_ok s' ∧ tids_kept s s' ∧ same_graph s s' ∧ ms_entry s' = ms_entry s ∧
  (∀ x, is_Some (ms_elems s' !! x) ↔ is_Some (ms_elems s !! x)) ∧ elem_tids s' id l'.
Proof.
  intros Hp Hl Hl' Hpre Hok s'. split_and!; [| |done|done| |].
  - intros x Hx. destruct (decide (x = id)) as [->|Hne].
    + exists l'. apply elem_tids_set. by rewrite decide_True.
    + simpl in Hx. rewrite lookup_insert_ne in Hx by congruence. destruct (Hok x Hx) as [lx Hlx].
      exists lx. apply elem_tids_set. by rewrite decide_False.
  - intros x lx Hlx. destruct (decide (x = id)) as [->|Hne].
    + exists l'. split; [apply elem_tids_set; by rewrite decide_True|].
      destruct Hlx as (p0 & Hp0 & Hr0). rewrite Hp in Hp0. injection Hp0 as <-.
      by rewrite (represents_unique _ _ _ Hr0 Hl).
    + exists lx. split; [|done]. apply elem_tids_set. by rewrite decide_False.
  - intros x. simpl. destruct (decide (x = id)) as [->|Hne].
    + rewrite lookup_insert_eq, Hp. split; eauto.
    + by rewrite lookup_insert_ne by congruence.
  - apply elem_tids_set. by rewrite decide_True.
Qed.

Lemma set_elem_from s id p p' l l' t :
  ms_elems s !! id = Some p → represents p (None : option PS) l → represents p' (None : option PS) l' →
  (∀ u, u ∈ l' → u ∈ l ∨ u = t) → tids_from s (set_elem s id p') t id.
Proof.
  intros Hp Hl Hl' Hu x lx u. rewrite elem_tids_set. case_decide as Hx; [|intros; left; by exists lx].
  subst x. intros Hlx Hin. rewrite (represents_unique _ _ _ Hlx Hl') in Hin.
  destruct (Hu u Hin); [|by right]. left. exists l. split; [by exists p|done].
Qed.

Lemma apply_arrangement_ok s q t ep :
  elems_ok s → (∀ x, x ∈ ep → c_val x = get_data s (c_id x) ∧ is_Some (ms_elems s !! c_id x)) →
  ∃ s' strat, apply_arrangement (PS:=PS) s None q t ep = Some (s', None, strat) ∧
    elems_ok s' ∧ tids_kept s s' ∧ same_graph s s' ∧ ms_entry s' = ms_entry s ∧
    (∀ x, is_Some (ms_elems s' !! x) ↔ is_Some (ms_elems s !! x)) ∧
    match strat with
    | Trivial id => get_data s' id = Some q ∧ (∃ l, elem_tids s' id l ∧ t ∈ l) ∧ tids_from s s' t id
    | InsertPoint => ∀ id, tids_from s s' t id
    end.
Proof.
  revert s. induction ep as [|x ep IH]; intros s Hok Hep; simpl.
  { exists s, InsertPoint. split_and!; [done|done|apply tids_kept_refl|done|done|done|].
    intros id. apply tids_from_refl. }
  destruct (Hep x) as [Hval [p Hp]]; [by left|].
  case_decide as Heq; [|exists s, InsertPoint; split_and!; [done|done|apply tids_kept_refl|done..|intros id; apply tids_from_refl]].
  rewrite Hp. cbn [mbind option_bind].
  destruct (empty p); [apply IH; [done|]; intros y Hy; apply Hep; by right|].
  destruct (Hok (c_id x)) as (l & p0 & Hp0 & Hl); [eauto|]. rewrite Hp in Hp0. injection Hp0 as <-.
  destruct (insert_tid_spec p (None : option PS) l [t] Hl) as (p' & ctx' & ov & Hins & Hrep & _);
    [simpl; lia|simpl; rewrite tid_page_cap_val; unfold GRAPH_INDEX_MAX_HEAPTIDS; lia|].
  assert (ctx' = None) as ->.
  { unfold insert_tid in Hins. repeat case_match; simplify_eq; done. }
  rewrite Hins. cbn [mbind option_bind]. cbv beta iota zeta.
  destruct (set_elem_ok s (c_id x) p p' l _ Hp Hl Hrep) as (E1 & E2 & E3 & E4 & E5 & E6);
    [case_match; [by eexists|done]|done|].
  destruct (negb (refuses p None [t])) eqn:Href.
  - exists (set_elem s (c_id x) p'), (Trivial (c_id x)). split_and!; try done.
    + unfold get_data in *. rewrite (sg_vec _ _ E3). congruence.
    + eexists. split; [exact E6|]. apply elem_of_app. right. by left.
    + apply (set_elem_from s (c_id x) p p' _ _ t Hp Hl Hrep).
      intros u [Hu|Hu%list_elem_of_singleton]%elem_of_app; auto.
  - assert (Hfrom : ∀ id, tids_from s (set_elem s (c_id x) p') t id).
    { intros id y ly u. rewrite elem_tids_set. case_decide as Hy; [|intros; left; by exists ly].
      subst y. intros Hly Hin. left. exists l. split; [by exists p|].
      by rewrite <- (represents_unique _ _ _ Hly Hrep). }
    destruct (IH (set_elem s (c_id x) p') E1) as (s' & strat & Hrun & I1 & I2 & I3 & I4 & I5 & I6).
    { intros y Hy. destruct (Hep y) as [Hy1 Hy2]; [by right|]. split; [done|]. by apply E5. }
    exists s', strat. split_and!; [done|done|by eapply tids_kept_trans| |congruence| |].
    + destruct E3 as [A1 A2 A3 A4 A5 A6], I3 as [B1 B2 B3 B4 B5 B6]. split; congruence.
    + intros y. by rewrite I5, E5.
    + destruct strat as [id|].
      * destruct I6 as (? & ? & ?). split_and!; [done|done|by eapply tids_from_trans].
      * intros id. by eapply tids_from_trans.
Qed.

Lemma fresh_from s s' id t :
  ms_elems s' = <[id:=new_point t]> (ms_elems s) → elem_tids s' id [t] → tids_from s s' t id.
Proof.
  intros Hel (p & Hp & Hr) x l u (px & Hpx & Hrx) Hu. destruct (decide (x = id)) as [->|Hne].
  - rewrite Hp in Hpx. injection Hpx as <-. rewrite (represents_unique _ _ _ Hrx Hr) in Hu.
    apply list_elem_of_singleton in Hu. by right.
  - left. exists l. split; [|done]. exists px. split; [|done].
    by rewrite Hel, lookup_insert_ne in Hpx by congruence.
Qed.

(** ** The first point *)

Definition first_store s q t : mem_store D Vec :=
  set_entrypoint (new_base s (new_point t) q (replicate (2 * ms_m s) default_cand))
    (num_vectors s) (num_vectors s) 0.

Lemma first_store_eq lev s q t fuel ef level :
  graph_ok distance lev s → num_vectors s = 0%N → ms_entry s = empty_entry →
  insert distance (PS:=PS) fuel ef s None level q t = Some (first_store s q t, None, num_vectors s).
Proof.
  intros Hg Hz He. unfold insert. simpl get_entry. rewrite He. simpl Z.eqb. cbv iota.
  change (assign_vector_id true s) with ((assign_vector_id true s).1, num_vectors s). cbv beta iota.
  unfold init_range_elem. cbn [make_point length Nat.ltb Nat.leb mbind option_bind].
  unfold first_store, new_base. change (assign_vector_id true s) with ((assign_vector_id true s).1, num_vectors s).
  cbv beta iota zeta. do 3 f_equal. rewrite !Hz.
  set (s0 := set_elem (assign_vector_id true s).1 0 (new_point t)).
  do 2 f_equal. unfold add_first_basepoint, add_base, MemStore.add_basepoint, set_stats, get_stats.
  rewrite set_base_set, !get_base_set, !decide_True by done. simpl.
  destruct (take_pad_ids (Vec:=Vec) (D:=D) (2 * ms_m s) []) as (Hids & _ & Hds); [simpl; lia|].
  simpl in Hids, Hds. rewrite Nat.sub_0_r in *. rewrite Hids, Hds. unfold pad. simpl. rewrite Nat.sub_0_r.
  do 2 f_equal. unfold get_base. simpl. by rewrite (g_base_none _ _ _ Hg) by lia.
Qed.

Lemma first_store_ok lev s q t :
  graph_ok distance lev s → num_vectors s = 0%N → elems_ok s →
  graph_ok distance lev (first_store s q t) ∧ grows lev s lev (first_store s q t) ∧
  elems_ok (first_store s q t) ∧ tids_kept s (first_store s q t) ∧
  elem_tids (first_store s q t) (num_vectors s) [t] ∧
  tids_from s (first_store s q t) t (num_vectors s) ∧
  get_data (first_store s q t) (num_vectors s) = Some q ∧ num_vectors (first_store s q t) = 1%N.
Proof.
  intros Hg Hz Hok.
  assert (Hn : (num_vectors s < INVALID_VECTOR_ID)%N) by (rewrite Hz; done).
  assert (Hsrc : row_source distance lev s 0 q []) by (split; [by intros c ?%elem_of_nil|constructor|by intros c ?%elem_of_nil]).
  destruct (new_base_core distance lev s (new_point t) q [] (first_store s q t) Hg Hn Hsrc) as [Hgr Hgo];
    [simpl; lia|unfold first_store; rewrite Nat.sub_0_r; done|unfold first_store; rewrite Nat.sub_0_r; done|].
  destruct (new_base_frame s (new_point t) q (replicate (2 * ms_m s) default_cand) Hn)
    as (_ & Fn & _ & _ & Fel & Fv & _ & _).
  assert (Hn1 : num_vectors (first_store s q t) = 1%N) by (etransitivity; [exact Fn|]; by rewrite Hz).
  assert (Hel : ms_elems (first_store s q t) = <[num_vectors s:=new_point t]> (ms_elems s)) by exact Fel.
  assert (Hnone : ∀ id, ms_elems s !! id = None).
  { intros id. apply eq_None_not_Some. rewrite (g_elem _ _ _ Hg id), Hz. lia. }
  assert (Ht : elem_tids (first_store s q t) (num_vectors s) [t]).
  { exists (new_point t). rewrite Hel, lookup_insert_eq. split; [done|].
    split; [split; vm_compute; [by split|reflexivity|lia]|by vm_compute|by vm_compute]. }
  split_and!; [|done| | |done| | |done].
  - apply Hgo. right. simpl. rewrite Hz. by split_and!.
  - intros id Hid. rewrite Hel in Hid. destruct (decide (id = num_vectors s)) as [->|Hne]; [eauto|].
    rewrite lookup_insert_ne, Hnone in Hid by congruence. by destruct Hid.
  - intros id l (p & Hp & _). by rewrite Hnone in Hp.
  - by apply fresh_from.
  - unfold get_data. change (vector_pool (first_store s q t)) with
      (vector_pool (new_base s (new_point t) q (replicate (2 * ms_m s) default_cand))).
    rewrite Fv. apply lookup_insert_eq.
Qed.

(** ** [insert] *)

Lemma new_elem_ok s s' id t lev lev' :
  grows lev s lev' s' → ms_elems s' = <[id:=new_point t]> (ms_elems s) → ms_elems s !! id = None →
  elems_ok s → elems_ok s' ∧ tids_kept s s' ∧ elem_tids s' id [t] ∧ tids_from s s' t id.
Proof.
  intros _ Hel Hnone Hok.
  assert (Ht : elem_tids s' id [t]).
  { exists (new_point t). rewrite Hel, lookup_insert_eq. split; [done|].
    split; [split; vm_compute; [by split|reflexivity|lia]|by vm_compute|by vm_compute]. }
  assert (Hother : ∀ x l, x ≠ id → elem_tids s x l → elem_tids s' x l).
  { intros x l Hne (p & Hp & Hr). exists p. rewrite Hel, lookup_insert_ne by congruence. done. }
  split_and!; [| |done|by apply fresh_from].
  - intros x Hx. destruct (decide (x = id)) as [->|Hne]; [eauto|].
    rewrite Hel, lookup_insert_ne in Hx by congruence. destruct (Hok x Hx) as [l Hl]. eauto.
  - intros x l Hl. exists l. split; [|done]. apply Hother; [|done].
    intros ->. destruct Hl as (p & Hp & _). congruence.
Qed.

(** What one insertion guarantees. *)
Record inserted s (level : nat) q t s' (id : N) : Prop := {
  ins_graph : ∃ lev', graph_ok distance lev' s' ∧ entry_top lev' s' ∧
    (num_vectors s' ≠ num_vectors s → num_vectors s ≠ 0%N → ∃ cur, node_at lev' s' level id cur);
  ins_elems : elems_ok s';
  ins_kept : tids_kept s s';
  ins_vector : get_data s' id = Some q;
  ins_tid : ∃ l, elem_tids s' id l ∧ t ∈ l;
  ins_from : tids_from s s' t id;
  ins_old : ∀ x, (x < num_vectors s)%N → get_data s' x = get_data s x;
  ins_id : (id < num_vectors s')%N;
  ins_count : num_vectors s' = num_vectors s ∨ num_vectors s' = (num_vectors s + 1)%N ∧ id = num_vectors s;
  ins_uppers : (num_uppers s' <= num_uppers s + N.of_nat level)%N;
  ins_m : ms_m s' = ms_m s;
  ins_entry : ms_entry s' =
    if decide (num_vectors s' = num_vectors s) then ms_entry s
    else if decide (num_vectors s = 0%N) then EntryInfo id id 0
    else if decide (e_level (ms_entry s) < Z.of_nat level)%Z then EntryInfo id (e_cur (ms_entry s')) (Z.of_nat level)
    else ms_entry s;
}.

Lemma insert_first_ok lev s fuel ef level q t :
  graph_ok distance lev s → entry_top lev s → elems_ok s → num_vectors s = 0%N → ms_entry s = empty_entry →
  ∃ s' id, insert distance (PS:=PS) fuel ef s None level q t = Some (s', None, id) ∧
    inserted s level q t s' id.
Proof.
  intros Hg Ht Hok Hz Hent.
  destruct (first_store_ok lev s q t Hg Hz Hok) as (F1 & F2 & F3 & F4 & F5 & F5' & F6 & F7).
  exists (first_store s q t), (num_vectors s). split; [by eapply first_store_eq|].
  split; [|done|done|done|exists [t]; split; [done|by left]|done|apply (gr_data _ _ _ _ F2)|..].
  - exists lev. split_and!; [done| |done]. intros cur Hc. change (num_uppers (first_store s q t)) with (num_uppers s) in Hc.
    pose proof (uo_id _ _ _ _ (g_upper _ _ _ Hg cur Hc)). lia.
  - rewrite F7, Hz. lia.
  - right. split; [rewrite F7, Hz; done|done].
  - change (num_uppers (first_store s q t)) with (num_uppers s). lia.
  - apply F2.
  - rewrite decide_False by (rewrite F7, Hz; done). by rewrite decide_True.
Qed.

Lemma insert_spec lev s fuel ef level q t :
  graph_ok distance lev s → entry_top lev s → elems_ok s → 0 < ef → S ef + N.to_nat (num_vectors s) < fuel →
  (num_vectors s < INVALID_VECTOR_ID)%N →
  (num_uppers s + N.of_nat level <= INVALID_VECTOR_ID)%N →
  ∃ s' id, insert distance (PS:=PS) fuel ef s None level q t = Some (s', None, id) ∧
    inserted s level q t s' id.
Proof.
  intros Hg Htop Hok Hef Hfuel Hn Hu. destruct (g_entry _ _ _ Hg) as [[Hz Hent]|(Hl0 & Hid & Hat)].
  { by apply (insert_first_ok lev). }
  assert (Hnz : num_vectors s ≠ 0%N) by lia.
  set (entry := ms_entry s) in *. set (il := Z.of_nat level). unfold insert. simpl get_entry. fold entry il.
  destruct (Z.eqb_spec (e_level entry) (-1)) as [|_]; [lia|].
  set (x0 := mk_cand (V:=Vec) (e_id entry) (e_cur entry) (get_distance s q (e_id entry))).
  set (sl := Z.to_nat (Z.min il (e_level entry))).
  destruct (descend_at distance lev s q fuel (Z.to_nat (e_level entry - il)) sl x0 Hg) as (x & -> & Hxat & Hxd);
    [by replace (Z.to_nat (e_level entry - il) + sl) with (Z.to_nat (e_level entry)) by lia|done|lia|].
  cbn [mbind option_bind].
  destruct (search_down_spec distance lev s q fuel ef sl [x] Hg) as (ep & recs & -> & Hep & Hepl & Hrl & Hrec);
    [by apply single_cand|done|simpl; lia|]. cbn [mbind option_bind]. simpl in Hepl.
  destruct (layer_search distance lev s 0 q ep ef fuel Hg Hep Hef) as (r & Hr & _ & Hrc & _); [lia|].
  simpl in Hr. rewrite Hr. cbn [mbind option_bind].
  pose proof (neighbors_data_cands lev s s 0 q r Hrc) as Hrc'.
  destruct (neighbors_data_fields s r) as [_ Hfields].
  destruct (apply_arrangement_ok s q t (get_neighbors_data s r) Hok)
    as (s1 & strat & -> & A1 & A2 & A3 & A4 & A5 & A6).
  { intros y Hy. split; [by apply Hfields|]. apply (g_elem _ _ _ Hg).
    eapply (node_at_id distance); [done|]. by apply (lc_at _ _ _ _ _ _ Hrc'). }
  cbn [mbind option_bind]. pose proof (same_graph_grows lev s s1 A3) as Hgr1.
  assert (Hg1 : graph_ok distance lev s1).
  { apply (same_graph_ok distance lev s); [done|done|done|].
    apply (entry_inv_grows lev s); [done|done|done|apply Hg]. }
  assert (Hent1 : ms_entry s1 = ms_entry s) by done.
  destruct strat as [id|].
  { destruct A6 as (Hd & Ht & Hfr). exists s1, id. split; [done|].
    split; [|done|done|done|done|done|apply (gr_data _ _ _ _ Hgr1)|..].
    - exists lev. split_and!; [done| |intros Hne; by destruct Hne; apply A3].
      apply (entry_top_grows lev s lev s1 0 Hgr1 Htop); [|rewrite Hent1; lia|rewrite Hent1; fold entry; lia]. intros c Hc1 Hc2. rewrite (sg_u _ _ A3) in Hc2. lia.
    - apply (g_vec _ _ _ Hg1). by eexists.
    - left. apply (sg_n _ _ A3).
    - rewrite (sg_u _ _ A3). lia.
    - apply Hgr1.
    - by rewrite decide_True by apply A3. }
  assert (Hn1 : num_vectors s1 = num_vectors s) by apply A3.
  assert (Hu1 : num_uppers s1 = num_uppers s) by apply A3.
  destruct (insert_new_point_ok lev s1 q t (get_neighbors_data s r) recs)
    as (s2 & cur & lev2 & -> & B1 & B2 & B3 & B4 & B5 & B6 & B7 & B8 & B9); [done|congruence|congruence| | | |].
  { rewrite Hu1, Hrl. unfold sl, il. lia. }
  { exact (layer_cands_grows lev s lev s1 0 q _ Hg Hgr1 Hrc'). }
  { intros i c Hi. exact (layer_cands_grows lev s lev s1 _ q _ Hg Hgr1 (Hrec i c Hi)). }
  cbn [mbind option_bind].
  destruct (update_entry_ok lev2 s2 (num_vectors s1) cur (e_level entry) il (length recs) B1 B3)
    as (lev3 & C1 & C2 & C3 & C4 & C5 & C6 & C7 & C8); [by rewrite Hrl|lia|done|rewrite B7, Hu1, Hrl; unfold sl, il; lia|].
  set (s3 := update_entry s2 (num_vectors s1) cur (e_level entry) il) in *.
  destruct (new_elem_ok s1 s3 (num_vectors s1) t lev lev3) as (E1 & E2 & E3 & E4);
    [by eapply grows_trans|by rewrite C3, B4| |done|].
  { apply eq_None_not_Some. rewrite (g_elem _ _ _ Hg1). lia. }
  exists s3, (num_vectors s1). split; [done|].
  assert (Hgr3 : grows lev s lev3 s3) by (eapply grows_trans; [exact Hgr1|]; by eapply grows_trans).
  split; [|done|by eapply tids_kept_trans| |exists [t]; split; [done|by left]|by eapply tids_from_trans|apply (gr_data _ _ _ _ Hgr3)|..].
  - exists lev3. split_and!; [done| |].
    + apply C7; [by rewrite B5, Hent1|]. apply (entry_top_grows lev s lev2 s2 (length recs)); [exact (grows_trans _ _ _ _ _ _ Hgr1 B2)|done| |rewrite B5, Hent1; lia|].
      * intros c Hc1 Hc2. apply B9; [lia|done].
      * rewrite B5, Hent1, Hrl. fold entry. unfold sl. lia.
    + intros _ _. destruct C8 as [c Hc]. exists c. unfold il in Hc. by rewrite Nat2Z.id in Hc.
  - rewrite (gr_data _ _ _ _ C2); [done|]. rewrite B6. lia.
  - rewrite C4, B6. lia.
  - right. split; [by rewrite C4, B6, Hn1|done].
  - rewrite C5, B7, Hrl, Hu1. unfold sl, il. lia.
  - apply Hgr3.
  - rewrite decide_False by (rewrite C4, B6, Hn1; lia). rewrite decide_False by done. rewrite C6, B5, Hent1. fold entry il. by destruct (decide (e_level entry < il)%Z).
Qed.
End Insert.
