(* ===== verification/GraphBuildTop.v ===== *)
(** * Building a graph and searching it

    A build is a sequence of calls of [insert] on one [MemStore] (the callback of
    the table scan calls it once per row), each with the level drawn for the row.
    Every build within the 32-bit id space succeeds; afterwards every row is found
    with its own vector, and a search of the built graph only answers rows of the
    build, each with its true distance. *)
From Stdlib Require Import Permutation Sorted ZArith Lia.
From stdpp Require Import prelude gmap sorting.
From S2P Require Import Prelude Dist PriorityQueue Graph GraphSearch GraphSearchFacts GraphSearchTop GraphPoint GraphPointFacts GraphPointVacuum MemStore GraphBuild GraphPrune GraphRows GraphInv GraphGrow GraphBuildFacts.

Section BuildTop.
Context {D Vec : Type} `{DistOrd D} `{EqDecision Vec} (distance : Vec → Vec → D).
Context {PS : Type} `{PlainStoreLaws PS}.
Hypothesis dist_sym : ∀ x y, distance x y = distance y x.
Implicit Types s : mem_store D Vec.
#[local] Hint Extern 0 (SearchStore (mem_store D Vec) _ _) => exact (mem_search distance) : typeclass_instances.

Abbreviation elem_tids := (elem_tids (D:=D) (Vec:=Vec) (PS:=PS)).
Abbreviation elems_ok := (elems_ok (D:=D) (Vec:=Vec) (PS:=PS)).

(** A row of the table: the level drawn for it, its vector, its tid. *)
Definition row : Type := nat * Vec * tid.

Fixpoint build (fuel ef : nat) s (rows : list row) : option (mem_store D Vec) :=
  match rows with
  | [] => Some s
  | (level, v, t) :: rows =>
    '(s, _, _) ← insert distance (PS:=PS) fuel ef s None level v t;
    build fuel ef s rows
  end.

Definition levels (rows : list row) : nat := sum_list_with (λ r, r.1.1) rows.

(** The tids of node [id]. *)
Definition tids_at s (id : N) : list tid :=
  default [] (p ← ms_elems s !! id; get_tids p (None : option PS)).

(** The rows recorded in a store: each is with a node that holds its vector, and
    nothing else is. *)
Record holds s (rows : list row) : Prop := {
  h_in : ∀ level v t, (level, v, t) ∈ rows →
    ∃ id l, get_data s id = Some v ∧ elem_tids s id l ∧ t ∈ l;
  h_only : ∀ id l t, elem_tids s id l → t ∈ l →
    ∃ level v, (level, v, t) ∈ rows ∧ get_data s id = Some v;
}.

Lemma empty_store_ok m : 0 < m → graph_ok distance (λ _, 0) (empty_store (D:=D) (Vec:=Vec) m).
Proof.
  intros Hm. split; simpl; try done; try (intros; unfold get_data; rewrite ?lookup_empty; simpl;
    split; [by intros []|lia]); try (intros; lia).
  by left.
Qed.

Lemma empty_store_top m : entry_top (λ _, 0) (empty_store (D:=D) (Vec:=Vec) m).
Proof. intros cur Hc. simpl in Hc. lia. Qed.

Lemma tids_at_eq s id l : elem_tids s id l → tids_at s id = l.
Proof.
  intros (p & Hp & Hl). unfold tids_at. rewrite Hp. cbn [mbind option_bind].
  by rewrite (represents_get_tids _ _ _ Hl).
Qed.

Lemma elem_id lev s id l : graph_ok distance lev s → elem_tids s id l → (id < num_vectors s)%N.
Proof. intros Hg (p & Hp & _). apply (g_elem _ _ _ Hg). by eexists. Qed.

Lemma inserted_holds lev s level v t s' id rows :
  graph_ok distance lev s → inserted distance (PS:=PS) s level v t s' id → holds s rows →
  holds s' (rows ++ [(level, v, t)]).
Proof.
  intros Hg Hi [Hin Honly]. split.
  - intros level' v' t' [Hr|Hr]%elem_of_app.
    + destruct (Hin _ _ _ Hr) as (x & l & Hx & Hl & Ht).
      destruct (ins_kept _ _ _ _ _ _ _ Hi x l Hl) as (l' & Hl' & k & ->).
      exists x, (l ++ k). rewrite (ins_old _ _ _ _ _ _ _ Hi) by (by eapply elem_id).
      split_and!; [done|done|]. apply elem_of_app. by left.
    + apply list_elem_of_singleton in Hr. simplify_eq. destruct (ins_tid _ _ _ _ _ _ _ Hi) as (l & Hl & Ht).
      exists id, l. split_and!; [apply (ins_vector _ _ _ _ _ _ _ Hi)|done|done].
  - intros x l u Hl Hu. destruct (ins_from _ _ _ _ _ _ _ Hi x l u Hl Hu) as [(l0 & Hl0 & Hu0)|[-> ->]].
    + destruct (Honly _ _ _ Hl0 Hu0) as (level' & v' & Hr & Hx). exists level', v'.
      rewrite (ins_old _ _ _ _ _ _ _ Hi) by (by eapply elem_id). split; [apply elem_of_app; by left|done].
    + exists level, v. split; [apply elem_of_app; right; by left|apply (ins_vector _ _ _ _ _ _ _ Hi)].
Qed.

Lemma build_ok fuel ef lev s done rows :
  graph_ok distance lev s → entry_top lev s → elems_ok s → holds s done → 0 < ef →
  S ef + N.to_nat (num_vectors s) + length rows ≤ fuel →
  (num_vectors s + N.of_nat (length rows) <= INVALID_VECTOR_ID)%N →
  (num_uppers s + N.of_nat (levels rows) <= INVALID_VECTOR_ID)%N →
  ∃ s' lev', build fuel ef s rows = Some s' ∧ graph_ok distance lev' s' ∧ elems_ok s' ∧
    holds s' (done ++ rows) ∧ ms_m s' = ms_m s ∧
    (num_vectors s' <= num_vectors s + N.of_nat (length rows))%N.
Proof.
  revert lev s done. induction rows as [|[[level v] t] rows IH]; intros lev s dn Hg Htop Hok Hh Hef Hf Hn Hu.
  { exists s, lev. rewrite app_nil_r. split_and!; [done..|simpl; lia]. }
  unfold levels in Hu. simpl in Hf, Hn, Hu. fold (levels rows) in Hu.
  destruct (insert_spec distance (PS:=PS) dist_sym lev s fuel ef level v t Hg Htop Hok Hef)
    as (s1 & id & Hrun & Hi); [lia|lia|lia|].
  destruct (ins_graph _ _ _ _ _ _ _ Hi) as (lev1 & Hg1 & Htop1 & _).
  pose proof (ins_uppers _ _ _ _ _ _ _ Hi) as Hu1.
  assert (Hn1 : (num_vectors s1 <= num_vectors s + 1)%N)
    by (destruct (ins_count _ _ _ _ _ _ _ Hi) as [->|[-> _]]; lia).
  destruct (IH lev1 s1 (dn ++ [(level, v, t)]) Hg1 Htop1 (ins_elems _ _ _ _ _ _ _ Hi)
    (inserted_holds _ _ _ _ _ _ _ _ Hg Hi Hh) Hef) as (s2 & lev2 & Hb & R1 & R2 & R3 & R4 & R5); [lia|lia|lia|].
  exists s2, lev2. simpl. rewrite Hrun. cbn [mbind option_bind]. rewrite <- app_assoc in R3.
  split_and!; [done|done|done|done|by rewrite R4, (ins_m _ _ _ _ _ _ _ Hi)|simpl; lia].
Qed.

Lemma build_empty fuel ef m rows :
  0 < m → 0 < ef → S ef + length rows ≤ fuel →
  (N.of_nat (length rows) <= INVALID_VECTOR_ID)%N → (N.of_nat (levels rows) <= INVALID_VECTOR_ID)%N →
  ∃ s lev, build fuel ef (empty_store m) rows = Some s ∧ graph_ok distance lev s ∧ holds s rows ∧
    elems_ok s ∧ ms_m s = m ∧ (num_vectors s <= N.of_nat (length rows))%N.
Proof.
  intros Hm Hef Hf Hn Hu.
  destruct (build_ok fuel ef (λ _, 0) (empty_store m) [] rows (empty_store_ok m Hm) (empty_store_top m))
    as (s & lev & Hb & R1 & R2 & R3 & R4 & R5); [|split|done|simpl; lia|simpl; lia|simpl; lia|].
  - intros id [p Hp]. simpl in Hp. by rewrite lookup_empty in Hp.
  - intros level v t Hr. by apply elem_of_nil in Hr.
  - intros id l t (p & Hp & _). simpl in Hp. by rewrite lookup_empty in Hp.
  - exists s, lev. simpl in R3, R4, R5. split_and!; [done..|lia].
Qed.

Lemma tids_at_elem s id t : t ∈ tids_at s id → elems_ok s → ∃ l, elem_tids s id l ∧ t ∈ l.
Proof.
  intros Ht Hok. destruct (ms_elems s !! id) as [p|] eqn:Hp.
  - destruct (Hok id) as [l Hl]; [by eexists|]. exists l. split; [done|]. by rewrite <- (tids_at_eq s id l Hl).
  - unfold tids_at in Ht. rewrite Hp in Ht. by apply elem_of_nil in Ht.
Qed.

(** C3: [insert] keeps the graph well formed. On a store that satisfies the
    invariant (ids and layer indices in range, padded duplicate-free rows, edges
    within their layer and never to the node itself, exact cached distances, links
    to the layer below, the entry point a node of its level with no record above it),
    with room in the 32-bit id spaces, [insert] returns and the new store satisfies
    the invariant. Vectors and tids already there stay, and the tid is recorded with a
    node whose vector is the inserted one and nowhere else. At most one node is added;
    a node added to a graph that has nodes has a record on the drawn level, and it
    becomes the entry point exactly when that level is above the old one. (The distance
    is symmetric, and tids are kept in the element itself: there is no item store, as
    in a build in memory.) *)
Theorem insert_preserves_graph lev s fuel ef level v t :
  graph_ok distance lev s → entry_top lev s → elems_ok s → 0 < ef → S ef + N.to_nat (num_vectors s) < fuel →
  (num_vectors s < INVALID_VECTOR_ID)%N →
  (num_uppers s + N.of_nat level <= INVALID_VECTOR_ID)%N →
  ∃ s' id, insert distance (PS:=PS) fuel ef s None level v t = Some (s', None, id) ∧
    inserted distance (PS:=PS) s level v t s' id.
Proof. exact (insert_spec distance dist_sym lev s fuel ef level v t). Qed.

(** C24: building from nothing. Every sequence of insertions into an empty store,
    whatever the drawn levels, succeeds as long as the id spaces suffice; the result
    satisfies the graph invariant and holds exactly the rows of the sequence, each
    with a node that carries its vector. (The distance is symmetric, and the tids of a
    node stay in its element: there is no page store.) *)
Theorem build_holds_rows fuel ef m rows :
  0 < m → 0 < ef → S ef + length rows ≤ fuel →
  (N.of_nat (length rows) <= INVALID_VECTOR_ID)%N → (N.of_nat (levels rows) <= INVALID_VECTOR_ID)%N →
  ∃ s lev, build fuel ef (empty_store m) rows = Some s ∧ graph_ok distance lev s ∧ holds s rows.
Proof.
  intros Hm Hef Hf Hn Hu.
  destruct (build_empty fuel ef m rows Hm Hef Hf Hn Hu) as (s & lev & Hb & Hg & Hh & _).
  exists s, lev. split_and!; done.
Qed.

(** C4: build, then search. A query against a built graph returns, its answer is
    in ascending order of distance, and every entry of it is the tid of an inserted
    row with the exact distance between the query and that row's vector. (The distance
    is symmetric, and the tids of a node stay in its element: there is no page store.) *)
Theorem search_of_build fuel ef m rows q ef_search :
  0 < m → 0 < ef → S (S (S ef)) + length rows ≤ fuel → (0 < ef_search)%N →
  (N.of_nat (length rows) <= INVALID_VECTOR_ID)%N → (N.of_nat (levels rows) <= INVALID_VECTOR_ID)%N →
  ∃ s res, build fuel ef (empty_store m) rows = Some s ∧
    search (V:=Vec) fuel m false s q ef_search (λ _, true) (λ _, None) (tids_at s) = Some res ∧
    StronglySorted (λ a b, not_after dlt a.2 b.2) res ∧
    ∀ t d, (t, d) ∈ res → ∃ level v, (level, v, t) ∈ rows ∧ d = distance q v.
Proof.
  intros Hm Hef Hf Hefs Hn Hu.
  destruct (build_empty fuel ef m rows Hm Hef ltac:(lia) Hn Hu) as (s & lev & Hb & Hg & Hh & Hok & Hms & Hns).
  destruct (search_result (S:=mem_store D Vec) (D:=D) (Q:=Vec) (V:=Vec) fuel (ms_m s) false s q ef_search
    (λ _, true) (λ _, None) (tids_at s) _ (graph_store_closed distance lev s Hg) Hefs)
    as (res & Hres & Hs & Hall); [rewrite size_ids_below; lia|].
  exists s, res. rewrite Hms in Hres. split_and!; [done|done|done|].
  intros t d (id & Ht & _ & ->)%Hall. destruct (tids_at_elem s id t Ht Hok) as (l & Hl & Htl).
  destruct (h_only _ _ Hh id l t Hl Htl) as (level & v & Hr & Hv). exists level, v. split; [done|].
  unfold final_dist. simpl. by rewrite Hv.
Qed.
End BuildTop.

(** ** Six points on a line, one of them twice *)
Module Line.

Definition dist1 (a b : Z) : Z := Z.abs (a - b).
Lemma dist1_sym x y : dist1 x y = dist1 y x.
Proof. unfold dist1. lia. Qed.

Definition rows : list (row (Vec:=Z)) :=
  [(0, 10%Z, (1, 1)%N); (1, 20%Z, (1, 2)%N); (0, 30%Z, (1, 3)%N); (2, 15%Z, (1, 4)%N);
   (0, 25%Z, (1, 5)%N); (0, 20%Z, (1, 6)%N)].

Example rows_built :
  (s ← build dist1 (PS:=gmap tid item) 100 4 (empty_store 2) rows;
   Some (num_vectors s, num_uppers s, ms_entry s, tids_at (PS:=gmap tid item) s 1)) =
  Some (5%N, 3%N, EntryInfo 3 2 2, [(1, 2)%N; (1, 6)%N]).
Proof. vm_compute. reflexivity. Qed.

Lemma insert_preserves_graph_witness :
  ∃ s' id, insert dist1 (PS:=gmap tid item) 100 4 (empty_store 2) None 1 10%Z (1, 1)%N = Some (s', None, id) ∧
    inserted dist1 (PS:=gmap tid item) (empty_store 2) 1 10%Z (1, 1)%N s' id.
Proof.
  apply (insert_preserves_graph dist1 (PS:=gmap tid item) dist1_sym (λ _, 0)).
  - apply empty_store_ok. lia.
  - apply empty_store_top.
  - intros id [p Hp]. discriminate Hp.
  - lia.
  - simpl. lia.
  - reflexivity.
  - simpl. unfold INVALID_VECTOR_ID. lia.
Defined.

Lemma build_holds_rows_witness :
  ∃ s lev, build dist1 (PS:=gmap tid item) 100 4 (empty_store 2) rows = Some s ∧ graph_ok dist1 lev s ∧
    holds (PS:=gmap tid item) s rows.
Proof.
  apply (build_holds_rows dist1 (PS:=gmap tid item) dist1_sym 100 4 2 rows).
  - lia.
  - lia.
  - simpl. lia.
  - discriminate.
  - discriminate.
Defined.

Lemma search_of_build_witness :
  ∃ s res, build dist1 (PS:=gmap tid item) 100 4 (empty_store 2) rows = Some s ∧
    search (V:=Z) (H0:=mem_search dist1) 100 2 false s 21%Z 3 (λ _, true) (λ _, None)
      (tids_at (PS:=gmap tid item) s) = Some res ∧
    ∀ t d, (t, d) ∈ res → ∃ level v, (level, v, t) ∈ rows ∧ d = dist1 21 v.
Proof.
  destruct (search_of_build dist1 (PS:=gmap tid item) dist1_sym 100 4 2 rows 21%Z 3)
    as (s & res & Hb & Hr & _ & Hall).
  - lia.
  - lia.
  - simpl. lia.
  - lia.
  - discriminate.
  - discriminate.
  - exists s, res. exact (conj Hb (conj Hr Hall)).
Defined.
End Line.
