(* ===== verification/GraphRepair.v ===== *)
(** * Repairing the graph after a vacuum

    [repair_entry], [repair_basepoint] and [repair_upperpoint] of
    [src/common/include/graph_index/graph_index_algorithm.h], with the range loops
    of [src/vexdb_pg/src/graph_index/graph_index_vacuum.cpp]. [deleted] is the set
    of nodes the vacuum found dead.

    The point repairs run over [DiskStore] ([use_dist_cache] set): rows are read
    without cached distances and reverse edges write a slot only. The candidates
    of a repair start at distance [zero], the code's [0.0f]. *)
From Stdlib Require Import Permutation Sorted ZArith Lia.
From stdpp Require Import prelude gmap sorting.
From S2P Require Import Prelude Dist PriorityQueue Graph GraphSearch GraphSearchFacts GraphSearchTop GraphPoint MemStore GraphBuild GraphPrune GraphRows GraphInv GraphGrow GraphBuildFacts.

Section Repair.
Context {D Vec : Type} `{DistOrd D} `{EqDecision Vec} (distance : Vec → Vec → D) (zero : D).
Implicit Types s : mem_store D Vec.
#[local] Hint Extern 0 (SearchStore (mem_store D Vec) _ _) => exact (mem_search distance) : typeclass_instances.

Abbreviation cand' := (cand D Vec).

(** ** The entry point *)

Definition live (deleted : gset N) (self id : N) : bool :=
  bool_decide (id ≠ self) && bool_decide (id ∉ deleted).

(** The upper levels [l], ..., 1. When a level has no live point the next search
    starts from the lower index of the entry's own record. *)
Fixpoint repair_levels (fuel : nat) s (query : Vec) (deleted : gset N) (entry : entry_info)
    (l : nat) (ep : list cand') : option (option (N * N * Z) * list cand') :=
  match l with
  | O => Some (None, ep)
  | S l' =>
    ep ← search_layer fuel s query false ep 1 (live deleted (e_id entry));
    match ep with
    | new_entry :: _ => Some (Some (c_id new_entry, c_cur new_entry, Z.of_nat l), ep)
    | [] =>
      let lower := pi_lower (get_point_info s false (e_cur entry)) in
      repair_levels fuel s query deleted entry l' [mk_cand (e_id entry) lower zero]
    end
  end.

(** The search of the base layer, when no upper level gave an entry. *)
Definition repair_entry_base (fuel : nat) s (query : Vec) (deleted : gset N) (entry : entry_info)
    (ep : list cand') : option (mem_store D Vec) :=
  ep ← search_layer fuel s query true ep 1 (live deleted (e_id entry));
  match ep with
  | new_entry :: _ => Some (set_entrypoint s (c_id new_entry) (c_cur new_entry) 0)
  | [] => Some (set_entrypoint s INVALID_VECTOR_ID INVALID_VECTOR_ID (-1))
  end.

Definition repair_entry (fuel : nat) s (deleted : gset N) : option (mem_store D Vec) :=
  let entry := get_entry s in
  if negb (bool_decide (e_id entry ∈ deleted)) then Some s
  else
    query ← get_data s (e_id entry);
    '(found, ep) ← repair_levels fuel s query deleted entry (Z.to_nat (e_level entry))
                     [mk_cand (e_id entry) (e_cur entry) zero];
    match found with
    | Some (id, cur, l) => Some (set_entrypoint s id cur l)
    | None => repair_entry_base fuel s query deleted entry ep
    end.

(** ** Points *)

Fixpoint need_update (deleted : gset N) (neighbors_id : list N) : bool :=
  match neighbors_id with
  | [] => false
  | id :: rest =>
    if is_valid id then if bool_decide (id ∈ deleted) then true else need_update deleted rest
    else false
  end.

Definition set_base_neighbors s (id : N) (neighbors_id : list N) : mem_store D Vec :=
  let b := get_base s id in set_base s id (BasePoint neighbors_id (bp_dists b) (bp_stat b)).

Definition set_upper_neighbors s (cur : N) (neighbors_id neighbors_cur : list N) : mem_store D Vec :=
  let u := get_upper s cur in
  set_upper s cur (UpperPoint neighbors_id neighbors_cur (up_lower u) (up_id u) (up_dists u) (up_stat u)).

(** [DiskStore::get_neighbors]: the row of [point.id] (base) or [point.cur_layer_idx]. *)
Definition disk_neighbors (base : bool) s (point : cand') : list cand' :=
  (λ p, mk_cand p.1 p.2 FLT_MAX) <$> edges s base (if base then c_id point else c_cur point).

(** [update_reverse_edges] with the distance cache: no statistics are kept. *)
Definition disk_reverse_edge (base check_exist : bool) s (nbr : cand') (new_id new_cur : N) :
    mem_store D Vec :=
  let r := disk_neighbors base s nbr in
  let pruned := (select_pruned distance true check_exist s (get_nbr_num base (ms_m s)) r new_id [] nbr).1 in
  if (0 <=? pruned)%Z then set_neighbor base s (c_cur nbr) (Z.to_nat pruned) new_id new_cur else s.

Fixpoint disk_reverse_edges (base check_exist : bool) s (neighbors : list cand') (new_id new_cur : N) :
    mem_store D Vec :=
  match neighbors with
  | [] => s
  | nbr :: rest =>
    if is_valid (c_id nbr) then
      disk_reverse_edges base check_exist (disk_reverse_edge base check_exist s nbr new_id new_cur)
        rest new_id new_cur
    else s
  end.

Definition repair_basepoint (fuel ef_construction : nat) s (id : N) (deleted : gset N) :
    option (mem_store D Vec) :=
  let nbr_num := 2 * ms_m s in
  if negb (need_update deleted (take nbr_num (pi_nbr_id (get_point_info s true id)))) then Some s
  else
    query ← get_data s id;
    ep ← search_layer fuel s query true [mk_cand id id zero] ef_construction (live deleted id);
    let new_neighbors := select_neighbors distance nbr_num (get_neighbors_data s ep) in
    let s := set_base_neighbors s id (take nbr_num (c_id <$> new_neighbors)) in
    Some (disk_reverse_edges true false s new_neighbors id id).

Definition repair_upperpoint (fuel ef_construction : nat) s (cur : N) (deleted : gset N) :
    option (mem_store D Vec) :=
  let id := up_id (get_upper s cur) in
  if bool_decide (id ∈ deleted) then Some s
  else if negb (need_update deleted (take (ms_m s) (pi_nbr_id (get_point_info s false cur)))) then Some s
  else
    query ← get_data s id;
    ep ← search_layer fuel s query false [mk_cand id cur zero] ef_construction (live deleted id);
    let new_neighbors := select_neighbors distance (ms_m s) (get_neighbors_data s ep) in
    let s := set_upper_neighbors s cur (take (ms_m s) (c_id <$> new_neighbors))
               (take (ms_m s) (c_cur <$> new_neighbors)) in
    Some (disk_reverse_edges false false s new_neighbors id cur).

(** ** The passes of a vacuum *)

Fixpoint repair_base_range (fuel ef_construction : nat) s (start : N) (num : nat) (deleted : gset N) :
    option (mem_store D Vec) :=
  match num with
  | O => Some s
  | S num =>
    s ← (if bool_decide (start ∈ deleted) then Some s
         else repair_basepoint fuel ef_construction s start deleted);
    repair_base_range fuel ef_construction s (start + 1) num deleted
  end.

Fixpoint repair_upper_range (fuel ef_construction : nat) s (start : N) (num : nat) (deleted : gset N) :
    option (mem_store D Vec) :=
  match num with
  | O => Some s
  | S num =>
    s ← repair_upperpoint fuel ef_construction s start deleted;
    repair_upper_range fuel ef_construction s (start + 1) num deleted
  end.
End Repair.
