(* ===== verification/GraphRepairFacts.v ===== *)
(** * What the repairs achieve

    [repair_entry] on an entry of level 0 or 1 ends on a live node of the graph,
    or empties the entry when nothing in reach of it is live; two levels without a
    live point send it to a wrong index. A pass of [repair_base_range] leaves no
    live base point with an edge to a deleted one; its reverse edges do not look
    for an edge that is already there. *)
From Stdlib Require Import Permutation Sorted ZArith Lia.
From stdpp Require Import prelude gmap sorting.
From S2P Require Import Prelude Dist PriorityQueue Graph GraphSearch GraphSearchFacts GraphSearchTop GraphPoint MemStore GraphBuild GraphPrune GraphRows GraphInv GraphGrow GraphBuildFacts GraphPointVacuum GraphBuildTop GraphRepair.

Lemma dup_fst (k : list N) : fst <$> ((λ x, (x, x)) <$> k) = k.
Proof. induction k; f_equal/=; done. Qed.

Lemma dup_snd (k : list N) : snd <$> ((λ x, (x, x)) <$> k) = k.
Proof. induction k; f_equal/=; done. Qed.

Section RepairFacts.
Context {D Vec : Type} `{DistOrd D} `{EqDecision Vec} (distance : Vec → Vec → D) (zero : D).
Hypothesis self_distance : ∀ v, distance v v = zero.
Implicit Types s : mem_store D Vec.
#[local] Hint Extern 0 (SearchStore (mem_store D Vec) _ _) => exact (mem_search distance) : typeclass_instances.

Lemma self_cand s q id cur :
  get_data s id = Some q → GraphSearchFacts.entry_ok s q [mk_cand (V:=Vec) id cur zero].
Proof.
  intros Hd. split; [intros i Hi; simpl in Hi; lia|apply NoDup_singleton|].
  intros c ->%list_elem_of_singleton. simpl. by rewrite Hd, self_distance.
Qed.

Lemma live_spec deleted self id : live deleted self id = true ↔ id ≠ self ∧ id ∉ deleted.
Proof. unfold live. by rewrite andb_true_iff, !bool_decide_eq_true. Qed.

(** A search for one live node from a node of layer [l]. *)
Lemma repair_search lev s fuel q l id cur deleted :
  graph_ok distance lev s → get_data s id = Some q → node_at lev s l id cur →
  1 + N.to_nat (num_vectors s) < fuel →
  ∃ r, search_layer fuel s q (is_base l) [mk_cand (V:=Vec) id cur zero] 1 (live deleted id) = Some r ∧
    match r with
    | c :: _ => node_at lev s l (c_id c) (c_cur c) ∧ c_id c ∉ deleted
    | [] => l = 0 → (∀ x, (x < num_vectors s)%N → dlt (get_distance s q x) FLT_MAX = true) →
        ∀ p, reachable s true [(id, cur)] p → p.1 = id ∨ p.1 ∈ deleted
    end.
Proof.
  intros Hg Hq Hat Hfuel. set (ep := [mk_cand (V:=Vec) id cur zero]).
  assert (Hcl : ∀ p, reachable s (is_base l) (starts ep) p → node_at lev s l p.1 p.2).
  { intros p Hp. eapply (layer_closed distance lev s l ep); [done| |done].
    by intros x ->%list_elem_of_singleton. }
  assert (Hcov : covers s (is_base l) ep (ids_below (N.to_nat (num_vectors s)))).
  { intros p Hp. apply elem_of_ids_below. rewrite N2Nat.id. eapply (node_at_id distance); [done|by apply Hcl]. }
  destruct (search_layer_result s q (is_base l) 1 (live deleted id) ep _ fuel ltac:(lia) (self_cand s q id cur Hq) Hcov)
    as (r & Hr & _ & _ & _ & Hall); [rewrite size_ids_below; simpl; lia|].
  exists r. split; [done|]. destruct r as [|c r].
  - intros -> Hmax p Hp.
    destruct (decide (p.1 = id)) as [|Hne]; [by left|]. right.
    destruct (decide (p.1 ∈ deleted)) as [|Hnd]; [done|exfalso].
    assert (Hf : live deleted id p.1 = false).
    { eapply (search_layer_empty s q true 1 (live deleted id) ep); [lia|by apply self_cand|done| | | |done|done].
      - rewrite size_ids_below. simpl. lia.
      - intros v Hv. apply Hmax. apply elem_of_ids_below in Hv. by rewrite N2Nat.id in Hv.
      - intros p1 p2 H1%Hcl H2%Hcl He. destruct H1 as [_ ->], H2 as [_ ->]. done. }
    apply not_true_iff_false in Hf. apply Hf, live_spec. done.
  - destruct (Hall c ltac:(left)) as (Hl & _ & Hre & _). apply live_spec in Hl as [_ Hl].
    split; [by apply Hcl in Hre|done].
Qed.

Lemma repair_entry_base_ok lev s fuel q deleted entry :
  graph_ok distance lev s → get_data s (e_id entry) = Some q → (e_id entry < num_vectors s)%N →
  e_id entry ∈ deleted → 1 + N.to_nat (num_vectors s) < fuel →
  (∀ x, (x < num_vectors s)%N → dlt (get_distance s q x) FLT_MAX = true) →
  ∃ s', repair_entry_base distance fuel s q deleted entry [mk_cand (e_id entry) (e_id entry) zero] = Some s' ∧
    same_graph s s' ∧ ms_elems s' = ms_elems s ∧
    ((graph_ok distance lev s' ∧ e_id (ms_entry s') ∉ deleted) ∨
     (ms_entry s' = empty_entry ∧
      ∀ p, reachable s true [(e_id entry, e_id entry)] p → p.1 ∈ deleted)).
Proof.
  intros Hg Hq Hid Hdel Hfuel Hmax.
  destruct (repair_search lev s fuel q 0 (e_id entry) (e_id entry) deleted Hg Hq) as (r & Hr & Hres); [done|done|].
  unfold repair_entry_base. simpl in Hr. rewrite Hr. cbn [mbind option_bind]. destruct r as [|c r].
  - eexists. split_and!; [done|done|done|]. right. split; [done|]. intros p Hp.
    destruct (Hres eq_refl Hmax p Hp) as [->|]; done.
  - destruct Hres as [Hc Hnd]. eexists. split_and!; [done|done|done|]. left. split; [|done].
    exact (set_entrypoint_ok distance lev s (c_id c) (c_cur c) 0 Hg Hc).
Qed.

(** [repair_entry] with the entry on level 0 or 1. An entry that is not
    deleted stays; otherwise the new entry is a live node of the graph on its
    level, or, when every node in reach of the old entry is deleted, the empty
    entry. Nothing else of the store changes. *)
Theorem repair_entry_live lev s fuel deleted :
  graph_ok distance lev s → (e_level (ms_entry s) <= 1)%Z → num_vectors s ≠ 0%N →
  1 + N.to_nat (num_vectors s) < fuel →
  (∀ q x, get_data s (e_id (ms_entry s)) = Some q → (x < num_vectors s)%N →
     dlt (get_distance s q x) FLT_MAX = true) →
  ∃ s', repair_entry distance zero fuel s deleted = Some s' ∧ same_graph s s' ∧ ms_elems s' = ms_elems s ∧
    (e_id (ms_entry s) ∉ deleted → s' = s) ∧
    (e_id (ms_entry s) ∈ deleted →
      (graph_ok distance lev s' ∧ e_id (ms_entry s') ∉ deleted) ∨
      (ms_entry s' = empty_entry ∧
       ∀ p, reachable s true [(e_id (ms_entry s), e_id (ms_entry s))] p → p.1 ∈ deleted)).
Proof.
  intros Hg Hl Hn Hfuel Hmax. unfold repair_entry. simpl get_entry. set (entry := ms_entry s) in *.
  case_bool_decide as Hdel; simpl; [|by exists s].
  destruct (g_entry _ _ _ Hg) as [[? _]|(Hl0 & Hid & Hat)]; [done|]. fold entry in Hl0, Hid, Hat.
  destruct (g_vec _ _ _ Hg (e_id entry)) as [_ Hd]. destruct (Hd Hid) as [q Hq]. rewrite Hq.
  cbn [mbind option_bind].
  pose proof (repair_entry_base_ok lev s fuel q deleted entry Hg Hq Hid Hdel Hfuel (λ x, Hmax q x Hq)) as Hbase.
  destruct (Z.to_nat (e_level entry)) as [|[|l]] eqn:Hlev; [| |lia].
  - simpl in Hat. destruct Hat as [_ ->]. simpl. destruct Hbase as (s' & Hrun & R1 & R2 & R3).
    exists s'. split_and!; [done|done|done|done|done].
  - destruct (repair_search lev s fuel q 1 (e_id entry) (e_cur entry) deleted Hg Hq Hat Hfuel) as (r & Hr & Hres).
    cbn [repair_levels]. simpl in Hr. rewrite Hr. cbn [mbind option_bind]. destruct r as [|c r].
    + simpl. destruct Hat as (Hc & Hlc & Hic).
      pose proof (uo_lower _ _ _ _ (g_upper _ _ _ Hg _ Hc)) as Hlo. rewrite Hlc, Hic in Hlo.
      destruct Hlo as [_ ->]. destruct Hbase as (s' & Hrun & R1 & R2 & R3).
      exists s'. split_and!; [done|done|done|done|done].
    + destruct Hres as [Hc Hnd]. eexists. split_and!; [done|done|done|done|]. intros _. left.
      split; [|done]. exact (set_entrypoint_ok distance lev s (c_id c) (c_cur c) 1 Hg Hc).
Qed.

End RepairFacts.

(** ** The base pass *)

Section BasePass.
Context {D Vec : Type} `{DistOrd D} `{EqDecision Vec} (distance : Vec → Vec → D) (zero : D).
Implicit Types s : mem_store D Vec.
#[local] Hint Extern 0 (SearchStore (mem_store D Vec) _ _) => exact (mem_search distance) : typeclass_instances.

(** What the pass keeps: full-width rows, used slots first, ids in range. *)
Record base_rows s : Prop := {
  br_m : 0 < ms_m s;
  br_n : (num_vectors s <= INVALID_VECTOR_ID)%N;
  br_vec : ∀ id, (id < num_vectors s)%N → is_Some (get_data s id);
  br_row : ∀ id, ∃ k, bp_ids (get_base s id) = pad (2 * ms_m s) k ∧ length k ≤ 2 * ms_m s ∧
    ∀ x, x ∈ k → (x < num_vectors s)%N;
}.

Definition base_nbrs s (id : N) : list N := fst <$> edges s true id.

Definition purged (deleted : gset N) s (id : N) : Prop := ∀ x, x ∈ base_nbrs s id → x ∉ deleted.

Lemma pad_edges s id k :
  (num_vectors s <= INVALID_VECTOR_ID)%N →
  bp_ids (get_base s id) = pad (2 * ms_m s) k → length k ≤ 2 * ms_m s →
  (∀ x, x ∈ k → (x < num_vectors s)%N) → edges s true id = (λ x, (x, x)) <$> k.
Proof.
  intros Hn Hk Hl Hv. unfold edges, slots. simpl. rewrite Hk.
  pose proof (valid_prefix_pad (2 * ms_m s) ((λ x, (x, x)) <$> k) (pad (2 * ms_m s) k)) as Hp.
  rewrite dup_fst, dup_snd in Hp. apply Hp.
  - intros p (x & -> & Hx)%list_elem_of_fmap. simpl. apply Hv in Hx. unfold is_valid.
    destruct (N.eqb_spec x INVALID_VECTOR_ID); [lia|done].
  - by rewrite length_fmap.
  - by apply pad_length.
  - rewrite length_fmap. unfold pad. by rewrite take_app_length.
Qed.

Lemma base_row s id : base_rows s →
  ∃ k, bp_ids (get_base s id) = pad (2 * ms_m s) k ∧ length k ≤ 2 * ms_m s ∧
    edges s true id = (λ x, (x, x)) <$> k ∧ base_nbrs s id = k ∧ ∀ x, x ∈ k → (x < num_vectors s)%N.
Proof.
  intros Hb. destruct (br_row _ Hb id) as (k & Hk & Hl & Hv). exists k.
  pose proof (pad_edges s id k (br_n _ Hb) Hk Hl Hv) as He. split_and!; [done..| |done].
  unfold base_nbrs. by rewrite He, dup_fst.
Qed.

Lemma need_update_pad deleted s k w :
  (num_vectors s <= INVALID_VECTOR_ID)%N → (∀ x, x ∈ k → (x < num_vectors s)%N) → length k ≤ w →
  need_update deleted (take w (pad w k)) = false → ∀ x, x ∈ k → x ∉ deleted.
Proof.
  intros Hn Hv Hl. rewrite take_ge by (by rewrite pad_length). unfold pad. generalize (w - length k). intros j.
  clear Hl. induction k as [|y k IH]; intros Hu x Hx; [by apply elem_of_nil in Hx|].
  simpl in Hu. assert (Hy : is_valid y = true).
  { pose proof (Hv y ltac:(left)). unfold is_valid. destruct (N.eqb_spec y INVALID_VECTOR_ID); [lia|done]. }
  rewrite Hy in Hu. case_bool_decide; [done|]. apply elem_of_cons in Hx as [->|Hx]; [done|].
  apply IH; [intros; apply Hv; by right|done|done].
Qed.

(** Two stores with the same nodes. *)
Record same_nodes s s' : Prop := {
  sn_m : ms_m s' = ms_m s;
  sn_n : num_vectors s' = num_vectors s;
  sn_vec : vector_pool s' = vector_pool s;
}.

Lemma same_nodes_trans s s1 s2 : same_nodes s s1 → same_nodes s1 s2 → same_nodes s s2.
Proof. intros [A1 A2 A3] [B1 B2 B3]. split; congruence. Qed.

Lemma set_row_ok s id ids stat dists k :
  base_rows s → ids = pad (2 * ms_m s) k → length k ≤ 2 * ms_m s → (∀ x, x ∈ k → (x < num_vectors s)%N) →
  let s' := set_base s id (BasePoint ids dists stat) in
  base_rows s' ∧ same_nodes s s' ∧ base_nbrs s' id = k ∧
  ∀ x, x ≠ id → base_nbrs s' x = base_nbrs s x.
Proof.
  intros Hb -> Hl Hv s'.
  assert (Hget : ∀ x, get_base s' x = if decide (x = id) then BasePoint (pad (2 * ms_m s) k) dists stat else get_base s x)
    by apply get_base_set.
  assert (Hb' : base_rows s').
  { split; [apply Hb|apply Hb|apply Hb|]. intros x. rewrite Hget. case_decide; [|apply Hb].
    exists k. done. }
  split_and!; [done|done| |].
  - unfold base_nbrs. rewrite (pad_edges s' id k); [|apply Hb|by rewrite Hget, decide_True|done|done].
    apply dup_fst.
  - intros x Hx. unfold base_nbrs, edges, slots. simpl. by rewrite Hget, decide_False.
Qed.

(** What a repair of [id] may do to a store: rows gain no neighbour but [id]. *)
Record repaired (id : N) s s' : Prop := {
  rp_rows : base_rows s';
  rp_nodes : same_nodes s s';
  rp_nbrs : ∀ x y, y ∈ base_nbrs s' x → y ∈ base_nbrs s x ∨ y = id;
}.

Lemma repaired_refl id s : base_rows s → repaired id s s.
Proof. intros Hb. split; [done|done|by left]. Qed.

Lemma repaired_trans id s s1 s2 : repaired id s s1 → repaired id s1 s2 → repaired id s s2.
Proof.
  intros [A1 A2 A3] [B1 B2 B3]. split; [done|by eapply same_nodes_trans|].
  intros x y Hy. destruct (B3 x y Hy); [by apply A3|by right].
Qed.

Lemma disk_reverse_edge_ok check s nbr id :
  base_rows s → (id < num_vectors s)%N → c_cur nbr = c_id nbr →
  let s' := disk_reverse_edge distance true check s nbr id id in
  repaired id s s' ∧ ∀ x, x ≠ c_id nbr → base_nbrs s' x = base_nbrs s x.
Proof.
  intros Hb Hid Hc s'. unfold s', disk_reverse_edge, disk_neighbors. rewrite Hc.
  destruct (base_row s (c_id nbr) Hb) as (k & Hk & Hl & -> & Hnb & Hv).
  pose proof (br_m _ Hb) as Hm.
  destruct (select_pruned_slot distance true check s (2 * ms_m s)
    ((λ p, mk_cand p.1 p.2 FLT_MAX) <$> ((λ x, (x, x)) <$> k)) id [] nbr) as [_ Hs];
    [by rewrite !length_fmap|lia|].
  change (get_nbr_num true (ms_m s)) with (2 * ms_m s). destruct Hs as [->|(i & -> & Hi & Hik)]; [split; [by apply repaired_refl|done]|].
  rewrite !length_fmap in Hik. destruct (Z.leb_spec 0 (Z.of_nat i)); [|lia]. rewrite Nat2Z.id.
  unfold set_neighbor. rewrite Hk, insert_pad by lia.
  destruct (set_row_ok s (c_id nbr) _ (bp_stat (get_base s (c_id nbr))) (bp_dists (get_base s (c_id nbr)))
    (put k i id) Hb eq_refl) as (R1 & R2 & R3 & R4).
  - rewrite put_length by done. lia.
  - intros x [->|Hx]%elem_of_put; [done|by apply Hv].
  - split; [|done]. split; [done|done|]. intros x y Hy. destruct (decide (x = c_id nbr)) as [->|Hne].
    + rewrite R3 in Hy. apply elem_of_put in Hy as [->|Hy]; [by right|left]. by rewrite Hnb.
    + left. by rewrite <- R4.
Qed.

Lemma disk_reverse_edges_ok check s nbrs id :
  base_rows s → (id < num_vectors s)%N → (∀ c, c ∈ nbrs → is_valid (c_id c) = true → c_cur c = c_id c ∧ c_id c ≠ id) →
  let s' := disk_reverse_edges distance true check s nbrs id id in
  repaired id s s' ∧ base_nbrs s' id = base_nbrs s id.
Proof.
  revert s. induction nbrs as [|c nbrs IH]; intros s Hb Hid Hc; simpl; [split; [by apply repaired_refl|done]|].
  destruct (is_valid (c_id c)) eqn:Hv; [|split; [by apply repaired_refl|done]].
  destruct (Hc c ltac:(left) Hv) as [Hcc Hne].
  destruct (disk_reverse_edge_ok check s c id Hb Hid Hcc) as [R1 R2].
  destruct (IH (disk_reverse_edge distance true check s c id id)) as [R3 R4];
    [apply R1|by rewrite (sn_n _ _ (rp_nodes _ _ _ R1))|intros; apply Hc; [by right|done]|].
  split; [by eapply repaired_trans|]. rewrite R4. by apply R2.
Qed.

(** The search of a point repair. *)
Lemma repair_candidates s fuel ef q id deleted :
  base_rows s → get_data s id = Some q → (id < num_vectors s)%N → 0 < ef →
  1 + N.to_nat (num_vectors s) < fuel →
  ∃ r, search_layer fuel s q true [mk_cand (V:=Vec) id id zero] ef (live deleted id) = Some r ∧
    by_distance r ∧
    ∀ c, c ∈ r → (c_id c < num_vectors s)%N ∧ c_cur c = c_id c ∧ c_id c ≠ id ∧ c_id c ∉ deleted.
Proof.
  intros Hb Hq Hid Hef Hfuel. set (ep := [mk_cand (V:=Vec) id id zero]).
  set (score := λ v, if decide (v = id) then zero else get_distance s q v).
  assert (Hscore : entry_scored s q score ep).
  { split; [intros i Hi; simpl in Hi; lia|apply NoDup_singleton| |].
    - intros c ->%list_elem_of_singleton. unfold score. simpl. by rewrite decide_True.
    - intros v Hv. unfold score. rewrite decide_False; [done|]. intros ->. apply Hv. left. }
  assert (Hcl : ∀ p, reachable s true (starts ep) p → (p.1 < num_vectors s)%N ∧ p.2 = p.1).
  { intros p Hp. induction Hp as [p Hp|p p' _ _ He]; [by apply list_elem_of_singleton in Hp as ->|].
    destruct (base_row s p.2 Hb) as (k & _ & _ & Hk & _ & Hv). rewrite Hk in He.
    apply list_elem_of_fmap in He as (x & -> & Hx). split; [by apply Hv|done]. }
  destruct (search_layer_scored_result s q true ef (live deleted id) score ep (ids_below (N.to_nat (num_vectors s))) fuel Hef
    Hscore) as (r & Hr & _ & _ & Hs & Hall).
  - intros p Hp. apply elem_of_ids_below. rewrite N2Nat.id. by apply Hcl.
  - rewrite size_ids_below. simpl. lia.
  - exists r. split_and!; [done|done|]. intros c Hc. destruct (Hall c Hc) as (Hl & _ & Hre & _).
    apply live_spec in Hl as [Hl1 Hl2]. apply Hcl in Hre as [Hre1 Hre2]. done.
Qed.

Lemma neighbors_data_sorted s r : by_distance r → StronglySorted (not_after ClosestCompare) (get_neighbors_data s r).
Proof.
  intros Hs. induction Hs as [|c r Hs IH Hc]; [constructor|]. simpl. constructor; [done|].
  apply Forall_forall. intros x (y & -> & Hy)%list_elem_of_fmap. rewrite Forall_forall in Hc.
  unfold not_after, ClosestCompare in *. simpl. by apply Hc.
Qed.

Lemma new_row_ids w (k : list (cand D Vec)) : length k ≤ w →
  take w (c_id <$> (k ++ replicate (w - length k) default_cand)) = pad w (c_id <$> k).
Proof. intros Hw. by destruct (take_pad_ids w k Hw). Qed.

Lemma repair_basepoint_ok s fuel ef id deleted :
  base_rows s → (id < num_vectors s)%N → 0 < ef → 1 + N.to_nat (num_vectors s) < fuel →
  ∃ s', repair_basepoint distance zero fuel ef s id deleted = Some s' ∧
    base_rows s' ∧ same_nodes s s' ∧ purged deleted s' id ∧
    ∀ x y, x ≠ id → y ∈ base_nbrs s' x → y ∈ base_nbrs s x ∨ y = id.
Proof.
  intros Hb Hid Hef Hfuel. unfold repair_basepoint.
  destruct (base_row s id Hb) as (k & Hk & Hl & _ & Hnb & Hv). simpl pi_nbr_id. rewrite Hk.
  destruct (need_update deleted (take (2 * ms_m s) (pad (2 * ms_m s) k))) eqn:Hu; simpl negb; cbv iota.
  2:{ exists s. split_and!; [done|done|done| |by left]. intros x. rewrite Hnb.
      exact (need_update_pad deleted s k _ (br_n _ Hb) Hv Hl Hu x). }
  destruct (br_vec _ Hb id Hid) as [q Hq]. rewrite Hq. cbn [mbind option_bind].
  destruct (repair_candidates s fuel ef q id deleted Hb Hq Hid Hef Hfuel) as (r & -> & Hs & Hall).
  cbn [mbind option_bind]. set (c := get_neighbors_data s r).
  assert (Hcall : ∀ x, x ∈ c → (c_id x < num_vectors s)%N ∧ c_cur x = c_id x ∧ c_id x ≠ id ∧ c_id x ∉ deleted).
  { intros x (y & -> & Hy)%list_elem_of_fmap. simpl. by apply Hall. }
  destruct (select_neighbors_spec distance (2 * ms_m s) c) as (k' & -> & Hsub & Hk' & _); [|].
  { apply (sorted_is_heap ClosestCompare). by apply neighbors_data_sorted. }
  cbv zeta. rewrite (new_row_ids _ k' Hk'). set (nbrs := k' ++ _).
  destruct (set_row_ok s id _ (bp_stat (get_base s id)) (bp_dists (get_base s id)) (c_id <$> k') Hb eq_refl)
    as (R1 & R2 & R3 & R4); [by rewrite length_fmap| |].
  { intros x (y & -> & Hy)%list_elem_of_fmap. apply Hcall. by eapply elem_of_submseteq. }
  destruct (disk_reverse_edges_ok false (set_base_neighbors s id (pad (2 * ms_m s) (c_id <$> k'))) nbrs id R1)
    as [Q1 Q2]; [done| |].
  { intros y [Hy|Hy]%elem_of_app.
    - intros _. destruct (Hcall y) as (_ & ? & ? & _); [by eapply elem_of_submseteq|done].
    - apply elem_of_replicate in Hy as [-> _]. done. }
  eexists. split_and!; [done|apply Q1|eapply same_nodes_trans; [exact R2|apply Q1]| |].
  - intros x. rewrite Q2. unfold set_base_neighbors. rewrite R3.
    intros (y & -> & Hy)%list_elem_of_fmap. apply Hcall. by eapply elem_of_submseteq.
  - intros x y Hx Hy. apply Q1 in Hy as [Hy| ->]; [left|by right]. unfold set_base_neighbors in Hy.
    by rewrite R4 in Hy.
Qed.

(** C26: a base pass purges the graph. [repair_base_range] over the points from [start]
    always returns and keeps vectors and well-formed rows. Afterwards no live point of the
    range has an edge to a deleted node; a point that is not a live point of the range
    gains edges to live points of the range only, and a point without edges to deleted
    nodes stays so. A pass over all points therefore leaves no edge from a live to a
    deleted base point. Nothing is assumed of the distance but the order of its
    values; the distance of a point to itself, which the code takes as 0, may be any. *)
Theorem repair_base_range_purges s fuel ef start num deleted :
  base_rows s → (start + N.of_nat num <= num_vectors s)%N → 0 < ef → 1 + N.to_nat (num_vectors s) < fuel →
  ∃ s', repair_base_range distance zero fuel ef s start num deleted = Some s' ∧
    base_rows s' ∧ same_nodes s s' ∧
    (∀ id, (start <= id < start + N.of_nat num)%N → id ∉ deleted → purged deleted s' id) ∧
    (∀ id, purged deleted s id → purged deleted s' id) ∧
    (∀ id x, ¬ (start <= id < start + N.of_nat num)%N ∨ id ∈ deleted → x ∈ base_nbrs s' id →
      x ∈ base_nbrs s id ∨ (start <= x < start + N.of_nat num)%N ∧ x ∉ deleted).
Proof.
  revert s start. induction num as [|num IH]; intros s start Hb Hn Hef Hfuel; cbn [repair_base_range].
  { exists s. split_and!; [done..|intros; lia|done|by left]. }
  assert (∃ s1, (if bool_decide (start ∈ deleted) then Some s
      else repair_basepoint distance zero fuel ef s start deleted) = Some s1 ∧
    base_rows s1 ∧ same_nodes s s1 ∧ (start ∉ deleted → purged deleted s1 start) ∧
    ∀ id x, id ≠ start ∨ start ∈ deleted → x ∈ base_nbrs s1 id → x ∈ base_nbrs s id ∨ x = start ∧ start ∉ deleted) as (s1 & -> & B1 & B2 & B3 & B4).
  { case_bool_decide as Hd; [exists s; split_and!; [done..|by left]|].
    destruct (repair_basepoint_ok s fuel ef start deleted Hb) as (s1 & ? & ? & ? & Hp & Hx); [lia|done|done|].
    exists s1. split_and!; [done..|]. intros id x [Hne|] Hy; [|done]. destruct (Hx id x Hne Hy); [by left|by right]. }
  assert (B5 : ∀ id, purged deleted s id → purged deleted s1 id).
  { intros id Hpu. destruct (decide (id ≠ start ∨ start ∈ deleted)) as [Hor|Hno].
    - intros x Hx. destruct (B4 id x Hor Hx) as [Hx'|[-> ?]]; [by apply Hpu|done].
    - assert (id = start ∧ start ∉ deleted) as [-> Hs] by (destruct (decide (id = start)); tauto). by apply B3. }
  cbn [mbind option_bind].
  destruct (IH s1 (start + 1)%N B1) as (s2 & -> & C1 & C2 & C3 & C4 & C5);
    [rewrite (sn_n _ _ B2); lia|done|rewrite (sn_n _ _ B2); lia|].
  exists s2. split_and!; [done|done|by eapply same_nodes_trans| |auto|].
  - intros id Hid Hd. destruct (decide (id = start)) as [->|Hne]; [auto|]. apply C3; [lia|done].
  - intros id x Hor Hx. destruct (C5 id x) as [Hx1|[Hr Hl]]; [destruct Hor; [left; lia|by right]|done| |right; split; [lia|done]].
    destruct (B4 id x) as [|[-> Hl]]; [|done|by left|right; split; [lia|done]].
    destruct (decide (id = start)) as [->|]; [|by left]. destruct Hor as [Ho|]; [lia|by right].
Qed.
End BasePass.

(** ** Examples on a line *)
Module RepairLine.

Definition dist1 (a b : Z) : Z := Z.abs (a - b).
Lemma dist1_self v : dist1 v v = 0%Z.
Proof. unfold dist1. lia. Qed.

Definition base_rec (m : nat) (ids : list N) : base_point Z :=
  BasePoint (pad (2 * m) ids) (replicate (2 * m) 0%Z) (replicate (2 * m + 1) true).
Definition upper_rec (m : nat) (ids curs : list N) (lower id : N) : upper_point Z :=
  UpperPoint (pad m ids) (pad m curs) lower id (replicate m 0%Z) (replicate (m + 1) true).

(** Two pairs of points, {0, 1} and {2, 3}; the entry is point 3 on level 2, its
    records on levels 1 and 2 have indices 1 and 2. *)
Definition pairs : mem_store Z Z :=
  MemStore 1 (list_to_map [(0%N, 0%Z); (1%N, 1%Z); (2%N, 100%Z); (3%N, 101%Z)])
    (list_to_map [(0%N, base_rec 1 [1%N]); (1%N, base_rec 1 [0%N]); (2%N, base_rec 1 [3%N]); (3%N, base_rec 1 [2%N])])
    (list_to_map [(0%N, upper_rec 1 [] [] 0 0); (1%N, upper_rec 1 [] [] 3 3); (2%N, upper_rec 1 [] [] 1 3)])
    (EntryInfo 3 2 2) 4 3 ∅.

(** Two upper levels without a live point. The entry, point 3, is deleted and
    no other point of levels 2 and 1 is left, so [repair_entry] goes down to the
    base layer, but it starts there from index 1, the index of the entry's record
    on level 1, and not from point 3: although point 2 is live and the only
    neighbour of point 3, the graph is declared empty. With the entry on level 1,
    the same call finds point 2. *)
Theorem repair_entry_wrong_index :
  base_nbrs dist1 pairs 3 = [2%N] ∧
  ms_entry <$> repair_entry dist1 0%Z 10 pairs {[0; 1; 3]}%N = Some empty_entry ∧
  ms_entry <$> repair_entry dist1 0%Z 10 (set_entrypoint pairs 3 1 1) {[0; 1; 3]}%N =
    Some (EntryInfo 2 2 0).
Proof. vm_compute. done. Qed.

(** A path 0 - 1 - 2. *)
Definition path3 : mem_store Z Z :=
  MemStore 2 (list_to_map [(0%N, 0%Z); (1%N, 1%Z); (2%N, 2%Z)])
    (list_to_map [(0%N, base_rec 2 [1%N]); (1%N, base_rec 2 [0%N; 2%N]); (2%N, base_rec 2 [1%N])])
    ∅ (EntryInfo 0 0 0) 3 0 ∅.

(** The reverse edges of a repair are not checked for an edge that exists.
    Point 2 is deleted and point 1 repaired; point 0, which already has the edge
    to point 1, gets it a second time. With the check ([check_exist]) the row of
    point 0 is left alone. *)
Theorem repair_duplicates_edge :
  ((λ s, (base_nbrs dist1 s 0, base_nbrs dist1 s 1)) <$>
     repair_basepoint dist1 0%Z 10 4 path3 1 {[2%N]}) = Some ([1; 1]%N, [0%N]) ∧
  base_nbrs dist1 (disk_reverse_edge dist1 true true path3 (mk_cand 0 0 1%Z) 1 1) 0 = [1%N].
Proof. vm_compute. done. Qed.

Lemma path3_rows : base_rows path3.
Proof.
  split; [simpl; lia|discriminate| |].
  - intros id Hid. simpl in Hid. assert (id = 0 ∨ id = 1 ∨ id = 2)%N as [->|[->| ->]] by lia; by eexists.
  - intros id. destruct (decide (id = 0 ∨ id = 1 ∨ id = 2)%N) as [[->|[->| ->]]|Hn].
    + exists [1%N]. split_and!; [done|simpl; lia|]. intros x ->%list_elem_of_singleton. reflexivity.
    + exists [0%N; 2%N]. split_and!; [done|simpl; lia|]. intros x. set_unfold. intros [->|[->|[]]]; reflexivity.
    + exists [1%N]. split_and!; [done|simpl; lia|]. intros x ->%list_elem_of_singleton. reflexivity.
    + exists []. split_and!; [|simpl; lia|by intros x ?%elem_of_nil].
      unfold get_base. simpl. rewrite !lookup_insert_ne, lookup_empty by naive_solver. done.
Qed.

Lemma repair_base_range_purges_witness :
  ∃ s', repair_base_range dist1 0%Z 10 4 path3 0 3 {[2%N]} = Some s' ∧
    ∀ id, (0 <= id < 0 + N.of_nat 3)%N → id ∉ ({[2%N]} : gset N) → purged dist1 {[2%N]} s' id.
Proof.
  destruct (repair_base_range_purges dist1 0%Z path3 10 4 0 3 {[2%N]})
    as (s' & Hr & _ & _ & Hp & _).
  - exact path3_rows.
  - simpl. lia.
  - lia.
  - simpl. lia.
  - exists s'. exact (conj Hr Hp).
Defined.

Definition rows3 : list (row (Vec:=Z)) :=
  [(0, 10%Z, (1, 1)%N); (1, 20%Z, (1, 2)%N); (0, 30%Z, (1, 3)%N)].

Lemma dist1_comm x y : dist1 x y = dist1 y x.
Proof. unfold dist1. lia. Qed.

Lemma built3 : ∃ s lev, build dist1 (PS:=gmap tid item) 100 4 (empty_store 2) rows3 = Some s ∧
  graph_ok dist1 lev s ∧ ms_entry s = EntryInfo 1 0 1 ∧ num_vectors s = 3%N ∧
  vector_pool s = list_to_map [(0%N, 10%Z); (1%N, 20%Z); (2%N, 30%Z)].
Proof.
  destruct (build_empty dist1 (PS:=gmap tid item) dist1_comm 100 4 2 rows3)
    as (s & lev & Hb & Hg & _); [lia|lia|simpl; lia|discriminate|discriminate|].
  exists s, lev.
  assert (Hs : (s ← build dist1 (PS:=gmap tid item) 100 4 (empty_store 2) rows3;
      Some (ms_entry s, num_vectors s, vector_pool s)) =
    Some (EntryInfo 1 0 1, 3%N, list_to_map [(0%N, 10%Z); (1%N, 20%Z); (2%N, 30%Z)])) by (vm_compute; reflexivity).
  rewrite Hb in Hs. injection Hs as Hs1 Hs2 Hs3. by split_and!.
Qed.

Lemma repair_entry_live_witness :
  ∃ s s', build dist1 (PS:=gmap tid item) 100 4 (empty_store 2) rows3 = Some s ∧
    repair_entry dist1 0%Z 10 s {[1%N]} = Some s' ∧
    (e_id (ms_entry s') ∉ ({[1%N]} : gset N) ∨ ms_entry s' = empty_entry).
Proof.
  destruct built3 as (s & lev & Hb & Hg & He & Hn & Hv).
  destruct (repair_entry_live dist1 0%Z dist1_self lev s 10 {[1%N]}) as (s' & Hr & _ & _ & _ & Hres).
  - exact Hg.
  - rewrite He. simpl. lia.
  - rewrite Hn. discriminate.
  - rewrite Hn. simpl. lia.
  - intros q x Hq Hx. unfold get_distance. simpl. unfold get_data in *. rewrite He, Hv in *. rewrite Hn in Hx.
    injection Hq as <-. assert (x = 0 ∨ x = 1 ∨ x = 2)%N as [->|[->| ->]] by lia; reflexivity.
  - exists s, s'. rewrite He in Hres. destruct Hres as [[_ H1]|[H1 _]]; [set_solver|..].
    + exact (conj Hb (conj Hr (or_introl H1))).
    + exact (conj Hb (conj Hr (or_intror H1))).
Defined.
End RepairLine.
