(* ===== verification/Sha256.v ===== *)
(** * SHA-256 and the manifest checksum

    [src/agent_files/mount/common/src/vexfs_checksum.cpp]: the streaming hash
    (state words, a 64-byte buffer, the byte count), its hexadecimal digest, and
    the checksum of a file manifest. Bytes are integers below 256, 32-bit words
    integers below [2^32] with the wrap-around written out. [reference_digest] is
    the one-shot hash of the standard: pad the message, cut it into blocks, fold. *)
From Stdlib Require Import ZArith Lia String Ascii.
From stdpp Require Import prelude.
From S2P Require Import Prelude.

Local Open Scope Z_scope.
Local Open Scope vex_scope.

Abbreviation bytes := (list Z).

(** The bytes of a string literal. *)
Fixpoint str (s : string) : bytes :=
  match s with
  | EmptyString => []
  | String c s => Z.of_nat (nat_of_ascii c) :: str s
  end.

(** [std::to_string] of an unsigned integer. *)
Fixpoint digits (fuel : nat) (z : Z) : bytes :=
  match fuel with
  | O => []
  | S fuel => if z <? 10 then [48 + z] else digits fuel (z / 10) ++ [48 + z mod 10]
  end.
Definition to_string (z : Z) : bytes := digits 20 z.

(** ** The compression function *)

(** The [n] 32-bit words of a number, the most significant first. *)
Definition words (n : nat) (z : Z) : list Z :=
  (λ i, u32 (Z.shiftr z (32 * Z.of_nat i))) <$> reverse (seq 0 n).

(** Row by row as in the source, the constants of a row run together. *)
Definition kRoundConstants : list Z := Eval vm_compute in concat [
  words 6 0x428a2f9871374491b5c0fbcfe9b5dba53956c25b59f111f1;
  words 6 0x923f82a4ab1c5ed5d807aa9812835b01243185be550c7dc3;
  words 6 0x72be5d7480deb1fe9bdc06a7c19bf174e49b69c1efbe4786;
  words 6 0x0fc19dc6240ca1cc2de92c6f4a7484aa5cb0a9dc76f988da;
  words 6 0x983e5152a831c66db00327c8bf597fc7c6e00bf3d5a79147;
  words 6 0x06ca63511429296727b70a852e1b21384d2c6dfc53380d13;
  words 6 0x650a7354766a0abb81c2c92e92722c85a2bfe8a1a81a664b;
  words 6 0xc24b8b70c76c51a3d192e819d6990624f40e3585106aa070;
  words 6 0x19a4c1161e376c082748774c34b0bcb5391c0cb34ed8aa4a;
  words 6 0x5b9cca4f682e6ff3748f82ee78a5636f84c878148cc70208;
  words 4 0x90befffaa4506cebbef9a3f7c67178f2].

Definition RotateRight (value bits : Z) : Z :=
  Z.lor (Z.shiftr value bits) (u32 (Z.shiftl value (32 - bits))).

Definition LoadBigEndian (input : bytes) : Z :=
  match input with
  | b0 :: b1 :: b2 :: b3 :: _ =>
    Z.lor (Z.lor (Z.lor (Z.shiftl b0 24) (Z.shiftl b1 16)) (Z.shiftl b2 8)) b3
  | _ => 0
  end.

Definition StoreBigEndian (value : Z) : bytes :=
  [u8 (Z.shiftr value 24); u8 (Z.shiftr value 16); u8 (Z.shiftr value 8); u8 value].

(** The message schedule; [words] grows by one word per step. *)
Definition next_word (words : list Z) : Z :=
  let w k := nth k words 0 in
  let i := length words in
  let s0 := Z.lxor (Z.lxor (RotateRight (w (i - 15)%nat) 7) (RotateRight (w (i - 15)%nat) 18))
              (Z.shiftr (w (i - 15)%nat) 3) in
  let s1 := Z.lxor (Z.lxor (RotateRight (w (i - 2)%nat) 17) (RotateRight (w (i - 2)%nat) 19))
              (Z.shiftr (w (i - 2)%nat) 10) in
  u32 (w (i - 16)%nat + s0 + w (i - 7)%nat + s1).

Fixpoint extend_words (n : nat) (words : list Z) : list Z :=
  match n with O => words | S n => extend_words n (words ++ [next_word words]) end.

Definition schedule (block : bytes) : list Z := extend_words 48 (LoadBigEndian <$> pieces 4 block).

Record regs := Regs { ra : Z; rb : Z; rc : Z; rd : Z; re : Z; rf : Z; rg : Z; rh : Z }.

Definition round (s : regs) (kw : Z * Z) : regs :=
  let 'Regs a b c d e f g h := s in
  let sigma1 := Z.lxor (Z.lxor (RotateRight e 6) (RotateRight e 11)) (RotateRight e 25) in
  let choose := Z.lxor (Z.land e f) (Z.land (u32 (Z.lnot e)) g) in
  let first := u32 (h + sigma1 + choose + kw.1 + kw.2) in
  let sigma0 := Z.lxor (Z.lxor (RotateRight a 2) (RotateRight a 13)) (RotateRight a 22) in
  let majority := Z.lxor (Z.lxor (Z.land a b) (Z.land a c)) (Z.land b c) in
  let second := u32 (sigma0 + majority) in
  Regs (u32 (first + second)) a b c (u32 (d + first)) e f g.

Definition Transform (state : regs) (block : bytes) : regs :=
  let r := foldl round state (zip kRoundConstants (schedule block)) in
  let 'Regs a b c d e f g h := state in
  Regs (u32 (a + ra r)) (u32 (b + rb r)) (u32 (c + rc r)) (u32 (d + rd r))
       (u32 (e + re r)) (u32 (f + rf r)) (u32 (g + rg r)) (u32 (h + rh r)).

(** ** The streaming hash *)

Inductive hash_error := LogicError | OverflowError | InvalidArgument.

Record Sha256 := mkSha256 {
  state_ : regs;
  buffer_ : bytes;
  total_bytes_ : Z;
  buffered_bytes_ : nat;
  finished_ : bool;
}.

Definition initial_state : regs :=
  Regs 0x6a09e667 0xbb67ae85 0x3c6ef372 0xa54ff53a 0x510e527f 0x9b05688c 0x1f83d9ab 0x5be0cd19.

Definition new_sha256 : Sha256 := mkSha256 initial_state (replicate 64 0) 0 0 false.

(** The loop of [Update]: fill the buffer, compress it when it is full. *)
Fixpoint absorb (fuel : nat) (state : regs) (buffer : bytes) (buffered : nat) (input : bytes) :
    regs * bytes * nat :=
  match fuel, input with
  | S fuel, _ :: _ =>
    let copied := Nat.min (length input) (64 - buffered) in
    let buffer := overwrite buffer buffered (take copied input) in
    let buffered := (buffered + copied)%nat in
    if (buffered =? 64)%nat then absorb fuel (Transform state buffer) buffer 0 (drop copied input)
    else absorb fuel state buffer buffered (drop copied input)
  | _, _ => (state, buffer, buffered)
  end.

Definition Update (h : Sha256) (data : bytes) : result hash_error Sha256 :=
  if finished_ h then Throw LogicError
  else if (2 ^ 64 - 1) / 8 - total_bytes_ h <? Z.of_nat (length data) then Throw OverflowError
  else
    let '(state, buffer, buffered) :=
      absorb (S (length data)) (state_ h) (buffer_ h) (buffered_bytes_ h) data in
    Ok (mkSha256 state buffer (u64 (total_bytes_ h + Z.of_nat (length data))) buffered false).

Definition length_bytes (bit_length : Z) : bytes :=
  (λ i : nat, u8 (Z.shiftr bit_length (8 * (7 - Z.of_nat i)))) <$> seq 0 8.

Definition state_bytes (r : regs) : bytes :=
  let 'Regs a b c d e f g h := r in
  StoreBigEndian a ++ StoreBigEndian b ++ StoreBigEndian c ++ StoreBigEndian d ++
  StoreBigEndian e ++ StoreBigEndian f ++ StoreBigEndian g ++ StoreBigEndian h.

Definition Finish (h : Sha256) : result hash_error (bytes * Sha256) :=
  if finished_ h then Throw LogicError
  else
    let bit_length := u64 (total_bytes_ h * 8) in
    let buffer := overwrite (buffer_ h) (buffered_bytes_ h) [0x80] in
    let buffered := S (buffered_bytes_ h) in
    let '(state, buffer, buffered) :=
      if (56 <? buffered)%nat then
        let buffer := take buffered buffer ++ replicate (64 - buffered) 0 in
        (Transform (state_ h) buffer, buffer, O)
      else (state_ h, buffer, buffered) in
    let buffer := overwrite buffer buffered (replicate (56 - buffered) 0) in
    let buffer := overwrite buffer 56 (length_bytes bit_length) in
    let state := Transform state buffer in
    Ok (state_bytes state, mkSha256 state buffer (total_bytes_ h) buffered true).

Definition hex_digit (z : Z) : Z := if z <? 10 then 48 + z else 87 + z.

Definition Hex (digest : bytes) : bytes :=
  b ← digest; [hex_digit (Z.shiftr b 4); hex_digit (Z.land b 0x0f)].

Definition Sha256Hex (data : bytes) : result hash_error bytes :=
  let! h := Update new_sha256 data in
  let! r := Finish h in
  Ok (Hex r.1).

(** ** Manifest checksum *)

Record ManifestChunkChecksum := mkChunkChecksum { mc_size : Z; mc_checksum : bytes }.

Definition hex_char (c : Z) : bool := ((48 <=? c) && (c <=? 57)) || ((97 <=? c) && (c <=? 102)).

Definition IsSha256 (value : bytes) : bool :=
  if negb (length value =? 64)%nat then false else forallb hex_char value.

(** The entries, from chunk number [index] on with [total] bytes before it. *)
Fixpoint manifest_entries (file_size chunk_size : Z) (index : Z) (total : Z)
    (chunks : list ManifestChunkChecksum) (hash : Sha256) : result hash_error (Z * Sha256) :=
  match chunks with
  | [] => Ok (total, hash)
  | chunk :: chunks =>
    let expected_size := Z.min chunk_size (u64 (file_size - total)) in
    if negb (mc_size chunk =? expected_size) || negb (IsSha256 (mc_checksum chunk)) ||
       (2 ^ 64 - 1 - total <? mc_size chunk)
    then Throw InvalidArgument
    else
      let! hash := (if index =? 0 then Ok hash else Update hash [10]) in
      let! hash := Update hash
        (to_string index ++ str ":" ++ to_string (mc_size chunk) ++ str ":" ++ mc_checksum chunk) in
      manifest_entries file_size chunk_size (index + 1) (u64 (total + mc_size chunk)) chunks hash
  end.

Definition ManifestChecksum (file_size chunk_size : Z) (chunks : list ManifestChunkChecksum) :
    result hash_error bytes :=
  if chunk_size =? 0 then Throw InvalidArgument
  else
    let expected_chunks := if file_size =? 0 then 0 else 1 + (file_size - 1) / chunk_size in
    if negb (expected_chunks =? Z.of_nat (length chunks)) then Throw InvalidArgument
    else
      let header := str "vexfs-manifest-v1:" ++ to_string chunk_size ++ str ":" ++
        to_string file_size ++ str ":" ++ to_string (Z.of_nat (length chunks)) ++ [10] in
      let! hash := Update new_sha256 header in
      let! r := manifest_entries file_size chunk_size 0 0 chunks hash in
      if negb (r.1 =? file_size) then Throw InvalidArgument
      else
        let! d := Finish r.2 in
        Ok (Hex d.1).
