(* ===== verification/Sha256Facts.v ===== *)
(** * The streaming hash is SHA-256

    However a message is cut into calls of [Update], [Finish] returns the digest
    of the whole message: the buffer holds the bytes after the last full block, the
    state is the fold of the compression function over the full blocks. *)
From Stdlib Require Import ZArith Lia String.
From stdpp Require Import prelude.
From S2P Require Import Prelude Sha256.

Local Open Scope vex_scope.

(** ** The reference *)

(** Padding: [0x80], zeros up to 56 modulo 64, the length in bits. *)
Definition padded (m : bytes) : bytes :=
  m ++ 0x80%Z :: replicate ((119 - length m `mod` 64) `mod` 64) 0%Z ++
  length_bytes (u64 (Z.of_nat (length m) * 8)).

Definition reference_digest (m : bytes) : bytes :=
  state_bytes (foldl Transform initial_state (pieces 64 (padded m))).

(** ** The invariant of the stream *)

Record streamed (m : bytes) (state : regs) (buffer : bytes) (buffered : nat) : Prop := {
  st_buffer : length buffer = 64;
  st_split : ∃ full k, m = full ++ take buffered buffer ∧ length full = k * 64 ∧
    state = foldl Transform initial_state (pieces 64 full);
  st_room : buffered < 64;
}.

Lemma streamed_step m state buffer buffered input copied :
  streamed m state buffer buffered → copied = Nat.min (length input) (64 - buffered) →
  let buffer' := overwrite buffer buffered (take copied input) in
  if buffered + copied =? 64
  then streamed (m ++ take copied input) (Transform state buffer') buffer' 0
  else streamed (m ++ take copied input) state buffer' (buffered + copied).
Proof.
  intros [Hb (full & k & -> & Hf & ->) Hr] Hc buffer'.
  assert (Ht : length (take copied input) = copied) by (rewrite length_take; lia).
  assert (Hb' : length buffer' = 64) by (unfold buffer'; rewrite length_overwrite; lia).
  assert (Htake : take (buffered + copied) buffer' = take buffered buffer ++ take copied input).
  { unfold buffer'. rewrite <- Ht at 1. rewrite take_overwrite by lia. done. }
  destruct (Nat.eqb_spec (buffered + copied) 64) as [He|Hne].
  - assert (Hall : take buffered buffer ++ take copied input = buffer').
    { rewrite <- Htake, He. apply take_ge. lia. }
    split; [done| |lia]. exists (full ++ buffer'), (S k). split_and!.
    + by rewrite take_0, app_nil_r, <- app_assoc, Hall.
    + rewrite length_app. lia.
    + rewrite (pieces_app 64 full buffer' k) by lia. rewrite foldl_app.
      rewrite (pieces_single 64 buffer') by (try lia; intros E; by rewrite E in Hb'). done.
  - split; [done| |lia]. exists full, k. rewrite Htake, <- app_assoc. done.
Qed.

Lemma absorb_streamed fuel m state buffer buffered input :
  streamed m state buffer buffered → length input < fuel →
  let r := absorb fuel state buffer buffered input in
  streamed (m ++ input) r.1.1 r.1.2 r.2.
Proof.
  revert m state buffer buffered input. induction fuel as [|fuel IH]; intros m state buffer buffered input Hs Hf;
    [lia|].
  destruct input as [|b input]; [simpl; by rewrite app_nil_r|].
  cbn [absorb]. set (input' := b :: input) in *. set (copied := Nat.min (length input') (64 - buffered)).
  pose proof (streamed_step m state buffer buffered input' copied Hs eq_refl) as Hstep. cbv zeta in Hstep.
  assert (Hpos : 0 < copied ∧ copied ≤ length input').
  { pose proof (st_room _ _ _ _ Hs). unfold copied, input'. simpl length. lia. }
  assert (Hrest : length (drop copied input') < fuel) by (rewrite length_drop; lia).
  rewrite <- (take_drop copied input') at 1. rewrite app_assoc.
  destruct (buffered + copied =? 64); by apply IH.
Qed.

(** What a hash object stands for. *)
Record hashes (m : bytes) (h : Sha256) : Prop := {
  h_stream : streamed m (state_ h) (buffer_ h) (buffered_bytes_ h);
  h_total : total_bytes_ h = Z.of_nat (length m);
  h_live : finished_ h = false;
}.

Lemma new_hashes : hashes [] new_sha256.
Proof.
  split; [|done|done]. split; [done| |simpl; lia].
  exists [], 0. done.
Qed.

(** The input bound of [Update]. *)
Definition max_input : Z := ((2 ^ 64 - 1) / 8)%Z.

Lemma update_hashes m h data :
  hashes m h → (Z.of_nat (length m + length data) <= max_input)%Z →
  ∃ h', Update h data = Ok h' ∧ hashes (m ++ data) h'.
Proof.
  intros [Hs Ht Hl] Hmax. unfold Update. rewrite Hl, Ht. fold max_input.
  destruct (Z.ltb_spec (max_input - Z.of_nat (length m)) (Z.of_nat (length data))); [lia|].
  pose proof (absorb_streamed (S (length data)) m (state_ h) (buffer_ h) (buffered_bytes_ h) data Hs ltac:(lia)) as Ha.
  destruct (absorb _ _ _ _ _) as [[st bf] bd]. eexists. split; [done|]. split; [done| |done].
  simpl. rewrite length_app. unfold u64. rewrite Z.mod_small; [lia|].
  assert (max_input < 2 ^ 64)%Z by done. lia.
Qed.

Lemma update_overflow m h data :
  hashes m h → (max_input < Z.of_nat (length m + length data))%Z → Update h data = Throw OverflowError.
Proof.
  intros [Hs Ht Hl] Hmax. unfold Update. rewrite Hl, Ht. fold max_input.
  destruct (Z.ltb_spec (max_input - Z.of_nat (length m)) (Z.of_nat (length data))); [done|lia].
Qed.

(** ** [Finish] *)

Lemma length_length_bytes z : length (length_bytes z) = 8.
Proof. done. Qed.

Lemma last_block buffer n lb :
  length buffer = 64 → n ≤ 56 → length lb = 8 →
  overwrite (overwrite buffer n (replicate (56 - n) 0%Z)) 56 lb = take n buffer ++ replicate (56 - n) 0%Z ++ lb.
Proof.
  intros Hb Hn Hl. unfold overwrite at 1.
  assert (Ht : take 56 (overwrite buffer n (replicate (56 - n) 0%Z)) = take n buffer ++ replicate (56 - n) 0%Z).
  { pose proof (take_overwrite buffer n (replicate (56 - n) 0%Z) ltac:(lia)) as H. rewrite length_replicate in H.
    by replace (n + (56 - n)) with 56 in H by lia. }
  rewrite Ht, drop_ge, app_nil_r by (rewrite length_overwrite; rewrite ?length_replicate; lia).
  by rewrite <- app_assoc.
Qed.

Lemma padded_short full part k :
  length full = k * 64 → length part < 56 →
  pieces 64 (padded (full ++ part)) = pieces 64 full ++
    [part ++ [0x80%Z] ++ replicate (56 - S (length part)) 0%Z ++
     length_bytes (u64 (Z.of_nat (length (full ++ part)) * 8))].
Proof.
  intros Hf Hp. unfold padded. rewrite <- app_assoc. rewrite (pieces_app 64 full _ k) by lia. f_equal.
  assert (Hm : length (full ++ part) `mod` 64 = length part).
  { rewrite length_app, Hf, Nat.add_comm, Nat.Div0.mod_add. apply Nat.mod_small. lia. }
  rewrite Hm. replace ((119 - length part) `mod` 64) with (56 - S (length part)).
  2:{ apply (Nat.mod_unique _ _ 1); lia. }
  apply pieces_single; [by destruct part|].
  rewrite !length_app, length_replicate, length_length_bytes. simpl. lia.
Qed.

Lemma padded_long full part k :
  length full = k * 64 → 56 ≤ length part < 64 →
  pieces 64 (padded (full ++ part)) = pieces 64 full ++
    [part ++ [0x80%Z] ++ replicate (64 - S (length part)) 0%Z;
     replicate 56 0%Z ++ length_bytes (u64 (Z.of_nat (length (full ++ part)) * 8))].
Proof.
  intros Hf Hp. unfold padded. rewrite <- app_assoc. rewrite (pieces_app 64 full _ k) by lia. f_equal.
  assert (Hm : length (full ++ part) `mod` 64 = length part).
  { rewrite length_app, Hf, Nat.add_comm, Nat.Div0.mod_add. apply Nat.mod_small. lia. }
  rewrite Hm. replace ((119 - length part) `mod` 64) with ((64 - S (length part)) + 56).
  2:{ rewrite Nat.mod_small by lia. lia. }
  rewrite replicate_add, <- app_assoc.
  change (0x80%Z :: ?a ++ ?b) with ([0x80%Z] ++ a ++ b). rewrite (app_assoc [0x80%Z]), (app_assoc part).
  set (lb := length_bytes _). rewrite (pieces_app 64 (part ++ _) _ 1), !pieces_single; [done|..]; try (by destruct part);
    rewrite ?length_app, ?length_replicate; simpl; lia.
Qed.

Lemma finish_digest m h :
  hashes m h → ∃ h', Finish h = Ok (reference_digest m, h') ∧ finished_ h' = true.
Proof.
  intros [[Hb (full & k & Hm & Hf & Hst) Hr] Ht Hl]. unfold Finish. rewrite Hl.
  set (part := take (buffered_bytes_ h) (buffer_ h)) in *.
  assert (Hp : length part = buffered_bytes_ h) by (unfold part; rewrite length_take; lia).
  set (b1 := overwrite (buffer_ h) (buffered_bytes_ h) [0x80%Z]).
  assert (Hb1 : length b1 = 64) by (unfold b1; rewrite length_overwrite; simpl; lia).
  assert (Hpre : take (S (buffered_bytes_ h)) b1 = part ++ [0x80%Z]).
  { unfold b1. replace (S (buffered_bytes_ h)) with (buffered_bytes_ h + length [0x80%Z]) by (simpl; lia).
    by rewrite take_overwrite by lia. }
  set (lb := length_bytes (u64 (total_bytes_ h * 8))).
  assert (Hlb : length_bytes (u64 (Z.of_nat (length (full ++ part)) * 8)) = lb)
    by (unfold lb; by rewrite Ht, Hm).
  unfold reference_digest. subst m. destruct (Nat.ltb_spec 56 (S (buffered_bytes_ h))) as [Hlong|Hshort].
  - rewrite (padded_long full part k), Hlb, foldl_app, <- Hst by lia. cbv beta iota zeta.
    rewrite Hpre, <- app_assoc, <- Hp. cbn [foldl].
    set (b2 := part ++ [0x80%Z] ++ replicate (64 - S (length part)) 0%Z).
    assert (Hb2 : length b2 = 64) by (unfold b2; rewrite !length_app, length_replicate; simpl; lia).
    pose proof (last_block b2 0 lb Hb2 ltac:(lia) ltac:(done)) as Hlast.
    rewrite Hlast. eexists. split; [done|done].
  - rewrite (padded_short full part k), Hlb, foldl_app, <- Hst by lia. cbv beta iota zeta. cbn [foldl].
    rewrite (last_block b1 _ lb Hb1) by (done || lia). rewrite Hpre, <- app_assoc, Hp.
    eexists. split; [done|done].
Qed.

(** ** Theorems *)

Fixpoint Updates (h : Sha256) (ds : list bytes) : result hash_error Sha256 :=
  match ds with
  | [] => Ok h
  | d :: ds => let! h := Update h d in Updates h ds
  end.

Lemma updates_hashes m h ds :
  hashes m h → (Z.of_nat (length m + length (concat ds)) <= max_input)%Z →
  ∃ h', Updates h ds = Ok h' ∧ hashes (m ++ concat ds) h'.
Proof.
  revert m h. induction ds as [|d ds IH]; intros m h Hh Hmax; simpl in *.
  - exists h. by rewrite app_nil_r.
  - rewrite length_app in Hmax. destruct (update_hashes m h d Hh) as (h1 & -> & Hh1); [lia|]. simpl.
    destruct (IH _ _ Hh1) as (h2 & -> & Hh2); [rewrite length_app; lia|].
    exists h2. by rewrite app_assoc.
Qed.

(** C35: the streaming hash computes SHA-256. For every way of cutting a message
    of at most [(2^64 - 1) / 8] bytes into calls of [Update], no call throws and
    [Finish] returns the digest of the whole message: the compression function
    folded over the 64-byte blocks of the padded message. *)
Theorem sha256_streams ds :
  (Z.of_nat (length (concat ds)) <= max_input)%Z →
  ∃ h h', Updates new_sha256 ds = Ok h ∧ Finish h = Ok (reference_digest (concat ds), h').
Proof.
  intros Hmax. destruct (updates_hashes [] new_sha256 ds new_hashes Hmax) as (h & Hu & Hh).
  destruct (finish_digest _ _ Hh) as (h' & Hf & _). eauto.
Qed.

Lemma hex_digit_char z : (0 <= z < 16)%Z → hex_char (hex_digit z) = true.
Proof.
  intros Hz. unfold hex_digit, hex_char.
  destruct (Z.ltb_spec z 10); rewrite orb_true_iff, !andb_true_iff, !Z.leb_le; lia.
Qed.

Lemma hex_is_sha256 d : length d = 32 → Forall (λ b, 0 <= b < 256)%Z d → IsSha256 (Hex d) = true.
Proof.
  intros Hl Hd. unfold IsSha256.
  assert (Hlen : length (Hex d) = 2 * length d).
  { clear. induction d as [|b d IH]; [done|]. unfold Hex in *. rewrite bind_cons, length_app, IH. simpl. lia. }
  rewrite Hlen, Hl. change (negb (2 * 32 =? 64)) with false. cbv iota. clear Hl Hlen.
  induction Hd as [|b d Hb _ IH]; [done|]. unfold Hex in *. rewrite bind_cons. cbn [app forallb].
  rewrite !hex_digit_char, IH; [done| |].
  - change 0x0f%Z with (Z.ones 4). rewrite Z.land_ones by lia. apply Z.mod_pos_bound. done.
  - rewrite Z.shiftr_div_pow2 by lia. split; [apply Z.div_pos; lia|]. apply Z.div_lt_upper_bound; lia.
Qed.

Lemma u8_range z : (0 <= u8 z < 256)%Z.
Proof. apply Z.mod_pos_bound. done. Qed.

Lemma digest_bytes m : length (reference_digest m) = 32 ∧ Forall (λ b, 0 <= b < 256)%Z (reference_digest m).
Proof.
  unfold reference_digest. destruct (foldl _ _ _) as [a b c d e f g h]. split; [done|].
  unfold state_bytes, StoreBigEndian. repeat (apply Forall_cons; split; [apply u8_range|]). constructor.
Qed.

(** The checksum of [data] when it is short enough to be hashed. *)
Definition sha (data : bytes) : bytes := Hex (reference_digest data).

Lemma sha256_hex data : (Z.of_nat (length data) <= max_input)%Z → Sha256Hex data = Ok (sha data).
Proof.
  intros Hmax. unfold Sha256Hex.
  destruct (update_hashes [] new_sha256 data new_hashes Hmax) as (h & -> & Hh). simpl.
  by destruct (finish_digest _ _ Hh) as (h' & -> & _).
Qed.

Lemma sha_is_sha256 data : IsSha256 (sha data) = true.
Proof. destruct (digest_bytes data). by apply hex_is_sha256. Qed.

Lemma is_sha256_length v : IsSha256 v = true → length v = 64.
Proof. unfold IsSha256. destruct (Nat.eqb_spec (length v) 64); done. Qed.

(** C36: [Sha256Hex] returns 64 lower-case hexadecimal digits (a checksum that
    [IsSha256] accepts), the digest of its input, unless the input is longer than
    [(2^64 - 1) / 8] bytes, when it throws. *)
Theorem sha256_hex_shape data :
  match Sha256Hex data with
  | Ok v => IsSha256 v = true ∧ v = Hex (reference_digest data) ∧ (Z.of_nat (length data) <= max_input)%Z
  | Throw e => e = OverflowError ∧ (max_input < Z.of_nat (length data))%Z
  end.
Proof.
  destruct (Z.le_gt_cases (Z.of_nat (length data)) max_input) as [Hmax|Hmax].
  - rewrite sha256_hex by done. split_and!; [apply sha_is_sha256|done|done].
  - unfold Sha256Hex. rewrite (update_overflow [] new_sha256 data new_hashes) by (simpl; lia). split; [done|lia].
Qed.

(** ** The manifest checksum hashes the manifest text *)

Definition entry_text (index : Z) (c : ManifestChunkChecksum) : bytes :=
  (if (index =? 0)%Z then [] else [10%Z]) ++
  to_string index ++ str ":" ++ to_string (mc_size c) ++ str ":" ++ mc_checksum c.

Fixpoint entries_text (index : Z) (chunks : list ManifestChunkChecksum) : bytes :=
  match chunks with
  | [] => []
  | c :: chunks => entry_text index c ++ entries_text (index + 1) chunks
  end.

Definition manifest_text (file_size chunk_size : Z) (chunks : list ManifestChunkChecksum) : bytes :=
  (str "vexfs-manifest-v1:" ++ to_string chunk_size ++ str ":" ++ to_string file_size ++ str ":" ++
   to_string (Z.of_nat (length chunks)) ++ [10%Z]) ++ entries_text 0 chunks.

(** The chunks cover the rest of the file: full chunks, then a shorter one. *)
Fixpoint chunks_cover (chunk_size rest : Z) (chunks : list ManifestChunkChecksum) : bool :=
  match chunks with
  | [] => (rest =? 0)%Z
  | c :: chunks =>
    (mc_size c =? Z.min chunk_size rest)%Z && IsSha256 (mc_checksum c) &&
    chunks_cover chunk_size (rest - mc_size c) chunks
  end.

Definition manifest_valid (file_size chunk_size : Z) (chunks : list ManifestChunkChecksum) : bool :=
  (Z.of_nat (length chunks) =? (if file_size =? 0 then 0 else 1 + (file_size - 1) / chunk_size))%Z &&
  chunks_cover chunk_size file_size chunks.

Lemma length_digits fuel z : length (digits fuel z) ≤ fuel.
Proof.
  revert z. induction fuel as [|fuel IH]; intros z; [done|]. simpl.
  destruct (z <? 10)%Z; [simpl; lia|]. rewrite length_app. simpl. specialize (IH (z / 10)%Z). lia.
Qed.

Lemma length_to_string z : length (to_string z) ≤ 20.
Proof. apply length_digits. Qed.

(** A separator and an entry are hashed by one or two calls. *)
Lemma entry_hashes m hash index c :
  hashes m hash → IsSha256 (mc_checksum c) = true → (Z.of_nat (length m) <= 2 ^ 60)%Z →
  ∃ hash', (let! hash := (if (index =? 0)%Z then Ok hash else Update hash [10%Z]) in
    Update hash (to_string index ++ str ":" ++ to_string (mc_size c) ++ str ":" ++ mc_checksum c)) = Ok hash' ∧
    hashes (m ++ entry_text index c) hash' ∧ length (entry_text index c) ≤ 107.
Proof.
  intros Hh Hc Hm. assert (Hmax : (2 ^ 60 + 200 <= max_input)%Z) by done.
  pose proof (is_sha256_length _ Hc) as Hl. pose proof (length_to_string index) as L1.
  pose proof (length_to_string (mc_size c)) as L2.
  set (body := to_string index ++ _).
  assert (Hb : length body ≤ 106) by (unfold body; rewrite !length_app; simpl; lia).
  unfold entry_text. fold body. destruct (index =? 0)%Z.
  - cbn [result_bind]. destruct (update_hashes m hash body Hh) as (h' & -> & Hh'); [lia|].
    exists h'. split_and!; [done|done|simpl; lia].
  - destruct (update_hashes m hash [10%Z] Hh) as (h1 & -> & Hh1); [simpl; lia|]. cbn [result_bind].
    destruct (update_hashes _ h1 body Hh1) as (h' & -> & Hh'); [rewrite !length_app; simpl; lia|].
    exists h'. split_and!; [done|by rewrite app_assoc|simpl; lia].
Qed.

(** The loop over the entries, [total] bytes of the file behind it. *)
Lemma manifest_entries_spec fs cs index total chunks m hash :
  (0 < cs)%Z → (0 <= total <= fs)%Z → (fs < 2 ^ 63)%Z → hashes m hash →
  (Z.of_nat (length m) + 107 * Z.of_nat (length chunks) <= 2 ^ 60)%Z →
  match manifest_entries fs cs index total chunks hash with
  | Ok (total', hash') =>
    hashes (m ++ entries_text index chunks) hash' ∧
    chunks_cover cs (fs - total) chunks = (total' =? fs)%Z
  | Throw e => e = InvalidArgument ∧ chunks_cover cs (fs - total) chunks = false
  end.
Proof.
  intros Hcs Htot Hfs. revert index total m hash Htot. induction chunks as [|c chunks IH]; intros index total m hash Htot Hh Hm.
  { simpl. rewrite app_nil_r. split; [done|]. destruct (Z.eqb_spec (fs - total) 0), (Z.eqb_spec total fs); lia || done. }
  cbn [manifest_entries chunks_cover entries_text]. unfold u64 at 1. rewrite (Z.mod_small (fs - total)) by lia.
  destruct (Z.eqb_spec (mc_size c) (Z.min cs (fs - total))) as [Hs|Hs]; [|done]. cbn [negb orb andb].
  destruct (IsSha256 (mc_checksum c)) eqn:Hc; [|done]. cbn [negb orb andb].
  destruct (Z.ltb_spec (2 ^ 64 - 1 - total) (mc_size c)); [lia|].
  destruct (entry_hashes m hash index c Hh Hc) as (h' & Hrun & Hh' & Hl); [simpl length in Hm; lia|].
  destruct (if (index =? 0)%Z then _ else _) as [h1|]; [|done]. cbn [result_bind] in Hrun |- *. rewrite Hrun.
  cbn [result_bind]. unfold u64. rewrite Z.mod_small by lia.
  specialize (IH (index + 1)%Z (total + mc_size c)%Z (m ++ entry_text index c) h' ltac:(lia) Hh').
  rewrite length_app in IH. simpl length in Hm. specialize (IH ltac:(lia)).
  rewrite app_assoc. by replace (fs - total - mc_size c)%Z with (fs - (total + mc_size c))%Z by lia.
Qed.

Lemma manifest_checksum_eq fs cs chunks :
  (0 < cs < 2 ^ 63)%Z → (0 <= fs < 2 ^ 63)%Z → (Z.of_nat (length chunks) < 2 ^ 48)%Z →
  ManifestChecksum fs cs chunks =
    if manifest_valid fs cs chunks then Ok (sha (manifest_text fs cs chunks)) else Throw InvalidArgument.
Proof.
  intros Hcs Hfs Hn. unfold ManifestChecksum, manifest_valid, manifest_text.
  destruct (Z.eqb_spec cs 0); [lia|]. rewrite Z.eqb_sym.
  destruct (Z.of_nat (length chunks) =? _)%Z; [|done]. cbn [negb andb].
  set (header := str "vexfs-manifest-v1:" ++ _).
  assert (Hl : length header ≤ 100).
  { pose proof (length_to_string cs). pose proof (length_to_string fs).
    pose proof (length_to_string (Z.of_nat (length chunks))). unfold header. rewrite !length_app. simpl. lia. }
  assert (Hmax : (2 ^ 60 + 200 <= max_input)%Z) by done. clearbody header. cbv zeta.
  destruct (update_hashes [] new_sha256 header new_hashes) as (h & -> & Hh); [change (length []) with 0; lia|]. cbn [result_bind].
  pose proof (manifest_entries_spec fs cs 0 0 chunks _ h ltac:(lia) ltac:(lia) ltac:(lia) Hh ltac:(simpl; lia)) as Hspec.
  rewrite Z.sub_0_r in Hspec. destruct (manifest_entries fs cs 0 0 chunks h) as [[total h2]|e]; cbn [result_bind].
  - destruct Hspec as [Hh2 ->]. simpl fst. simpl snd. destruct (total =? fs)%Z; [|done]. cbn [negb].
    by destruct (finish_digest _ _ Hh2) as (h3 & -> & _).
  - destruct Hspec as [-> ->]. done.
Qed.

(** [ManifestChecksum] is the SHA-256 of the manifest text (sizes, chunk
    count, and the index, size and checksum of every chunk in order) exactly when
    the chunk list covers the file with full chunks and a last shorter one, each
    with a well-formed checksum; every other list is refused. *)
Theorem manifest_checksum_spec fs cs chunks :
  (0 < cs < 2 ^ 63)%Z → (0 <= fs < 2 ^ 63)%Z → (Z.of_nat (length chunks) < 2 ^ 48)%Z →
  ManifestChecksum fs cs chunks =
    if manifest_valid fs cs chunks then Ok (sha (manifest_text fs cs chunks)) else Throw InvalidArgument.
Proof. apply manifest_checksum_eq. Qed.

(** ** Instances *)

(** The message of the standard's first example, in three pieces. *)
Example sha256_abc : Sha256Hex (str "abc") =
  Ok (str "ba7816bf8f01cfea414140de5dae2223b00361a396177a9cb410ff61f20015ad").
Proof. vm_compute. reflexivity. Qed.

Lemma sha256_streams_witness :
  ∃ h h', Updates new_sha256 [str "a"; []; str "bc"] = Ok h ∧ Finish h = Ok (reference_digest (str "abc"), h').
Proof. apply (sha256_streams [str "a"; []; str "bc"]). vm_compute. discriminate. Defined.

Lemma manifest_checksum_spec_witness :
  ManifestChecksum 3 2 [mkChunkChecksum 2 (sha (str "ab")); mkChunkChecksum 1 (sha (str "c"))] =
    Ok (sha (manifest_text 3 2 [mkChunkChecksum 2 (sha (str "ab")); mkChunkChecksum 1 (sha (str "c"))])) ∧
  ManifestChecksum 3 2 [mkChunkChecksum 2 (sha (str "ab"))] = Throw InvalidArgument.
Proof.
  split.
  - rewrite manifest_checksum_spec; [vm_compute; reflexivity|lia|lia|simpl; lia].
  - rewrite manifest_checksum_spec; [vm_compute; reflexivity|lia|lia|simpl; lia].
Defined.
