(* ===== verification/VexfsText.v ===== *)
(** * Paths, text and patterns of the workspace file system

    The string functions of [src/vexdb_sqlite/src/agent_files/vexfs_sqlite.cpp]:
    splitting and printing paths, UTF-8 validation, line search, JSON escaping,
    globbing, argument validation and request fingerprints. A [std::string] is its
    list of bytes; a position in a string is the suffix that starts there. *)
From Stdlib Require Import ZArith Lia String.
From stdpp Require Import prelude.
From S2P Require Import Prelude Sha256.

Local Open Scope Z_scope.
Local Open Scope vex_scope.

(** The code a [SqlError] carries; the message is not modelled. *)
Inductive SqlError :=
| SQLITE_ERROR | SQLITE_MISMATCH | SQLITE_NOTFOUND | SQLITE_RANGE | SQLITE_TOOBIG | SQLITE_CORRUPT
| SQLITE_CONSTRAINT | SQLITE_READONLY | SQLITE_FULL | SQLITE_BUSY
| VEXFS_SQLITE_CONSTRAINT_NOT_EMPTY.

Abbreviation sql := (result SqlError).

(** ** Arguments *)

Inductive sqlite_value := VNull | VInteger (z : Z) | VOther.

Definition RequiredPositiveInteger (value : sqlite_value) : sql Z :=
  match value with
  | VInteger r => if r <=? 0 then Throw SQLITE_RANGE else Ok r
  | _ => Throw SQLITE_MISMATCH
  end.

Definition RequiredNonnegativeInteger (value : sqlite_value) : sql Z :=
  match value with
  | VInteger r => if r <? 0 then Throw SQLITE_RANGE else Ok r
  | _ => Throw SQLITE_MISMATCH
  end.

Definition RequiredOwnerId (value : sqlite_value) : sql Z :=
  match value with
  | VInteger r => if (r <? -1) || (0xffffffff <? r) then Throw SQLITE_RANGE else Ok r
  | _ => Throw SQLITE_MISMATCH
  end.

Definition RequiredMode (value : sqlite_value) : sql Z :=
  match value with
  | VInteger m => if (m <? 0) || (511 <? m) then Throw SQLITE_RANGE else Ok m
  | _ => Throw SQLITE_MISMATCH
  end.

(** ** Paths *)

Definition slash : Z := 47.

(** The bytes up to the next slash, and what follows the slash. *)
Fixpoint until_slash (l : bytes) : bytes * option bytes :=
  match l with
  | [] => ([], None)
  | c :: l =>
    if c =? slash then ([], Some l)
    else let '(part, next) := until_slash l in (c :: part, next)
  end.

Definition check_part (part : bytes) : sql (list bytes) :=
  if negb (0 <? length part)%nat then Ok []
  else if bool_decide (part = str ".") || bool_decide (part = str "..") then Throw SQLITE_MISMATCH
  else if (255 <? length part)%nat then Throw SQLITE_MISMATCH
  else Ok [part].

Fixpoint path_loop (fuel : nat) (rest : bytes) : sql (list bytes) :=
  match fuel with
  | O => Ok []
  | S fuel =>
    let '(part, next) := until_slash rest in
    let! parts := check_part part in
    match next with
    | None => Ok parts
    | Some rest => let! more := path_loop fuel rest in Ok (parts ++ more)
    end
  end.

Definition PathParts (path : bytes) : sql (list bytes) :=
  match path with
  | [] => Throw SQLITE_MISMATCH
  | c :: rest =>
    if negb (c =? slash) then Throw SQLITE_MISMATCH
    else if existsb (Z.eqb 0) path then Throw SQLITE_MISMATCH
    else path_loop (S (length rest)) rest
  end.

Definition CanonicalPath (parts : list bytes) : bytes :=
  match parts with
  | [] => [slash]
  | _ => part ← parts; slash :: part
  end.

(** ** UTF-8 *)

(** The continuation bytes after a lead byte. *)
Fixpoint continuation (n : nat) (codepoint : Z) (l : bytes) : option (Z * bytes) :=
  match n, l with
  | O, _ => Some (codepoint, l)
  | S n, next :: l =>
    if negb (Z.land next 0xc0 =? 0x80) then None
    else continuation n (Z.lor (Z.shiftl codepoint 6) (Z.land next 0x3f)) l
  | S _, [] => None
  end.

Definition lead_byte (first : Z) : option (nat * Z * Z) :=
  if Z.land first 0xe0 =? 0xc0 then Some (1%nat, Z.land first 0x1f, 0x80)
  else if Z.land first 0xf0 =? 0xe0 then Some (2%nat, Z.land first 0x0f, 0x800)
  else if Z.land first 0xf8 =? 0xf0 then Some (3%nat, Z.land first 0x07, 0x10000)
  else None.

Fixpoint utf8_loop (fuel : nat) (content : bytes) : bool :=
  match fuel, content with
  | S fuel, first :: l =>
    if first =? 0 then false
    else if first <? 0x80 then utf8_loop fuel l
    else
      match lead_byte first with
      | None => false
      | Some (trailing, codepoint, minimum) =>
        if (length l <? trailing)%nat then false
        else
          match continuation trailing codepoint l with
          | None => false
          | Some (codepoint, l) =>
            if (codepoint <? minimum) || (0x10ffff <? codepoint) ||
               ((0xd800 <=? codepoint) && (codepoint <=? 0xdfff)) then false
            else utf8_loop fuel l
          end
      end
  | _, _ => true
  end.

Definition IsUtf8Text (content : bytes) : bool := utf8_loop (length content) content.

(** ** Searching a line *)

Definition FoldAscii (value : Z) : Z :=
  if (65 <=? value) && (value <=? 90) then u8 (value + 32) else value.

Definition char_equal (ignore_case : bool) (left right : Z) : bool :=
  if ignore_case then FoldAscii left =? FoldAscii right else left =? right.

Fixpoint starts_with (ignore_case : bool) (line pattern : bytes) : bool :=
  match pattern, line with
  | [], _ => true
  | p :: pattern, c :: line => char_equal ignore_case c p && starts_with ignore_case line pattern
  | _ :: _, [] => false
  end.

(** [std::search(...) != end] *)
Fixpoint LineContains (line pattern : bytes) (ignore_case : bool) : bool :=
  match line with
  | [] => false
  | _ :: rest => starts_with ignore_case line pattern || LineContains rest pattern ignore_case
  end.

(** ** JSON strings *)

Definition hex4 (c : Z) : bytes := [48; 48; hex_digit (Z.shiftr c 4); hex_digit (Z.land c 0x0f)].

Definition escape_char (c : Z) : bytes :=
  if c =? 34 then [92; 34]
  else if c =? 92 then [92; 92]
  else if c =? 8 then [92; 98]
  else if c =? 12 then [92; 102]
  else if c =? 10 then [92; 110]
  else if c =? 13 then [92; 114]
  else if c =? 9 then [92; 116]
  else if c <? 0x20 then [92; 117] ++ hex4 c
  else [c].

Definition JsonEscape (value : bytes) : bytes := c ← value; escape_char c.

(** ** Globbing *)

Definition Utf8CodePointBytes (text : bytes) : nat :=
  match text with
  | [] => 1%nat
  | lead :: rest =>
    let length' :=
      if Z.land lead 0xe0 =? 0xc0 then 2%nat
      else if Z.land lead 0xf0 =? 0xe0 then 3%nat
      else if Z.land lead 0xf8 =? 0xf0 then 4%nat
      else 1%nat in
    if (length text <? length')%nat then 1%nat
    else if forallb (λ c, Z.land c 0xc0 =? 0x80) (take (length' - 1) rest) then length'
    else 1%nat
  end.

(** [star] is the pattern after the last [*] and the value from where it matches. *)
Fixpoint glob_loop (fuel : nat) (pattern value : bytes) (star : option (bytes * bytes)) : option bool :=
  match fuel with
  | O => None
  | S fuel =>
    match value with
    | [] => Some (forallb (Z.eqb 42) pattern)
    | _ :: _ =>
      let backtrack :=
        match star with
        | None => Some false
        | Some (p, v) =>
          let v := drop (Utf8CodePointBytes v) v in glob_loop fuel p v (Some (p, v))
        end in
      match pattern with
      | [] => backtrack
      | c :: rest =>
        if c =? 63 then glob_loop fuel rest (drop (Utf8CodePointBytes value) value) star
        else if negb (c =? 42) then
          let pattern_bytes := Utf8CodePointBytes pattern in
          let value_bytes := Utf8CodePointBytes value in
          if negb (pattern_bytes =? value_bytes)%nat ||
             negb (bool_decide (take pattern_bytes pattern = take value_bytes value))
          then backtrack
          else glob_loop fuel (drop pattern_bytes pattern) (drop value_bytes value) star
        else glob_loop fuel rest value (Some (rest, value))
      end
    end
  end.

Definition glob_fuel (pattern value : bytes) : nat :=
  ((length value + 3) * (length pattern + 1) + length pattern + 1)%nat.

Definition FindGlobMatches (pattern value : bytes) : option bool :=
  glob_loop (glob_fuel pattern value) pattern value None.

(** ** Timestamps *)

Definition isdigit (c : Z) : bool := (48 <=? c) && (c <=? 57).

Definition HasExplicitRfc3339Timezone (value : bytes) : bool :=
  let size := length value in
  let at_ i := nth i value 0 in
  if (size <? 20)%nat || negb (at_ 10%nat =? 84) then false
  else
    let last := at_ (size - 1)%nat in
    if (last =? 90) || (last =? 122) then true
    else if (size <? 25)%nat then false
    else
      let sign := (size - 6)%nat in
      ((at_ sign =? 43) || (at_ sign =? 45)) && (at_ (sign + 3)%nat =? 58) &&
      isdigit (at_ (sign + 1)%nat) && isdigit (at_ (sign + 2)%nat) &&
      isdigit (at_ (sign + 4)%nat) && isdigit (at_ (sign + 5)%nat).

(** ** Request fingerprints *)

Definition fingerprint_init : list Z :=
  [1469598103934665603; 1099511628211; 7809847782465536322; 9650029242287828579].

(** One byte into each of the four states. *)
Definition mix_byte (states : list Z) (b : Z) : list Z :=
  imap (λ state v,
    u64 (Z.lxor v (b + Z.of_nat state * 37) * (1099511628211 + Z.of_nat state * 2))) states.

Definition AddBytes (states : list Z) (data : bytes) : list Z := foldl mix_byte states data.

Definition big_endian8 (value : Z) : bytes := length_bytes (u64 value).

Definition AddLength (states : list Z) (value : nat) : list Z :=
  AddBytes states (big_endian8 (Z.of_nat value)).

Definition AddText (states : list Z) (value : bytes) : list Z :=
  AddBytes (AddLength states (length value)) value.

Definition AddBlob (states : list Z) (value : bytes) : list Z :=
  AddBytes (AddLength states (length value)) value.

Definition AddInt64 (states : list Z) (value : Z) : list Z :=
  AddBytes (AddLength states 8) (big_endian8 value).

(** The four states as they lie in memory, least significant byte first. *)
Definition FinishFingerprint (states : list Z) : bytes := v ← states; rev (big_endian8 v).

Definition NewFingerprint (operation : bytes) : list Z := AddText fingerprint_init operation.
