(* ===== verification/VexfsTextFacts.v ===== *)
(** * Theorems on paths, text and patterns

    Paths: splitting and printing are inverse on valid components. UTF-8: the
    validator accepts exactly the encodings of scalar values other than NUL. Globs:
    the backtracking matcher decides the declarative match on code points. JSON:
    escaping can be undone and leaves nothing a JSON string must not contain. *)
From Stdlib Require Import ZArith Lia String.
From stdpp Require Import prelude.
From S2P Require Import Prelude Sha256 VexfsText.

Local Open Scope vex_scope.

(** ** Paths *)

Record valid_part (p : bytes) : Prop := {
  vp_nonempty : p ≠ [];
  vp_slash : slash ∉ p;
  vp_nul : 0%Z ∉ p;
  vp_dot : p ≠ str "." ∧ p ≠ str "..";
  vp_short : length p ≤ 255;
}.

Lemma until_slash_spec l :
  let '(part, next) := until_slash l in
  slash ∉ part ∧ l = part ++ match next with Some r => slash :: r | None => [] end.
Proof.
  induction l as [|c l IH]; simpl; [split; [apply not_elem_of_nil|done]|].
  destruct (Z.eqb_spec c slash) as [->|Hc]; [split; [apply not_elem_of_nil|done]|].
  destruct (until_slash l) as [part next]. destruct IH as [IH1 ->].
  split; [|done]. rewrite elem_of_cons. intros [?|?]; [congruence|done].
Qed.

Lemma until_slash_part p rest :
  slash ∉ p → until_slash (p ++ slash :: rest) = (p, Some rest) ∧ until_slash p = (p, None).
Proof.
  induction p as [|c p IH]; intros Hp; simpl; [done|].
  rewrite elem_of_cons in Hp. destruct (Z.eqb_spec c slash) as [->|Hc]; [naive_solver|].
  destruct IH as [-> ->]; [naive_solver|]. done.
Qed.

Lemma check_part_valid p : valid_part p → check_part p = Ok [p].
Proof.
  intros [Hne _ _ [Hd1 Hd2] Hlen]. unfold check_part.
  destruct (Nat.ltb_spec 0 (length p)); [|destruct p; simpl in *; [done|lia]]. cbn [negb].
  rewrite !bool_decide_eq_false_2 by done. cbn [orb]. destruct (Nat.ltb_spec 255 (length p)); [lia|done].
Qed.

Lemma check_part_ok p ps : check_part p = Ok ps → slash ∉ p → 0%Z ∉ p → Forall valid_part ps ∧ concat ps = p.
Proof.
  unfold check_part. intros H Hs Hn. destruct (Nat.ltb_spec 0 (length p)) as [Hl|Hl]; cbn [negb] in H.
  - destruct (bool_decide_reflect (p = str ".")), (bool_decide_reflect (p = str ".."));
      cbn [orb] in H; try done.
    destruct (Nat.ltb_spec 255 (length p)); [done|]. injection H as <-. split; [|simpl; by rewrite app_nil_r].
    apply Forall_singleton. split; [intros ->; simpl in Hl; lia|done|done|done|done].
  - injection H as <-. split; [constructor|]. destruct p; [done|simpl in Hl; lia].
Qed.

(** The printed tail of a path. *)
Abbreviation printed parts := (parts ≫= λ part, slash :: part).

Lemma canonical_cons p parts : CanonicalPath (p :: parts) = slash :: p ++ printed parts.
Proof. unfold CanonicalPath. by rewrite bind_cons. Qed.

Lemma path_loop_parts fuel p parts :
  Forall valid_part (p :: parts) → length (p ++ printed parts) < fuel →
  path_loop fuel (p ++ printed parts) = Ok (p :: parts).
Proof.
  revert fuel p. induction parts as [|p' parts IH]; intros fuel p [Hp Hv]%Forall_cons Hf;
    (destruct fuel as [|fuel]; [lia|]); cbn [path_loop].
  - simpl. rewrite app_nil_r. destruct (until_slash_part p [] (vp_slash _ Hp)) as [_ ->].
    by rewrite check_part_valid.
  - rewrite bind_cons in Hf |- *. change ((slash :: p') ++ ?a) with (slash :: p' ++ a) in *.
    destruct (until_slash_part p (p' ++ printed parts) (vp_slash _ Hp)) as [-> _].
    rewrite check_part_valid by done. cbn [result_bind].
    rewrite IH; [done|done|]. rewrite !length_app in Hf |- *. simpl in Hf. rewrite length_app in Hf. lia.
Qed.

Lemma path_loop_valid fuel l ps : path_loop fuel l = Ok ps → 0%Z ∉ l → Forall valid_part ps.
Proof.
  revert l ps. induction fuel as [|fuel IH]; intros l ps; simpl; [intros [= <-] _; constructor|].
  pose proof (until_slash_spec l) as Hu. destruct (until_slash l) as [part next]. destruct Hu as [Hs Hl].
  intros (ps1 & Hc & Hn)%result_bind_Ok H0.
  assert (Hp : Forall valid_part ps1).
  { eapply check_part_ok; [done|done|]. intros ?. apply H0. rewrite Hl. apply elem_of_app. by left. }
  destruct next as [r|]; [|by injection Hn as <-].
  apply result_bind_Ok in Hn as (ps2 & Hr & [= <-]). apply Forall_app. split; [done|].
  eapply IH; [done|]. intros ?. apply H0. rewrite Hl. apply elem_of_app. right. by right.
Qed.

Lemma existsb_nul l : existsb (Z.eqb 0) l = true ↔ 0%Z ∈ l.
Proof.
  rewrite existsb_exists. setoid_rewrite Z.eqb_eq. split.
  - intros (x & Hx & <-). by apply list_elem_of_In.
  - intros Hx. exists 0%Z. split; [by apply list_elem_of_In|done].
Qed.

Lemma path_parts_canonical parts : Forall valid_part parts → PathParts (CanonicalPath parts) = Ok parts.
Proof.
  intros Hv. destruct parts as [|p parts]; [done|]. rewrite canonical_cons.
  assert (Hn : existsb (Z.eqb 0) (slash :: p ++ printed parts) = false).
  { apply not_true_iff_false. rewrite existsb_nul, <- canonical_cons. unfold CanonicalPath.
    rewrite list_elem_of_bind. intros (q & Hq & Hin).
    rewrite Forall_forall in Hv. apply elem_of_cons in Hq as [Hq|Hq]; [done|]. by apply (vp_nul _ (Hv q Hin)). }
  unfold PathParts. rewrite Hn. change (negb (slash =? slash)%Z) with false. cbv iota.
  apply path_loop_parts; [done|lia].
Qed.

Lemma path_parts_valid path parts : PathParts path = Ok parts → Forall valid_part parts.
Proof.
  intros Hp. destruct path as [|c rest]; [done|]. unfold PathParts in Hp.
  destruct (negb (c =? slash)%Z); [done|]. destruct (existsb (Z.eqb 0) (c :: rest)) eqn:Hn; [done|].
  eapply path_loop_valid; [done|]. intros Hin. apply not_true_iff_false in Hn. apply Hn, existsb_nul. by right.
Qed.

(** C37: paths round trip. Every accepted path splits into components that are
    non-empty, at most 255 bytes, without slash or NUL and neither [.] nor [..];
    printing them and splitting again gives the same components, so
    [CanonicalPath] of the components is a normal form of the path; and every
    list of such components is the result of splitting its printed form. *)
Theorem path_round_trip :
  (∀ parts, Forall valid_part parts → PathParts (CanonicalPath parts) = Ok parts) ∧
  (∀ path parts, PathParts path = Ok parts →
     Forall valid_part parts ∧ PathParts (CanonicalPath parts) = Ok parts).
Proof.
  split; [apply path_parts_canonical|]. intros path parts Hp%path_parts_valid. by split; [|apply path_parts_canonical].
Qed.

(** ** UTF-8 *)

(** Scalar values other than NUL. *)
Definition scalar (c : Z) : Prop := (0 < c <= 0x10ffff ∧ ¬ 0xd800 <= c <= 0xdfff)%Z.

Definition utf8_char (c : Z) : bytes :=
  (if c <? 0x80 then [c]
   else if c <? 0x800 then [0xc0 + c / 64; 0x80 + c mod 64]
   else if c <? 0x10000 then [0xe0 + c / 4096; 0x80 + c / 64 mod 64; 0x80 + c mod 64]
   else [0xf0 + c / 262144; 0x80 + c / 4096 mod 64; 0x80 + c / 64 mod 64; 0x80 + c mod 64])%Z.

Definition utf8 (cs : list Z) : bytes := cs ≫= utf8_char.

Definition is_byte (b : Z) : Prop := (0 <= b < 256)%Z.

(** A decidable fact about bytes holds when it holds of each of them. *)
Lemma byte_cases (f : Z → bool) :
  forallb f (Z.of_nat <$> seq 0 256) = true → ∀ b, is_byte b → f b = true.
Proof.
  intros Hf b Hb. unfold is_byte in Hb. rewrite forallb_forall in Hf. apply Hf.
  apply list_elem_of_In, list_elem_of_fmap. exists (Z.to_nat b). split; [lia|].
  apply elem_of_seq. lia.
Qed.

Lemma continuation_byte b : is_byte b →
  (Z.land b 0xc0 =? 0x80)%Z = ((0x80 <=? b) && (b <? 0xc0))%Z ∧
  ((0x80 <=? b) && (b <? 0xc0) = true → Z.land b 0x3f = b - 0x80)%Z.
Proof.
  intros Hb. split.
  - apply eqb_prop. revert b Hb. apply byte_cases. vm_compute. reflexivity.
  - pose proof (byte_cases (λ b, negb ((0x80 <=? b) && (b <? 0xc0)) || (Z.land b 0x3f =? b - 0x80))%Z
      ltac:(vm_compute; reflexivity) b Hb) as H. cbv beta in H.
    intros Hr. rewrite Hr in H. simpl in H. by apply Z.eqb_eq.
Qed.

Definition lead_ref (b : Z) : option (nat * Z * Z) :=
  (if (0xc0 <=? b) && (b <? 0xe0) then Some (1%nat, b - 0xc0, 0x80)
   else if (0xe0 <=? b) && (b <? 0xf0) then Some (2%nat, b - 0xe0, 0x800)
   else if (0xf0 <=? b) && (b <? 0xf8) then Some (3%nat, b - 0xf0, 0x10000)
   else None)%Z.

Definition lead_agrees (b : Z) : bool := bool_decide (lead_byte b = lead_ref b).

Lemma lead_byte_ref b : is_byte b → lead_byte b = lead_ref b.
Proof.
  intros Hb. assert (H : lead_agrees b = true).
  { revert b Hb. apply byte_cases. vm_compute. reflexivity. }
  by apply bool_decide_eq_true in H.
Qed.

Lemma shift_or a b : (0 <= b < 64)%Z → Z.lor (Z.shiftl a 6) b = (a * 64 + b)%Z.
Proof.
  intros Hb. rewrite Z.shiftl_mul_pow2 by lia. pose proof (Z.add_lor_land (a * 2 ^ 6) b).
  assert (Z.land (a * 2 ^ 6) b = 0)%Z as Hz; [|lia].
  apply Z.bits_inj'. intros n Hn. rewrite Z.land_spec, Z.bits_0.
  destruct (Z.lt_ge_cases n 6).
  - rewrite Z.mul_pow2_bits_low by lia. done.
  - rewrite <- (Z.mod_small b (2 ^ 6)), Z.mod_pow2_bits_high by lia. apply andb_false_r.
Qed.

(** Reading continuation bytes is reading base-64 digits. *)
Lemma continuation_step n cp b l :
  is_byte b → continuation (S n) cp (b :: l) =
    if ((0x80 <=? b) && (b <? 0xc0))%Z then continuation n (cp * 64 + (b - 0x80))%Z l else None.
Proof.
  intros Hb. cbn [continuation]. destruct (continuation_byte b Hb) as [-> H].
  destruct ((0x80 <=? b) && (b <? 0xc0))%Z eqn:E; simpl; [|done].
  rewrite H by done. rewrite shift_or; [done|]. apply andb_prop in E as [E1%Z.leb_le E2%Z.ltb_lt]. lia.
Qed.

Ltac cases_Z :=
  repeat match goal with
  | |- context [(?a <? ?b)%Z] => destruct (Z.ltb_spec a b); try lia
  | |- context [(?a <=? ?b)%Z] => destruct (Z.leb_spec a b); try lia
  | |- context [(?a =? ?b)%Z] => destruct (Z.eqb_spec a b); try lia
  end.

Ltac euclid := Z.to_euclidean_division_equations; lia.

(** The acceptance test after the bytes of a code point. *)
Lemma utf8_accept c minimum (b : bool) : scalar c → (minimum <= c)%Z →
  (if (c <? minimum)%Z || (0x10ffff <? c)%Z || ((0xd800 <=? c) && (c <=? 0xdfff))%Z then false else b) = b.
Proof. intros [H1 H2] Hm. cases_Z; done. Qed.

(** The validator reads one encoded code point per step. *)
Lemma utf8_loop_char fuel c rest :
  scalar c → utf8_loop (S fuel) (utf8_char c ++ rest) = utf8_loop fuel rest.
Proof.
  intros Hc. pose proof Hc as [Hr _]. unfold utf8_char.
  destruct (Z.ltb_spec c 0x80) as [H1|H1]; [|destruct (Z.ltb_spec c 0x800) as [H2|H2];
    [|destruct (Z.ltb_spec c 0x10000) as [H3|H3]]]; cbn [app utf8_loop].
  - cases_Z; done.
  - assert (0 <= c mod 64 < 64 ∧ 2 <= c / 64 < 32 ∧ c = c / 64 * 64 + c mod 64)%Z as (A1 & A2 & A3) by euclid.
    rewrite lead_byte_ref by (unfold is_byte; lia). unfold lead_ref. cases_Z. cbn [andb length].
    rewrite continuation_step by (unfold is_byte; lia). cases_Z. cbn [andb continuation].
    replace ((0xc0 + c / 64 - 0xc0) * 64 + (0x80 + c mod 64 - 0x80))%Z with c by lia.
    by apply utf8_accept.
  - assert (0 <= c mod 64 < 64 ∧ 0 <= c / 64 mod 64 < 64 ∧ 0 <= c / 4096 < 16 ∧
      c = (c / 4096 * 64 + c / 64 mod 64) * 64 + c mod 64)%Z as (A1 & A2 & A3 & A4) by euclid.
    rewrite lead_byte_ref by (unfold is_byte; lia). unfold lead_ref. cases_Z. cbn [andb length].
    rewrite continuation_step by (unfold is_byte; lia). cases_Z. cbn [andb].
    rewrite continuation_step by (unfold is_byte; lia). cases_Z. cbn [andb continuation].
    replace (((0xe0 + c / 4096 - 0xe0) * 64 + (0x80 + c / 64 mod 64 - 0x80)) * 64 + (0x80 + c mod 64 - 0x80))%Z
      with c by lia.
    by apply utf8_accept.
  - assert (0 <= c mod 64 < 64 ∧ 0 <= c / 64 mod 64 < 64 ∧ 0 <= c / 4096 mod 64 < 64 ∧ 0 <= c / 262144 < 8 ∧
      c = ((c / 262144 * 64 + c / 4096 mod 64) * 64 + c / 64 mod 64) * 64 + c mod 64)%Z
      as (A1 & A2 & A3 & A4 & A5) by euclid.
    rewrite lead_byte_ref by (unfold is_byte; lia). unfold lead_ref. cases_Z. cbn [andb length].
    rewrite continuation_step by (unfold is_byte; lia). cases_Z. cbn [andb].
    rewrite continuation_step by (unfold is_byte; lia). cases_Z. cbn [andb].
    rewrite continuation_step by (unfold is_byte; lia). cases_Z. cbn [andb continuation].
    replace ((((0xf0 + c / 262144 - 0xf0) * 64 + (0x80 + c / 4096 mod 64 - 0x80)) * 64 +
      (0x80 + c / 64 mod 64 - 0x80)) * 64 + (0x80 + c mod 64 - 0x80))%Z with c by lia.
    by apply utf8_accept.
Qed.

Lemma continuation_inv n cp l c rest :
  Forall is_byte l → continuation n cp l = Some (c, rest) →
  ∃ ds, length ds = n ∧ l = ((λ d, 0x80 + d)%Z <$> ds) ++ rest ∧ Forall (λ d, 0 <= d < 64)%Z ds ∧
    c = foldl (λ a d, a * 64 + d)%Z cp ds.
Proof.
  revert cp l. induction n as [|n IH]; intros cp l Hl Hc.
  { simpl in Hc. injection Hc as <- <-. by exists []. }
  destruct l as [|b l]; [done|]. apply Forall_cons in Hl as [Hb Hl].
  rewrite continuation_step in Hc by done.
  destruct ((0x80 <=? b) && (b <? 0xc0))%Z eqn:E; [|done].
  apply andb_prop in E as [E1%Z.leb_le E2%Z.ltb_lt].
  destruct (IH _ _ Hl Hc) as (ds & Hn & -> & Hds & ->). exists ((b - 0x80)%Z :: ds).
  split_and!; [by simpl; rewrite Hn|rewrite fmap_cons; cbn [app]; f_equal; lia|constructor; [lia|done]|done].
Qed.

Lemma utf8_loop_inv fuel b l :
  Forall is_byte (b :: l) → utf8_loop (S fuel) (b :: l) = true →
  ∃ c rest, scalar c ∧ b :: l = utf8_char c ++ rest ∧ utf8_loop fuel rest = true.
Proof.
  intros [Hb Hl]%Forall_cons. cbn [utf8_loop]. unfold is_byte in Hb.
  destruct (Z.eqb_spec b 0) as [|Hnz]; [done|]. destruct (Z.ltb_spec b 0x80) as [Hs|Hs].
  { intros Hr. exists b, l. unfold scalar, utf8_char. split_and!; [lia|lia|lia| |done]. cases_Z. done. }
  rewrite lead_byte_ref by done. destruct (lead_ref b) as [[[n cp] minimum]|] eqn:Hlead; [|done].
  destruct (length l <? n); [done|]. destruct (continuation n cp l) as [[c rest]|] eqn:Hc; [|done].
  destruct (_ || _) eqn:Hacc; [done|]. intros Hr. exists c, rest.
  apply continuation_inv in Hc as (ds & Hn & -> & Hds & Hval); [|done].
  apply orb_false_iff in Hacc as [[Hmin%Z.ltb_ge Hmax%Z.ltb_ge]%orb_false_iff Hsur].
  apply andb_false_iff in Hsur.
  assert (Hsc : scalar c).
  { split; [split; [|done]|].
    - unfold lead_ref in Hlead. repeat case_match; simplify_eq; lia.
    - destruct Hsur as [H%Z.leb_gt|H%Z.leb_gt]; lia. }
  split_and!; [done| |done]. rewrite app_comm_cons. f_equal. unfold lead_ref in Hlead.
  destruct ((0xc0 <=? b) && (b <? 0xe0))%Z eqn:E1; [|destruct ((0xe0 <=? b) && (b <? 0xf0))%Z eqn:E2;
    [|destruct ((0xf0 <=? b) && (b <? 0xf8))%Z eqn:E3; [|done]]]; injection Hlead as <- <- <-.
  - apply andb_prop in E1 as [?%Z.leb_le ?%Z.ltb_lt].
    destruct ds as [|d1 [|]]; try done. rewrite !Forall_cons in Hds. destruct Hds as (D1 & _). simpl in Hval.
    unfold utf8_char. cases_Z. simpl. repeat f_equal; euclid.
  - apply andb_prop in E2 as [?%Z.leb_le ?%Z.ltb_lt].
    destruct ds as [|d1 [|d2 [|]]]; try done. rewrite !Forall_cons in Hds. destruct Hds as (D1 & D2 & _). simpl in Hval.
    unfold utf8_char. cases_Z. simpl. repeat f_equal; euclid.
  - apply andb_prop in E3 as [?%Z.leb_le ?%Z.ltb_lt].
    destruct ds as [|d1 [|d2 [|d3 [|]]]]; try done. rewrite !Forall_cons in Hds.
    destruct Hds as (D1 & D2 & D3 & _). simpl in Hval.
    unfold utf8_char. cases_Z. simpl. repeat f_equal; euclid.
Qed.

(** C38: [IsUtf8Text] accepts a byte string exactly when it is the UTF-8 encoding
    of a sequence of Unicode scalar values without NUL: no truncated or overlong
    form, no surrogate, nothing above U+10FFFF. *)
Theorem utf8_text_iff content :
  Forall is_byte content →
  IsUtf8Text content = true ↔ ∃ cs, Forall scalar cs ∧ content = utf8 cs.
Proof.
  intros Hb. unfold IsUtf8Text. split.
  - assert (Hf : length content ≤ length content) by lia. revert Hf. generalize (length content) at 2 3.
    intros fuel. revert content Hb. induction fuel as [|fuel IH]; intros content Hb Hf Hu.
    { destruct content; [|simpl in Hf; lia]. by exists []. }
    destruct content as [|b l]; [by exists []|].
    destruct (utf8_loop_inv fuel b l Hb Hu) as (c & rest & Hc & Heq & Hr).
    assert (Hlen : length rest ≤ fuel).
    { apply (f_equal length) in Heq. rewrite length_app in Heq. simpl in Hf, Heq.
      assert (0 < length (utf8_char c)) by (unfold utf8_char; repeat case_match; simpl; lia). lia. }
    rewrite Heq in Hb. apply Forall_app in Hb as [_ Hb].
    destruct (IH rest Hb Hlen Hr) as (cs & Hcs & ->). exists (c :: cs). by split; [constructor|].
  - intros (cs & Hcs & ->). clear Hb.
    assert (Hf : length (utf8 cs) ≤ length (utf8 cs)) by lia. revert Hf. generalize (length (utf8 cs)) at 2 3.
    intros fuel. revert fuel. induction Hcs as [|c cs Hc Hcs IH]; intros fuel Hf; [by destruct fuel|].
    unfold utf8 in *. rewrite bind_cons in *. rewrite length_app in Hf.
    assert (0 < length (utf8_char c)) by (unfold utf8_char; repeat case_match; simpl; lia).
    destruct fuel as [|fuel]; [lia|]. rewrite utf8_loop_char by done. apply IH. lia.
Qed.

(** ** JSON strings *)

Definition hex_value (c : Z) : option Z :=
  (if (48 <=? c) && (c <=? 57) then Some (c - 48)
   else if (97 <=? c) && (c <=? 102) then Some (c - 87) else None)%Z.

(** A reader of JSON string contents, for the escapes below U+0100. *)
Fixpoint json_read (l : bytes) : option bytes :=
  match l with
  | [] => Some []
  | c :: l =>
    if (c =? 92)%Z then
      match l with
      | e :: l =>
        if (e =? 34)%Z then (cons 34%Z) <$> json_read l
        else if (e =? 92)%Z then (cons 92%Z) <$> json_read l
        else if (e =? 98)%Z then (cons 8%Z) <$> json_read l
        else if (e =? 102)%Z then (cons 12%Z) <$> json_read l
        else if (e =? 110)%Z then (cons 10%Z) <$> json_read l
        else if (e =? 114)%Z then (cons 13%Z) <$> json_read l
        else if (e =? 116)%Z then (cons 9%Z) <$> json_read l
        else if (e =? 117)%Z then
          match l with
          | z1 :: z2 :: h1 :: h2 :: l =>
            if ((z1 =? 48) && (z2 =? 48))%Z then
              match hex_value h1, hex_value h2 with
              | Some v1, Some v2 => (cons (v1 * 16 + v2)%Z) <$> json_read l
              | _, _ => None
              end
            else None
          | _ => None
          end
        else None
      | [] => None
      end
    else if ((c =? 34) || (c <? 0x20))%Z then None
    else (cons c) <$> json_read l
  end.

(** One escape sequence is read back as its byte. *)
Lemma json_read_escape b rest :
  is_byte b → json_read (escape_char b ++ rest) = cons b <$> json_read rest.
Proof.
  intros Hb. unfold escape_char.
  destruct (Z.eqb_spec b 34) as [->|]; [done|]. destruct (Z.eqb_spec b 92) as [->|]; [done|].
  destruct (Z.eqb_spec b 8) as [->|]; [done|]. destruct (Z.eqb_spec b 12) as [->|]; [done|].
  destruct (Z.eqb_spec b 10) as [->|]; [done|]. destruct (Z.eqb_spec b 13) as [->|]; [done|].
  destruct (Z.eqb_spec b 9) as [->|]; [done|]. unfold is_byte in Hb.
  destruct (Z.ltb_spec b 0x20) as [Hlow|Hhigh].
  - assert (Hd : hex_value (hex_digit (Z.shiftr b 4)) = Some (b / 16)%Z ∧
      hex_value (hex_digit (Z.land b 0x0f)) = Some (b mod 16)%Z).
    { change 0x0f%Z with (Z.ones 4). rewrite Z.land_ones, Z.shiftr_div_pow2 by lia. change (2 ^ 4)%Z with 16%Z.
      assert (0 <= b / 16 < 16 ∧ 0 <= b mod 16 < 16)%Z as [A B] by euclid. unfold hex_value, hex_digit.
      split; cases_Z; simpl; f_equal; lia. }
    destruct Hd as [D1 D2]. unfold hex4. cbn [app json_read]. cbn [Z.eqb Pos.eqb andb]. rewrite D1, D2.
    f_equal. f_equal. euclid.
  - cbn [app json_read]. cases_Z. done.
Qed.

(** JSON escaping is reversible and safe. Reading an escaped string back
    gives the original bytes (so no two strings have the same escape), and the
    reader refuses raw quotes and control characters, so the output contains none. *)
Theorem json_escape_reads value : Forall is_byte value → json_read (JsonEscape value) = Some value.
Proof.
  induction 1 as [|b value Hb _ IH]; [done|]. unfold JsonEscape in *. rewrite bind_cons.
  by rewrite json_read_escape, IH.
Qed.

(** ** Lines *)

Lemma starts_with_iff ic line pattern :
  starts_with ic line pattern = true ↔
  ∃ m rest, line = m ++ rest ∧ Forall2 (λ c p, char_equal ic c p = true) m pattern.
Proof.
  revert line. induction pattern as [|p pattern IH]; intros line; [|destruct line as [|c line]]; cbn [starts_with].
  - split; [intros _; exists [], line; split; [done|constructor]|by destruct line].
  - split; [done|]. intros ([|? ?] & rest & Hl & Hm); [by inversion Hm|done].
  - rewrite andb_true_iff, IH. split.
    + intros (Hc & m & rest & -> & Hm). exists (c :: m), rest. by split; [|constructor].
    + intros (m & rest & Hl & Hm). inversion Hm as [|c' ? m' ? Hc Hm']; subst. injection Hl as -> ->. eauto.
Qed.

(** [LineContains] finds a pattern exactly where it occurs: for a non-empty
    pattern the answer is true when some stretch of the line equals the pattern,
    byte by byte or, ignoring case, after folding ASCII letters. *)
Theorem line_contains_iff line pattern ic :
  pattern ≠ [] →
  LineContains line pattern ic = true ↔
  ∃ pre m post, line = pre ++ m ++ post ∧ Forall2 (λ c p, char_equal ic c p = true) m pattern.
Proof.
  intros Hp. induction line as [|c line IH]; cbn [LineContains].
  - split; [done|]. intros (pre & m & post & Hl & Hm). apply Forall2_length in Hm.
    destruct pre, m; try done. by destruct pattern.
  - rewrite orb_true_iff, IH, starts_with_iff. split.
    + intros [(m & rest & -> & Hm)|(pre & m & post & -> & Hm)]; [by exists [], m, rest|by exists (c :: pre), m, post].
    + intros ([|c' pre] & m & post & Hl & Hm); [left; by exists m, post|right].
      injection Hl as <- ->. by exists pre, m, post.
Qed.

(** ** Instances *)

Lemma path_round_trip_witness :
  PathParts (str "/a//b/") = Ok [str "a"; str "b"] ∧
  PathParts (CanonicalPath [str "a"; str "b"]) = Ok [str "a"; str "b"].
Proof.
  split; [reflexivity|]. apply (proj2 path_round_trip (str "/a//b/")). reflexivity.
Defined.

(** [e] acute, the euro sign, an emoji. *)
Lemma utf8_text_iff_witness : IsUtf8Text (utf8 [0xe9; 0x20ac; 0x1f600]%Z) = true.
Proof.
  apply (utf8_text_iff (utf8 [0xe9; 0x20ac; 0x1f600]%Z)).
  - vm_compute. repeat constructor; discriminate.
  - exists [0xe9; 0x20ac; 0x1f600]%Z. split; [|reflexivity]. unfold scalar. repeat constructor; lia.
Defined.

Lemma json_escape_reads_witness : json_read (JsonEscape [34; 10; 1; 65]%Z) = Some [34; 10; 1; 65]%Z.
Proof. apply json_escape_reads. unfold is_byte. repeat constructor; lia. Defined.

Lemma line_contains_iff_witness : LineContains (str "Hello World") (str "WORLD") true = true.
Proof.
  apply (line_contains_iff (str "Hello World") (str "WORLD") true); [discriminate|].
  exists (str "Hello "), (str "World"), []. split; [reflexivity|]. repeat constructor.
Defined.
