(* ===== verification/VexfsGlob.v ===== *)
(** * The glob matcher decides the glob relation

    [FindGlobMatches] keeps only the last [*] to go back to. The declarative match
    works on code points: [?] matches one, [*] any number, everything else itself.
    Both sides cut their bytes with [Utf8CodePointBytes]. *)
From Stdlib Require Import ZArith Lia String.
From stdpp Require Import prelude.
From S2P Require Import Prelude Sha256 VexfsText.

(** ** Code points *)

Fixpoint points_loop (fuel : nat) (l : bytes) : list bytes :=
  match fuel, l with
  | S fuel, _ :: _ => take (Utf8CodePointBytes l) l :: points_loop fuel (drop (Utf8CodePointBytes l) l)
  | _, _ => []
  end.
Definition points (l : bytes) : list bytes := points_loop (length l) l.

Lemma code_point_bytes l : l ≠ [] → 0 < Utf8CodePointBytes l ≤ length l.
Proof.
  destruct l as [|c l]; [done|]. intros _. unfold Utf8CodePointBytes. cbv zeta.
  set (n := if Z.eqb _ 0xc0 then 2 else _).
  assert (0 < n) by (unfold n; repeat case_match; lia).
  destruct (Nat.ltb_spec (length (c :: l)) n); [simpl; lia|].
  destruct (forallb _ _); simpl in *; lia.
Qed.

Lemma points_loop_fuel l f1 f2 : length l ≤ f1 → length l ≤ f2 → points_loop f1 l = points_loop f2 l.
Proof.
  revert l f2. induction f1 as [|f1 IH]; intros l f2 H1 H2.
  - destruct l; [|simpl in H1; lia]. by destruct f2.
  - destruct l as [|x l]; [by destruct f2|]. destruct f2 as [|f2]; [simpl in H2; lia|].
    pose proof (code_point_bytes (x :: l) ltac:(done)) as Hp.
    cbn [points_loop]. f_equal. apply IH; rewrite length_drop; simpl in *; lia.
Qed.

Lemma points_cons l : l ≠ [] →
  points l = take (Utf8CodePointBytes l) l :: points (drop (Utf8CodePointBytes l) l).
Proof.
  intros Hl. pose proof (code_point_bytes l Hl) as Hp. unfold points. destruct l as [|x l]; [done|].
  cbn [length points_loop]. f_equal. apply points_loop_fuel; [|done]. rewrite length_drop. simpl in *. lia.
Qed.

(** A byte below [0x80] is a code point of its own. *)
Lemma ascii_point c l : (c = 42 ∨ c = 63)%Z → Utf8CodePointBytes (c :: l) = 1.
Proof. by intros [-> | ->]. Qed.

Lemma points_ascii c l : (c = 42 ∨ c = 63)%Z → points (c :: l) = [c] :: points l.
Proof. intros Hc. rewrite points_cons, ascii_point by done. simpl. by rewrite drop_0, take_0. Qed.

(** ** The relation *)

Definition star : bytes := [42%Z].
Definition any : bytes := [63%Z].

Inductive glob : list bytes → list bytes → Prop :=
| glob_nil : glob [] []
| glob_any p c v : glob p v → glob (any :: p) (c :: v)
| glob_char c p v : c ≠ any → c ≠ star → glob p v → glob (c :: p) (c :: v)
| glob_star p v v' : glob p v → glob (star :: p) (v' ++ v).

Lemma glob_star_inv p w : glob (star :: p) w ↔ ∃ v' v, w = v' ++ v ∧ glob p v.
Proof.
  split.
  - inversion 1; subst; [done|eauto].
  - intros (v' & v & -> & Hg). by constructor.
Qed.

Lemma glob_char_inv c p w : c ≠ any → c ≠ star → glob (c :: p) w ↔ ∃ v, w = c :: v ∧ glob p v.
Proof.
  intros H1 H2. split; [inversion 1; subst; naive_solver|]. intros (v & -> & Hg). by constructor.
Qed.

Lemma glob_any_inv p w : glob (any :: p) w ↔ ∃ c v, w = c :: v ∧ glob p v.
Proof.
  split; [inversion 1; subst; naive_solver|]. intros (c & v & -> & Hg). by constructor.
Qed.

Lemma glob_stars p : glob p [] ↔ Forall (λ c, c = star) p.
Proof.
  induction p as [|c p IH]; [split; constructor|]. split.
  - inversion 1 as [| | |? v v' Hg Hp Hv]; subst. apply app_eq_nil in Hv as [-> ->].
    constructor; [done|]. by apply IH.
  - intros [-> Hp]%Forall_cons. apply glob_star_inv. exists [], []. split; [done|by apply IH].
Qed.

(** A stretch of the pattern without [*] that matches a stretch of the value. *)
Definition plain (pre consumed : list bytes) : Prop :=
  Forall2 (λ c t, c ≠ star ∧ (c = any ∨ c = t)) pre consumed.

Lemma plain_glob pre p w :
  Forall (λ c, c ≠ star) pre → glob (pre ++ p) w → ∃ m w', w = m ++ w' ∧ length m = length pre ∧ glob p w'.
Proof.
  intros Hpre. revert w. induction Hpre as [|c pre Hc _ IH]; intros w Hg; [by exists [], w|].
  simpl in Hg. inversion Hg as [|? t v Hv|? ? v ? ? Hv|]; subst; [| |done];
    destruct (IH _ Hv) as (m & w' & -> & Hm & Hw'); eexists (_ :: m), w'; simpl; eauto.
Qed.

(** The earlier [*] is not needed: when the pattern after it is [pre ++ star :: p]
    and [pre] matched up to [v], a match further right gives one from [v] on. *)
Lemma last_star_suffices pre consumed p v vs :
  plain pre consumed → vs = consumed ++ v → glob (star :: pre ++ star :: p) vs → glob (star :: p) v.
Proof.
  intros Hpl -> (v' & w & Heq & Hg)%glob_star_inv.
  destruct (plain_glob pre (star :: p) w) as (m & w' & -> & Hm & (u & x & -> & Hx)%glob_star_inv); [|done|].
  { clear -Hpl. induction Hpl as [|? ? ? ? [? _] _ IH]; by constructor. }
  apply Forall2_length in Hpl. apply glob_star_inv.
  assert (Hv : v = drop (length consumed) (v' ++ m ++ u ++ x)) by (rewrite <- Heq; by rewrite drop_app_length).
  rewrite !app_assoc, drop_app_le in Hv by (rewrite !length_app; lia). eauto.
Qed.

(** ** The loop *)

(** The state of the loop: what the last [*] still allows. *)
Definition reachable_match (pattern value : bytes) (st : option (bytes * bytes)) : Prop :=
  glob (points pattern) (points value) ∨
  match st with
  | None => False
  | Some (p, v) => glob (star :: points p) (points (drop (Utf8CodePointBytes v) v))
  end.

Record loop_inv (n : nat) (pattern value : bytes) (st : option (bytes * bytes)) : Prop := {
  li_pattern : length pattern ≤ n;
  li_star : match st with
    | None => True
    | Some (p, v) => length p ≤ n ∧ length value ≤ length v ∧
        ∃ pre consumed, points p = pre ++ points pattern ∧ points v = consumed ++ points value ∧
          plain pre consumed
    end;
}.

Definition measure (n : nat) (pattern value : bytes) (st : option (bytes * bytes)) : nat :=
  match st with None => S (S (length value)) | Some (_, v) => length v end * S n + length pattern.

Lemma glob_star_extend p u w : glob (star :: p) w → glob (star :: p) (u ++ w).
Proof. intros (v' & v & -> & Hg)%glob_star_inv. apply glob_star_inv. exists (u ++ v'), v. by rewrite app_assoc. Qed.

Lemma star_unfold p w :
  glob (star :: p) (points w) ↔ glob p (points w) ∨ glob (star :: p) (points (drop (Utf8CodePointBytes w) w)).
Proof.
  destruct (decide (w = [])) as [->|Hw].
  { split; [by right|]. intros [Hg|Hg]; [|done]. by apply (glob_star p _ []). }
  rewrite (points_cons w Hw). set (t := take _ w). set (ts := points (drop _ w)). split.
  - intros (v' & v & Heq & Hg)%glob_star_inv. destruct v' as [|x v']; [left; by simplify_eq/=|right].
    injection Heq as -> Heq. rewrite Heq. by constructor.
  - intros [Hg|Hg]; [by apply (glob_star p _ [])|by apply (glob_star_extend p [t])].
Qed.

(** Going back to the last [*]. *)
Definition loop_ok (n fuel : nat) : Prop := ∀ pattern value st,
  loop_inv n pattern value st → measure n pattern value st < fuel →
  ∃ b, glob_loop fuel pattern value st = Some b ∧ (b = true ↔ reachable_match pattern value st).

Lemma backtrack_ok n fuel pattern value p v :
  loop_ok n fuel → loop_inv n pattern value (Some (p, v)) → value ≠ [] →
  measure n pattern value (Some (p, v)) < S fuel →
  let v' := drop (Utf8CodePointBytes v) v in
  ∃ b, glob_loop fuel p v' (Some (p, v')) = Some b ∧ (b = true ↔ glob (star :: points p) (points v')).
Proof.
  intros IH [_ (Hp & Hv & _)] Hne Hm v'.
  assert (Hvne : v ≠ []) by (intros ->; destruct value; simpl in Hv; [done|lia]).
  pose proof (code_point_bytes v Hvne) as Hcp.
  assert (Hlen : length v' < length v) by (unfold v'; rewrite length_drop; lia).
  destruct (IH p v' (Some (p, v'))) as (b & Hb & Hiff).
  - split; [done|]. split_and!; [done|done|]. exists [], []. split_and!; [done|done|constructor].
  - unfold measure in *. nia.
  - exists b. split; [done|]. rewrite Hiff. unfold reachable_match. cbv beta iota. symmetry. apply star_unfold.
Qed.

(** Consuming one code point on both sides. *)
Lemma advance_ok n pattern value st k c :
  loop_inv n pattern value st → value ≠ [] → pattern ≠ [] → 0 < k ≤ length pattern →
  points pattern = c :: points (drop k pattern) → c ≠ star →
  c = any ∨ c = take (Utf8CodePointBytes value) value →
  let value' := drop (Utf8CodePointBytes value) value in
  loop_inv n (drop k pattern) value' st ∧
  (reachable_match pattern value st ↔ reachable_match (drop k pattern) value' st) ∧
  measure n (drop k pattern) value' st < measure n pattern value st.
Proof.
  intros [Hn Hst] Hv Hp Hk Hpp Hc Hcv value'. pose proof (code_point_bytes value Hv) as Hcp.
  assert (Hlen : length value' < length value) by (unfold value'; rewrite length_drop; lia).
  pose proof (points_cons value Hv) as Hvp. fold value' in Hvp. split_and!.
  - split; [rewrite length_drop; lia|]. destruct st as [[p v]|]; [|done].
    destruct Hst as (H1 & H2 & pre & consumed & Ep & Ev & Hpl). split_and!; [done|lia|].
    exists (pre ++ [c]), (consumed ++ [take (Utf8CodePointBytes value) value]).
    rewrite <- !app_assoc. cbn [app]. rewrite <- Hpp, <- Hvp. split_and!; [done|done|].
    apply Forall2_app; [done|]. by constructor.
  - unfold reachable_match. rewrite Hpp, Hvp. apply or_iff_compat_r.
    destruct (decide (c = any)) as [->|Hca].
    + rewrite glob_any_inv. split; [by intros (t & w & [= _ <-] & Hg)|eauto].
    + destruct Hcv as [?|<-]; [done|]. rewrite glob_char_inv by done.
      split; [by intros (w & [= <-] & Hg)|eauto].
  - assert (Hd : length (drop k pattern) < length pattern) by (rewrite length_drop; lia).
    unfold measure. destruct st as [[p v]|]; nia.
Qed.

(** Reading a [*]. *)
Lemma star_ok n rest v st :
  loop_inv n (42%Z :: rest) v st →
  loop_inv n rest v (Some (rest, v)) ∧
  (reachable_match (42%Z :: rest) v st ↔ reachable_match rest v (Some (rest, v))) ∧
  measure n rest v (Some (rest, v)) < measure n (42%Z :: rest) v st.
Proof.
  intros [Hn Hst]. simpl in Hn. split_and!.
  - split; [lia|]. cbv beta iota. split_and!; [lia|done|]. exists [], []. split_and!; [done|done|constructor].
  - unfold reachable_match. rewrite (points_ascii 42 rest) by auto. fold star. rewrite <- star_unfold.
    split; [|by left]. intros [Hg|Hg]; [done|]. destruct st as [[p w]|]; [|done].
    destruct Hst as (_ & _ & pre & consumed & Ep & Ev & Hpl).
    rewrite (points_ascii 42 rest) in Ep by auto. fold star in Ep.
    apply (last_star_suffices pre consumed _ _ (points w) Hpl Ev). rewrite <- Ep.
    apply star_unfold. by right.
  - unfold measure. simpl. destruct st as [[p w]|]; [destruct Hst as (_ & Hw & _)|]; nia.
Qed.

(** The end of the value. *)
Lemma stars_end n pattern st :
  loop_inv n pattern [] st → forallb (Z.eqb 42) pattern = true ↔ reachable_match pattern [] st.
Proof.
  intros [_ Hst]. assert (Hst' : glob (points pattern) (points []) ↔ forallb (Z.eqb 42) pattern = true).
  { clear. change (points []) with (@nil bytes). rewrite glob_stars. induction pattern as [|c p IH]; [split; constructor|].
    cbn [forallb]. destruct (Z.eqb_spec 42 c) as [<-|Hc]; cbn [andb].
    - rewrite points_ascii by auto. rewrite Forall_cons, IH. split; [by intros []|done].
    - split; [|done]. rewrite points_cons by done. pose proof (code_point_bytes (c :: p) ltac:(done)).
      intros [E _]%Forall_cons. unfold star in E. destruct (Utf8CodePointBytes _); [lia|]. simpl in E. congruence. }
  rewrite <- Hst'. unfold reachable_match. split; [by left|]. intros [Hg|Hg]; [done|].
  destruct st as [[p v]|]; [|done]. destruct Hst as (_ & _ & pre & consumed & Ep & Ev & Hpl).
  change (points []) with (@nil bytes) in *. rewrite app_nil_r in Ev.
  apply glob_star_inv in Hg as (v' & w & Hw & Hg). rewrite Ep in Hg.
  destruct (plain_glob pre (points pattern) w) as (m & w' & -> & Hm & Hw'); [|done|].
  { clear -Hpl. induction Hpl as [|? ? ? ? [? _] _ IH]; by constructor. }
  apply Forall2_length in Hpl. destruct (decide (v = [])) as [->|Hv].
  - change (points (drop _ [])) with (@nil bytes) in Hw. symmetry in Hw. by apply app_eq_nil in Hw as [-> [-> ->]%app_eq_nil].
  - rewrite points_cons in Ev by done. apply (f_equal length) in Hw. subst consumed.
    rewrite !length_app in Hw. simpl in Hpl. lia.
Qed.

Lemma cons_head {A} (x y : A) l k : x :: l = y :: k → x = y.
Proof. congruence. Qed.

Lemma loop_correct n fuel : loop_ok n fuel.
Proof.
  induction fuel as [|fuel IH]; intros pattern value st Hinv Hm; [lia|].
  cbn [glob_loop]. destruct value as [|t value].
  { exists (forallb (Z.eqb 42) pattern). split; [done|]. by apply stars_end with n. }
  set (v := t :: value) in *. assert (Hv : v ≠ []) by done.
  set (backtrack := match st with None => Some false | Some _ => _ end).
  assert (Hback : ¬ glob (points pattern) (points v) →
    ∃ b, backtrack = Some b ∧ (b = true ↔ reachable_match pattern v st)).
  { intros Hno. unfold backtrack, reachable_match. destruct st as [[p w]|]; [|exists false; naive_solver].
    destruct (backtrack_ok n fuel pattern v p w IH Hinv Hv Hm) as (b & -> & Hb). exists b. naive_solver. }
  destruct pattern as [|c rest].
  { apply Hback. rewrite (points_cons v Hv). inversion 1. }
  destruct (Z.eqb_spec c 63) as [->|Hq].
  { destruct (advance_ok n (63%Z :: rest) v st 1 any Hinv Hv) as (A1 & A2 & A3);
      [done|simpl; lia|by rewrite points_ascii by auto; cbn [drop]; rewrite drop_0|done|by left|].
    cbn [drop] in *. rewrite drop_0 in *.
    destruct (IH _ _ _ A1) as (b & Hb & Hiff); [lia|]. exists b. split; [done|]. by rewrite Hiff, A2. }
  destruct (Z.eqb_spec c 42) as [->|Hs]; cbn [negb].
  { destruct (star_ok n rest v st Hinv) as (A1 & A2 & A3).
    destruct (IH _ _ _ A1) as (b & Hb & Hiff); [lia|]. exists b. split; [done|]. by rewrite Hiff, A2. }
  set (pat := c :: rest) in *. assert (Hp : pat ≠ []) by done.
  pose proof (code_point_bytes pat Hp) as Hkp. pose proof (code_point_bytes v Hv) as Hkv.
  assert (Htok : take (Utf8CodePointBytes pat) pat ≠ star ∧ take (Utf8CodePointBytes pat) pat ≠ any).
  { unfold pat, star, any in *. destruct (Utf8CodePointBytes _); [lia|]. simpl. split; intros [= ? _]; congruence. }
  destruct Htok as [Hns Hna].
  destruct (Nat.eqb_spec (Utf8CodePointBytes pat) (Utf8CodePointBytes v)) as [Hlen|Hlen];
    [destruct (bool_decide_reflect (take (Utf8CodePointBytes pat) pat = take (Utf8CodePointBytes v) v)) as [Heq|Hne]|];
    cbn [negb orb].
  - destruct (advance_ok n pat v st (Utf8CodePointBytes pat) (take (Utf8CodePointBytes pat) pat) Hinv Hv Hp)
      as (A1 & A2 & A3); [lia|by apply points_cons|done|by right|].
    destruct (IH _ _ _ A1) as (b & Hb & Hiff); [lia|]. exists b. split; [done|]. by rewrite Hiff, A2.
  - apply Hback. rewrite (points_cons pat Hp), (points_cons v Hv), glob_char_inv by done.
    intros (w & E%cons_head & _). by rewrite E in Hne.
  - apply Hback. rewrite (points_cons pat Hp), (points_cons v Hv), glob_char_inv by done.
    intros (w & E%cons_head & _). apply (f_equal length) in E. rewrite !length_take in E. lia.
Qed.

(** C39: [FindGlobMatches] terminates and answers true exactly when the pattern
    matches the value code point by code point ([?] one, [*] any number, anything
    else itself): going back to the last [*] only never misses a match. *)
Theorem find_glob_matches_iff pattern value :
  ∃ b, FindGlobMatches pattern value = Some b ∧ (b = true ↔ glob (points pattern) (points value)).
Proof.
  destruct (loop_correct (length pattern) (glob_fuel pattern value) pattern value None) as (b & Hb & Hiff).
  - split; [done|done].
  - unfold measure, glob_fuel. nia.
  - exists b. split; [done|]. rewrite Hiff. unfold reachable_match. naive_solver.
Qed.

Example glob_instances :
  FindGlobMatches (str "*.md") (str "notes.md") = Some true ∧
  FindGlobMatches (str "a?c*e") (str "abcde") = Some true ∧
  FindGlobMatches (str "?") [0xe2; 0x82; 0xac]%Z = Some true ∧
  FindGlobMatches (str "??") [0xe2; 0x82; 0xac]%Z = Some false.
Proof. vm_compute. done. Qed.
