(* ===== verification/VexfsDb.v ===== *)
(** * The tables of a workspace database

    The SQL schema of [src/vexdb_sqlite/src/agent_files/vexfs_sqlite.cpp] as finite
    maps keyed by the primary key of each table, with its triggers and the [CHECK]
    constraints the statements can run into, and the state and error monad the
    operations run in. A throw keeps what was written so far; only [Savepoint] takes
    it back. Statements fail on constraints, not on I/O, memory or a busy
    database. [clock] is the time in milliseconds a call reads. *)
From Stdlib Require Import ZArith Lia String.
From stdpp Require Import prelude gmap.
From S2P Require Import Prelude Sha256 VexfsText.

Local Open Scope Z_scope.

(** ** Rows *)

Inductive Kind := KFile | KDirectory | KSymlink.
#[export] Instance kind_eq_dec : EqDecision Kind.
Proof. solve_decision. Defined.

Inductive AclEffect := Allow | Deny.
#[export] Instance effect_eq_dec : EqDecision AclEffect.
Proof. solve_decision. Defined.
#[export] Instance effect_countable : Countable AclEffect.
Proof.
  refine (inj_countable' (λ e, if e is Allow then true else false) (λ b, if (b : bool) then Allow else Deny) _).
  by intros [].
Defined.

Inductive HandleState := Open | Retained | Closed.
#[export] Instance handle_state_eq_dec : EqDecision HandleState.
Proof. solve_decision. Defined.

Inductive GrepIndexState := kDisabled | kAvailable | kUnavailable.

(** What a workspace keeps of its versions and snapshots. *)
Record retention_row := mkRetentionRow {
  rt_keep_versions : Z;
  rt_keep_days : Z;
  rt_agent_keep : Z;
  rt_safety_keep : Z;
  rt_snapshot_keep_days : Z;
  rt_gc_paused : bool;
}.

(** The defaults of the columns. *)
Definition default_retention : retention_row := mkRetentionRow 32 30 20 10 30 false.

Record workspace_row := mkWorkspaceRow {
  w_name : bytes;
  w_active : bool;
  w_root_inode : option Z;
  w_head_commit : option Z;
  w_history_floor : option Z;
  w_max_bytes : option Z;
  w_max_files : option Z;
  w_max_file_bytes : option Z;
  w_live_files : Z;
  w_live_bytes : Z;
  w_retention : retention_row;
}.

Record inode_row := mkInodeRow {
  i_workspace : Z;
  i_kind : Kind;
  i_mode : Z;
  i_owner : bytes;
  i_uid : Z;
  i_gid : Z;
  i_size : Z;
  i_version : Z;
  i_created : Z;
  i_accessed : Z;
  i_updated : Z;
  i_changed : Z;
  i_deleted : option Z;
}.

Record commit_row := mkCommitRow {
  c_workspace : Z;
  c_parent : option Z;
  c_message : bytes;
  c_path : bytes;
  c_actor : bytes;
  c_session : option bytes;
  c_created : Z;
}.

Record manifest_row := mkManifestRow {
  m_workspace : Z;
  m_file_size : Z;
  m_chunk_size : Z;
  m_chunk_count : Z;
  m_checksum : bytes;
}.

Record chunk_row := mkChunkRow {
  k_workspace : Z;
  k_inode : Z;
  k_content : bytes;
  k_size : Z;
  k_checksum : bytes;
}.

(** A file version has a manifest of its own or names the version it copies. *)
Record version_row := mkVersionRow {
  v_commit : Z;
  v_manifest : option Z;
  v_size : Z;
  v_checksum : bytes;
  v_source : option Z;
  v_id : Z;
  v_created : Z;
}.

Record handle_row := mkHandleRow {
  h_workspace : Z;
  h_inode : Z;
  h_writable : bool;
  h_expected_version : Z;
  h_dirty_generation : Z;
  h_published_generation : Z;
  h_state : HandleState;
  h_lease_until : option Z;
  h_owner_session : option bytes;
  h_updated : Z;
}.

Record staging_row := mkStagingRow {
  s_generation : Z;
  s_base_manifest : option Z;
  s_base_size : Z;
  s_base_visible : Z;
  s_logical : Z;
  s_capacity : Z;
}.

(** The table has a rowid besides its [request_id] key. *)
Record request_row := mkRequestRow {
  q_request_id : bytes;
  q_operation : bytes;
  q_fingerprint : bytes;
  q_integer : option Z;
  q_text : option bytes;
}.

Record fts_row := mkFtsRow {
  f_workspace : Z;
  f_inode : Z;
  f_version : Z;
  f_content : bytes;
}.

(** workspace, inode, principal, effect *)
Definition acl_key : Type := Z * Z * bytes * AclEffect.

(** ** Tables *)

Record TreeTables := mkTreeTables {
  workspaces : gmap Z workspace_row;
  inodes : gmap Z inode_row;
  dentries : gmap (Z * Z * bytes) Z;
  xattrs : gmap (Z * bytes) bytes;
  acl_entries : gmap acl_key (bytes * Z);
}.

Inductive SnapshotType := Manual | Agent | Safety.
#[export] Instance snapshot_type_eq_dec : EqDecision SnapshotType.
Proof. solve_decision. Defined.

Record snapshot_row := mkSnapshotRow {
  p_workspace : Z;
  p_name : bytes;
  p_type : SnapshotType;
  p_commit : Z;
  p_created : Z;
}.

Record HistoryTables := mkHistoryTables {
  commits : gmap Z commit_row;
  dirty_inodes : gset (Z * Z);
  dirty_dentries : gmap (Z * Z * bytes) Z;
  dirty_xattrs : gset (Z * Z * bytes);
  dirty_acl : gset acl_key;
  inode_states : gmap (Z * Z * Z) inode_row;
  dentry_states : gmap (Z * Z * bytes * Z) (Z * bool);
  xattr_states : gmap (Z * Z * bytes * Z) (bytes * bool);
  acl_states : gmap (acl_key * Z) (bytes * Z * bool);
  snapshots : gmap Z snapshot_row;
}.

Record ContentTables := mkContentTables {
  manifests : gmap Z manifest_row;
  chunks : gmap Z chunk_row;
  manifest_chunks : gmap (Z * Z) Z;
  file_versions : gmap (Z * Z) version_row;
}.

Record SessionsTables := mkSessionsTables {
  handles : gmap bytes handle_row;
  staging : gmap bytes staging_row;
  staging_chunks : gmap (bytes * Z) bytes;
  requests : gmap Z request_row;
  mount_sessions : gmap Z (bytes * Z);
}.

Record Db := mkDb {
  tree_of : TreeTables;
  history_of : HistoryTables;
  content_of : ContentTables;
  sessions_of : SessionsTables;
  meta : gmap bytes bytes;
  content_fts : gmap Z fts_row;
  grep_index : GrepIndexState;
  clock : Z;
}.

Coercion tree_of : Db >-> TreeTables.
Coercion history_of : Db >-> HistoryTables.
Coercion content_of : Db >-> ContentTables.
Coercion sessions_of : Db >-> SessionsTables.

Definition set_tree_of (f : TreeTables → TreeTables) (d : Db) : Db :=
  mkDb (f (tree_of d)) (history_of d) (content_of d) (sessions_of d)
    (meta d) (content_fts d) (grep_index d) (clock d).
Definition set_history_of (f : HistoryTables → HistoryTables) (d : Db) : Db :=
  mkDb (tree_of d) (f (history_of d)) (content_of d) (sessions_of d)
    (meta d) (content_fts d) (grep_index d) (clock d).
Definition set_content_of (f : ContentTables → ContentTables) (d : Db) : Db :=
  mkDb (tree_of d) (history_of d) (f (content_of d)) (sessions_of d)
    (meta d) (content_fts d) (grep_index d) (clock d).
Definition set_sessions_of (f : SessionsTables → SessionsTables) (d : Db) : Db :=
  mkDb (tree_of d) (history_of d) (content_of d) (f (sessions_of d)) (meta d) (content_fts d) (grep_index d) (clock d).
Definition set_meta (f : gmap bytes bytes → gmap bytes bytes) (d : Db) : Db :=
  mkDb (tree_of d) (history_of d) (content_of d) (sessions_of d) (f (meta d)) (content_fts d) (grep_index d) (clock d).
Definition set_content_fts (f : gmap Z fts_row → gmap Z fts_row) (d : Db) : Db :=
  mkDb (tree_of d) (history_of d) (content_of d) (sessions_of d)
    (meta d) (f (content_fts d)) (grep_index d) (clock d).
Definition set_grep_index (f : GrepIndexState → GrepIndexState) (d : Db) : Db :=
  mkDb (tree_of d) (history_of d) (content_of d) (sessions_of d)
    (meta d) (content_fts d) (f (grep_index d)) (clock d).
Definition on_workspaces (f : gmap Z workspace_row → gmap Z workspace_row) : Db → Db :=
  set_tree_of (λ t, mkTreeTables (f (workspaces t)) (inodes t) (dentries t) (xattrs t) (acl_entries t)).
Definition on_inodes (f : gmap Z inode_row → gmap Z inode_row) : Db → Db :=
  set_tree_of (λ t, mkTreeTables (workspaces t) (f (inodes t)) (dentries t) (xattrs t) (acl_entries t)).
Definition on_dentries (f : gmap (Z * Z * bytes) Z → gmap (Z * Z * bytes) Z) : Db → Db :=
  set_tree_of (λ t, mkTreeTables (workspaces t) (inodes t) (f (dentries t)) (xattrs t) (acl_entries t)).
Definition on_xattrs (f : gmap (Z * bytes) bytes → gmap (Z * bytes) bytes) : Db → Db :=
  set_tree_of (λ t, mkTreeTables (workspaces t) (inodes t) (dentries t) (f (xattrs t)) (acl_entries t)).
Definition on_acl_entries (f : gmap acl_key (bytes * Z) → gmap acl_key (bytes * Z)) : Db → Db :=
  set_tree_of (λ t, mkTreeTables (workspaces t) (inodes t) (dentries t) (xattrs t) (f (acl_entries t))).
Definition on_commits (f : gmap Z commit_row → gmap Z commit_row) : Db → Db :=
  set_history_of (λ t, mkHistoryTables (f (commits t)) (dirty_inodes t) (dirty_dentries t) (dirty_xattrs t) (dirty_acl t)
    (inode_states t) (dentry_states t) (xattr_states t) (acl_states t) (snapshots t)).
Definition on_dirty_inodes (f : gset (Z * Z) → gset (Z * Z)) : Db → Db :=
  set_history_of (λ t, mkHistoryTables (commits t) (f (dirty_inodes t)) (dirty_dentries t) (dirty_xattrs t) (dirty_acl t)
    (inode_states t) (dentry_states t) (xattr_states t) (acl_states t) (snapshots t)).
Definition on_dirty_dentries (f : gmap (Z * Z * bytes) Z → gmap (Z * Z * bytes) Z) : Db → Db :=
  set_history_of (λ t, mkHistoryTables (commits t) (dirty_inodes t) (f (dirty_dentries t)) (dirty_xattrs t) (dirty_acl t)
    (inode_states t) (dentry_states t) (xattr_states t) (acl_states t) (snapshots t)).
Definition on_dirty_xattrs (f : gset (Z * Z * bytes) → gset (Z * Z * bytes)) : Db → Db :=
  set_history_of (λ t, mkHistoryTables (commits t) (dirty_inodes t) (dirty_dentries t) (f (dirty_xattrs t)) (dirty_acl t)
    (inode_states t) (dentry_states t) (xattr_states t) (acl_states t) (snapshots t)).
Definition on_dirty_acl (f : gset acl_key → gset acl_key) : Db → Db :=
  set_history_of (λ t, mkHistoryTables (commits t) (dirty_inodes t) (dirty_dentries t) (dirty_xattrs t) (f (dirty_acl t))
    (inode_states t) (dentry_states t) (xattr_states t) (acl_states t) (snapshots t)).
Definition on_inode_states (f : gmap (Z * Z * Z) inode_row → gmap (Z * Z * Z) inode_row) : Db → Db :=
  set_history_of (λ t, mkHistoryTables (commits t) (dirty_inodes t) (dirty_dentries t) (dirty_xattrs t) (dirty_acl t)
    (f (inode_states t)) (dentry_states t) (xattr_states t) (acl_states t) (snapshots t)).
Definition on_dentry_states (f : gmap (Z * Z * bytes * Z) (Z * bool) → gmap (Z * Z * bytes * Z) (Z * bool)) : Db → Db :=
  set_history_of (λ t, mkHistoryTables (commits t) (dirty_inodes t) (dirty_dentries t) (dirty_xattrs t) (dirty_acl t)
    (inode_states t) (f (dentry_states t)) (xattr_states t) (acl_states t) (snapshots t)).
Definition on_xattr_states (f : gmap (Z * Z * bytes * Z) (bytes * bool) → gmap (Z * Z * bytes * Z) (bytes * bool)) : Db → Db :=
  set_history_of (λ t, mkHistoryTables (commits t) (dirty_inodes t) (dirty_dentries t) (dirty_xattrs t) (dirty_acl t)
    (inode_states t) (dentry_states t) (f (xattr_states t)) (acl_states t) (snapshots t)).
Definition on_acl_states (f : gmap (acl_key * Z) (bytes * Z * bool) → gmap (acl_key * Z) (bytes * Z * bool)) : Db → Db :=
  set_history_of (λ t, mkHistoryTables (commits t) (dirty_inodes t) (dirty_dentries t) (dirty_xattrs t) (dirty_acl t)
    (inode_states t) (dentry_states t) (xattr_states t) (f (acl_states t)) (snapshots t)).
Definition on_snapshots (f : gmap Z snapshot_row → gmap Z snapshot_row) : Db → Db :=
  set_history_of (λ t, mkHistoryTables (commits t) (dirty_inodes t) (dirty_dentries t) (dirty_xattrs t) (dirty_acl t)
    (inode_states t) (dentry_states t) (xattr_states t) (acl_states t) (f (snapshots t))).
Definition on_manifests (f : gmap Z manifest_row → gmap Z manifest_row) : Db → Db :=
  set_content_of (λ t, mkContentTables (f (manifests t)) (chunks t) (manifest_chunks t) (file_versions t)).
Definition on_chunks (f : gmap Z chunk_row → gmap Z chunk_row) : Db → Db :=
  set_content_of (λ t, mkContentTables (manifests t) (f (chunks t)) (manifest_chunks t) (file_versions t)).
Definition on_manifest_chunks (f : gmap (Z * Z) Z → gmap (Z * Z) Z) : Db → Db :=
  set_content_of (λ t, mkContentTables (manifests t) (chunks t) (f (manifest_chunks t)) (file_versions t)).
Definition on_file_versions (f : gmap (Z * Z) version_row → gmap (Z * Z) version_row) : Db → Db :=
  set_content_of (λ t, mkContentTables (manifests t) (chunks t) (manifest_chunks t) (f (file_versions t))).
Definition on_handles (f : gmap bytes handle_row → gmap bytes handle_row) : Db → Db :=
  set_sessions_of (λ t, mkSessionsTables (f (handles t)) (staging t) (staging_chunks t) (requests t) (mount_sessions t)).
Definition on_staging (f : gmap bytes staging_row → gmap bytes staging_row) : Db → Db :=
  set_sessions_of (λ t, mkSessionsTables (handles t) (f (staging t)) (staging_chunks t) (requests t) (mount_sessions t)).
Definition on_staging_chunks (f : gmap (bytes * Z) bytes → gmap (bytes * Z) bytes) : Db → Db :=
  set_sessions_of (λ t, mkSessionsTables (handles t) (staging t) (f (staging_chunks t)) (requests t) (mount_sessions t)).
Definition on_mount_sessions (f : gmap Z (bytes * Z) → gmap Z (bytes * Z)) : Db → Db :=
  set_sessions_of (λ t, mkSessionsTables (handles t) (staging t) (staging_chunks t) (requests t) (f (mount_sessions t))).
Definition on_requests (f : gmap Z request_row → gmap Z request_row) : Db → Db :=
  set_sessions_of (λ t, mkSessionsTables (handles t) (staging t) (staging_chunks t) (f (requests t)) (mount_sessions t)).

(** ** The monad *)

Definition M (A : Type) : Type := Db → sql A * Db.

#[export] Instance M_ret : MRet M := λ A a d, (Ok a, d).
#[export] Instance M_bind : MBind M := λ A B k m d,
  match m d with
  | (Ok a, d) => k a d
  | (Throw e, d) => (Throw e, d)
  end.

Definition throw {A : Type} (e : SqlError) : M A := λ d, (Throw e, d).
(** Reading the tables in the middle of an operation. *)
Definition with_db {A : Type} (k : Db → M A) : M A := λ d, k d d.
Definition modify (f : Db → Db) : M () := λ d, (Ok (), f d).
Definition lift {A : Type} (r : sql A) : M A := λ d, (r, d).
(** A query: it reads the tables and changes nothing. *)
Definition query {A : Type} (f : Db → sql A) : M A := λ d, (f d, d).
Definition throw_if (b : bool) (e : SqlError) : M () := if b then throw e else mret ().

(** [Savepoint]: an exception rolls the tables back before it goes on. *)
Definition Savepoint {A : Type} (m : M A) : M A := λ d,
  match m d with
  | (Ok a, d') => (Ok a, d')
  | (Throw e, _) => (Throw e, d)
  end.

(** The write lock is taken by an update that changes no value. *)
Definition AcquireWriteLock : M () := mret ().

(** What [sqlite3_column_int64] and [sqlite3_column_text] give for [NULL]. *)
Definition int64 (o : option Z) : Z := default 0 o.

(** A value that [COALESCE(x, 0)] or [Int64] read from a nullable id. *)
Definition nullif0 (z : Z) : option Z := if z =? 0 then None else Some z.

(** The rowid of the next row: one past the largest. *)
Definition next_rowid {A : Type} (t : gmap Z A) : Z := map_fold (λ k _ n, Z.max k n) 0 t + 1.

(** [CAST(strftime('%s','now') AS INTEGER)*1000]. *)
Definition clock_seconds (d : Db) : Z := clock d / 1000 * 1000.

(** ** Triggers *)

Definition dirty_inode (w i : Z) : Db → Db := on_dirty_inodes (λ s, {[ (w, i) ]} ∪ s).
Definition dirty_dentry (w p : Z) (n : bytes) (i : Z) : Db → Db := on_dirty_dentries (insert (w, p, n) i).

(** A live file or symlink counts against the quota. *)
Definition counts (r : inode_row) : bool :=
  negb (bool_decide (i_kind r = KDirectory)) && bool_decide (i_deleted r = None).
Definition count_files (r : inode_row) : Z := if counts r then 1 else 0.
Definition count_bytes (r : inode_row) : Z := if counts r then i_size r else 0.

Definition add_live (files size : Z) (w : workspace_row) : workspace_row :=
  mkWorkspaceRow (w_name w) (w_active w) (w_root_inode w) (w_head_commit w) (w_history_floor w)
    (w_max_bytes w) (w_max_files w) (w_max_file_bytes w) (w_live_files w + files) (w_live_bytes w + size) (w_retention w).

(** The counters of a workspace, with their [CHECK]s; no row, no update. *)
Definition count_live (ws files size : Z) : M () :=
  with_db $ λ d,
  match workspaces d !! ws with
  | None => mret ()
  | Some w =>
    let w' := add_live files size w in
    throw_if ((w_live_files w' <? 0) || (w_live_bytes w' <? 0)) SQLITE_CONSTRAINT;;
    modify (on_workspaces (insert ws w'))
  end.

(** [INSERT INTO _vexfs_inodes] with the quota and history triggers. *)
Definition insert_inode (r : inode_row) : M Z :=
  with_db $ λ d,
  let id := next_rowid (inodes d) in
  modify (on_inodes (insert id r));;
  modify (dirty_inode (i_workspace r) id);;
  (if counts r then count_live (i_workspace r) 1 (i_size r) else mret ());;
  mret id.

(** [UPDATE _vexfs_inodes … WHERE id=…] of a row that is there. *)
Definition update_inode (id : Z) (old new : inode_row) : M () :=
  modify (on_inodes (insert id new));;
  modify (dirty_inode (i_workspace new) id);;
  count_live (i_workspace old) (- count_files old) (- count_bytes old);;
  count_live (i_workspace new) (count_files new) (count_bytes new).

(** [INSERT INTO _vexfs_dentries]; the key is unique. *)
Definition insert_dentry (w p : Z) (n : bytes) (i : Z) : M () :=
  with_db $ λ d,
  throw_if (bool_decide (is_Some (dentries d !! (w, p, n)))) SQLITE_CONSTRAINT;;
  modify (on_dentries (insert (w, p, n) i));;
  modify (dirty_dentry w p n i).

(** [DELETE FROM _vexfs_dentries] of one key. *)
Definition delete_dentry (w p : Z) (n : bytes) : M () :=
  with_db $ λ d,
  match dentries d !! (w, p, n) with
  | None => mret ()
  | Some i =>
    modify (on_dentries (delete (w, p, n)));;
    modify (dirty_dentry w p n i)
  end.

(** ** Reasoning about runs *)

Lemma bind_ok {A B} (m : M A) (k : A → M B) d b d' :
  (m ≫= k) d = (Ok b, d') ↔ ∃ a d1, m d = (Ok a, d1) ∧ k a d1 = (Ok b, d').
Proof.
  unfold mbind, M_bind. destruct (m d) as [[a|e] d1].
  - split; [eauto|]. by intros (? & ? & [= <- <-] & ?).
  - split; [done|]. by intros (? & ? & ? & _).
Qed.

(** The state after a run of which the result is known. *)
Lemma run_state {A} (m : M A) d x : (m d).1 = x → m d = (x, (m d).2).
Proof. intros <-. by destruct (m d). Qed.

Lemma bind_eval {A B} (m : M A) (k : A → M B) d a d1 :
  m d = (Ok a, d1) → (m ≫= k) d = k a d1.
Proof. unfold mbind, M_bind. by intros ->. Qed.

Lemma bind_throw {A B} (m : M A) (k : A → M B) d e d1 :
  m d = (Throw e, d1) → (m ≫= k) d = (Throw e, d1).
Proof. unfold mbind, M_bind. by intros ->. Qed.

Lemma throw_if_ok b e d r d' : throw_if b e d = (Ok r, d') ↔ b = false ∧ d' = d.
Proof. destruct b, r; unfold throw_if, throw, mret, M_ret; intuition congruence. Qed.

Lemma modify_ok f d r d' : modify f d = (Ok r, d') ↔ d' = f d.
Proof. destruct r. unfold modify. split; congruence. Qed.

Lemma query_ok {A} (f : Db → sql A) d r d' : query f d = (Ok r, d') ↔ f d = Ok r ∧ d' = d.
Proof. unfold query. intuition congruence. Qed.

Lemma lift_ok {A} (x : sql A) d r d' : lift x d = (Ok r, d') ↔ x = Ok r ∧ d' = d.
Proof. unfold lift. intuition congruence. Qed.

Lemma ret_ok {A} (x : A) d r d' : (mret x : M A) d = (Ok r, d') ↔ r = x ∧ d' = d.
Proof. unfold mret, M_ret. intuition congruence. Qed.

Lemma throw_ok {A} e d (r : A) d' : throw e d = (Ok r, d') ↔ False.
Proof. unfold throw. intuition congruence. Qed.

Lemma savepoint_ok {A} (m : M A) d r d' : Savepoint m d = (Ok r, d') ↔ m d = (Ok r, d').
Proof. unfold Savepoint. destruct (m d) as [[] ?]; intuition congruence. Qed.

(** A savepoint that throws leaves the database as it was. *)
Lemma savepoint_rolls_back {A} (m : M A) d e d' : Savepoint m d = (Throw e, d') → d' = d.
Proof. unfold Savepoint. destruct (m d) as [[] ?]; intuition congruence. Qed.

(** [runs H]: takes apart a run that succeeded. *)
Ltac run_step H :=
  lazymatch type of H with
  | (_ ≫= _) _ = (Ok _, _) =>
    let a := fresh "a" in let s := fresh "s" in let H1 := fresh "R" in
    apply bind_ok in H as (a & s & H1 & H); run_step H1; run_step H
  | throw_if _ _ _ = _ => apply throw_if_ok in H as [H ->]
  | with_db _ _ = _ => unfold with_db in H; run_step H
  | modify _ _ = _ => apply modify_ok in H as ->
  | query _ _ = _ => apply query_ok in H as [H ->]
  | lift _ _ = _ => apply lift_ok in H as [H ->]
  | mret _ _ = _ => apply ret_ok in H as [-> ->]
  | Savepoint _ _ = _ => apply savepoint_ok in H; run_step H
  | throw _ _ = (Ok _, _) => by apply throw_ok in H
  | _ => idtac
  end.
Ltac runs H := run_step H.

(** [eval]: runs the first step of the goal's program. *)
Ltac eval_by tac := erewrite bind_eval by tac.

Lemma next_rowid_fresh {A} (t : gmap Z A) i x : t !! i = Some x → i < next_rowid t.
Proof.
  unfold next_rowid. revert i x. induction t as [|j y t Hj IH] using map_ind; intros i x; [by rewrite lookup_empty|].
  rewrite map_fold_insert_L by (intros; lia || done).
  intros [[-> ->]|[Hne Hi]]%lookup_insert_Some; [lia|]. specialize (IH _ _ Hi). lia.
Qed.

Lemma next_rowid_none {A} (t : gmap Z A) i : next_rowid t <= i → t !! i = None.
Proof.
  intros Hi. destruct (t !! i) as [x|] eqn:E; [|done]. apply next_rowid_fresh in E. lia.
Qed.

Lemma next_rowid_pos {A} (t : gmap Z A) : 0 < next_rowid t.
Proof.
  unfold next_rowid. induction t as [|j y t Hj IH] using map_ind; [by rewrite map_fold_empty|].
  rewrite map_fold_insert_L by (intros; lia || done). lia.
Qed.
