(* ===== verification/VexfsTree.v ===== *)
(** * Workspaces, inodes, paths, quotas and commits

    The namespace half of [src/vexdb_sqlite/src/agent_files/vexfs_sqlite.cpp]: looking
    up workspaces and nodes, resolving paths, the quota checks, creating inodes and
    directory entries, and the commit that flushes the dirty rows into the history
    tables. *)
From Stdlib Require Import ZArith Lia String.
From stdpp Require Import prelude gmap.
From S2P Require Import Prelude Sha256 VexfsText VexfsDb.

Local Open Scope Z_scope.

(** ** Workspaces and nodes *)

Record Workspace := mkWorkspace { ws_id : Z; ws_root : Z; ws_head : Z }.

Definition workspace_of (id : Z) (w : workspace_row) : Workspace :=
  mkWorkspace id (int64 (w_root_inode w)) (int64 (w_head_commit w)).

Definition FindWorkspace (name : bytes) (d : Db) : sql Workspace :=
  match filter (λ '(_, w), w_name w = name ∧ w_active w = true) (map_to_list (workspaces d)) with
  | [] => Throw SQLITE_NOTFOUND
  | (id, w) :: _ => Ok (workspace_of id w)
  end.

Definition WorkspaceById (id : Z) (d : Db) : sql Workspace :=
  match workspaces d !! id with
  | None => Throw SQLITE_NOTFOUND
  | Some w => Ok (workspace_of id w)
  end.

Record Node := mkNode {
  n_id : Z;
  n_kind : Kind;
  n_size : Z;
  n_version : Z;
  n_mode : Z;
  n_owner : bytes;
  n_uid : Z;
  n_gid : Z;
  n_created : Z;
  n_accessed : Z;
  n_updated : Z;
  n_changed : Z;
}.

Definition node_of (id : Z) (r : inode_row) : Node :=
  mkNode id (i_kind r) (i_size r) (i_version r) (i_mode r) (i_owner r) (i_uid r) (i_gid r)
    (i_created r) (i_accessed r) (i_updated r) (i_changed r).

Definition live (r : inode_row) : bool := bool_decide (i_deleted r = None).

Definition NodeById (id : Z) (include_deleted : bool) (d : Db) : sql Node :=
  match inodes d !! id with
  | Some r => if include_deleted || live r then Ok (node_of id r) else Throw SQLITE_NOTFOUND
  | None => Throw SQLITE_NOTFOUND
  end.

Definition FindChild (ws parent : Z) (name : bytes) (d : Db) : option Node :=
  i ← dentries d !! (ws, parent, name);
  r ← inodes d !! i;
  if live r then Some (node_of i r) else None.

Definition RootNode (w : Workspace) (d : Db) : sql Node :=
  match inodes d !! ws_root w with
  | Some r =>
    if bool_decide (i_workspace r = ws_id w) && live r then Ok (node_of (ws_root w) r) else Throw SQLITE_CORRUPT
  | None => Throw SQLITE_CORRUPT
  end.

Fixpoint resolve_from (ws : Z) (current : Node) (parts : list bytes) (d : Db) : option Node :=
  match parts with
  | [] => Some current
  | part :: parts =>
    if negb (bool_decide (n_kind current = KDirectory)) then None
    else child ← FindChild ws (n_id current) part d; resolve_from ws child parts d
  end.

Definition TryResolve (w : Workspace) (parts : list bytes) (d : Db) : sql (option Node) :=
  match RootNode w d with
  | Throw e => Throw e
  | Ok root => Ok (resolve_from (ws_id w) root parts d)
  end.

Definition Resolve (w : Workspace) (parts : list bytes) (d : Db) : sql Node :=
  match TryResolve w parts d with
  | Throw e => Throw e
  | Ok None => Throw SQLITE_NOTFOUND
  | Ok (Some node) => Ok node
  end.

Definition ResolveParent (w : Workspace) (parts : list bytes) (d : Db) : sql (Node * bytes) :=
  match last parts with
  | None => Throw SQLITE_MISMATCH
  | Some name =>
    match Resolve w (removelast parts) d with
    | Throw e => Throw e
    | Ok parent =>
      if negb (bool_decide (n_kind parent = KDirectory)) then Throw SQLITE_MISMATCH else Ok (parent, name)
    end
  end.

(** One level of the recursive query: the parents of the live inode [i], each with
    its entry name put before [path]. *)
Definition parents (ws i : Z) (path : bytes) (d : Db) : list (Z * bytes) :=
  if (match inodes d !! i with Some r => live r | None => false end) then
    omap (λ '((w, p, n), j), if (w =? ws) && (j =? i) then Some (p, n ++ path) else None)
      (map_to_list (dentries d))
  else [].

(** [level] holds the rows of one depth; the deepest row under the root wins. Rows of
    equal depth (hard links) come in the order of the map. *)
Fixpoint ancestors (fuel : nat) (ws root : Z) (level : list (Z * bytes)) (best : option bytes) (d : Db)
    : option bytes :=
  let best :=
    match filter (λ '(p, _), p = root) level with
    | (_, path) :: _ => Some path
    | [] => best
    end in
  match fuel, level with
  | O, _ | _, [] => best
  | S fuel, _ => ancestors fuel ws root ('(p, path) ← level; parents ws p (slash :: path) d) best d
  end.

Definition PathForInode (w : Workspace) (inode : Z) (d : Db) : sql bytes :=
  if inode =? ws_root w then Ok [slash]
  else
    match ancestors 1023 (ws_id w) (ws_root w) (parents (ws_id w) inode [] d) None d with
    | None => Throw SQLITE_NOTFOUND
    | Some path => Ok (slash :: path)
    end.

Definition count_if {A : Type} (P : A → bool) (l : list A) : Z := Z.of_nat (length (filter (λ x, P x = true) l)).

Definition LinkCount (w : Workspace) (inode : Z) (d : Db) : sql Z :=
  match inodes d !! inode with
  | None => Throw SQLITE_CORRUPT
  | Some r =>
    if negb (i_workspace r =? ws_id w) then Throw SQLITE_CORRUPT
    else if bool_decide (i_kind r = KDirectory) then
      Ok (2 + count_if (λ '((w, p, _), j), (w =? i_workspace r) && (p =? inode) &&
        match inodes d !! j with
        | Some c => bool_decide (i_kind c = KDirectory) && live c
        | None => false
        end) (map_to_list (dentries d)))
    else Ok (count_if (λ '((w, _, _), j), (w =? i_workspace r) && (j =? inode)) (map_to_list (dentries d)))
  end.

(** ** Quotas *)

Record QuotaPolicy := mkQuotaPolicy { max_bytes : Z; max_files : Z; max_file_bytes : Z }.

Definition ReadQuotaPolicy (ws : Z) (d : Db) : sql QuotaPolicy :=
  match workspaces d !! ws with
  | None => Throw SQLITE_NOTFOUND
  | Some w =>
    Ok (mkQuotaPolicy (default (-1) (w_max_bytes w)) (default (-1) (w_max_files w))
      (default (-1) (w_max_file_bytes w)))
  end.

Definition CheckQuotaForNewInode (ws : Z) (kind : Kind) (d : Db) : sql () :=
  if bool_decide (kind = KDirectory) then Ok ()
  else
    match workspaces d !! ws with
    | None => Throw SQLITE_NOTFOUND
    | Some w =>
      match w_max_files w with
      | Some n => if n <=? w_live_files w then Throw SQLITE_FULL else Ok ()
      | None => Ok ()
      end
    end.

(** The size of the inode when it counts against the workspace. *)
Definition live_size (ws inode : Z) (d : Db) : option Z :=
  r ← inodes d !! inode;
  if (i_workspace r =? ws) && counts r then Some (i_size r) else None.

Definition CheckQuotaForContentSize (ws inode new_size : Z) (d : Db) : sql () :=
  if new_size <? 0 then Throw SQLITE_RANGE
  else
    match ReadQuotaPolicy ws d, workspaces d !! ws with
    | Ok policy, Some w =>
      let is_live := bool_decide (is_Some (live_size ws inode d)) in
      let old_size := if is_live then int64 (live_size ws inode d) else 0 in
      if (0 <=? max_file_bytes policy) && (max_file_bytes policy <? new_size) &&
         (negb is_live || (old_size <=? new_size)) then Throw SQLITE_FULL
      else if (0 <=? max_bytes policy) && is_live && (old_size <=? new_size) then
        let unchanged_bytes := w_live_bytes w - old_size in
        if (max_bytes policy <? new_size) || (max_bytes policy - new_size <? unchanged_bytes)
        then Throw SQLITE_FULL else Ok ()
      else Ok ()
    | Throw e, _ => Throw e
    | _, None => Throw SQLITE_NOTFOUND
    end.

(** ** Commits *)

(** A file that has not been published yet: it stays out of the history. *)
Definition pending (d : Db) (ws i : Z) : bool :=
  match inodes d !! i with
  | Some r => (i_workspace r =? ws) && bool_decide (i_kind r = KFile) && (i_version r =? 0)
  | None => false
  end.
Definition pending_live (d : Db) (ws i : Z) : bool :=
  pending d ws i && match inodes d !! i with Some r => live r | None => false end.

Definition flush_inodes (ws commit : Z) (d : Db) : Db → Db := on_inode_states (λ t,
  set_fold (λ '(w, i) t,
    match inodes d !! i with
    | Some r => if (w =? ws) && (i_workspace r =? w) && negb (pending d w i) then <[(w, i, commit) := r]> t else t
    | None => t
    end) t (dirty_inodes d)).

Definition flush_dentries (ws commit : Z) (d : Db) : Db → Db := on_dentry_states (λ t,
  map_fold (λ '(w, p, n) i t,
    let current := dentries d !! (w, p, n) in
    if (w =? ws) && negb (pending d w (default i current))
    then <[(w, p, n, commit) := (default i current, bool_decide (current = None))]> t else t) t (dirty_dentries d)).

Definition flush_xattrs (ws commit : Z) (d : Db) : Db → Db := on_xattr_states (λ t,
  set_fold (λ '(w, i, n) t,
    let value := xattrs d !! (i, n) in
    if (w =? ws) && negb (pending d w i)
    then <[(w, i, n, commit) := (default [] value, bool_decide (value = None))]> t else t) t (dirty_xattrs d)).

Definition flush_acl (ws commit : Z) (d : Db) : Db → Db := on_acl_states (λ t,
  set_fold (λ '(w, i, p, e) t,
    let entry := acl_entries d !! (w, i, p, e) in
    if (w =? ws) && negb (pending d w i)
    then <[((w, i, p, e), commit) := (default ([], 0) entry, bool_decide (entry = None))]> t else t) t (dirty_acl d)).

(** A dirty inode row leaves the table when its inode is gone or can be published. *)
Definition keep_dirty_inode (d : Db) (w i : Z) : bool :=
  match inodes d !! i with
  | Some r =>
    (i_workspace r =? w) &&
    negb (negb (bool_decide (i_kind r = KFile)) || (0 <? i_version r) || negb (live r))
  | None => false
  end.

Definition clear_dirty (ws : Z) (d : Db) (d' : Db) : Db :=
  on_dirty_acl (filter (λ '(w, i, p, e), negb (w =? ws) || pending_live d w i = true)) $
  on_dirty_xattrs (filter (λ '(w, i, n), negb (w =? ws) || pending_live d w i = true)) $
  on_dirty_dentries (filter (λ '((w, p, n), i),
    negb (w =? ws) || pending_live d w (default i (dentries d !! (w, p, n))) = true)) $
  on_dirty_inodes (filter (λ '(w, i), negb (w =? ws) || keep_dirty_inode d w i = true)) d'.

Definition FlushHistoryChanges (w : Workspace) (commit : Z) : M () :=
  with_db $ λ d,
  modify (clear_dirty (ws_id w) d ∘ flush_acl (ws_id w) commit d ∘ flush_xattrs (ws_id w) commit d ∘
    flush_dentries (ws_id w) commit d ∘ flush_inodes (ws_id w) commit d).

Fixpoint bytes_ltb (l r : bytes) : bool :=
  match l, r with
  | _, [] => false
  | [], _ :: _ => true
  | x :: l, y :: r => (x <? y) || (x =? y) && bytes_ltb l r
  end.

(** The shortest candidate, the smallest of the shortest; the order the rows come in
    does not change it. *)
Definition best_path (best : option bytes) (candidate : sql bytes) : option bytes :=
  match candidate, best with
  | Throw _, _ => best
  | Ok c, None => Some c
  | Ok c, Some b =>
    if (length c <? length b)%nat || (length c =? length b)%nat && bytes_ltb c b then Some c else best
  end.

Definition commit_path (w : Workspace) (d : Db) : bytes :=
  let in_workspace := filter (λ '((ws, _, _), _), ws = ws_id w) (map_to_list (dirty_dentries d)) in
  let entries := map (λ '((_, p, n), _),
    match PathForInode w p d with
    | Throw e => Throw e
    | Ok parent => Ok (if bool_decide (parent = [slash]) then slash :: n else parent ++ slash :: n)
    end) in_workspace in
  let nodes := map (λ '(_, i), PathForInode w i d)
    (filter (λ '(ws, _), ws = ws_id w) (elements (dirty_inodes d))) in
  default [slash]
    (match foldl best_path None entries with
     | Some path => Some path
     | None => foldl best_path None nodes
     end).

(** The session of the handle touched last whose inode the commit contains. *)
Definition later_handle (best : option (bytes * handle_row)) (h : bytes * handle_row) : option (bytes * handle_row) :=
  match best with
  | None => Some h
  | Some b =>
    if (h_updated b.2 <? h_updated h.2) || (h_updated b.2 =? h_updated h.2) && bytes_ltb b.1 h.1
    then Some h else best
  end.

Definition commit_session (w : Workspace) (d : Db) : bytes :=
  let dirty i :=
    bool_decide ((ws_id w, i) ∈ dirty_inodes d) ||
    existsb (λ '((ws, _, _), j), (ws =? ws_id w) && (j =? i)) (map_to_list (dirty_dentries d)) in
  let owned := filter (λ '(_, h),
    (h_workspace h =? ws_id w) && bool_decide (is_Some (h_owner_session h)) && dirty (h_inode h) = true)
    (map_to_list (handles d)) in
  match foldl later_handle None owned with
  | Some (_, h) => default [] (h_owner_session h)
  | None => []
  end.

Definition set_head (commit : Z) (w : workspace_row) : workspace_row :=
  mkWorkspaceRow (w_name w) (w_active w) (w_root_inode w) (Some commit)
    (Some (default commit (w_history_floor w)))
    (w_max_bytes w) (w_max_files w) (w_max_file_bytes w) (w_live_files w) (w_live_bytes w) (w_retention w).

Definition CreateCommitInTransaction (w : Workspace) (message : bytes) : M Z :=
  with_db $ λ d,
  let path := commit_path w d in
  let session := commit_session w d in
  match workspaces d !! ws_id w with
  | None => throw SQLITE_NOTFOUND
  | Some row =>
    let commit := next_rowid (commits d) in
    modify (on_commits (insert commit
      (mkCommitRow (ws_id w) (nullif0 (int64 (w_head_commit row))) message path (str "local")
        (match session with [] => None | _ => Some session end) (clock d))));;
    FlushHistoryChanges w commit;;
    modify (on_workspaces (alter (set_head commit) (ws_id w)));;
    mret commit
  end.

Definition CreateCommit (w : Workspace) (message : bytes) : M Z :=
  Savepoint (CreateCommitInTransaction w message).

(** ** New inodes and entries *)

(** The row [CreateInode] inserts; the columns it leaves out have their defaults. *)
Definition new_inode_row (uid gid ws : Z) (kind : Kind) (mode now : Z) : inode_row :=
  mkInodeRow ws kind mode (str "local") uid gid 0 (if bool_decide (kind = KDirectory) then 1 else 0)
    now now now now None.

(** [uid] and [gid] are those of the process. *)
Definition CreateInode (uid gid ws : Z) (kind : Kind) (mode : Z) : M Z :=
  query (CheckQuotaForNewInode ws kind);;
  with_db $ λ d,
  insert_inode (new_inode_row uid gid ws kind mode (clock_seconds d)).

Definition touch (now : Z) (size version : Z) (r : inode_row) : inode_row :=
  mkInodeRow (i_workspace r) (i_kind r) (i_mode r) (i_owner r) (i_uid r) (i_gid r) size version
    (i_created r) (i_accessed r) now now (i_deleted r).

Definition TouchDirectory (ws inode : Z) : M () :=
  with_db $ λ d,
  match inodes d !! inode with
  | Some r =>
    if (i_workspace r =? ws) && bool_decide (i_kind r = KDirectory) && live r
    then update_inode inode r (touch (clock d) (i_size r) (i_version r + 1) r) else mret ()
  | None => mret ()
  end.

(** The inheritable entries of the parent, where the inode has none of its own. *)
Definition inherit_acl (ws parent inode : Z) (d : Db) : Db :=
  let new := omap (λ '((w, i, p, e), entry),
    if (w =? ws) && (i =? parent) && negb (entry.2 =? 0) &&
       bool_decide (acl_entries d !! (ws, inode, p, e) = None)
    then Some ((ws, inode, p, e), entry) else None) (map_to_list (acl_entries d)) in
  on_dirty_acl (λ s, list_to_set new.*1 ∪ s) $ on_acl_entries (λ t, t ∪ list_to_map new) d.

Definition AddDentry (ws parent : Z) (name : bytes) (inode : Z) : M () :=
  insert_dentry ws parent name inode;;
  modify (inherit_acl ws parent inode);;
  TouchDirectory ws parent.
