(* ===== verification/VexfsStore.v ===== *)
(** * File versions: manifests and chunks

    How [src/vexdb_sqlite/src/agent_files/vexfs_sqlite.cpp] stores the content of a file
    version. A manifest cuts the content into chunks of 64 KiB; each chunk is a row
    with its checksum, shared with the previous manifest and within the manifest. *)
From Stdlib Require Import ZArith Lia String.
From stdpp Require Import prelude gmap sorting.
From S2P Require Import Prelude Sha256 VexfsText VexfsDb VexfsTree.

Local Open Scope Z_scope.

Definition kMaxStagedBytes : Z := 128 * 1024 * 1024.
Definition kContentChunkBytes : Z := 64 * 1024.

(** The number of chunks of a content of [size] bytes. *)
Definition chunk_count_of (size : Z) : Z := (size + kContentChunkBytes - 1) / kContentChunkBytes.

(** A [std::exception] of the hash leaves the call as a plain error. *)
Definition hashed {A : Type} (r : result hash_error A) : sql A :=
  match r with Ok a => Ok a | Throw _ => Throw SQLITE_ERROR end.

Definition zlength (l : bytes) : Z := Z.of_nat (length l).

(** ** Reading versions *)

Record VersionStorage := mkVersionStorage {
  vs_manifest : Z;
  vs_size : Z;
  vs_canonical : Z;
  vs_chunk_count : Z;
  vs_checksum : bytes;
}.

Definition ResolveVersionStorage (inode version : Z) (d : Db) : sql VersionStorage :=
  match file_versions d !! (inode, version) with
  | None => Throw SQLITE_NOTFOUND
  | Some v =>
    let source := n ← v_source v; file_versions d !! (inode, n) in
    let manifest_id := match v_source v with None => v_manifest v | Some _ => source ≫= v_manifest end in
    let manifest := m ← manifest_id; manifests d !! m in
    let source_checksum := match v_source v with None => v_checksum v | Some _ => default [] (v_checksum <$> source) end in
    let size := v_size v in
    let chunk_count := int64 (m_chunk_count <$> manifest) in
    let expected_chunk_count :=
      if (size <? 0) || (kMaxStagedBytes <? size) then -1 else chunk_count_of size in
    if bool_decide (manifest_id = None) || (int64 manifest_id <=? 0) ||
       (size <? 0) || (kMaxStagedBytes <? size) || negb (size =? int64 (m_file_size <$> manifest)) ||
       negb (length (v_checksum v) =? 64)%nat || negb (bool_decide (v_checksum v = source_checksum)) ||
       negb (bool_decide (v_checksum v = default [] (m_checksum <$> manifest))) ||
       negb (int64 (m_chunk_size <$> manifest) =? kContentChunkBytes) || negb (chunk_count =? expected_chunk_count)
    then Throw SQLITE_CORRUPT
    else Ok (mkVersionStorage (int64 manifest_id) size (default version (v_source v)) chunk_count (v_checksum v))
  end.

(** The rows of the join of [_vexfs_manifest_chunks] and [_vexfs_chunks] at one number. *)
Definition manifest_chunk (manifest chunk_no : Z) (d : Db) : option (Z * chunk_row) :=
  id ← manifest_chunks d !! (manifest, chunk_no);
  row ← chunks d !! id;
  Some (id, row).

(** The chunk numbers of a manifest that a query selects, in no particular order. *)
Definition chunk_numbers (manifest : Z) (P : Z → bool) (d : Db) : list Z :=
  snd <$> filter (λ '(m, n), m = manifest ∧ P n = true) (map_to_list (manifest_chunks d)).*1.

(** The rows of [… WHERE manifest_id=… ORDER BY chunk_no]. *)
Definition manifest_rows (manifest : Z) (P : Z → bool) (d : Db) : list (Z * chunk_row) :=
  omap (λ n, '(_, row) ← manifest_chunk manifest n d; Some (n, row))
    (merge_sort Z.le (chunk_numbers manifest P d)).

(** What the readers require of a stored chunk. *)
Definition chunk_intact (row : chunk_row) (expected_size : Z) : sql bool :=
  if (expected_size <=? 0) || negb (k_size row =? expected_size) ||
     negb (zlength (k_content row) =? expected_size) || negb (length (k_checksum row) =? 64)%nat then Ok false
  else
    match hashed (Sha256Hex (k_content row)) with
    | Throw e => Throw e
    | Ok checksum => Ok (bool_decide (checksum = k_checksum row))
    end.

(** The loop of [ReadVersionContent]; [content] is what has been copied. *)
Fixpoint read_chunks (rows : list (Z * chunk_row)) (size offset expected_chunk : Z) (content : bytes)
    (entries : list ManifestChunkChecksum) : sql (Z * Z * bytes * list ManifestChunkChecksum) :=
  match rows with
  | [] => Ok (offset, expected_chunk, content, entries)
  | (n, row) :: rows =>
    let expected_size := Z.min kContentChunkBytes (size - offset) in
    match chunk_intact row expected_size with
    | Throw e => Throw e
    | Ok intact =>
      if negb (n =? expected_chunk) || negb intact then Throw SQLITE_CORRUPT
      else read_chunks rows size (offset + expected_size) (expected_chunk + 1) (content ++ k_content row)
        (entries ++ [mkChunkChecksum (zlength (k_content row)) (k_checksum row)])
    end
  end.

Definition ReadVersionContent (inode version : Z) (d : Db) : sql bytes :=
  match ResolveVersionStorage inode version d with
  | Throw e => Throw e
  | Ok storage =>
    if kMaxStagedBytes <? vs_size storage then Throw SQLITE_CORRUPT
    else
      match read_chunks (manifest_rows (vs_manifest storage) (λ _, true) d) (vs_size storage) 0 0 [] [] with
      | Throw e => Throw e
      | Ok (offset, expected_chunk, content, entries) =>
        if negb (offset =? vs_size storage) || negb (expected_chunk =? vs_chunk_count storage) ||
           negb (expected_chunk =? chunk_count_of (vs_size storage)) then Throw SQLITE_CORRUPT
        else
          match hashed (ManifestChecksum (vs_size storage) kContentChunkBytes entries) with
          | Throw e => Throw e
          | Ok checksum => if bool_decide (checksum = vs_checksum storage) then Ok content else Throw SQLITE_CORRUPT
          end
      end
  end.

(** A stretch of a chunk. *)
Definition slice (l : bytes) (from to : Z) : bytes := take (Z.to_nat (to - from)) (drop (Z.to_nat from) l).

Fixpoint read_range (rows : list (Z * chunk_row)) (size offset end_ expected_chunk : Z) (content : bytes)
    : sql (Z * bytes) :=
  match rows with
  | [] => Ok (expected_chunk, content)
  | (n, row) :: rows =>
    let chunk_offset := n * kContentChunkBytes in
    let expected_size := Z.min kContentChunkBytes (size - chunk_offset) in
    match chunk_intact row expected_size with
    | Throw e => Throw e
    | Ok intact =>
      if negb (n =? expected_chunk) || negb intact then Throw SQLITE_CORRUPT
      else
        let copy_start := Z.max offset chunk_offset - chunk_offset in
        let copy_end := Z.min end_ (chunk_offset + expected_size) - chunk_offset in
        read_range rows size offset end_ (expected_chunk + 1) (content ++ slice (k_content row) copy_start copy_end)
    end
  end.

Definition ReadVersionRange (inode version offset len : Z) (d : Db) : sql bytes :=
  match ResolveVersionStorage inode version d with
  | Throw e => Throw e
  | Ok storage =>
    let size := vs_size storage in
    if kMaxStagedBytes <? size then Throw SQLITE_CORRUPT
    else if (offset <? 0) || (len <? 0) || (kMaxStagedBytes <? offset) || (kMaxStagedBytes <? len)
    then Throw SQLITE_RANGE
    else if (len =? 0) || (size <=? offset) then Ok []
    else
      let end_ := Z.min size (offset + len) in
      let first_chunk := offset / kContentChunkBytes in
      let last_chunk := (end_ - 1) / kContentChunkBytes in
      match read_range (manifest_rows (vs_manifest storage) (λ n, (first_chunk <=? n) && (n <=? last_chunk)) d)
              size offset end_ first_chunk [] with
      | Throw e => Throw e
      | Ok (expected_chunk, content) =>
        if negb (expected_chunk =? last_chunk + 1) || negb (zlength content =? end_ - offset)
        then Throw SQLITE_CORRUPT else Ok content
      end
  end.

Definition ReadNode (node : Node) (d : Db) : sql bytes :=
  if negb (bool_decide (n_kind node = KFile)) then Throw SQLITE_MISMATCH
  else if n_version node =? 0 then Ok []
  else ReadVersionContent (n_id node) (n_version node) d.

Definition ReadNodeVersion (node : Node) (version : Z) (d : Db) : sql bytes :=
  if negb (bool_decide (n_kind node = KFile)) then Throw SQLITE_MISMATCH
  else if version <=? 0 then Throw SQLITE_RANGE
  else ReadVersionContent (n_id node) version d.

(** ** Storing versions *)

Definition pending_checksum : bytes := replicate 64 48.

Definition insert_manifest (row : manifest_row) : M Z :=
  with_db $ λ d,
  let id := next_rowid (manifests d) in
  modify (on_manifests (insert id row));;
  mret id.

Definition insert_chunk (row : chunk_row) : M Z :=
  with_db $ λ d,
  let id := next_rowid (chunks d) in
  modify (on_chunks (insert id row));;
  mret id.

Definition insert_entry (manifest chunk_no chunk : Z) : M () :=
  with_db $ λ d,
  throw_if (bool_decide (is_Some (manifest_chunks d !! (manifest, chunk_no)))) SQLITE_CONSTRAINT;;
  modify (on_manifest_chunks (insert (manifest, chunk_no) chunk)).

(** The chunk the previous manifest has at the same place, when it has the same bytes. *)
Definition previous_chunk (previous_manifest chunk_no inode : Z) (data checksum : bytes) (d : Db) : Z :=
  if 0 <? previous_manifest then
    match manifest_chunk previous_manifest chunk_no d with
    | Some (id, row) =>
      if (k_inode row =? inode) && (k_size row =? zlength data) && bool_decide (k_checksum row = checksum) &&
         bool_decide (k_content row = data) then id else 0
    | None => 0
    end
  else 0.

Definition reuse_key (data checksum : bytes) : bytes := to_string (zlength data) ++ 58 :: checksum.

(** One chunk: [chunk_id] is 0 while no row has been found for it. A row of the
    previous manifest, a row stored for this manifest before, or a new row. *)
Definition store_chunk (ws inode previous_manifest manifest chunk_no : Z) (data checksum : bytes) (chunk_id : Z)
    (new_chunks : gmap bytes Z) : M (gmap bytes Z) :=
  with_db $ λ d,
  let chunk_id := if chunk_id =? 0 then previous_chunk previous_manifest chunk_no inode data checksum d else chunk_id in
  let key := reuse_key data checksum in
  let chunk_id := if chunk_id =? 0 then default 0 (new_chunks !! key) else chunk_id in
  if chunk_id =? 0 then
    id ← insert_chunk (mkChunkRow ws inode data (zlength data) checksum);
    insert_entry manifest chunk_no id;;
    mret (<[key := id]> new_chunks)
  else
    insert_entry manifest chunk_no chunk_id;;
    mret new_chunks.

Fixpoint store_chunks (ws inode previous_manifest manifest chunk_no : Z) (datas : list bytes)
    (new_chunks : gmap bytes Z) (entries : list ManifestChunkChecksum) : M (list ManifestChunkChecksum) :=
  match datas with
  | [] => mret entries
  | data :: datas =>
    checksum ← lift (hashed (Sha256Hex data));
    new_chunks ← store_chunk ws inode previous_manifest manifest chunk_no data checksum 0 new_chunks;
    store_chunks ws inode previous_manifest manifest (chunk_no + 1) datas new_chunks
      (entries ++ [mkChunkChecksum (zlength data) checksum])
  end.

Definition set_checksum (checksum : bytes) (m : manifest_row) : manifest_row :=
  mkManifestRow (m_workspace m) (m_file_size m) (m_chunk_size m) (m_chunk_count m) checksum.

(** The checksum over the manifest replaces the pending one. *)
Definition finalize_manifest (manifest size : Z) (entries : list ManifestChunkChecksum) : M bytes :=
  checksum ← lift (hashed (ManifestChecksum size kContentChunkBytes entries));
  modify (on_manifests (alter (set_checksum checksum) manifest));;
  mret checksum.

Definition StoreManifest (ws inode previous_manifest : Z) (content : bytes) : M (Z * bytes) :=
  let size := zlength content in
  manifest ← insert_manifest (mkManifestRow ws size kContentChunkBytes (chunk_count_of size) pending_checksum);
  entries ← store_chunks ws inode previous_manifest manifest 0
    (pieces (Z.to_nat kContentChunkBytes) content) ∅ [];
  checksum ← finalize_manifest manifest size entries;
  mret (manifest, checksum).

(** [INSERT INTO _vexfs_file_versions], which is unique in inode and version. *)
Definition next_version_id (t : gmap (Z * Z) version_row) : Z := map_fold (λ _ v n, Z.max (v_id v) n) 0 t + 1.
Definition new_version (commit : Z) (manifest : option Z) (size : Z) (checksum : bytes) (source : option Z) (d : Db) : version_row :=
  mkVersionRow commit manifest size checksum source (next_version_id (file_versions d)) (clock_seconds d).
Definition insert_version (inode version commit : Z) (manifest : option Z) (size : Z) (checksum : bytes) (source : option Z) : M () :=
  with_db $ λ d,
  throw_if (bool_decide (is_Some (file_versions d !! (inode, version)))) SQLITE_CONSTRAINT;;
  modify (on_file_versions (insert (inode, version) (new_version commit manifest size checksum source d))).

(** The compare-and-set on the inode: [UPDATE … WHERE id=?3 AND current_version=?4]. *)
Definition advance_inode (inode old_version size version : Z) : M () :=
  with_db $ λ d,
  match inodes d !! inode with
  | Some r =>
    if i_version r =? old_version then update_inode inode r (touch (clock d) size version r)
    else throw SQLITE_CONSTRAINT
  | None => throw SQLITE_CONSTRAINT
  end.

Definition MarkGrepIndexDirty : M () :=
  with_db $ λ d,
  match grep_index d with
  | kDisabled => mret ()
  | _ => modify (set_meta (insert (str "grep_index_dirty") (str "1")))
  end.

Definition UpdateGrepIndexFromVersion (ws inode version : Z) : M () :=
  with_db $ λ d,
  match grep_index d with
  | kDisabled => mret ()
  | kUnavailable => MarkGrepIndexDirty
  | kAvailable =>
    modify (set_content_fts (delete inode));;
    match inodes d !! inode with
    | Some r =>
      if (i_workspace r =? ws) && bool_decide (i_kind r = KFile) && live r then
        content ← query (ReadVersionContent inode version);
        modify (set_content_fts (insert inode (mkFtsRow ws inode version content)))
      else mret ()
    | None => mret ()
    end
  end.

(** The manifest of the current version, 0 for a file without one. *)
Definition previous_manifest_of (node : Node) (d : Db) : sql Z :=
  if 0 <? n_version node then
    match ResolveVersionStorage (n_id node) (n_version node) d with
    | Ok storage => Ok (vs_manifest storage)
    | Throw e => Throw e
    end
  else Ok 0.

(** What [StoreVersion] and [StoreVersionFromStaging] both do once the quota has been
    checked; [commit] and [store] are how they commit and store the manifest. *)
Definition publish_version (w : Workspace) (node : Node) (size : Z) (commit : M Z) (store : M (Z * bytes)) : M Z :=
  let version := n_version node + 1 in
  advance_inode (n_id node) (n_version node) size version;;
  commit_id ← commit;
  '(manifest, checksum) ← store;
  insert_version (n_id node) version commit_id (Some manifest) size checksum None;;
  UpdateGrepIndexFromVersion (ws_id w) (n_id node) version;;
  mret manifest.

Definition StoreVersion (w : Workspace) (node : Node) (content : bytes) (message : bytes) : M Z :=
  Savepoint (
    AcquireWriteLock;;
    previous_manifest ← query (previous_manifest_of node);
    query (CheckQuotaForContentSize (ws_id w) (n_id node) (zlength content));;
    publish_version w node (zlength content) (CreateCommit w message)
      (StoreManifest (ws_id w) (n_id node) previous_manifest content);;
    mret (n_version node + 1)).

Definition StoreVersionFromVersion (w : Workspace) (node : Node) (source_version : Z) (message : bytes) : M Z :=
  Savepoint (
    AcquireWriteLock;;
    source ← query (ResolveVersionStorage (n_id node) source_version);
    query (CheckQuotaForContentSize (ws_id w) (n_id node) (vs_size source));;
    let version := n_version node + 1 in
    advance_inode (n_id node) (n_version node) (vs_size source) version;;
    commit ← CreateCommit w message;
    insert_version (n_id node) version commit None (vs_size source) (vs_checksum source) (Some (vs_canonical source));;
    UpdateGrepIndexFromVersion (ws_id w) (n_id node) version;;
    mret version).
