(* ===== verification/VexfsStoreFacts.v ===== *)
(** * Stored versions read back

    What [StoreManifest] writes is what [ReadVersionContent] and [ReadVersionRange]
    read, and storing a version leaves every stored version readable. *)
From Stdlib Require Import ZArith Lia String.
From stdpp Require Import prelude gmap sorting.
From S2P Require Import Prelude Sha256 Sha256Facts VexfsText VexfsDb VexfsTree VexfsStore.

Local Open Scope Z_scope.
Implicit Types d : Db.

Lemma chunk_bytes_pos : 0 < kContentChunkBytes.
Proof. done. Qed.
Lemma chunk_bytes_max : kContentChunkBytes <= kMaxStagedBytes.
Proof. done. Qed.
Lemma staged_bytes_max : kMaxStagedBytes < 2 ^ 28.
Proof. done. Qed.
Lemma max_input_large : 2 ^ 60 < max_input.
Proof. done. Qed.

#[global] Opaque kContentChunkBytes kMaxStagedBytes max_input.

Ltac sizes := pose proof chunk_bytes_pos; pose proof chunk_bytes_max; pose proof staged_bytes_max;
  pose proof max_input_large.

Abbreviation C := (Z.to_nat kContentChunkBytes).

(** ** The rows of a manifest *)

Lemma elem_of_chunk_numbers m P d n :
  n ∈ chunk_numbers m P d ↔ is_Some (manifest_chunks d !! (m, n)) ∧ P n = true.
Proof.
  unfold chunk_numbers. rewrite list_elem_of_fmap. split.
  - intros ([m' n'] & -> & [[-> HP] Hin]%list_elem_of_filter). split; [|done].
    apply list_elem_of_fmap in Hin as ([[m1 n1] v] & [= <- <-] & Hin%elem_of_map_to_list). simpl. eauto.
  - intros [[v Hv] HP]. exists (m, n). split; [done|]. apply list_elem_of_filter. split; [done|].
    apply list_elem_of_fmap. exists ((m, n), v). split; [done|]. by apply elem_of_map_to_list.
Qed.

Lemma NoDup_chunk_numbers m P d : NoDup (chunk_numbers m P d).
Proof.
  unfold chunk_numbers. apply NoDup_fmap_2_strong.
  - intros [m1 n1] [m2 n2] [[-> _] _]%list_elem_of_filter [[-> _] _]%list_elem_of_filter. simpl. by intros ->.
  - apply NoDup_filter, NoDup_fst_map_to_list.
Qed.

Lemma sorted_numbers_unique (l k : list Z) :
  NoDup l → NoDup k → (∀ n, n ∈ l ↔ n ∈ k) → merge_sort Z.le l = merge_sort Z.le k.
Proof.
  intros Hl Hk Heq. apply (Sorted_unique Z.le); [apply Sorted_merge_sort; intros ??; lia..|].
  rewrite !merge_sort_Permutation. by apply NoDup_Permutation.
Qed.

Lemma seqZ_sorted a c : Sorted Z.le (seqZ a c).
Proof.
  destruct (decide (c < 0)); [rewrite seqZ_nil by lia; constructor|].
  revert a. apply (natlike_ind (λ c, ∀ a, Sorted Z.le (seqZ a c))); [intros; rewrite seqZ_nil by lia; constructor| |lia].
  intros x Hx IH a. rewrite seqZ_cons by lia. replace (Z.pred (Z.succ x)) with x by lia.
  constructor; [apply IH|]. destruct (decide (x = 0)) as [->|]; [rewrite seqZ_nil by lia; constructor|].
  rewrite seqZ_cons by lia. constructor. lia.
Qed.

Lemma merge_sort_seqZ a c : merge_sort Z.le (seqZ a c) = seqZ a c.
Proof.
  apply (Sorted_unique Z.le); [apply Sorted_merge_sort; intros ??; lia|apply seqZ_sorted|].
  apply merge_sort_Permutation.
Qed.

(** The rows are in order, whatever order the map lists its keys in. *)
Lemma manifest_rows_seq m P d a c :
  (∀ n, (is_Some (manifest_chunks d !! (m, n)) ∧ P n = true) ↔ a <= n < a + c) →
  manifest_rows m P d = omap (λ n, '(_, row) ← manifest_chunk m n d; Some (n, row)) (seqZ a c).
Proof.
  intros Hin. unfold manifest_rows. f_equal. rewrite <- (merge_sort_seqZ a c).
  apply sorted_numbers_unique; [apply NoDup_chunk_numbers|apply NoDup_seqZ|].
  intros n. rewrite elem_of_chunk_numbers, Hin, elem_of_seqZ. done.
Qed.

Lemma manifest_rows_ext m P d d' :
  (∀ n, manifest_chunks d' !! (m, n) = manifest_chunks d !! (m, n)) →
  (∀ n, manifest_chunk m n d' = manifest_chunk m n d) → manifest_rows m P d' = manifest_rows m P d.
Proof.
  intros He Hc. unfold manifest_rows.
  rewrite (sorted_numbers_unique (chunk_numbers m P d') (chunk_numbers m P d)).
  - apply list_omap_ext, Forall_Forall2_diag, Forall_true. intros n. by rewrite Hc.
  - apply NoDup_chunk_numbers.
  - apply NoDup_chunk_numbers.
  - intros n. by rewrite !elem_of_chunk_numbers, He.
Qed.

(** ** Rows that hold a content *)

Definition row_intact (row : chunk_row) : Prop :=
  k_size row = zlength (k_content row) ∧ k_checksum row = sha (k_content row).

(** The rows numbered from [k] on hold the pieces of [content]. *)
Record good_rows (k : Z) (content : bytes) (rows : list (Z * chunk_row)) : Prop := {
  gr_numbers : rows.*1 = seqZ k (Z.of_nat (length rows));
  gr_pieces : (k_content ∘ snd) <$> rows = pieces C content;
  gr_intact : Forall (λ r, row_intact r.2) rows;
}.

Definition checks (datas : list bytes) : list ManifestChunkChecksum :=
  (λ data, mkChunkChecksum (zlength data) (sha data)) <$> datas.

Lemma length_sha data : length (sha data) = 64%nat.
Proof. apply is_sha256_length, sha_is_sha256. Qed.

Lemma chunk_intact_iff row size : size <= kMaxStagedBytes →
  chunk_intact row size = Ok (bool_decide (0 < size ∧ zlength (k_content row) = size ∧ row_intact row)).
Proof.
  intros Hs. sizes. unfold chunk_intact, row_intact.
  destruct (Z.leb_spec size 0); [by rewrite bool_decide_eq_false_2 by lia|].
  destruct (Z.eqb_spec (k_size row) size) as [E1|E1]; [|rewrite bool_decide_eq_false_2; [done|]; cbn; lia].
  destruct (Z.eqb_spec (zlength (k_content row)) size) as [E2|E2]; [|rewrite bool_decide_eq_false_2; [done|]; lia].
  destruct (Nat.eqb_spec (length (k_checksum row)) 64) as [E3|E3]; cbn [negb orb].
  - rewrite sha256_hex by (unfold zlength in *; lia). cbn [hashed]. f_equal. apply bool_decide_ext.
    split; [|naive_solver]. intros <-. split_and!; [lia|done|lia|done].
  - rewrite bool_decide_eq_false_2; [done|]. intros (_ & _ & _ & E). by rewrite E, length_sha in E3.
Qed.

Lemma zlength_nonneg (l : bytes) : 0 <= zlength l.
Proof. unfold zlength. lia. Qed.

Lemma zlength_app l r : zlength (l ++ r) = zlength l + zlength r.
Proof. unfold zlength. rewrite length_app. lia. Qed.

Lemma zlength_take l n : 0 <= n → zlength (take (Z.to_nat n) l) = Z.min n (zlength l).
Proof. intros. unfold zlength. rewrite length_take. lia. Qed.

Lemma zlength_drop l n : 0 <= n → zlength (drop (Z.to_nat n) l) = Z.max 0 (zlength l - n).
Proof. intros. unfold zlength. rewrite length_drop. lia. Qed.

Lemma pieces_C_cons (l : bytes) : l ≠ [] → pieces C l = take C l :: pieces C (drop C l).
Proof. sizes. intros. apply pieces_cons; [lia|done]. Qed.

(** The reader accepts exactly the rows that hold a content, and returns it. *)
Lemma read_chunks_good rows content size off k acc es :
  good_rows k content rows → 0 <= off → size = off + zlength content → size <= kMaxStagedBytes →
  read_chunks rows size off k acc es =
    Ok (size, k + Z.of_nat (length rows), acc ++ content, es ++ checks (pieces C content)).
Proof.
  sizes. revert content off k acc es.
  induction rows as [|[n row] rows IH]; intros content off k acc es [Hn Hp Hi] Hoff Hsize Hmax.
  - assert (content = []) as ->.
    { destruct (decide (content = [])) as [|Hne]; [done|]. by rewrite pieces_C_cons in Hp. }
    simpl. rewrite !app_nil_r. unfold zlength in Hsize. simpl in Hsize. by rewrite Z.add_0_r in *; subst.
  - assert (Hne : content ≠ []) by (intros ->; done).
    assert (0 < zlength content) by (unfold zlength; destruct content; [done|simpl; lia]).
    rewrite pieces_C_cons in Hp |- * by done. apply Forall_cons in Hi as [Hrow Hi].
    rewrite fmap_cons in Hn. simpl length in Hn. rewrite seqZ_cons in Hn by lia. injection Hn as -> Hn.
    rewrite fmap_cons in Hp. injection Hp as Hrowc Hp. simpl in Hrow, Hrowc.
    cbn [read_chunks]. rewrite chunk_intact_iff by lia.
    assert (Hlen : zlength (k_content row) = Z.min kContentChunkBytes (size - off)).
    { rewrite Hrowc, zlength_take by lia. lia. }
    rewrite bool_decide_eq_true_2 by (split_and!; [lia|done|done]).
    rewrite Z.eqb_refl. cbn [negb orb].
    rewrite (IH (drop C content)).
    + rewrite Hrowc at 1. rewrite <- app_assoc, take_drop. destruct Hrow as [_ ->].
      rewrite Hrowc, <- app_assoc.
      replace (k + Z.of_nat (length ((k, row) :: rows))) with (k + 1 + Z.of_nat (length rows)) by (simpl; lia). done.
    + split; [|done|done]. rewrite Hn. f_equal; lia.
    + lia.
    + rewrite zlength_drop by lia. lia.
    + done.
Qed.

Lemma read_chunks_inv rows size off k acc es k' c es' :
  0 <= off → size <= kMaxStagedBytes →
  read_chunks rows size off k acc es = Ok (size, k', c, es') →
  ∃ content, good_rows k content rows ∧ size = off + zlength content ∧ c = acc ++ content.
Proof.
  sizes. revert off k acc es. induction rows as [|[n row] rows IH]; intros off k acc es Hoff Hmax Hrun; simpl in Hrun.
  - injection Hrun as -> <- <- <-. exists []. split_and!; [by split|by unfold zlength; simpl; lia|by rewrite app_nil_r].
  - rewrite chunk_intact_iff in Hrun by lia.
    destruct (Z.eqb_spec n k) as [->|]; [|done]. cbn [negb orb] in Hrun.
    case_bool_decide as Hrow; [|done]. destruct Hrow as (Hpos & Hlen & Hrow). cbn [negb] in Hrun.
    apply IH in Hrun as (content & [Hn Hp Hi] & Hsize & ->); [|lia|done].
    pose proof (zlength_nonneg content).
    assert (Hpc : pieces C (k_content row ++ content) = k_content row :: pieces C content).
    { assert (k_content row ≠ []) by (intros E; rewrite E in Hlen; unfold zlength in Hlen; simpl in Hlen; lia).
      destruct (decide (content = [])) as [->|Hne].
      - rewrite app_nil_r. apply pieces_single; [done|]. unfold zlength in *. lia.
      - assert (0 < zlength content) by (unfold zlength; destruct content; [done|simpl; lia]).
        assert (length (k_content row) = C) by (unfold zlength in *; lia).
        rewrite pieces_C_cons by (intros [? _]%app_eq_nil; done).
        by rewrite take_app_length', drop_app_length' by done. }
    exists (k_content row ++ content). split_and!.
    + split.
      * rewrite fmap_cons, Hn. cbn [length fst]. rewrite (seqZ_cons k) by lia. f_equal. f_equal; lia.
      * rewrite fmap_cons, Hp, Hpc. done.
      * by constructor.
    + rewrite zlength_app. lia.
    + by rewrite app_assoc.
Qed.

(** ** Reading a range *)

Lemma slice_app l a b c : 0 <= a <= b → b <= c → slice l a b ++ slice l b c = slice l a c.
Proof.
  intros Hab Hbc. unfold slice. replace (Z.to_nat b) with (Z.to_nat a + Z.to_nat (b - a))%nat by lia.
  rewrite <- drop_drop, take_take_drop. f_equal. lia.
Qed.

Lemma slice_nil l a b : b <= a → slice l a b = [].
Proof. intros. unfold slice. by replace (Z.to_nat (b - a)) with 0%nat by lia. Qed.

Lemma slice_slice l x y a b : 0 <= x → 0 <= a → b <= y - x → slice (slice l x y) a b = slice l (x + a) (x + b).
Proof.
  intros Hx Ha Hb. unfold slice.
  replace (x + b - (x + a)) with (b - a) by lia.
  replace (Z.to_nat (x + a)) with (Z.to_nat x + Z.to_nat a)%nat by lia.
  rewrite <- drop_drop. generalize (drop (Z.to_nat x) l). intros l'.
  rewrite skipn_firstn_comm, take_take. f_equal. lia.
Qed.

Lemma zlength_slice l a b : 0 <= a <= b → b <= zlength l → zlength (slice l a b) = b - a.
Proof. intros. unfold slice. rewrite zlength_take, zlength_drop by lia. lia. Qed.

Lemma slice_all l : slice l 0 (zlength l) = l.
Proof. unfold slice, zlength. rewrite drop_0. apply take_ge. lia. Qed.

(** The row numbered [n] holds the [n]th piece of the content. *)
Definition row_at (m : Z) (content : bytes) (d : Db) (n : Z) : Prop :=
  ∃ id row, manifest_chunk m n d = Some (id, row) ∧ row_intact row ∧
    k_content row = slice content (n * kContentChunkBytes) ((n + 1) * kContentChunkBytes).

Lemma read_range_seq d m content offset end_ c : 0 <= c → ∀ k acc,
  (∀ n, k <= n < k + c → row_at m content d n) → zlength content <= kMaxStagedBytes → 0 <= k →
  0 <= offset < (k + 1) * kContentChunkBytes → (k + c - 1) * kContentChunkBytes < end_ <= zlength content →
  offset < end_ →
  read_range (omap (λ n, '(_, row) ← manifest_chunk m n d; Some (n, row)) (seqZ k c))
    (zlength content) offset end_ k acc =
  Ok (k + c, acc ++ slice content (Z.max offset (k * kContentChunkBytes))
                          (Z.min end_ ((k + c) * kContentChunkBytes))).
Proof.
  sizes. set (B := kContentChunkBytes) in *. intros Hc0. pattern c. revert c Hc0. apply natlike_ind.
  - intros k acc _ _ Hk Hoff Hend Hlt. rewrite seqZ_nil by lia. simpl. rewrite Z.add_0_r.
    by rewrite slice_nil, app_nil_r by lia.
  - intros c Hc IH k acc Hrows Hmax Hk Hoff Hend Hlt. rewrite seqZ_cons by lia. rewrite Z.pred_succ.
    destruct (Hrows k ltac:(lia)) as (id & row & Hmc & Hint & Hcon).
    cbn [omap list_omap]. rewrite Hmc. cbn [mbind option_bind read_range]. fold B in Hcon |- *.
    rewrite Z.mul_add_distr_r, Z.mul_1_l in Hoff, Hcon.
    assert (HkB : 0 <= k * B) by lia.
    assert (Hstart : k * B < end_) by nia.
    rewrite chunk_intact_iff by lia.
    assert (Hlen : zlength (k_content row) = Z.min B (zlength content - k * B)).
    { rewrite Hcon. destruct (Z.le_gt_cases (k * B + B) (zlength content)); [rewrite zlength_slice by lia; lia|].
      unfold slice. rewrite zlength_take, zlength_drop by lia. lia. }
    rewrite bool_decide_eq_true_2 by (split_and!; [lia|done|done]). rewrite Z.eqb_refl. cbn [negb orb].
    replace (k + Z.succ c) with (k + 1 + c) by lia.
    rewrite Hcon, slice_slice by lia. replace (k * B + (Z.max offset (k * B) - k * B)) with (Z.max offset (k * B)) by lia.
    replace (k * B + (Z.min end_ (k * B + Z.min B (zlength content - k * B)) - k * B)) with (Z.min end_ (k * B + B)) by lia.
    destruct (decide (c = 0)) as [->|Hcn].
    + rewrite seqZ_nil by lia. simpl. rewrite !Z.add_0_r, Z.mul_add_distr_r, Z.mul_1_l. done.
    + assert ((k + 1) * B < end_) by nia.
      rewrite IH; [|intros; apply Hrows; lia|done|lia|nia|split; [|lia]; replace (k + 1 + c - 1) with (k + Z.succ c - 1) by lia; lia|done].
      rewrite <- app_assoc. f_equal. f_equal. f_equal.
      rewrite Z.mul_add_distr_r in *. rewrite Z.mul_1_l in *.
      replace (Z.min end_ (k * B + B)) with (k * B + B) by lia. replace (Z.max offset (k * B + B)) with (k * B + B) by lia.
      apply slice_app; [lia|]. assert (1 * B <= c * B) by nia. lia.
Qed.

(** ** A version that reads *)

Definition content_sum (content : bytes) : bytes :=
  sha (manifest_text (zlength content) kContentChunkBytes (checks (pieces C content))).

Lemma checks_cover content : chunks_cover kContentChunkBytes (zlength content) (checks (pieces C content)) = true.
Proof.
  sizes. pattern content. revert content. apply (pieces_ind C); [lia|done|]. intros content Hne IH.
  rewrite pieces_C_cons by done. cbn [checks fmap list_fmap chunks_cover mc_size mc_checksum].
  rewrite zlength_take by lia. rewrite sha_is_sha256, andb_true_r. apply andb_true_iff. split; [by rewrite Z.eqb_eq|].
  rewrite zlength_drop in IH by lia. pose proof (zlength_nonneg content).
  by replace (zlength content - Z.min kContentChunkBytes (zlength content))
    with (Z.max 0 (zlength content - kContentChunkBytes)) by lia.
Qed.

Lemma length_pieces_C (content : bytes) : Z.of_nat (length (pieces C content)) = chunk_count_of (zlength content).
Proof.
  sizes. rewrite length_pieces by lia. unfold chunk_count_of, zlength.
  rewrite Nat2Z.inj_div, Nat2Z.inj_sub, Nat2Z.inj_add, Z2Nat.id by lia. done.
Qed.

Lemma chunk_count_pos size : 0 < size → chunk_count_of size = 1 + (size - 1) / kContentChunkBytes.
Proof.
  sizes. intros. unfold chunk_count_of. replace (size + kContentChunkBytes - 1) with (size - 1 + 1 * kContentChunkBytes) by lia.
  rewrite Z.div_add by lia. lia.
Qed.

Lemma chunk_count_le size : 0 <= size → chunk_count_of size <= size.
Proof.
  sizes. intros. unfold chunk_count_of. destruct (decide (size = 0)) as [->|].
  - rewrite Z.div_small by lia. done.
  - apply Z.div_le_upper_bound; [lia|]. nia.
Qed.

Lemma content_checksum content : zlength content <= kMaxStagedBytes →
  ManifestChecksum (zlength content) kContentChunkBytes (checks (pieces C content)) = Ok (content_sum content).
Proof.
  sizes. intros Hmax. pose proof (zlength_nonneg content). pose proof (chunk_count_le (zlength content) ltac:(done)).
  rewrite manifest_checksum_eq; [|lia|lia|]; unfold checks; rewrite ?length_fmap, ?length_pieces_C; [|lia].
  unfold manifest_valid. fold (checks (pieces C content)). rewrite checks_cover, andb_true_r.
  unfold checks. rewrite length_fmap, length_pieces_C.
  replace (_ =? _) with true; [done|]. symmetry. rewrite Z.eqb_eq. destruct (Z.eqb_spec (zlength content) 0) as [->|].
  - unfold chunk_count_of. apply Z.div_small. lia.
  - apply chunk_count_pos. lia.
Qed.

Lemma length_content_sum content : length (content_sum content) = 64%nat.
Proof. apply length_sha. Qed.

Definition all_rows (m : Z) (d : Db) : list (Z * chunk_row) := manifest_rows m (λ _, true) d.

Lemma good_rows_length k content rows : good_rows k content rows → Z.of_nat (length rows) = chunk_count_of (zlength content).
Proof. intros [_ Hp _]. rewrite <- length_pieces_C, <- Hp. by rewrite length_fmap. Qed.

Lemma resolve_size inode version d st : ResolveVersionStorage inode version d = Ok st →
  0 <= vs_size st <= kMaxStagedBytes ∧ vs_chunk_count st = chunk_count_of (vs_size st) ∧ 0 < vs_manifest st.
Proof.
  unfold ResolveVersionStorage. destruct (file_versions d !! _) as [v|]; [|done]. cbv zeta.
  set (mid := match v_source v with None => _ | Some _ => _ end). clearbody mid.
  set (cond := _ || _). destruct cond eqn:Hc; [done|]. intros [= <-]. unfold cond in Hc.
  rewrite !orb_false_iff, !negb_false_iff, !Z.ltb_ge, !Z.eqb_eq, Z.leb_gt in Hc.
  destruct Hc as (((((((((_ & ?) & ?) & ?) & _) & _) & _) & _) & _) & Hcount). simpl. split_and!; [lia..| |done].
  destruct (Z.ltb_spec (v_size v) 0), (Z.ltb_spec kMaxStagedBytes (v_size v)); lia || done.
Qed.

(** A version reads when its manifest holds rows for its content and the checksum of the content. *)
Lemma read_version_iff inode version d content :
  ReadVersionContent inode version d = Ok content ↔
  ∃ st, ResolveVersionStorage inode version d = Ok st ∧ vs_size st = zlength content ∧
    vs_checksum st = content_sum content ∧ good_rows 0 content (all_rows (vs_manifest st) d).
Proof.
  unfold ReadVersionContent. split.
  - destruct (ResolveVersionStorage inode version d) as [st|] eqn:Hst; [|done]. intros Hrun. exists st. split; [done|].
    apply resolve_size in Hst as (Hs & Hcc & _). destruct (Z.ltb_spec kMaxStagedBytes (vs_size st)); [lia|].
    destruct (read_chunks _ _ _ _ _ _) as [[[[o e] c] es]|] eqn:Hr; [|done].
    destruct (Z.eqb_spec o (vs_size st)) as [->|]; [|done].
    pose proof Hr as (x & Hg & Hsz & Hcx)%read_chunks_inv; [|done|lia].
    simpl in Hcx. subst c.
    erewrite (read_chunks_good _ x) in Hr by (done || lia). injection Hr as <- <-.
    rewrite Z.add_0_l in Hsz.
    destruct (_ || _); [done|]. rewrite Hsz, content_checksum in Hrun by lia. cbn [hashed] in Hrun.
    case_bool_decide; [|done]. by injection Hrun as ->.
  - intros (st & Hst & Hs & Hsum & Hg). rewrite Hst. apply resolve_size in Hst as (Hs' & Hcc & _).
    destruct (Z.ltb_spec kMaxStagedBytes (vs_size st)); [lia|].
    fold (all_rows (vs_manifest st) d). rewrite (read_chunks_good _ content) by (done || lia).
    rewrite (good_rows_length _ _ _ Hg). rewrite Hcc, Hs, Z.add_0_l, !Z.eqb_refl. cbn [negb orb].
    rewrite app_nil_l, content_checksum by lia. cbn [hashed]. by rewrite Hsum, bool_decide_eq_true_2.
Qed.

Lemma elem_of_manifest_rows m P d n row :
  (n, row) ∈ manifest_rows m P d → ∃ id, manifest_chunk m n d = Some (id, row).
Proof.
  unfold manifest_rows. intros (n' & _ & Hf)%list_elem_of_omap.
  destruct (manifest_chunk m n' d) as [[id r]|] eqn:E; [|done]. injection Hf as -> ->. eauto.
Qed.

Lemma piece_slice (content : bytes) n data : pieces C content !! n = Some data →
  data = slice content (Z.of_nat n * kContentChunkBytes) ((Z.of_nat n + 1) * kContentChunkBytes).
Proof.
  sizes. intros [-> _]%pieces_lookup; [|lia]. unfold slice. f_equal; [lia|]. f_equal. lia.
Qed.

Lemma good_row_at m content d n :
  good_rows 0 content (all_rows m d) → 0 <= n < chunk_count_of (zlength content) → row_at m content d n.
Proof.
  intros Hg Hn. pose proof (good_rows_length _ _ _ Hg) as Hlen. destruct Hg as [Hnum Hp Hi].
  destruct (lookup_lt_is_Some_2 (all_rows m d) (Z.to_nat n)) as [[x row] Hx]; [lia|].
  assert (x = n) as ->.
  { apply (f_equal (.!! Z.to_nat n)) in Hnum. rewrite list_lookup_fmap, Hx, lookup_seqZ_lt in Hnum by lia.
    simpl in Hnum. injection Hnum as ->. lia. }
  assert (Hc := f_equal (.!! Z.to_nat n) Hp). simpl in Hc. rewrite list_lookup_fmap, Hx in Hc. symmetry in Hc.
  apply piece_slice in Hc. simpl in Hc. rewrite Z2Nat.id in Hc by lia.
  destruct (elem_of_manifest_rows m (λ _, true) d n row) as [id Hid]; [by eapply list_elem_of_lookup_2|].
  exists id, row. split_and!; [done| |done]. by apply (Forall_lookup_1 _ _ _ _ Hi Hx).
Qed.

Lemma manifest_chunk_entry m n d r : manifest_chunk m n d = Some r → is_Some (manifest_chunks d !! (m, n)).
Proof. unfold manifest_chunk. by destruct (manifest_chunks d !! (m, n)); [eauto|]. Qed.

(** C32: whenever a whole version reads, [ReadVersionRange] returns exactly the bytes
    of it between the offset and the offset plus the length (or the end), for every
    range it accepts. *)
Theorem read_range_slice inode version d content offset len :
  ReadVersionContent inode version d = Ok content →
  0 <= offset <= kMaxStagedBytes → 0 <= len <= kMaxStagedBytes →
  ReadVersionRange inode version offset len d =
    Ok (slice content offset (Z.min (zlength content) (offset + len))).
Proof.
  sizes. intros (st & Hst & Hs & _ & Hg)%read_version_iff Ho Hl. unfold ReadVersionRange. rewrite Hst.
  apply resolve_size in Hst as (Hsz & _ & _). rewrite Hs in *.
  destruct (Z.ltb_spec kMaxStagedBytes (zlength content)); [lia|].
  destruct (Z.ltb_spec offset 0), (Z.ltb_spec len 0), (Z.ltb_spec kMaxStagedBytes offset),
    (Z.ltb_spec kMaxStagedBytes len); try lia. cbn [orb].
  destruct (Z.eqb_spec len 0), (Z.leb_spec (zlength content) offset); cbn [orb]; try (by rewrite slice_nil by lia).
  set (end_ := Z.min (zlength content) (offset + len)). cbv zeta.
  set (first := offset / kContentChunkBytes). set (last := (end_ - 1) / kContentChunkBytes).
  pose proof (Z.div_mod offset kContentChunkBytes ltac:(lia)) as Df.
  pose proof (Z.mod_pos_bound offset kContentChunkBytes ltac:(lia)) as Mf.
  pose proof (Z.div_mod (end_ - 1) kContentChunkBytes ltac:(lia)) as Dl.
  pose proof (Z.mod_pos_bound (end_ - 1) kContentChunkBytes ltac:(lia)) as Ml. fold first in Df. fold last in Dl.
  assert (Hend : offset < end_ <= zlength content) by lia.
  assert (Hfl : 0 <= first <= last).
  { split; [apply Z.div_pos; lia|]. apply Z.div_le_mono; lia. }
  assert (Hlast : last < chunk_count_of (zlength content)).
  { rewrite chunk_count_pos by lia. assert (last <= (zlength content - 1) / kContentChunkBytes); [|lia].
    apply Z.div_le_mono; lia. }
  assert (Hat : ∀ n, first <= n < first + (last - first + 1) → row_at (vs_manifest st) content d n).
  { intros j Hj. apply good_row_at; [done|lia]. }
  rewrite (manifest_rows_seq _ _ _ first (last - first + 1)).
  - rewrite read_range_seq; [|lia|done|lia|lia|split; [lia|]|nia|lia].
    + replace (first + (last - first + 1)) with (last + 1) by lia. rewrite Z.eqb_refl. cbn [negb orb].
      replace (Z.max offset (first * kContentChunkBytes)) with offset by lia.
      replace (Z.min end_ ((last + 1) * kContentChunkBytes)) with end_ by lia.
      rewrite app_nil_l, zlength_slice, Z.eqb_refl by lia. done.
    + replace (first + (last - first + 1) - 1) with last by lia. lia.
  - intros j. rewrite andb_true_iff, !Z.leb_le. split; [lia|]. intros Hj. split; [|lia].
    destruct (Hat j Hj) as (id & row & Hmc & _). by eapply manifest_chunk_entry.
Qed.
