(* ===== verification/VexfsStoreWrite.v ===== *)
(** * Storing a version

    The loop that stores the chunks of a manifest keeps an invariant: the rows
    numbered so far hold the contents stored so far, every row it may reuse holds the
    bytes of its key, and nothing stored before is touched. *)
From Stdlib Require Import ZArith Lia String.
From stdpp Require Import prelude gmap sorting.
From S2P Require Import Prelude Sha256 Sha256Facts VexfsText VexfsDb VexfsTree VexfsStore VexfsStoreFacts.

Local Open Scope Z_scope.
Implicit Types d : Db.

(** ** Where a version resolves to *)

(** The manifest a version row stands for: its own, or that of the version it copies. *)
Definition manifest_of (inode : Z) (v : version_row) (d : Db) (m : Z) : Prop :=
  match v_source v with
  | None => v_manifest v = Some m
  | Some n => ∃ s, file_versions d !! (inode, n) = Some s ∧ v_manifest s = Some m ∧ v_checksum s = v_checksum v
  end.

Record resolves (inode version : Z) (d : Db) (v : version_row) (m : Z) (row : manifest_row) : Prop := {
  rs_version : file_versions d !! (inode, version) = Some v;
  rs_manifest : manifest_of inode v d m;
  rs_row : manifests d !! m = Some row;
  rs_pos : 0 < m;
  rs_size : 0 <= v_size v <= kMaxStagedBytes;
  rs_file_size : m_file_size row = v_size v;
  rs_length : length (v_checksum v) = 64%nat;
  rs_checksum : m_checksum row = v_checksum v;
  rs_chunk_size : m_chunk_size row = kContentChunkBytes;
  rs_chunk_count : m_chunk_count row = chunk_count_of (v_size v);
}.

Lemma resolve_iff inode version d st :
  ResolveVersionStorage inode version d = Ok st ↔
  ∃ v m row, resolves inode version d v m row ∧
    st = mkVersionStorage m (v_size v) (default version (v_source v)) (chunk_count_of (v_size v)) (v_checksum v).
Proof.
  sizes. unfold ResolveVersionStorage. split.
  - destruct (file_versions d !! (inode, version)) as [v|] eqn:Hv; [|done]. cbv zeta.
    set (mid := match v_source v with None => _ | Some _ => _ end).
    set (sum := match v_source v with None => v_checksum v | Some _ => _ end).
    set (cond := _ || _). destruct cond eqn:Hc; [done|]. intros [= <-]. unfold cond in Hc. clear cond.
    rewrite !orb_false_iff, !negb_false_iff, !Z.ltb_ge, !Z.eqb_eq, Z.leb_gt, Nat.eqb_eq, !bool_decide_eq_true,
      bool_decide_eq_false in Hc.
    destruct Hc as (((((((((Hm & Hpos) & ?) & ?) & Hfs) & Hlen) & Hsum) & Hmsum) & Hcs) & Hcc).
    destruct mid as [m|] eqn:Hmid; [|done]. simpl in *.
    destruct (manifests d !! m) as [row|] eqn:Hrow; [|simpl in Hcs; lia]. simpl in *.
    assert (Hcc' : m_chunk_count row = chunk_count_of (v_size v)).
    { rewrite Hcc. destruct (Z.ltb_spec (v_size v) 0), (Z.ltb_spec kMaxStagedBytes (v_size v)); lia || done. }
    exists v, m, row. rewrite Hcc'. split; [|done]. split; try done; [|lia..].
    unfold manifest_of. subst mid sum. destruct (v_source v) as [n|]; [|done]. simpl in *.
    destruct (file_versions d !! (inode, n)) as [s|]; [|done]. simpl in *. eauto.
  - intros (v & m & row & [Hv Hm Hrow Hpos Hsize Hfs Hlen Hsum Hcs Hcc] & ->). rewrite Hv. cbv zeta.
    set (mid := match v_source v with None => _ | Some _ => _ end).
    set (sum := match v_source v with None => v_checksum v | Some _ => _ end).
    assert (mid = Some m ∧ v_checksum v = sum) as [-> <-].
    { unfold manifest_of in Hm. subst mid sum. destruct (v_source v); [|done].
      destruct Hm as (s & Hs & ? & ?). simpl. rewrite Hs. simpl. done. }
    simpl. rewrite Hrow. simpl. rewrite Hcs, Hfs, Hlen, Hsum, Hcc.
    destruct (Z.leb_spec m 0), (Z.ltb_spec (v_size v) 0), (Z.ltb_spec kMaxStagedBytes (v_size v)); try lia.
    by rewrite !Z.eqb_refl, bool_decide_eq_true_2 by done.
Qed.

(** ** Content only grows *)

Record content_wf (d : Db) : Prop := {
  cw_entry : ∀ m n id, manifest_chunks d !! (m, n) = Some id → is_Some (manifests d !! m) ∧ is_Some (chunks d !! id);
  cw_chunk : ∀ id row, chunks d !! id = Some row → 0 < id;
}.

Record extends (d d' : Db) : Prop := {
  ex_manifests : manifests d ⊆ manifests d';
  ex_chunks : chunks d ⊆ chunks d';
  ex_entries : ∀ m n, is_Some (manifests d !! m) → manifest_chunks d' !! (m, n) = manifest_chunks d !! (m, n);
  ex_versions : file_versions d ⊆ file_versions d';
}.

#[export] Instance extends_preorder : PreOrder extends.
Proof.
  split.
  - intros d. by split.
  - intros d1 d2 d3 [M1 K1 E1 V1] [M2 K2 E2 V2]. split; [by etrans|by etrans| |by etrans].
    intros m n Hm. rewrite E2, E1; [done|done|]. destruct Hm as [x Hx]. exists x. by eapply lookup_weaken.
Qed.

Lemma manifest_chunk_extends d d' m n :
  content_wf d → extends d d' → is_Some (manifests d !! m) → manifest_chunk m n d' = manifest_chunk m n d.
Proof.
  intros Hwf [_ Hk He _] Hm. unfold manifest_chunk. rewrite He by done.
  destruct (manifest_chunks d !! (m, n)) as [id|] eqn:E; [|done]. simpl.
  destruct (cw_entry _ Hwf _ _ _ E) as [_ [row Hrow]]. by rewrite Hrow, (lookup_weaken _ _ _ _ Hrow Hk).
Qed.

Lemma resolves_extends d d' inode version v m row :
  extends d d' → resolves inode version d v m row → resolves inode version d' v m row.
Proof.
  intros [Hm _ _ Hv] []. split; try done; [by eapply lookup_weaken| |by eapply lookup_weaken].
  unfold manifest_of in *. destruct (v_source v); [|done].
  destruct rs_manifest0 as (s & ? & ? & ?). exists s. split_and!; [by eapply lookup_weaken|done|done].
Qed.

(** A version that reads keeps reading the same bytes. *)
Lemma read_extends d d' inode version content :
  content_wf d → extends d d' →
  ReadVersionContent inode version d = Ok content → ReadVersionContent inode version d' = Ok content.
Proof.
  intros Hwf Hex. rewrite !read_version_iff. intros (st & (v & m & row & Hr & ->)%resolve_iff & H2 & H3 & H4).
  eexists. split; [apply resolve_iff; exists v, m, row; split; [by eapply resolves_extends|reflexivity]|].
  split_and!; [done|done|]. simpl in *. unfold all_rows in *.
  assert (Hs : is_Some (manifests d !! m)) by (rewrite (rs_row _ _ _ _ _ _ Hr); eauto).
  rewrite (manifest_rows_ext m _ d d'); [done| |].
  - intros n. by apply Hex.
  - intros n. by apply manifest_chunk_extends.
Qed.

(** ** Storing the chunks *)

(** [row] holds [data] for [inode]. *)
Definition row_of (inode : Z) (data : bytes) (row : chunk_row) : Prop :=
  k_content row = data ∧ k_inode row = inode ∧ row_intact row.

(** Manifest [m] holds the contents [datas]. *)
Record holds (d : Db) (m inode : Z) (datas : list bytes) : Prop := {
  ho_entries : ∀ n, is_Some (manifest_chunks d !! (m, n)) ↔ 0 <= n < Z.of_nat (length datas);
  ho_rows : ∀ k data, datas !! k = Some data →
    ∃ id row, manifest_chunk m (Z.of_nat k) d = Some (id, row) ∧ row_of inode data row;
}.

(** Everything but the content tables. *)
Definition outside_content (d : Db) :=
  (tree_of d, history_of d, sessions_of d, meta d, content_fts d, grep_index d, clock d).

Record storing (d0 d : Db) (m inode : Z) (datas : list bytes) (new_chunks : gmap bytes Z) : Prop := {
  so_wf : content_wf d;
  so_manifests : manifests d = manifests d0;
  so_versions : file_versions d = file_versions d0;
  so_outside : outside_content d = outside_content d0;
  so_chunks : chunks d0 ⊆ chunks d;
  so_others : ∀ m' n, m' ≠ m → manifest_chunks d !! (m', n) = manifest_chunks d0 !! (m', n);
  so_holds : holds d m inode datas;
  so_new : ∀ key id, new_chunks !! key = Some id → ∃ data row,
    data ∈ datas ∧ key = reuse_key data (sha data) ∧ chunks d !! id = Some row ∧ row_of inode data row;
}.

Lemma good_rows_seq d m inode datas : ∀ k,
  (∀ j data, datas !! j = Some data →
    ∃ id row, manifest_chunk m (k + Z.of_nat j) d = Some (id, row) ∧ row_of inode data row) →
  let rows := omap (λ n, '(_, row) ← manifest_chunk m n d; Some (n, row)) (seqZ k (Z.of_nat (length datas))) in
  rows.*1 = seqZ k (Z.of_nat (length rows)) ∧ (k_content ∘ snd) <$> rows = datas ∧
  Forall (λ r, row_intact r.2) rows.
Proof.
  induction datas as [|data datas IH]; intros k Hrows; [done|].
  destruct (Hrows 0%nat data ltac:(done)) as (id & row & Hmc & Hc & _ & Hi). rewrite Z.add_0_r in Hmc.
  destruct (IH (k + 1)) as (H1 & H2 & H3).
  { intros j x Hj. destruct (Hrows (S j) x Hj) as (id' & row' & Hmc' & Hr). exists id', row'.
    split; [|done]. by replace (k + 1 + Z.of_nat j) with (k + Z.of_nat (S j)) by lia. }
  cbv zeta in *. cbn [length]. rewrite seqZ_cons by lia. cbn [omap list_omap]. rewrite Hmc. cbn [mbind option_bind].
  replace (Z.pred (Z.of_nat (S (length datas)))) with (Z.of_nat (length datas)) by lia.
  replace (Z.succ k) with (k + 1) by lia. set (rows := omap _ (seqZ (k + 1) _)) in *. clearbody rows.
  split_and!.
  - rewrite fmap_cons, H1. cbn [length fst]. rewrite (seqZ_cons k) by lia. f_equal. f_equal; lia.
  - rewrite fmap_cons, H2. simpl. by rewrite Hc.
  - by constructor.
Qed.

Lemma holds_good_rows d m inode content :
  holds d m inode (pieces C content) → good_rows 0 content (all_rows m d).
Proof.
  intros [He Hr]. unfold all_rows. rewrite (manifest_rows_seq m _ d 0 (Z.of_nat (length (pieces C content)))).
  - destruct (good_rows_seq d m inode (pieces C content) 0) as (H1 & H2 & H3); [by intros j data; apply Hr|]. by split.
  - intros n. rewrite He. split; [by intros [? _]|done].
Qed.

(** A new chunk row. *)
Lemma storing_insert_chunk d0 d m inode datas new_chunks row :
  storing d0 d m inode datas new_chunks →
  storing d0 (on_chunks (insert (next_rowid (chunks d)) row) d) m inode datas new_chunks.
Proof.
  intros [[We Wc] Hm Hv Ho Hk Hot [He Hr] Hn]. set (id := next_rowid (chunks d)).
  assert (Hfresh : chunks d !! id = None) by (apply next_rowid_none; lia).
  assert (Hsub : chunks d ⊆ <[id := row]> (chunks d)) by by apply insert_subseteq.
  split; try done.
  - split.
    + intros m' n' id' E. destruct (We m' n' id' E) as [? [x Hx]]. split; [done|]. exists x. by eapply lookup_weaken.
    + intros id' r'. simpl. intros [[<- <-]|[_ E]]%lookup_insert_Some; [apply next_rowid_pos|by eapply Wc].
  - simpl. by etrans.
  - split; [done|]. intros k data Hd. destruct (Hr k data Hd) as (id' & r' & Hmc & Hro). exists id', r'. split; [|done].
    unfold manifest_chunk in *. simpl. destruct (manifest_chunks d !! (m, Z.of_nat k)) as [i|]; [|done]. simpl in *.
    destruct (chunks d !! i) as [x|] eqn:E; [|done]. simpl in *. by rewrite (lookup_weaken _ _ _ _ E Hsub).
  - intros key id' Hkey. destruct (Hn key id' Hkey) as (data & r' & ? & ? & E & ?). exists data, r'.
    split_and!; [done|done|by eapply lookup_weaken|done].
Qed.

(** The entry for the next number. *)
Lemma storing_insert_entry d0 d m inode datas new_chunks data id row :
  storing d0 d m inode datas new_chunks → is_Some (manifests d !! m) →
  chunks d !! id = Some row → row_of inode data row →
  let d' := on_manifest_chunks (insert (m, Z.of_nat (length datas)) id) d in
  insert_entry m (Z.of_nat (length datas)) id d = (Ok (), d') ∧ storing d0 d' m inode (datas ++ [data]) new_chunks.
Proof.
  intros [[We Wc] Hm Hv Ho Hk Hot [He Hr] Hn] Hman Hid Hrow d'. set (n := Z.of_nat (length datas)) in *.
  assert (Hnone : manifest_chunks d !! (m, n) = None).
  { apply eq_None_not_Some. rewrite He. lia. }
  split.
  { unfold insert_entry, with_db. erewrite bind_eval; [done|]. unfold throw_if.
    rewrite bool_decide_eq_false_2; [done|]. rewrite Hnone. by intros []. }
  split; try done.
  - split; [|done]. intros m' n' id'. simpl. intros [[[= <- <-] <-]|[_ E]]%lookup_insert_Some; [by eauto|by eapply We].
  - intros m' n' Hne. simpl. rewrite lookup_insert_ne; [by apply Hot|congruence].
  - split.
    + intros n'. simpl. rewrite length_app. simpl. destruct (decide (n' = n)) as [->|Hne].
      * rewrite lookup_insert_eq. split; [lia|eauto].
      * rewrite lookup_insert_ne by congruence. rewrite He. lia.
    + intros k x. unfold manifest_chunk. simpl. intros [Hk'|[Hk' Hx]]%lookup_app_Some.
      * assert (k < length datas)%nat by by eapply lookup_lt_Some.
        rewrite lookup_insert_ne; [by apply Hr|]. intros [= E]. lia.
      * apply list_lookup_singleton_Some in Hx as [Hx <-].
        replace (Z.of_nat k) with n by lia. rewrite lookup_insert_eq. simpl. rewrite Hid. simpl. eauto.
  - intros key id' Hkey. destruct (Hn key id' Hkey) as (x & r' & ? & ? & ?). exists x, r'. split; [set_solver|done].
Qed.

Lemma previous_chunk_row prev n inode data d :
  let id := previous_chunk prev n inode data (sha data) d in
  id = 0 ∨ ∃ row, chunks d !! id = Some row ∧ row_of inode data row.
Proof.
  cbv zeta. unfold previous_chunk. destruct (0 <? prev); [|by left].
  destruct (manifest_chunk prev n d) as [[id row]|] eqn:E; [|by left].
  set (cond := _ && _). destruct cond eqn:Hc; [|by left]. right. exists row. unfold cond in Hc.
  rewrite !andb_true_iff, !bool_decide_eq_true, !Z.eqb_eq in Hc. destruct Hc as [[[? ?] ?] ?].
  unfold manifest_chunk in E. destruct (manifest_chunks d !! (prev, n)) as [i|]; [|done]. simpl in E.
  destruct (chunks d !! i) eqn:Ei; [|done]. simpl in E. injection E as -> ->.
  split; [done|]. unfold row_of, row_intact. by simplify_eq.
Qed.

(** A key determines its checksum: the last 64 bytes. *)
Lemma reuse_key_inj x y : reuse_key x (sha x) = reuse_key y (sha y) → sha x = sha y.
Proof.
  unfold reuse_key. intros H. apply (f_equal (λ l, drop (length l - 64) l)) in H. revert H.
  rewrite !length_app. simpl. rewrite !length_sha.
  intros H. rewrite !drop_app_ge in H by lia. revert H.
  replace (_ + 65 - 64 - length (to_string (zlength x)))%nat with 1%nat by lia.
  replace (_ + 65 - 64 - length (to_string (zlength y)))%nat with 1%nat by lia. done.
Qed.

Lemma store_chunk_ok ws inode prev m data cid new_chunks d0 d datas :
  storing d0 d m inode datas new_chunks → is_Some (manifests d !! m) →
  cid = 0 ∨ (∃ row, chunks d !! cid = Some row ∧ row_of inode data row) →
  (∀ x, x ∈ datas → sha x = sha data → x = data) →
  ∃ new' d', store_chunk ws inode prev m (Z.of_nat (length datas)) data (sha data) cid new_chunks d = (Ok new', d') ∧
    storing d0 d' m inode (datas ++ [data]) new'.
Proof.
  intros Hs Hman Hcid Hinj. unfold store_chunk, with_db.
  set (c1 := if cid =? 0 then _ else cid).
  assert (H1 : c1 = 0 ∨ ∃ row, chunks d !! c1 = Some row ∧ row_of inode data row).
  { subst c1. destruct (Z.eqb_spec cid 0); [apply previous_chunk_row|]. done. }
  clearbody c1. set (c2 := if c1 =? 0 then _ else c1).
  assert (H2 : c2 = 0 ∨ ∃ row, chunks d !! c2 = Some row ∧ row_of inode data row).
  { subst c2. destruct (Z.eqb_spec c1 0) as [->|]; [|done].
    destruct (new_chunks !! _) as [id|] eqn:E; [|by left]. right. simpl.
    destruct (so_new _ _ _ _ _ _ Hs _ _ E) as (x & row & Hx & Hkey & Hid & Hrow). exists row. split; [done|].
    by rewrite <- (Hinj x) by (done || by apply reuse_key_inj). }
  clearbody c2. destruct (Z.eqb_spec c2 0) as [->|Hc2].
  - set (row := mkChunkRow _ _ _ _ _). set (id := next_rowid (chunks d)).
    pose proof (storing_insert_chunk _ _ _ _ _ _ row Hs) as Hs1. fold id in Hs1.
    destruct (storing_insert_entry _ _ _ _ _ _ data id row Hs1) as [Hrun Hs2];
      [done|apply lookup_insert_eq|done|].
    erewrite bind_eval by reflexivity. fold id. erewrite bind_eval by exact Hrun. eexists _, _. split; [done|].
    destruct Hs2. split; try done.
    intros key id' [[<- <-]|[_ E]]%lookup_insert_Some; [|by apply so_new0].
    exists data, row. split_and!; [set_solver|done|apply lookup_insert_eq|done].
  - destruct H2 as [|(row & Hid & Hrow)]; [done|].
    destruct (storing_insert_entry _ _ _ _ _ _ data c2 row Hs) as [Hrun Hs2]; [done..|].
    erewrite bind_eval by exact Hrun. eauto.
Qed.

(** No two different chunks of the content have the same checksum. *)
Definition no_collision (datas : list bytes) : Prop := ∀ x y, x ∈ datas → y ∈ datas → sha x = sha y → x = y.

Lemma store_chunks_ok ws inode prev m d0 rest : ∀ datas new_chunks es d,
  storing d0 d m inode datas new_chunks → is_Some (manifests d !! m) → no_collision (datas ++ rest) →
  Forall (λ x, zlength x <= kMaxStagedBytes) rest →
  ∃ new' d', store_chunks ws inode prev m (Z.of_nat (length datas)) rest new_chunks es d = (Ok (es ++ checks rest), d') ∧
    storing d0 d' m inode (datas ++ rest) new'.
Proof.
  sizes. induction rest as [|data rest IH]; intros datas new_chunks es d Hs Hman Hnc Hlen.
  { exists new_chunks, d. rewrite !app_nil_r. done. }
  apply Forall_cons in Hlen as [Hl Hlen]. cbn [store_chunks].
  assert (Hhash : lift (hashed (Sha256Hex data)) d = (Ok (sha data), d)).
  { rewrite sha256_hex by (unfold zlength in Hl; lia). done. }
  erewrite bind_eval by exact Hhash.
  destruct (store_chunk_ok ws inode prev m data 0 new_chunks d0 d datas) as (new' & d1 & Hrun & Hs1); [done|done|by left| |].
  { intros x Hx. apply Hnc; set_solver. }
  erewrite bind_eval by exact Hrun.
  replace (Z.of_nat (length datas) + 1) with (Z.of_nat (length (datas ++ [data]))) by (rewrite length_app; simpl; lia).
  destruct (IH (datas ++ [data]) new' (es ++ [mkChunkChecksum (zlength data) (sha data)]) d1) as (new2 & d2 & Hrun2 & Hs2).
  - done.
  - by rewrite (so_manifests _ _ _ _ _ _ Hs1), <- (so_manifests _ _ _ _ _ _ Hs).
  - by rewrite <- app_assoc.
  - done.
  - exists new2, d2. rewrite Hrun2. rewrite <- !app_assoc in *. done.
Qed.

(** ** Manifests *)

Record manifest_stored (d d' : Db) (ws inode m : Z) (content : bytes) : Prop := {
  ms_wf : content_wf d';
  ms_outside : outside_content d' = outside_content d;
  ms_extends : extends d d';
  ms_versions : file_versions d' = file_versions d;
  ms_pos : 0 < m;
  ms_row : manifests d' !! m =
    Some (mkManifestRow ws (zlength content) kContentChunkBytes (chunk_count_of (zlength content)) (content_sum content));
  ms_holds : holds d' m inode (pieces C content);
}.

Definition begun (ws size : Z) (d : Db) : Db :=
  on_manifests (insert (next_rowid (manifests d))
    (mkManifestRow ws size kContentChunkBytes (chunk_count_of size) pending_checksum)) d.

Lemma manifest_begins ws size inode d : content_wf d →
  let m := next_rowid (manifests d) in
  storing (begun ws size d) (begun ws size d) m inode [] ∅ ∧ is_Some (manifests (begun ws size d) !! m).
Proof.
  intros [We Wc] m. split; [|simpl; rewrite lookup_insert_eq; eauto].
  assert (Hfresh : manifests d !! m = None) by (apply next_rowid_none; lia).
  split; try done.
  - split; [|done]. intros m' n id E. destruct (We m' n id E) as [[x Hx] Hc]. split; [|done].
    simpl. rewrite lookup_insert_ne; [eauto|]. subst m. congruence.
  - split; [|done]. intros n. simpl. split; [|lia]. intros [id Hid]. apply We in Hid as [[x Hx] _]. congruence.
Qed.

Lemma finalize_ok ws inode content new_chunks d d2 :
  let m := next_rowid (manifests d) in
  content_wf d → zlength content <= kMaxStagedBytes →
  storing (begun ws (zlength content) d) d2 m inode (pieces C content) new_chunks →
  ∃ d', finalize_manifest m (zlength content) (checks (pieces C content)) d2 = (Ok (content_sum content), d') ∧
    manifest_stored d d' ws inode m content.
Proof.
  intros m Hwf Hmax [[We Wc] Hm Hv Ho Hk Hot [He Hr] Hn].
  assert (Hfresh : manifests d !! m = None) by (apply next_rowid_none; lia).
  set (d' := on_manifests (alter (set_checksum (content_sum content)) m) d2). exists d'.
  assert (Hrow : manifests d' !! m = Some (mkManifestRow ws (zlength content) kContentChunkBytes
    (chunk_count_of (zlength content)) (content_sum content))).
  { simpl. rewrite lookup_alter_eq, Hm. simpl. fold m. by rewrite lookup_insert_eq. }
  assert (Hold : ∀ m', m' ≠ m → manifests d' !! m' = manifests d !! m').
  { intros m' Hne. simpl. rewrite lookup_alter_ne, Hm by congruence. simpl. by rewrite lookup_insert_ne by (subst m; congruence). }
  split.
  { unfold finalize_manifest. erewrite bind_eval; [reflexivity|]. rewrite content_checksum by done. done. }
  split; try done.
  - split; [|done]. intros m' n id E. simpl in E. destruct (We m' n id E) as [_ Hc]. split; [|done].
    destruct (decide (m' = m)) as [->|Hne]; [by rewrite Hrow|]. rewrite Hold by done.
    rewrite (Hot m' n Hne) in E. by apply (cw_entry _ Hwf) in E as [? _].
  - split.
    + apply map_subseteq_spec. intros m' row Hrow'. rewrite Hold; [done|]. congruence.
    + done.
    + intros m' n [row Hrow']. simpl. apply Hot. congruence.
    + simpl. by rewrite Hv.
  - apply next_rowid_pos.
Qed.

Lemma store_manifest_ok ws inode prev content d :
  content_wf d → zlength content <= kMaxStagedBytes → no_collision (pieces C content) →
  ∃ m d', StoreManifest ws inode prev content d = (Ok (m, content_sum content), d') ∧
    manifest_stored d d' ws inode m content.
Proof.
  sizes. intros Hwf Hmax Hnc. set (m := next_rowid (manifests d)). exists m.
  destruct (manifest_begins ws (zlength content) inode d Hwf) as [Hs Hm].
  destruct (store_chunks_ok ws inode prev m _ (pieces C content) [] ∅ [] _ Hs Hm Hnc) as (new & d2 & Hrun & Hs2).
  { apply Forall_lookup. intros i x [-> _]%pieces_lookup; [|lia]. rewrite zlength_take by lia. lia. }
  destruct (finalize_ok ws inode content new d d2 Hwf Hmax Hs2) as (d' & Hfin & Hst).
  exists d'. split; [|done]. unfold StoreManifest.
  erewrite bind_eval by reflexivity. fold m. erewrite bind_eval by exact Hrun. rewrite app_nil_l.
  erewrite bind_eval by exact Hfin. done.
Qed.
