(* ===== verification/VexfsQuota.v ===== *)
(** * The quota counters

    The triggers on the inode table keep [live_files] and [live_bytes] of every
    workspace equal to the number and the total size of its live files and symlinks,
    so that the checks before a write compare against the true totals. *)
From Stdlib Require Import ZArith Lia String.
From stdpp Require Import prelude gmap.
From S2P Require Import Prelude Sha256 VexfsText VexfsDb VexfsTree VexfsStore.

Local Open Scope Z_scope.
Implicit Types d : Db.

(** The total of [f] over the inodes of a workspace. *)
Definition share (f : inode_row → Z) (ws : Z) (r : inode_row) : Z := if i_workspace r =? ws then f r else 0.
Definition total (f : inode_row → Z) (ws : Z) (t : gmap Z inode_row) : Z :=
  map_fold (λ _ r acc, share f ws r + acc) 0 t.

Record counted (d : Db) : Prop := {
  ct_files : ∀ ws w, workspaces d !! ws = Some w → w_live_files w = total count_files ws (inodes d);
  ct_bytes : ∀ ws w, workspaces d !! ws = Some w → w_live_bytes w = total count_bytes ws (inodes d);
  ct_sizes : ∀ id r, inodes d !! id = Some r → 0 <= i_size r;
}.

Lemma total_insert_fresh f ws t id r : t !! id = None → total f ws (<[id := r]> t) = share f ws r + total f ws t.
Proof. intros H. unfold total. rewrite map_fold_insert_L; [done|intros; lia|done]. Qed.

Lemma total_delete f ws t id old : t !! id = Some old → total f ws t = share f ws old + total f ws (delete id t).
Proof. intros H. rewrite <- (insert_delete_id t id old) at 1 by done. apply total_insert_fresh, lookup_delete_eq. Qed.

Lemma total_insert f ws t id old new : t !! id = Some old →
  total f ws (<[id := new]> t) = total f ws t - share f ws old + share f ws new.
Proof.
  intros H. rewrite <- insert_delete_eq, total_insert_fresh by apply lookup_delete_eq.
  rewrite (total_delete f ws t id old H). lia.
Qed.

Lemma total_nonneg f ws t : (∀ id r, t !! id = Some r → 0 <= f r) → 0 <= total f ws t.
Proof.
  induction t as [|id r t Hid IH] using map_ind; intros Hf; [done|].
  rewrite total_insert_fresh by done. assert (0 <= f r) by (eapply Hf, lookup_insert_eq).
  assert (0 <= total f ws t).
  { apply IH. intros id' r' E. apply (Hf id'). rewrite lookup_insert_ne; [done|]. congruence. }
  unfold share. destruct (i_workspace r =? ws); lia.
Qed.

Lemma count_files_nonneg r : 0 <= count_files r.
Proof. unfold count_files. destruct (counts r); lia. Qed.

Lemma count_bytes_nonneg r : 0 <= i_size r → 0 <= count_bytes r.
Proof. unfold count_bytes. destruct (counts r); lia. Qed.

(** ** The triggers keep the counters *)

Lemma alter_none {A} (f : A → A) (t : gmap Z A) i : t !! i = None → alter f i t = t.
Proof.
  intros H. apply map_eq. intros j. destruct (decide (i = j)) as [<-|]; [by rewrite lookup_alter_eq, H|].
  by rewrite lookup_alter_ne.
Qed.

Lemma insert_alter {A} (f : A → A) (t : gmap Z A) i x : t !! i = Some x → <[i := f x]> t = alter f i t.
Proof.
  intros H. apply map_eq. intros j. destruct (decide (i = j)) as [<-|].
  - by rewrite lookup_insert_eq, lookup_alter_eq, H.
  - by rewrite lookup_insert_ne, lookup_alter_ne.
Qed.

Lemma count_live_run ws files size d :
  (∀ w, workspaces d !! ws = Some w → 0 <= w_live_files w + files ∧ 0 <= w_live_bytes w + size) →
  count_live ws files size d = (Ok (), on_workspaces (alter (add_live files size) ws) d).
Proof.
  intros H. unfold count_live, with_db. destruct (workspaces d !! ws) as [w|] eqn:E.
  - destruct (H w eq_refl). erewrite bind_eval.
    + unfold modify. f_equal. unfold on_workspaces. unfold set_tree_of. by rewrite (insert_alter _ _ _ _ E).
    + unfold throw_if. simpl.
      by destruct (Z.ltb_spec (w_live_files w + files) 0), (Z.ltb_spec (w_live_bytes w + size) 0); try lia.
  - unfold mret, M_ret. f_equal. destruct d as [[ws' i dn x ac] h c s m f g k]. unfold on_workspaces, set_tree_of. simpl in *.
    by rewrite alter_none.
Qed.

(** The database after an inode row of a workspace has been replaced. *)
Definition replaced (id : Z) (old new : inode_row) (d : Db) : Db :=
  on_workspaces (alter (add_live (count_files new - count_files old) (count_bytes new - count_bytes old)) (i_workspace old))
    (dirty_inode (i_workspace old) id (on_inodes (insert id new) d)).

Lemma add_live_add a b a' b' w : add_live a b (add_live a' b' w) = add_live (a + a') (b + b') w.
Proof. unfold add_live. simpl. f_equal; lia. Qed.

Lemma share_bound f ws d id old :
  inodes d !! id = Some old → (∀ i r, inodes d !! i = Some r → 0 <= f r) → i_workspace old = ws →
  f old <= total f ws (inodes d).
Proof.
  intros Hid Hf <-. rewrite (total_delete f _ _ id old Hid). unfold share. rewrite Z.eqb_refl.
  assert (0 <= total f (i_workspace old) (delete id (inodes d))); [|lia].
  apply total_nonneg. intros i r [_ H]%lookup_delete_Some. by eapply Hf.
Qed.

Lemma update_inode_run id old new d :
  counted d → inodes d !! id = Some old → i_workspace new = i_workspace old → 0 <= i_size new →
  update_inode id old new d = (Ok (), replaced id old new d).
Proof.
  intros [Hf Hb Hs] Hid Hws Hnew. unfold update_inode.
  erewrite bind_eval by reflexivity. erewrite bind_eval by reflexivity. rewrite Hws.
  set (d1 := dirty_inode _ _ _). pose proof (count_files_nonneg new). pose proof (count_bytes_nonneg new Hnew).
  assert (Hle : ∀ w, workspaces d !! i_workspace old = Some w →
    0 <= w_live_files w + - count_files old ∧ 0 <= w_live_bytes w + - count_bytes old).
  { intros w E. rewrite (Hf _ _ E), (Hb _ _ E).
    pose proof (share_bound count_files _ d id old Hid (λ _ r _, count_files_nonneg r) eq_refl).
    pose proof (share_bound count_bytes _ d id old Hid (λ i r E, count_bytes_nonneg r (Hs i r E)) eq_refl). lia. }
  erewrite bind_eval by (apply count_live_run; exact Hle).
  rewrite count_live_run.
  - f_equal. unfold replaced. fold d1. unfold on_workspaces, set_tree_of. simpl. f_equal. f_equal.
    apply map_eq. intros i. rewrite !lookup_alter. case_decide; [|done]; subst i.
    rewrite decide_True by done. destruct (workspaces d !! _); [|done]. simpl. by rewrite add_live_add.
  - intros w. simpl. rewrite lookup_alter_eq. destruct (workspaces d !! _) as [w0|] eqn:E; [|done].
    intros [= <-]. destruct (Hle _ eq_refl). simpl. lia.
Qed.

Lemma replaced_counted id old new d :
  counted d → inodes d !! id = Some old → i_workspace new = i_workspace old → 0 <= i_size new →
  counted (replaced id old new d).
Proof.
  intros [Hf Hb Hs] Hid Hws Hnew.
  split.
  - intros ws w. simpl. rewrite (total_insert count_files ws _ id old new Hid). unfold share. rewrite Hws.
    rewrite lookup_alter. case_decide as E; [subst|].
    + destruct (workspaces d !! _) as [w0|] eqn:Ew; [|done]. intros [= <-]. simpl. rewrite Z.eqb_refl, (Hf _ _ Ew). lia.
    + intros Ew. rewrite (Hf _ _ Ew). destruct (Z.eqb_spec (i_workspace old) ws); [done|lia].
  - intros ws w. simpl. rewrite (total_insert count_bytes ws _ id old new Hid). unfold share. rewrite Hws.
    rewrite lookup_alter. case_decide as E; [subst|].
    + destruct (workspaces d !! _) as [w0|] eqn:Ew; [|done]. intros [= <-]. simpl. rewrite Z.eqb_refl, (Hb _ _ Ew). lia.
    + intros Ew. rewrite (Hb _ _ Ew). destruct (Z.eqb_spec (i_workspace old) ws); [done|lia].
  - intros i r. simpl. intros [[<- <-]|[_ H]]%lookup_insert_Some; [done|by eapply Hs].
Qed.

Lemma insert_inode_run r d :
  counted d → 0 <= i_size r →
  let id := next_rowid (inodes d) in
  let d1 := dirty_inode (i_workspace r) id (on_inodes (insert id r) d) in
  insert_inode r d = (Ok id,
    if counts r then on_workspaces (alter (add_live 1 (i_size r)) (i_workspace r)) d1 else d1).
Proof.
  intros [Hf Hb Hs] Hr id d1. unfold insert_inode, with_db. fold id.
  erewrite bind_eval by reflexivity. erewrite bind_eval by reflexivity. fold d1.
  destruct (counts r); [|done]. erewrite bind_eval; [done|]. apply count_live_run. simpl. intros w E.
  rewrite (Hf _ _ E), (Hb _ _ E).
  pose proof (total_nonneg count_files (i_workspace r) (inodes d) (λ _ r _, count_files_nonneg r)).
  pose proof (total_nonneg count_bytes (i_workspace r) (inodes d) (λ i r E, count_bytes_nonneg r (Hs i r E))). lia.
Qed.

Lemma insert_inode_counted r d id d' :
  counted d → 0 <= i_size r → insert_inode r d = (Ok id, d') → counted d'.
Proof.
  intros Hct Hr. pose proof Hct as [Hf Hb Hs]. rewrite insert_inode_run by done. cbv zeta. intros [= <- <-].
  set (id := next_rowid (inodes d)).
  assert (Hfresh : inodes d !! id = None) by (apply next_rowid_none; lia).
  assert (Hsizes : ∀ i x, <[id := r]> (inodes d) !! i = Some x → 0 <= i_size x).
  { intros i x [[<- <-]|[_ H]]%lookup_insert_Some; [done|by eapply Hs]. }
  assert (Hcf : count_files r = if counts r then 1 else 0) by done.
  assert (Hcb : count_bytes r = if counts r then i_size r else 0) by done.
  destruct (counts r) eqn:Ec; split; try exact Hsizes; intros ws w; simpl; fold id;
    rewrite total_insert_fresh by done; unfold share; rewrite ?Hcf, ?Hcb.
  1,2: rewrite lookup_alter; case_decide as E; [subst|];
    [destruct (workspaces d !! _) as [w0|] eqn:Ew; [|done]; intros [= <-]; simpl; rewrite Z.eqb_refl, ?(Hf _ _ Ew), ?(Hb _ _ Ew); lia
    |intros Ew; rewrite ?(Hf _ _ Ew), ?(Hb _ _ Ew); destruct (Z.eqb_spec (i_workspace r) ws); [done|lia]].
  all: intros Ew; rewrite ?(Hf _ _ Ew), ?(Hb _ _ Ew); destruct (i_workspace r =? ws); lia.
Qed.

(** ** The checks *)

(** [CreateInode] refuses a file or symlink when the workspace already has as
    many live ones as its file quota allows, and when it creates one the counters
    still equal the live totals, one more file and within the quota. *)
Theorem create_inode_within_quota uid gid ws kind mode d w :
  counted d → workspaces d !! ws = Some w → kind ≠ KDirectory →
  (∀ n, w_max_files w = Some n → n <= w_live_files w →
    CreateInode uid gid ws kind mode d = (Throw SQLITE_FULL, d)) ∧
  ((∀ n, w_max_files w = Some n → w_live_files w < n) →
    ∃ id d' w', CreateInode uid gid ws kind mode d = (Ok id, d') ∧ counted d' ∧ workspaces d' !! ws = Some w' ∧
      w_live_files w' = w_live_files w + 1 ∧ (∀ n, w_max_files w' = Some n → w_live_files w' <= n)).
Proof.
  intros Hct Hw Hk. unfold CreateInode. split.
  - intros n Hn Hfull. apply bind_throw. unfold query, CheckQuotaForNewInode.
    rewrite bool_decide_eq_false_2, Hw, Hn by done. by destruct (Z.leb_spec n (w_live_files w)); [|lia].
  - intros Hroom. set (row := new_inode_row uid gid ws kind mode (clock_seconds d)).
    assert (Hc : counts row = true) by (unfold counts; simpl; by rewrite bool_decide_eq_false_2).
    eexists _, _, (add_live 1 0 w). split.
    + erewrite bind_eval; [unfold with_db; by apply insert_inode_run|]. unfold query, CheckQuotaForNewInode.
      rewrite bool_decide_eq_false_2, Hw by done. destruct (w_max_files w) as [n|]; [|done].
      specialize (Hroom n eq_refl). by destruct (Z.leb_spec n (w_live_files w)); [lia|].
    + fold row. split; [|rewrite Hc; simpl; rewrite lookup_alter_eq, Hw; split_and!; [done|done|]].
      * by eapply (insert_inode_counted row d); [done|done|apply insert_inode_run].
      * intros n Hn. specialize (Hroom n Hn). simpl. lia.
Qed.

(** A write that makes a counted file [size] bytes long stays within the quotas of the
    workspace; one that makes the file smaller always may. *)
Definition within_quotas (w : workspace_row) (r : inode_row) (size : Z) : Prop :=
  i_size r <= size →
    (∀ n, w_max_file_bytes w = Some n → 0 <= n → size <= n) ∧
    (∀ n, w_max_bytes w = Some n → 0 <= n → w_live_bytes w - i_size r + size <= n).

Lemma check_quota_iff ws inode size d w r :
  workspaces d !! ws = Some w → inodes d !! inode = Some r → i_workspace r = ws → counts r = true → 0 <= size → 0 <= w_live_bytes w - i_size r →
  (within_quotas w r size → CheckQuotaForContentSize ws inode size d = Ok ()) ∧
  (¬ within_quotas w r size → CheckQuotaForContentSize ws inode size d = Throw SQLITE_FULL).
Proof.
  intros Hw Hr Hws Hc Hs Hpos. unfold CheckQuotaForContentSize, ReadQuotaPolicy, live_size, within_quotas. rewrite Hw, Hr. simpl.
  rewrite Hws, Z.eqb_refl, Hc. simpl. rewrite (proj2 (Z.ltb_ge size 0)) by done. destruct (Z.leb_spec (i_size r) size) as [Hle|Hlt].
  2: { rewrite !andb_false_r. simpl. split; [intros _; reflexivity|]. intros Hno. exfalso. apply Hno. intros; lia. }
  rewrite !andb_true_r.
  assert (Hfile : (∀ n, w_max_file_bytes w = Some n → 0 <= n → size <= n) ↔
    (0 <=? default (-1) (w_max_file_bytes w)) && (default (-1) (w_max_file_bytes w) <? size) = false).
  { destruct (w_max_file_bytes w) as [n|]; simpl; [|by split]. destruct (Z.leb_spec 0 n), (Z.ltb_spec n size); simpl; split; intros Hx; try done;
      try (intros ? [= <-]; lia). specialize (Hx n eq_refl). lia. }
  assert (Hbytes : (∀ n, w_max_bytes w = Some n → 0 <= n → w_live_bytes w - i_size r + size <= n) ↔
    (0 <=? default (-1) (w_max_bytes w)) && ((default (-1) (w_max_bytes w) <? size) || (default (-1) (w_max_bytes w) - size <? w_live_bytes w - i_size r)) = false).
  { destruct (w_max_bytes w) as [n|]; simpl; [|by split].
    destruct (Z.leb_spec 0 n), (Z.ltb_spec n size), (Z.ltb_spec (n - size) (w_live_bytes w - i_size r)); simpl; split; intros Hx; try done;
      try (intros ? [= <-]; lia); specialize (Hx n eq_refl); lia. }
  rewrite Hfile, Hbytes. clear Hfile Hbytes.
  destruct ((0 <=? default (-1) (w_max_file_bytes w)) && _); [split; [intros Hx; by destruct (Hx Hle)|done]|].
  destruct (0 <=? default (-1) (w_max_bytes w)); simpl; [|split; [done|]; intros Hx; exfalso; by apply Hx].
  destruct (_ || _); split; intros Hx; [by destruct (Hx Hle)|done|done|exfalso; by apply Hx].
Qed.

Lemma check_quota_ok ws inode size d w r :
  workspaces d !! ws = Some w → inodes d !! inode = Some r → i_workspace r = ws → counts r = true →
  CheckQuotaForContentSize ws inode size d = Ok () →
  0 <= size ∧ (i_size r <= size →
    (∀ n, w_max_file_bytes w = Some n → 0 <= n → size <= n) ∧
    (∀ n, w_max_bytes w = Some n → 0 <= n → w_live_bytes w - i_size r + size <= n)).
Proof.
  intros Hw Hr Hws Hc. unfold CheckQuotaForContentSize, ReadQuotaPolicy, live_size. rewrite Hw, Hr. simpl.
  rewrite Hws, Z.eqb_refl, Hc. simpl. destruct (Z.ltb_spec size 0); [done|]. intros Hq. split; [done|]. intros Hgrow.
  destruct (Z.leb_spec (i_size r) size); [|lia]. split; intros n Hn Hpos; rewrite Hn in Hq; simpl in Hq.
  - destruct (Z.leb_spec 0 n); [|lia]. destruct (Z.ltb_spec n size); [done|lia].
  - destruct (_ && _); [done|]. destruct (Z.leb_spec 0 n); [|lia]. simpl in Hq.
    destruct (Z.ltb_spec n size), (Z.ltb_spec (n - size) (w_live_bytes w - i_size r)); done || lia.
Qed.
