(* ===== verification/VexfsVersion.v ===== *)
(** * Publishing a version

    Storing a version succeeds when its guards hold, the new version reads back, and
    every version that could be read still reads the same bytes. *)
From Stdlib Require Import ZArith Lia String.
From stdpp Require Import prelude gmap sorting.
From S2P Require Import Prelude Sha256 Sha256Facts VexfsText VexfsDb VexfsTree VexfsStore VexfsStoreFacts VexfsStoreWrite VexfsQuota.

Local Open Scope Z_scope.
Implicit Types d : Db.

(** ** Commits *)

(** A commit changes the history tables and the head of its workspace. *)
Record committed (d d' : Db) (ws commit : Z) : Prop := {
  cm_workspaces : workspaces d' = alter (set_head commit) ws (workspaces d);
  cm_inodes : inodes d' = inodes d;
  cm_dentries : dentries d' = dentries d;
  cm_xattrs : xattrs d' = xattrs d;
  cm_acl : acl_entries d' = acl_entries d;
  cm_content : content_of d' = content_of d;
  cm_sessions : sessions_of d' = sessions_of d;
  cm_grep : grep_index d' = grep_index d;
  cm_fts : content_fts d' = content_fts d;
  cm_meta : meta d' = meta d;
  cm_clock : clock d' = clock d;
}.

Lemma commit_in_transaction_run w message d : is_Some (workspaces d !! ws_id w) →
  ∃ c d', CreateCommitInTransaction w message d = (Ok c, d') ∧ committed d d' (ws_id w) c.
Proof.
  intros [row Hrow]. unfold CreateCommitInTransaction, with_db. rewrite Hrow.
  eexists _, _. split; [reflexivity|]. by split.
Qed.

Lemma commit_run w message d : is_Some (workspaces d !! ws_id w) →
  ∃ c d', CreateCommit w message d = (Ok c, d') ∧ committed d d' (ws_id w) c.
Proof.
  intros (c & d' & Hrun & Hc)%(commit_in_transaction_run w message). exists c, d'. split; [|done].
  unfold CreateCommit, Savepoint. by rewrite Hrun.
Qed.

Lemma committed_counted d d' ws c : counted d → committed d d' ws c → counted d'.
Proof.
  intros [Hf Hb Hs] Hc. split; rewrite ?(cm_workspaces _ _ _ _ Hc), ?(cm_inodes _ _ _ _ Hc); [| |done].
  - intros i w. rewrite lookup_alter. case_decide as E; [subst|apply Hf].
    destruct (workspaces d !! i) as [w0|] eqn:Ew; [|done]. intros [= <-]. simpl. by eapply Hf.
  - intros i w. rewrite lookup_alter. case_decide as E; [subst|apply Hb].
    destruct (workspaces d !! i) as [w0|] eqn:Ew; [|done]. intros [= <-]. simpl. by eapply Hb.
Qed.

(** ** The search index *)

(** The index follows a version that reads; nothing but it and [meta] changes. *)
Lemma update_grep_run ws inode version content d :
  ReadVersionContent inode version d = Ok content →
  ∃ d', UpdateGrepIndexFromVersion ws inode version d = (Ok (), d') ∧
    tree_of d' = tree_of d ∧ history_of d' = history_of d ∧ content_of d' = content_of d ∧
    sessions_of d' = sessions_of d ∧ clock d' = clock d.
Proof.
  intros Hread. unfold UpdateGrepIndexFromVersion, with_db. destruct (grep_index d) eqn:Eg.
  - eexists. by split.
  - erewrite bind_eval by reflexivity. destruct (inodes d !! inode) as [r|]; [|eexists; by split].
    destruct (_ && _); [|eexists; by split].
    erewrite bind_eval by (unfold query; apply (f_equal (λ x, (x, _))); exact Hread). eexists. by split.
  - unfold MarkGrepIndexDirty, with_db. rewrite Eg. eexists. by split.
Qed.

(** ** Publishing *)

(** What a workspace is apart from its counters and its head. *)
Definition policy (row : workspace_row) :=
  (w_name row, w_active row, w_root_inode row, w_max_bytes row, w_max_files row, w_max_file_bytes row).
Definition same_policies (d d' : Db) : Prop := ∀ ws, policy <$> workspaces d' !! ws = policy <$> workspaces d !! ws.

Lemma policy_row d d' ws row : same_policies d d' → workspaces d !! ws = Some row →
  ∃ row', workspaces d' !! ws = Some row' ∧ policy row' = policy row.
Proof.
  intros Hp Hrow. specialize (Hp ws). rewrite Hrow in Hp. destruct (workspaces d' !! ws) as [row'|]; [|done].
  injection Hp as ??????. eexists. split; [done|]. unfold policy. congruence.
Qed.

Record published (d d' : Db) (node : Node) (r : inode_row) (content : bytes) (m : Z) : Prop := {
  pb_read : ReadVersionContent (n_id node) (n_version node + 1) d' = Ok content;
  pb_extends : extends d d';
  pb_wf : content_wf d';
  pb_counted : counted d';
  pb_inodes : inodes d' = <[n_id node := touch (clock d) (zlength content) (n_version node + 1) r]> (inodes d);
  pb_policies : same_policies d d';
  pb_sessions : sessions_of d' = sessions_of d;
  pb_dentries : dentries d' = dentries d;
  pb_clock : clock d' = clock d;
  pb_pos : 0 < m;
  pb_manifest : is_Some (manifests d' !! m);
  pb_holds : holds d' m (n_id node) (pieces C content);
}.

Lemma alter_policies d d' f ws :
  (∀ row, policy (f row) = policy row) → workspaces d' = alter f ws (workspaces d) → same_policies d d'.
Proof.
  intros Hf Heq i. rewrite Heq, lookup_alter. case_decide; [subst|done].
  destruct (workspaces d !! i) as [row|]; [|done]. simpl. by rewrite Hf.
Qed.

Lemma same_policies_trans d1 d2 d3 : same_policies d1 d2 → same_policies d2 d3 → same_policies d1 d3.
Proof. intros H1 H2 ws. by rewrite H2. Qed.

Lemma advance_run inode old size version d r :
  counted d → inodes d !! inode = Some r → i_version r = old → 0 <= size →
  advance_inode inode old size version d =
    (Ok (), replaced inode r (touch (clock d) size version r) d).
Proof.
  intros Hct Hr Hv Hs. unfold advance_inode, with_db. rewrite Hr, Hv, Z.eqb_refl. by apply update_inode_run.
Qed.

Lemma insert_version_fresh inode version commit manifest size checksum source d :
  file_versions d !! (inode, version) = None →
  insert_version inode version commit manifest size checksum source d =
    (Ok (), on_file_versions (insert (inode, version) (new_version commit manifest size checksum source d)) d).
Proof.
  intros Hf. unfold insert_version, with_db. rewrite (bind_eval _ _ _ () d); [done|]. apply throw_if_ok. split; [|done].
  apply bool_decide_eq_false_2. rewrite Hf. by intros [].
Qed.

Lemma read_content_of inode version d d' :
  content_of d' = content_of d → ReadVersionContent inode version d' = ReadVersionContent inode version d.
Proof.
  intros E. unfold ReadVersionContent, ResolveVersionStorage, manifest_rows, chunk_numbers, manifest_chunk. by rewrite E.
Qed.

(** The version row of a manifest that was just stored. *)
Lemma insert_version_run inode version commit content ws m d1 d :
  manifest_stored d1 d ws inode m content → file_versions d !! (inode, version) = None →
  zlength content <= kMaxStagedBytes →
  let row := new_version commit (Some m) (zlength content) (content_sum content) None d in
  let d' := on_file_versions (insert (inode, version) row) d in
  insert_version inode version commit (Some m) (zlength content) (content_sum content) None d = (Ok (), d') ∧
  ReadVersionContent inode version d' = Ok content ∧ extends d d' ∧ content_wf d' ∧ holds d' m inode (pieces C content).
Proof.
  intros [Hwf _ _ _ Hpos Hrow Hh] Hfresh Hmax row d'. pose proof (zlength_nonneg content).
  assert (Hh' : holds d' m inode (pieces C content)) by (by destruct Hh; split).
  split; [by apply insert_version_fresh|]. split; [|split_and!].
  - apply read_version_iff. eexists. split.
    { apply resolve_iff. eexists row, m, _. split; [|reflexivity].
      split; [apply lookup_insert_eq|done|exact Hrow|done|simpl; lia|done|apply length_content_sum|done..]. }
    simpl. split_and!; [done|done|]. by apply (holds_good_rows d' m inode).
  - split; [done|done|done|]. simpl. by apply insert_subseteq.
  - by destruct Hwf; split.
  - done.
Qed.

Lemma publish_run w node content commit store d r :
  counted d → content_wf d → inodes d !! n_id node = Some r → i_version r = n_version node →
  is_Some (workspaces d !! ws_id w) → zlength content <= kMaxStagedBytes →
  file_versions d !! (n_id node, n_version node + 1) = None →
  (∀ d1, is_Some (workspaces d1 !! ws_id w) → ∃ c d2, commit d1 = (Ok c, d2) ∧ committed d1 d2 (ws_id w) c) →
  (∀ d2, content_of d2 = content_of d → sessions_of d2 = sessions_of d → content_wf d2 →
    ∃ m d3, store d2 = (Ok (m, content_sum content), d3) ∧ manifest_stored d2 d3 (ws_id w) (n_id node) m content) →
  ∃ m d', publish_version w node (zlength content) commit store d = (Ok m, d') ∧ published d d' node r content m.
Proof.
  intros Hct Hwf Hr Hv Hws Hmax Hfresh Hcommit Hstore. pose proof (zlength_nonneg content).
  set (new := touch (clock d) (zlength content) (n_version node + 1) r).
  set (d1 := replaced (n_id node) r new d).
  assert (Hct1 : counted d1) by by apply replaced_counted.
  destruct (Hcommit d1) as (c & d2 & Hrun2 & Hc).
  { subst d1. simpl. rewrite lookup_alter. case_decide as E; [rewrite E, fmap_is_Some|]; done. }
  assert (Hwf2 : content_wf d2) by (destruct Hwf; split; rewrite (cm_content _ _ _ _ Hc); done).
  destruct (Hstore d2) as (m & d3 & Hrun3 & Hms);
    [by rewrite (cm_content _ _ _ _ Hc)|by rewrite (cm_sessions _ _ _ _ Hc)|done|].
  assert (Hout := ms_outside _ _ _ _ _ _ Hms). unfold outside_content in Hout.
  injection Hout as Htree Hhist Hsess Hmeta Hfts Hgrep Hclock.
  destruct (insert_version_run (n_id node) (n_version node + 1) c content (ws_id w) m d2 d3 Hms)
    as (Hrun4 & Hread4 & Hext4 & Hwf4 & Hh4); [|done|].
  { rewrite (ms_versions _ _ _ _ _ _ Hms), (cm_content _ _ _ _ Hc). done. }
  set (d4 := on_file_versions _ d3) in *.
  destruct (update_grep_run (ws_id w) (n_id node) (n_version node + 1) content d4 Hread4)
    as (d5 & Hrun5 & T5 & H5 & C5 & S5 & K5).
  exists m, d5. split.
  { unfold publish_version. erewrite bind_eval by (by apply advance_run). erewrite bind_eval by exact Hrun2.
    erewrite bind_eval by exact Hrun3. cbv beta iota. erewrite bind_eval by exact Hrun4. erewrite bind_eval by exact Hrun5. done. }
  assert (Hinodes : inodes d5 = <[n_id node := new]> (inodes d)).
  { rewrite T5. simpl. rewrite Htree. by rewrite (cm_inodes _ _ _ _ Hc). }
  split.
  - by rewrite (read_content_of _ _ d4).
  - assert (extends d d2) by (split; rewrite (cm_content _ _ _ _ Hc); done).
    assert (extends d4 d5) by (split; rewrite C5; done).
    etrans; [done|]. etrans; [apply (ms_extends _ _ _ _ _ _ Hms)|]. by etrans.
  - destruct Hwf4. split; rewrite C5; done.
  - destruct (committed_counted _ _ _ _ Hct1 Hc) as [Hf Hb Hs].
    split; rewrite T5; simpl; rewrite Htree; done.
  - done.
  - eapply (same_policies_trans d d2).
    + eapply same_policies_trans; [by eapply (alter_policies d d1 (add_live _ _))|].
      by eapply alter_policies; [|apply (cm_workspaces _ _ _ _ Hc)].
    + intros ws. rewrite T5. simpl. by rewrite Htree.
  - rewrite S5. simpl. by rewrite Hsess, (cm_sessions _ _ _ _ Hc).
  - rewrite T5. simpl. by rewrite Htree, (cm_dentries _ _ _ _ Hc).
  - rewrite K5. simpl. by rewrite Hclock, (cm_clock _ _ _ _ Hc).
  - apply (ms_pos _ _ _ _ _ _ Hms).
  - rewrite C5. simpl. rewrite (ms_row _ _ _ _ _ _ Hms). eauto.
  - destruct Hh4 as [He Hrr]. unfold manifest_chunk in *. split; unfold manifest_chunk; rewrite C5; done.
Qed.

(** ** What a caller of [StoreVersion] gets *)

(** The guards of a write of [size] bytes to [node], which is current. *)
Record writable_node (w : Workspace) (node : Node) (r : inode_row) (size : Z) (d : Db) : Prop := {
  wn_wf : content_wf d;
  wn_counted : counted d;
  wn_workspace : is_Some (workspaces d !! ws_id w);
  wn_inode : inodes d !! n_id node = Some r;
  wn_version : i_version r = n_version node;
  wn_previous : ∃ m, previous_manifest_of node d = Ok m;
  wn_quota : CheckQuotaForContentSize (ws_id w) (n_id node) size d = Ok ();
  wn_fresh : file_versions d !! (n_id node, n_version node + 1) = None;
}.

Lemma store_version_run w node r content message d :
  writable_node w node r (zlength content) d → zlength content <= kMaxStagedBytes →
  no_collision (pieces C content) →
  ∃ m d', StoreVersion w node content message d = (Ok (n_version node + 1), d') ∧ published d d' node r content m.
Proof.
  intros [Hwf Hct Hws Hr Hv [p Hp] Hq Hf] Hmax Hnc.
  destruct (publish_run w node content (CreateCommit w message) (StoreManifest (ws_id w) (n_id node) p content) d r)
    as (m & d' & Hrun & Hpub); try done.
  - intros d1. apply commit_run.
  - intros d2 _ _ Hwf2. by apply store_manifest_ok.
  - exists m, d'. split; [|done]. unfold StoreVersion, Savepoint, AcquireWriteLock.
    erewrite bind_eval by reflexivity. erewrite bind_eval by (by apply query_ok).
    erewrite bind_eval by (by apply query_ok). erewrite bind_eval by exact Hrun. done.
Qed.

(** C10: when the guards hold and no two chunks of the content collide,
    [StoreVersion] succeeds, the node's next version reads back as exactly the bytes
    stored, and every version of every file that could be read before still reads
    the same bytes. *)
Theorem store_version_round_trip w node r content message d :
  writable_node w node r (zlength content) d → zlength content <= kMaxStagedBytes →
  no_collision (pieces C content) →
  ∃ d', StoreVersion w node content message d = (Ok (n_version node + 1), d') ∧
    ReadVersionContent (n_id node) (n_version node + 1) d' = Ok content ∧
    (∀ inode version c, ReadVersionContent inode version d = Ok c → ReadVersionContent inode version d' = Ok c) ∧
    (∃ r', inodes d' !! n_id node = Some r' ∧ i_size r' = zlength content ∧ i_version r' = n_version node + 1).
Proof.
  intros Hw Hmax Hnc. destruct (store_version_run w node r content message d Hw Hmax Hnc) as (m & d' & Hrun & []).
  exists d'. split_and!; [done|done| |].
  - intros inode version c. by apply read_extends; [apply Hw|].
  - rewrite pb_inodes0, lookup_insert_eq. eauto.
Qed.

(** The guards of a write but for the quotas. *)
Record storable_node (w : Workspace) (node : Node) (r : inode_row) (d : Db) : Prop := {
  sn_wf : content_wf d;
  sn_counted : counted d;
  sn_inode : inodes d !! n_id node = Some r;
  sn_version : i_version r = n_version node;
  sn_previous : ∃ m, previous_manifest_of node d = Ok m;
  sn_fresh : file_versions d !! (n_id node, n_version node + 1) = None;
}.
Lemma storable_writable w node r size d : storable_node w node r d → is_Some (workspaces d !! ws_id w) →
  CheckQuotaForContentSize (ws_id w) (n_id node) size d = Ok () → writable_node w node r size d.
Proof. by intros []. Qed.

Lemma store_version_full w node content message d m : previous_manifest_of node d = Ok m →
  CheckQuotaForContentSize (ws_id w) (n_id node) (zlength content) d = Throw SQLITE_FULL →
  StoreVersion w node content message d = (Throw SQLITE_FULL, d).
Proof.
  intros Hm Hq. unfold StoreVersion, Savepoint, AcquireWriteLock. erewrite bind_eval by reflexivity.
  erewrite bind_eval by (by apply query_ok). erewrite bind_throw; [reflexivity|]. unfold query. by rewrite Hq.
Qed.

(** The bytes of the other files of a workspace are not negative. *)
Lemma others_counted ws row r id d : counted d → workspaces d !! ws = Some row → inodes d !! id = Some r → i_workspace r = ws → counts r = true →
  0 <= w_live_bytes row - i_size r.
Proof.
  intros Hc Hrow Hr Hws Hcr. rewrite (ct_bytes _ Hc _ _ Hrow), (total_delete _ _ _ _ _ Hr). unfold share. rewrite Hws, Z.eqb_refl. unfold count_bytes at 1. rewrite Hcr.
  assert (0 <= total count_bytes ws (delete id (inodes d))); [|lia]. apply total_nonneg. intros i x Hx%lookup_delete_Some.
  unfold count_bytes. pose proof (ct_sizes _ Hc i x (proj2 Hx)). by destruct (counts x).
Qed.

(** C33: a write is stored exactly when it stays within the quotas. A write that would
    leave the file above the file size quota or the workspace above its byte quota, and
    does not make the file smaller, is refused with SQLITE_FULL and changes nothing. Any
    other write succeeds, the byte counter of the workspace is afterwards the total size
    of its live files, moved by the change of size, and the file counter does not move.
    (The other guards of a write hold, and no two chunks of the content collide.) *)
Theorem store_version_within_quota w node r content message d row :
  storable_node w node r d → zlength content <= kMaxStagedBytes →
  no_collision (pieces C content) →
  workspaces d !! ws_id w = Some row → i_workspace r = ws_id w → counts r = true →
  (¬ within_quotas row r (zlength content) → StoreVersion w node content message d = (Throw SQLITE_FULL, d)) ∧
  (within_quotas row r (zlength content) → ∃ d' row', StoreVersion w node content message d = (Ok (n_version node + 1), d') ∧
    workspaces d' !! ws_id w = Some row' ∧
    w_live_bytes row' = total count_bytes (ws_id w) (inodes d') ∧
    w_live_bytes row' = w_live_bytes row - i_size r + zlength content ∧
    w_live_files row' = w_live_files row).
Proof.
  intros Hst Hmax Hnc Hrow Hws Hc. pose proof (others_counted _ _ _ _ _ (sn_counted _ _ _ _ Hst) Hrow (sn_inode _ _ _ _ Hst) Hws Hc) as Hother.
  destruct (check_quota_iff _ _ (zlength content) d _ _ Hrow (sn_inode _ _ _ _ Hst) Hws Hc) as [Hok Hfull]; [unfold zlength; lia|done|]. split.
  { intros Hno. destruct (sn_previous _ _ _ _ Hst) as [m Hm]. eapply store_version_full; [done|]. by apply Hfull. }
  intros Hq%Hok. assert (Hw : writable_node w node r (zlength content) d) by (apply storable_writable; [done|by eexists|done]).
  destruct (store_version_run w node r content message d Hw Hmax Hnc) as (m & d' & Hrun & []).
  destruct Hw as [_ [Hf Hb _] _ Hr Hv _ _ _]. destruct (policy_row _ _ _ _ pb_policies0 Hrow) as (row' & Hrow' & _).
  exists d', row'. split_and!; [done|done|by apply (ct_bytes _ pb_counted0)| |].
  - rewrite (ct_bytes _ pb_counted0 _ _ Hrow'), (Hb _ _ Hrow), pb_inodes0, (total_insert _ _ _ _ _ _ Hr).
    unfold share. simpl. rewrite Hws, Z.eqb_refl. unfold count_bytes, counts in *. simpl. rewrite Hc. done.
  - rewrite (ct_files _ pb_counted0 _ _ Hrow'), (Hf _ _ Hrow), pb_inodes0, (total_insert _ _ _ _ _ _ Hr).
    unfold share, count_files, counts. simpl. rewrite Hws, Z.eqb_refl. unfold counts in Hc. rewrite Hc. lia.
Qed.

(** ** Restoring an old version *)

(** A version row that names the version it copies. *)
Lemma copied_version_reads inode version source c st content d d' d0 :
  content_wf d → extends d d' → ReadVersionContent inode source d = Ok content →
  ResolveVersionStorage inode source d = Ok st →
  file_versions d' !! (inode, version) = Some (new_version c None (vs_size st) (vs_checksum st) (Some (vs_canonical st)) d0) →
  ReadVersionContent inode version d' = Ok content.
Proof.
  intros Hwf Hext Hread Hst Hvr.
  apply read_version_iff in Hread as (st' & Hst' & Hs & Hsum & Hg). rewrite Hst in Hst'. injection Hst' as <-.
  apply resolve_iff in Hst as (v & m & row & Hres & ->). pose proof (resolves_extends _ _ _ _ _ _ _ Hext Hres) as Hres'.
  assert (Hm : is_Some (manifests d !! m)) by (rewrite (rs_row _ _ _ _ _ _ Hres); eauto).
  apply read_version_iff. eexists. split.
  - apply resolve_iff. eexists _, m, row. split; [|reflexivity]. destruct Hres'.
    split; try done; try exact Hvr. unfold manifest_of in *. simpl.
    destruct (v_source v) as [n|]; [done|]. by exists v.
  - simpl in *. split_and!; [done|done|]. unfold all_rows.
    rewrite (manifest_rows_ext m _ d d'); [done|..]; intros n; [by apply Hext|by apply manifest_chunk_extends].
Qed.

(** Restoring a version that reads makes a new version with the same bytes that
    shares the manifest of the old one, and every readable version still reads the
    same bytes. *)
Theorem restore_version_reads w node r source content message d :
  writable_node w node r (zlength content) d → ReadVersionContent (n_id node) source d = Ok content →
  ∃ d', StoreVersionFromVersion w node source message d = (Ok (n_version node + 1), d') ∧
    ReadVersionContent (n_id node) (n_version node + 1) d' = Ok content ∧
    manifests d' = manifests d ∧ chunks d' = chunks d ∧
    (∀ inode version c, ReadVersionContent inode version d = Ok c → ReadVersionContent inode version d' = Ok c).
Proof.
  intros [Hwf Hct Hws Hr Hv _ Hq Hf] Hread. pose proof (zlength_nonneg content).
  pose proof Hread as (st & Hst & Hs & _)%read_version_iff.
  set (d1 := replaced (n_id node) r (touch (clock d) (zlength content) (n_version node + 1) r) d).
  destruct (commit_run w message d1) as (c & d2 & Hrun2 & Hc).
  { subst d1. simpl. rewrite lookup_alter. case_decide as E; [rewrite E, fmap_is_Some|]; done. }
  set (vr := new_version c None (vs_size st) (vs_checksum st) (Some (vs_canonical st)) d2).
  assert (Hrun3 : insert_version (n_id node) (n_version node + 1) c None (vs_size st) (vs_checksum st) (Some (vs_canonical st)) d2 =
    (Ok (), on_file_versions (insert (n_id node, n_version node + 1) vr) d2)).
  { apply insert_version_fresh. by rewrite (cm_content _ _ _ _ Hc). }
  set (d3 := on_file_versions _ d2) in *.
  assert (Hext : extends d d3).
  { split; simpl; rewrite (cm_content _ _ _ _ Hc); try done. by apply insert_subseteq. }
  assert (Hread3 : ReadVersionContent (n_id node) (n_version node + 1) d3 = Ok content).
  { eapply (copied_version_reads _ _ source c st content d d3 d2); try done. apply lookup_insert_eq. }
  destruct (update_grep_run (ws_id w) _ _ content d3 Hread3) as (d4 & Hrun4 & _ & _ & C4 & _ & _).
  assert (extends d d4) by (etrans; [done|]; split; rewrite C4; done).
  exists d4. split_and!.
  - unfold StoreVersionFromVersion, Savepoint, AcquireWriteLock. erewrite bind_eval by reflexivity.
    erewrite bind_eval by (by apply query_ok). rewrite Hs. erewrite bind_eval by (by apply query_ok).
    erewrite bind_eval by (by apply advance_run). erewrite bind_eval by exact Hrun2. rewrite <- Hs.
    erewrite bind_eval by exact Hrun3. erewrite bind_eval by exact Hrun4. done.
  - by rewrite (read_content_of _ _ d3).
  - rewrite C4. simpl. by rewrite (cm_content _ _ _ _ Hc).
  - rewrite C4. simpl. by rewrite (cm_content _ _ _ _ Hc).
  - intros inode version x. by apply read_extends.
Qed.

(** ** An instance *)

(** A workspace with one new file. *)
Definition demo_root : inode_row := new_inode_row 0 0 1 KDirectory 493 0.
Definition demo_file : inode_row := new_inode_row 0 0 1 KFile 420 0.
Definition demo_workspace : workspace_row :=
  mkWorkspaceRow (str "w") true (Some 1) None None (Some 100) (Some 10) (Some 50) 1 0 default_retention.
Definition demo : Db := mkDb
  (mkTreeTables {[1 := demo_workspace]} (<[1 := demo_root]> {[2 := demo_file]}) {[(1, 1, str "f") := 2]} ∅ ∅)
  (mkHistoryTables ∅ ∅ ∅ ∅ ∅ ∅ ∅ ∅ ∅ ∅) (mkContentTables ∅ ∅ ∅ ∅) (mkSessionsTables ∅ ∅ ∅ ∅ ∅) ∅ ∅ kAvailable 5000.
Definition demo_ws : Workspace := mkWorkspace 1 1 0.
Definition demo_node : Node := node_of 2 demo_file.

Lemma demo_writable : writable_node demo_ws demo_node demo_file 5 demo.
Proof.
  split; try done.
  - split.
    + intros ws w. cbn. rewrite lookup_singleton_Some. by intros [<- <-].
    + intros ws w. cbn. rewrite lookup_singleton_Some. by intros [<- <-].
    + intros id r. cbn. intros [[_ <-]|[_ [_ <-]%lookup_singleton_Some]]%lookup_insert_Some; done.
  - by exists 0.
Qed.

Lemma small_no_collision (content : bytes) : zlength content <= kContentChunkBytes → no_collision (pieces C content).
Proof.
  intros Hl. destruct (decide (content = [])) as [->|Hne]; [intros x y []%not_elem_of_nil|].
  rewrite pieces_single; [|done|unfold zlength in Hl; lia].
  intros x y ->%list_elem_of_singleton ->%list_elem_of_singleton. done.
Qed.

Lemma hello_no_collision : no_collision (pieces C (str "hello")).
Proof. by apply small_no_collision. Qed.

Lemma hello_small : zlength (str "hello") <= kMaxStagedBytes.
Proof. done. Qed.

Lemma store_version_round_trip_witness :
  ∃ d', StoreVersion demo_ws demo_node (str "hello") (str "m") demo = (Ok 1, d') ∧
    ReadVersionContent 2 1 d' = Ok (str "hello").
Proof.
  pose proof (store_version_round_trip demo_ws demo_node demo_file (str "hello") (str "m") demo
    demo_writable hello_small hello_no_collision) as (d' & H1 & H2 & _).
  exists d'. split; [exact H1|exact H2].
Defined.

Lemma demo_storable : storable_node demo_ws demo_node demo_file demo.
Proof. destruct demo_writable. by split. Qed.
(** The file quota is 50 bytes. *)
Definition too_long : bytes := replicate 51 0.
Lemma too_long_refused : ¬ within_quotas demo_workspace demo_file (zlength too_long).
Proof. intros H. destruct H as [H _]; [done|]. specialize (H 50 eq_refl). vm_compute in H. by destruct H. Qed.
Lemma too_long_no_collision : no_collision (pieces C too_long).
Proof. by apply small_no_collision. Qed.
Lemma hello_within : within_quotas demo_workspace demo_file (zlength (str "hello")).
Proof. intros _. split; intros n [= <-]; by vm_compute. Qed.

Lemma store_version_within_quota_witness :
  StoreVersion demo_ws demo_node too_long (str "m") demo = (Throw SQLITE_FULL, demo) ∧
  ∃ d' row', StoreVersion demo_ws demo_node (str "hello") (str "m") demo = (Ok 1, d') ∧
    workspaces d' !! 1 = Some row' ∧ w_live_bytes row' = 5.
Proof.
  split.
  - exact (proj1 (store_version_within_quota demo_ws demo_node demo_file too_long (str "m") demo demo_workspace
      demo_storable ltac:(done) too_long_no_collision eq_refl eq_refl eq_refl) too_long_refused).
  - destruct (proj2 (store_version_within_quota demo_ws demo_node demo_file (str "hello") (str "m") demo demo_workspace
      demo_storable hello_small hello_no_collision eq_refl eq_refl eq_refl) hello_within) as (d' & row' & H1 & H2 & _ & H3 & _).
    exists d', row'. split; [exact H1|]. split; [exact H2|exact H3].
Defined.

(** The file after its first version. *)
Definition demo1 : Db := (StoreVersion demo_ws demo_node (str "hello") (str "m") demo).2.

Lemma read_range_slice_witness : ReadVersionRange 2 1 1 3 demo1 = Ok (str "ell").
Proof.
  rewrite (read_range_slice 2 1 demo1 (str "hello") 1 3); [done| |done|done].
  vm_compute. reflexivity.
Defined.

Definition demo1_file : inode_row := touch 5000 5 1 demo_file.
Definition demo1_node : Node := node_of 2 demo1_file.

Lemma demo1_writable : writable_node demo_ws demo1_node demo1_file 5 demo1.
Proof.
  destruct (store_version_run demo_ws demo_node demo_file (str "hello") (str "m") demo demo_writable hello_small hello_no_collision)
    as (m & d' & Hrun & Hpub).
  assert (d' = demo1) as -> by (unfold demo1; rewrite Hrun; reflexivity). split.
  - exact (pb_wf _ _ _ _ _ _ Hpub).
  - exact (pb_counted _ _ _ _ _ _ Hpub).
  - destruct (policy_row _ _ 1 demo_workspace (pb_policies _ _ _ _ _ _ Hpub) eq_refl) as (x & Hx & _). by exists x.
  - rewrite (pb_inodes _ _ _ _ _ _ Hpub). apply lookup_insert_eq.
  - reflexivity.
  - exists 1. vm_compute. reflexivity.
  - vm_compute. reflexivity.
  - vm_compute. reflexivity.
Qed.

Lemma restore_version_reads_witness :
  ∃ d', StoreVersionFromVersion demo_ws demo1_node 1 (str "r") demo1 = (Ok 2, d') ∧
    ReadVersionContent 2 2 d' = Ok (str "hello").
Proof.
  assert (Hread : ReadVersionContent (n_id demo1_node) 1 demo1 = Ok (str "hello")) by (vm_compute; reflexivity).
  pose proof (restore_version_reads demo_ws demo1_node demo1_file 1 (str "hello") (str "r") demo1 demo1_writable Hread)
    as (d' & H1 & H2 & _).
  exists d'. split; [exact H1|exact H2].
Defined.

Lemma create_inode_within_quota_witness :
  ∃ id d' w', CreateInode 0 0 1 KFile 420 demo = (Ok id, d') ∧ workspaces d' !! 1 = Some w' ∧ w_live_files w' = 2.
Proof.
  pose proof (proj2 (create_inode_within_quota 0 0 1 KFile 420 demo demo_workspace (wn_counted _ _ _ _ _ demo_writable)
    eq_refl ltac:(discriminate))) as H.
  destruct H as (id & d' & w' & H1 & _ & H2 & H3 & _); [intros n [= <-]; reflexivity|].
  exists id, d', w'. split; [exact H1|]. split; [exact H2|exact H3].
Defined.
