(* ===== verification/VexfsGrepIndex.v ===== *)
(** * The content index

    Building and enabling the full-text index over the current content of the live
    files ([src/vexdb_sqlite/src/agent_files/vexfs_sqlite.cpp]). Whether the host has
    FTS5, whether the index table exists and whether the database is read-only are
    arguments. *)
From Stdlib Require Import ZArith Lia String.
From stdpp Require Import prelude gmap.
From S2P Require Import Prelude Sha256 VexfsText VexfsDb VexfsTree VexfsStore VexfsStoreFacts VexfsStoreWrite VexfsQuota VexfsVersion.

Local Open Scope Z_scope.
Implicit Types d : Db.

Definition GrepIndexMarker (d : Db) : bool := bool_decide (meta d !! str "grep_index" = Some (str "trigram-v1")).
Definition GrepIndexDirty (d : Db) : bool := bool_decide (meta d !! str "grep_index_dirty" = Some (str "1")).
Definition SetGrepIndexState (state : GrepIndexState) : M () := modify (set_grep_index (λ _, state)).

Definition indexed_files (d : Db) : list (Z * inode_row) :=
  filter (λ '(_, r), i_kind r = KFile ∧ live r = true) (map_to_list (inodes d)).

Fixpoint index_files (files : list (Z * inode_row)) : M () :=
  match files with
  | [] => mret ()
  | (id, r) :: files =>
    content ← query (ReadVersionContent id (i_version r));
    modify (set_content_fts (insert id (mkFtsRow (i_workspace r) id (i_version r) content)));;
    index_files files
  end.

Definition RebuildGrepIndex : M () :=
  Savepoint (
    modify (set_content_fts (λ _, ∅));;
    with_db $ λ d,
    index_files (indexed_files d);;
    modify (set_meta (insert (str "grep_index_dirty") (str "0")))).

Definition DetectGrepIndex (fts5 has_table readonly : bool) : M () :=
  with_db $ λ d,
  if negb (GrepIndexMarker d) then SetGrepIndexState kDisabled
  else if negb fts5 || negb has_table then SetGrepIndexState kUnavailable
  else if GrepIndexDirty d then
    if readonly then SetGrepIndexState kUnavailable
    else RebuildGrepIndex;; SetGrepIndexState kAvailable
  else SetGrepIndexState kAvailable.

(** The state of the connection goes back with the tables when the rebuild throws. *)
Definition EnableGrepIndex (fts5 : bool) : M () :=
  throw_if (negb fts5) SQLITE_MISMATCH;;
  Savepoint (
    modify (set_meta (insert (str "grep_index") (str "trigram-v1")));;
    modify (set_meta (insert (str "grep_index_dirty") (str "1")));;
    SetGrepIndexState kAvailable;;
    RebuildGrepIndex).

Definition DisableGrepIndex (fts5 : bool) : M () :=
  with_db $ λ d,
  throw_if (GrepIndexMarker d && negb fts5) SQLITE_MISMATCH;;
  Savepoint (
    modify (set_content_fts (λ _, ∅));;
    modify (set_meta (λ t, delete (str "grep_index_dirty") (delete (str "grep_index") t))));;
  SetGrepIndexState kDisabled.

Definition RefreshGrepIndexAfterTreeChange : M () :=
  with_db $ λ d,
  match grep_index d with
  | kAvailable => RebuildGrepIndex
  | kUnavailable => MarkGrepIndexDirty
  | kDisabled => mret ()
  end.

(** ** Rebuilding *)

Lemma elem_of_indexed d id r : (id, r) ∈ indexed_files d ↔ inodes d !! id = Some r ∧ i_kind r = KFile ∧ live r = true.
Proof. unfold indexed_files. rewrite list_elem_of_filter, elem_of_map_to_list. naive_solver. Qed.

Lemma read_fts d f i v : ReadVersionContent i v (set_content_fts f d) = ReadVersionContent i v d.
Proof. by apply read_content_of. Qed.

Lemma index_files_ok files : NoDup files.*1 → ∀ d,
  (∀ id r, (id, r) ∈ files → ∃ c, ReadVersionContent id (i_version r) d = Ok c) →
  ∃ t, index_files files d = (Ok (), set_content_fts (λ _, t) d) ∧
    (∀ id, id ∉ files.*1 → t !! id = content_fts d !! id) ∧
    (∀ id r, (id, r) ∈ files → ∃ c, ReadVersionContent id (i_version r) d = Ok c ∧
      t !! id = Some (mkFtsRow (i_workspace r) id (i_version r) c)).
Proof.
  induction files as [|[id r] files IH]; intros Hnd d Hread.
  { exists (content_fts d). split_and!; [by destruct d|done|]. intros ? ? []%not_elem_of_nil. }
  apply NoDup_cons in Hnd as [Hni Hnd]. destruct (Hread id r) as [c Hc]; [set_solver|].
  set (row := mkFtsRow (i_workspace r) id (i_version r) c).
  destruct (IH Hnd (set_content_fts (insert id row) d)) as (t & Hrun & Hout & Hin).
  { intros i x Hx. rewrite read_fts. apply Hread. set_solver. }
  exists t. split_and!.
  - cbn [index_files]. erewrite bind_eval by (by apply query_ok). erewrite bind_eval by reflexivity. fold row. by rewrite Hrun.
  - intros i Hi. rewrite Hout by set_solver. simpl. rewrite lookup_insert_ne; [done|set_solver].
  - intros i x [[= -> ->]|Hx]%elem_of_cons.
    + exists c. split; [done|]. rewrite Hout by done. simpl. apply lookup_insert_eq.
    + destruct (Hin i x Hx) as (c' & Hc' & Ht). rewrite read_fts in Hc'. eauto.
Qed.

Lemma index_files_fail files : ∀ d id r, (id, r) ∈ files →
  (∀ c, ReadVersionContent id (i_version r) d ≠ Ok c) →
  (∀ i x e, (i, x) ∈ files → ReadVersionContent i (i_version x) d = Throw e → e = SQLITE_NOTFOUND) →
  ∃ d', index_files files d = (Throw SQLITE_NOTFOUND, d').
Proof.
  induction files as [|[i x] files IH]; intros d id r Hin Hno Hcodes; [by apply not_elem_of_nil in Hin|].
  cbn [index_files]. destruct (ReadVersionContent i (i_version x) d) as [c|e] eqn:E.
  - apply elem_of_cons in Hin as [[= -> ->]|Hin]; [by destruct (Hno c)|].
    erewrite bind_eval by (by apply query_ok). erewrite bind_eval by reflexivity.
    eapply IH; [done| |].
    + intros c'. rewrite read_fts. apply Hno.
    + intros i' x' e Hx. rewrite read_fts. apply Hcodes. set_solver.
  - rewrite (Hcodes i x e) in E by (done || set_solver). exists d. apply bind_throw. unfold query. by rewrite E.
Qed.

(** When every live file has a current version that reads, the index holds exactly
    the live files, each with its current content. *)
Lemma rebuild_ok d :
  (∀ id r, inodes d !! id = Some r → i_kind r = KFile → live r = true → ∃ c, ReadVersionContent id (i_version r) d = Ok c) →
  ∃ d', RebuildGrepIndex d = (Ok (), d') ∧ GrepIndexDirty d' = false ∧
    (∀ id r, inodes d !! id = Some r → i_kind r = KFile → live r = true →
      ∃ c, ReadVersionContent id (i_version r) d = Ok c ∧
        content_fts d' !! id = Some (mkFtsRow (i_workspace r) id (i_version r) c)) ∧
    (∀ id row, content_fts d' !! id = Some row → ∃ r, inodes d !! id = Some r ∧ i_kind r = KFile ∧ live r = true).
Proof.
  intros Hread. set (d0 := set_content_fts (λ _, ∅) d).
  destruct (index_files_ok (indexed_files d)) with (d := d0) as (t & Hrun & Hout & Hin).
  { apply NoDup_fmap_2_strong; [|apply NoDup_filter, NoDup_map_to_list].
    intros [i x] [j y] [Hi _]%elem_of_indexed [Hj _]%elem_of_indexed. simpl. intros ->. congruence. }
  { intros id r (Hr & Hk & Hl)%elem_of_indexed. unfold d0. setoid_rewrite read_fts. by apply (Hread id r). }
  exists (set_meta (insert (str "grep_index_dirty") (str "0")) (set_content_fts (λ _, t) d0)). split_and!.
  - unfold RebuildGrepIndex, Savepoint. erewrite bind_eval by reflexivity. unfold with_db at 1. fold d0.
    change (indexed_files d0) with (indexed_files d). erewrite bind_eval by exact Hrun. done.
  - unfold GrepIndexDirty. simpl. rewrite lookup_insert_eq. done.
  - intros id r Hr Hk Hl. simpl. destruct (Hin id r) as (c & Hc & Ht); [by apply elem_of_indexed|].
    unfold d0 in Hc. rewrite read_fts in Hc. eauto.
  - intros id row Hrow. simpl in Hrow. destruct (decide (id ∈ (indexed_files d).*1)) as [Hi|Hi].
    + apply list_elem_of_fmap in Hi as ([i r] & -> & Hi%elem_of_indexed). eauto.
    + rewrite Hout in Hrow by done. done.
Qed.

(** The index is built from the current content of exactly the live files when
    all of them have a version that reads; but a live file that was created through
    a handle and not published yet has version 0, which never reads, so while one
    exists (and nothing else is wrong) enabling the index fails with
    [SQLITE_NOTFOUND] and changes nothing, and so does opening a connection to a
    database whose index is marked dirty. *)
Theorem grep_index_unpublished d :
  ((∀ id r, inodes d !! id = Some r → i_kind r = KFile → live r = true → ∃ c, ReadVersionContent id (i_version r) d = Ok c) →
    ∃ d', RebuildGrepIndex d = (Ok (), d') ∧
      (∀ id r c, inodes d !! id = Some r → i_kind r = KFile → live r = true → ReadVersionContent id (i_version r) d = Ok c →
        content_fts d' !! id = Some (mkFtsRow (i_workspace r) id (i_version r) c)) ∧
      (∀ id row, content_fts d' !! id = Some row → ∃ r, inodes d !! id = Some r ∧ i_kind r = KFile ∧ live r = true)) ∧
  (∀ id r, inodes d !! id = Some r → i_kind r = KFile → live r = true → i_version r = 0 →
    (∀ i x, inodes d !! i = Some x → i_kind x = KFile → live x = true → i_version x ≠ 0 →
      ∃ c, ReadVersionContent i (i_version x) d = Ok c) →
    (∀ i, file_versions d !! (i, 0) = None) →
    EnableGrepIndex true d = (Throw SQLITE_NOTFOUND, d) ∧
    (GrepIndexMarker d = true → GrepIndexDirty d = true → DetectGrepIndex true true false d = (Throw SQLITE_NOTFOUND, d))).
Proof.
  split.
  - intros Hread. destruct (rebuild_ok d Hread) as (d' & Hrun & _ & Hin & Hout). exists d'. split_and!; [done| |done].
    intros id r c Hr Hk Hl Hc. destruct (Hin id r Hr Hk Hl) as (c' & Hc' & Ht). rewrite Hc in Hc'. by injection Hc' as <-.
  - intros id r Hr Hk Hl Hv Hothers Hzero.
    assert (Hno : ∀ i e, content_of e = content_of d → ReadVersionContent i 0 e = Throw SQLITE_NOTFOUND).
    { intros i e E. unfold ReadVersionContent, ResolveVersionStorage. by rewrite E, Hzero. }
    assert (Hfail : ∀ e, content_of e = content_of d → tree_of e = tree_of d → RebuildGrepIndex e = (Throw SQLITE_NOTFOUND, e)).
    { intros e Ec Et. unfold RebuildGrepIndex, Savepoint. erewrite bind_eval by reflexivity. unfold with_db at 1.
      destruct (index_files_fail (indexed_files (set_content_fts (λ _, ∅) e)) (set_content_fts (λ _, ∅) e) id r) as (d' & Hrun).
      - apply elem_of_indexed. simpl. by rewrite Et.
      - intros c. rewrite Hv, Hno; [done|]. done.
      - intros i x er (Hx & Hxk & Hxl)%elem_of_indexed Hx2. simpl in Hx. rewrite Et in Hx.
        destruct (decide (i_version x = 0)) as [E|E].
        + rewrite E, Hno in Hx2 by done. congruence.
        + destruct (Hothers i x Hx Hxk Hxl E) as [c Hc]. rewrite (read_content_of _ _ d) in Hx2 by done. congruence.
      - by erewrite bind_throw by exact Hrun. }
    split.
    + unfold EnableGrepIndex, Savepoint. do 4 erewrite bind_eval by reflexivity. by rewrite Hfail.
    + intros Hm Hdirty. unfold DetectGrepIndex, with_db. rewrite Hm, Hdirty. cbn [negb orb]. apply bind_throw. by apply Hfail.
Qed.

(** The file of [demo] is new. *)
Lemma grep_index_unpublished_witness : EnableGrepIndex true demo = (Throw SQLITE_NOTFOUND, demo).
Proof.
  apply (proj2 (grep_index_unpublished demo) 2 demo_file); try reflexivity.
  intros i x Hx Hk _ Hv. exfalso.
  change ((<[1 := demo_root]> {[2 := demo_file]} : gmap Z inode_row) !! i = Some x) in Hx.
  apply lookup_insert_Some in Hx as [[_ <-]|[_ [_ <-]%lookup_singleton_Some]]; [discriminate Hk|by apply Hv].
Defined.
