(* ===== verification/VexfsStaging.v ===== *)
(** * Handles and their staging areas

    The write path of [src/vexdb_sqlite/src/agent_files/vexfs_sqlite.cpp]: an open handle
    has a staging area, an overlay of dirty chunks over the visible part of a base
    manifest; writes and truncations change the overlay, and a publish stores the
    overlaid content as the next version of the file. *)
From Stdlib Require Import ZArith Lia String.
From stdpp Require Import prelude gmap.
From S2P Require Import Prelude Sha256 VexfsText VexfsDb VexfsTree VexfsStore.

Local Open Scope Z_scope.

(** ** Handles *)

Record Handle := mkHandle {
  hd_id : bytes;
  hd_workspace : Z;
  hd_inode : Z;
  hd_writable : bool;
  hd_expected_version : Z;
  hd_dirty : Z;
  hd_published : Z;
  hd_state : HandleState;
  hd_owner : bytes;
}.

Definition handle_of (id : bytes) (h : handle_row) : Handle :=
  mkHandle id (h_workspace h) (h_inode h) (h_writable h) (h_expected_version h) (h_dirty_generation h)
    (h_published_generation h) (h_state h) (default [] (h_owner_session h)).

Definition FindHandle (id : bytes) (d : Db) : sql Handle :=
  match handles d !! id with
  | None => Throw SQLITE_NOTFOUND
  | Some h => Ok (handle_of id h)
  end.

(** ** The staging area *)

Record StagingInfo := mkStagingInfo {
  sg_generation : Z;
  sg_base_manifest : Z;
  sg_base_size : Z;
  sg_base_visible : Z;
  sg_logical : Z;
  sg_capacity : Z;
}.

Definition staging_info (s : staging_row) : StagingInfo :=
  mkStagingInfo (s_generation s) (int64 (s_base_manifest s)) (s_base_size s) (s_base_visible s) (s_logical s) (s_capacity s).

Definition FindStaging (handle : bytes) (d : Db) : sql StagingInfo :=
  match staging d !! handle with
  | None => Throw SQLITE_NOTFOUND
  | Some s => Ok (staging_info s)
  end.

Definition DirtyChunkSize (handle : bytes) (chunk_no : Z) (d : Db) : Z :=
  match staging_chunks d !! (handle, chunk_no) with
  | Some content => zlength content
  | None => 0
  end.

Definition StoreDirtyChunk (handle : bytes) (chunk_no : Z) (content : bytes) : M () :=
  throw_if ((zlength content =? 0) || (kContentChunkBytes <? zlength content)) SQLITE_CORRUPT;;
  throw_if (chunk_no <? 0) SQLITE_CONSTRAINT;;
  modify (on_staging_chunks (insert (handle, chunk_no) content)).

(** A buffer of [n] zero bytes. *)
Definition zeros (n : Z) : bytes := replicate (Z.to_nat n) 0.

(** The bytes of a chunk as the handle sees them, padded with zeros to a full chunk,
    and the number of bytes that are dirty. *)
Definition ReadEffectiveChunk (handle : bytes) (s : StagingInfo) (chunk_no : Z) (d : Db) : sql (bytes * Z) :=
  if chunk_no <? 0 then Throw SQLITE_RANGE
  else
    let content := zeros kContentChunkBytes in
    match staging_chunks d !! (handle, chunk_no) with
    | Some dirty =>
      if (zlength dirty <=? 0) || (kContentChunkBytes <? zlength dirty) then Throw SQLITE_CORRUPT
      else Ok (overwrite content 0 dirty, zlength dirty)
    | None =>
      let chunk_offset := chunk_no * kContentChunkBytes in
      if sg_base_visible s <=? chunk_offset then Ok (content, 0)
      else if (sg_base_manifest s <=? 0) || (sg_base_size s <=? chunk_offset) || (sg_base_size s <? sg_base_visible s)
      then Throw SQLITE_CORRUPT
      else
        match manifest_chunk (sg_base_manifest s) chunk_no d with
        | None => Throw SQLITE_CORRUPT
        | Some (_, base) =>
          let expected_size := Z.min kContentChunkBytes (sg_base_size s - chunk_offset) in
          match chunk_intact base expected_size with
          | Throw e => Throw e
          | Ok intact =>
            if negb intact then Throw SQLITE_CORRUPT
            else
              let visible := Z.min expected_size (sg_base_visible s - chunk_offset) in
              Ok (overwrite content 0 (take (Z.to_nat visible) (k_content base)), 0)
          end
        end
    end.

Definition insert_staging (handle : bytes) (row : staging_row) : M () :=
  with_db $ λ d,
  throw_if (bool_decide (is_Some (staging d !! handle))) SQLITE_CONSTRAINT;;
  modify (on_staging (insert handle row)).

Fixpoint store_dirty_chunks (handle : bytes) (chunk_no : Z) (datas : list bytes) : M () :=
  match datas with
  | [] => mret ()
  | data :: datas => StoreDirtyChunk handle chunk_no data;; store_dirty_chunks handle (chunk_no + 1) datas
  end.

Definition CreateStaging (handle : Handle) (content : bytes) : M () :=
  throw_if (kMaxStagedBytes <? zlength content) SQLITE_TOOBIG;;
  insert_staging (hd_id handle) (mkStagingRow (hd_dirty handle) None 0 0 (zlength content) (zlength content));;
  store_dirty_chunks (hd_id handle) 0 (pieces (Z.to_nat kContentChunkBytes) content).

Definition CreateStagingFromVersion (handle : Handle) (node : Node) : M () :=
  if (n_version node <=? 0) || (n_size node =? 0) then CreateStaging handle []
  else
    storage ← query (ResolveVersionStorage (n_id node) (n_version node));
    throw_if (negb (vs_size storage =? n_size node)) SQLITE_CORRUPT;;
    insert_staging (hd_id handle)
      (mkStagingRow (hd_dirty handle) (Some (vs_manifest storage)) (vs_size storage) (vs_size storage) (vs_size storage) 0).

(** [UPDATE _vexfs_staging … WHERE handle_id=…], with the [CHECK]s of the table. *)
Definition update_staging (handle : bytes) (f : staging_row → staging_row) : M () :=
  with_db $ λ d,
  match staging d !! handle with
  | None => mret ()
  | Some s =>
    let s' := f s in
    throw_if ((s_base_size s' <? 0) || (s_base_visible s' <? 0) || (s_logical s' <? 0) || (s_capacity s' <? 0) ||
      (s_base_size s' <? s_base_visible s')) SQLITE_CONSTRAINT;;
    modify (on_staging (insert handle s'))
  end.

Definition update_handle (handle : bytes) (f : handle_row → handle_row) : M () :=
  modify (on_handles (alter f handle)).

Definition set_dirty (generation now : Z) (h : handle_row) : handle_row :=
  mkHandleRow (h_workspace h) (h_inode h) (h_writable h) (h_expected_version h) generation
    (h_published_generation h) (h_state h) (h_lease_until h) (h_owner_session h) now.

(** ** Writing *)

(** The new bytes of one chunk, [part] written into it from [within] on, and how many
    of its bytes were dirty before. *)
Definition written_chunk (handle : bytes) (s : StagingInfo) (logical chunk_no within : Z) (part : bytes) : M (bytes * Z) :=
  if (within =? 0) && (zlength part =? kContentChunkBytes) then query (λ d, Ok (part, DirtyChunkSize handle chunk_no d))
  else
    '(chunk, previous_dirty_bytes) ← query (ReadEffectiveChunk handle s chunk_no);
    let stored_bytes := Z.min kContentChunkBytes (logical - chunk_no * kContentChunkBytes) in
    mret (take (Z.to_nat stored_bytes) (overwrite chunk (Z.to_nat within) part), previous_dirty_bytes).

(** The loop over the patch: [absolute] is where the rest of the patch goes, [delta]
    the change of the dirty bytes so far. The fuel is the length of the patch. *)
Fixpoint write_loop (fuel : nat) (handle : bytes) (s : StagingInfo) (logical absolute : Z) (patch : bytes) (delta : Z)
    : M Z :=
  match patch, fuel with
  | [], _ => mret delta
  | _ :: _, O => throw SQLITE_ERROR
  | _ :: _, S fuel =>
    let chunk_no := absolute / kContentChunkBytes in
    let within := absolute mod kContentChunkBytes in
    let n := Z.min (zlength patch) (kContentChunkBytes - within) in
    '(chunk, previous_dirty_bytes) ← written_chunk handle s logical chunk_no within (take (Z.to_nat n) patch);
    StoreDirtyChunk handle chunk_no chunk;;
    write_loop fuel handle s logical (absolute + n) (drop (Z.to_nat n) patch)
      (delta + (zlength chunk - previous_dirty_bytes))
  end.

Definition StageWrite (handle : Handle) (offset : Z) (patch : bytes) : M Z :=
  if bool_decide (patch = []) then mret (hd_dirty handle)
  else if (offset <? 0) || (kMaxStagedBytes <? offset) || (kMaxStagedBytes - offset <? zlength patch)
  then throw SQLITE_TOOBIG
  else
    let required := offset + zlength patch in
    s ← query (FindStaging (hd_id handle));
    let logical := Z.max (sg_logical s) required in
    delta ← write_loop (length patch) (hd_id handle) s logical offset patch 0;
    let generation := hd_dirty handle + 1 in
    update_staging (hd_id handle) (λ s, mkStagingRow generation (s_base_manifest s) (s_base_size s)
      (s_base_visible s) logical (s_capacity s + delta));;
    with_db $ λ d,
    update_handle (hd_id handle) (set_dirty generation (clock_seconds d));;
    mret generation.

(** ** Truncating *)

(** [COALESCE(sum(length(content)),0)] over the dirty chunks of a handle. *)
Definition chunk_bytes (handle : bytes) (k : bytes * Z) (c : bytes) : Z :=
  if bool_decide (k.1 = handle) then zlength c else 0.
Definition dirty_sum (handle : bytes) (t : gmap (bytes * Z) bytes) : Z :=
  map_fold (λ k c acc, chunk_bytes handle k c + acc) 0 t.
Definition dirty_bytes (handle : bytes) (d : Db) : Z := dirty_sum handle (staging_chunks d).

(** [DELETE … WHERE handle_id=… AND chunk_no>=…], from the first chunk past [size]. *)
Definition cut_chunks (handle : bytes) (size : Z) (t : gmap (bytes * Z) bytes) : gmap (bytes * Z) bytes :=
  filter (λ '((h, n), _), h ≠ handle ∨ n < (size + kContentChunkBytes - 1) / kContentChunkBytes) t.

(** The chunks of a shorter file; the new visible size of the base. *)
Definition cut_staging (handle : bytes) (s : StagingInfo) (size : Z) : M Z :=
  let remainder := size mod kContentChunkBytes in
  boundary ← (if remainder =? 0 then mret []
    else
      '(chunk, _) ← query (ReadEffectiveChunk handle s (size / kContentChunkBytes));
      mret (take (Z.to_nat remainder) chunk));
  modify (on_staging_chunks (cut_chunks handle size));;
  (if remainder =? 0 then mret () else StoreDirtyChunk handle (size / kContentChunkBytes) boundary);;
  mret (Z.min (sg_base_visible s) size).

Definition TruncateStaging (handle : Handle) (size : Z) : M Z :=
  throw_if ((size <? 0) || (kMaxStagedBytes <? size)) SQLITE_RANGE;;
  s ← query (FindStaging (hd_id handle));
  if size =? sg_logical s then mret (hd_dirty handle)
  else
    base_visible_size ← (if size <? sg_logical s then cut_staging (hd_id handle) s size else mret (sg_base_visible s));
    capacity ← query (λ d, Ok (dirty_bytes (hd_id handle) d));
    let generation := hd_dirty handle + 1 in
    update_staging (hd_id handle) (λ s, mkStagingRow generation (s_base_manifest s) (s_base_size s)
      base_visible_size size capacity);;
    with_db $ λ d,
    update_handle (hd_id handle) (set_dirty generation (clock_seconds d));;
    mret generation.

(** ** Reading *)

(** The loop of [ReadStagingRange]; [rest] bytes are still to be copied. *)
Fixpoint read_staging_loop (fuel : nat) (handle : bytes) (s : StagingInfo) (absolute rest : Z) (d : Db) : sql bytes :=
  if rest <=? 0 then Ok []
  else
    match fuel with
    | O => Throw SQLITE_ERROR
    | S fuel =>
      let chunk_no := absolute / kContentChunkBytes in
      let within := absolute mod kContentChunkBytes in
      let n := Z.min rest (kContentChunkBytes - within) in
      match ReadEffectiveChunk handle s chunk_no d with
      | Throw e => Throw e
      | Ok (chunk, _) =>
        match read_staging_loop fuel handle s (absolute + n) (rest - n) d with
        | Throw e => Throw e
        | Ok more => Ok (slice chunk within (within + n) ++ more)
        end
      end
    end.

Definition ReadStagingRange (handle : Handle) (offset len : Z) (d : Db) : sql bytes :=
  if (offset <? 0) || (len <? 0) || (kMaxStagedBytes <? offset) || (kMaxStagedBytes <? len) then Throw SQLITE_RANGE
  else
    match FindStaging (hd_id handle) d with
    | Throw e => Throw e
    | Ok s =>
      if (len =? 0) || (sg_logical s <=? offset) then Ok []
      else
        let n := Z.min len (sg_logical s - offset) in
        read_staging_loop (Z.to_nat n) (hd_id handle) s offset n d
    end.

(** ** Publishing *)

(** The number of dirty chunks of a handle and the largest chunk number, -1 if none. *)
Definition dirty_count (handle : bytes) (d : Db) : Z :=
  map_fold (λ '(h, _) (_ : bytes) acc, if bool_decide (h = handle) then 1 + acc else acc) 0 (staging_chunks d).
Definition dirty_max (handle : bytes) (d : Db) : Z :=
  map_fold (λ '(h, n) (_ : bytes) acc, if bool_decide (h = handle) then Z.max n acc else acc) (-1) (staging_chunks d).

(** One chunk of the staged content: its bytes, and the base row to share when the
    whole of it is visible ([chunk_id], 0 for none, with its checksum). *)
Definition staged_chunk (handle : bytes) (s : StagingInfo) (inode chunk_no : Z) (d : Db) : sql (bytes * Z * bytes) :=
  let offset := chunk_no * kContentChunkBytes in
  let n := Z.min kContentChunkBytes (sg_logical s - offset) in
  let buffer := zeros kContentChunkBytes in
  match staging_chunks d !! (handle, chunk_no) with
  | Some dirty =>
    if (zlength dirty <=? 0) || (kContentChunkBytes <? zlength dirty) then Throw SQLITE_CORRUPT
    else Ok (take (Z.to_nat n) (overwrite buffer 0 dirty), 0, [])
  | None =>
    if offset <? sg_base_visible s then
      let expected := Z.min kContentChunkBytes (sg_base_size s - offset) in
      match manifest_chunk (sg_base_manifest s) chunk_no d with
      | None => Throw SQLITE_CORRUPT
      | Some (id, base) =>
        if (sg_base_manifest s <=? 0) || (expected <=? 0) || negb (k_size base =? expected) ||
           negb (zlength (k_content base) =? expected) || negb (length (k_checksum base) =? 64)%nat ||
           negb (k_inode base =? inode)
        then Throw SQLITE_CORRUPT
        else
          let visible := Z.min expected (sg_base_visible s - offset) in
          let data := take (Z.to_nat n) (overwrite buffer 0 (take (Z.to_nat visible) (k_content base))) in
          if (visible =? expected) && (expected =? n) then Ok (data, id, k_checksum base)
          else
            match hashed (Sha256Hex (k_content base)) with
            | Throw e => Throw e
            | Ok checksum => if bool_decide (checksum = k_checksum base) then Ok (data, 0, k_checksum base) else Throw SQLITE_CORRUPT
            end
      end
    else Ok (take (Z.to_nat n) buffer, 0, [])
  end.

(** The loop over the chunk numbers; [count] of them are left. *)
Fixpoint store_staged (ws inode previous_manifest manifest : Z) (handle : bytes) (s : StagingInfo) (chunk_no : Z)
    (count : nat) (new_chunks : gmap bytes Z) (entries : list ManifestChunkChecksum) : M (list ManifestChunkChecksum) :=
  match count with
  | O => mret entries
  | S count =>
    '(data, chunk_id, base_checksum) ← query (staged_chunk handle s inode chunk_no);
    checksum ← lift (hashed (Sha256Hex data));
    throw_if ((0 <? chunk_id) && negb (bool_decide (checksum = base_checksum))) SQLITE_CORRUPT;;
    new_chunks ← store_chunk ws inode previous_manifest manifest chunk_no data checksum chunk_id new_chunks;
    store_staged ws inode previous_manifest manifest handle s (chunk_no + 1) count new_chunks
      (entries ++ [mkChunkChecksum (zlength data) checksum])
  end.

Definition StoreManifestFromStaging (ws inode previous_manifest : Z) (handle : Handle) (s : StagingInfo) : M (Z * bytes) :=
  throw_if ((sg_logical s <? 0) || (kMaxStagedBytes <? sg_logical s) || (sg_base_size s <? 0) ||
    (kMaxStagedBytes <? sg_base_size s) || (sg_base_visible s <? 0) || (sg_base_size s <? sg_base_visible s) ||
    (sg_capacity s <? 0) || (kMaxStagedBytes <? sg_capacity s)) SQLITE_CORRUPT;;
  let chunk_count := chunk_count_of (sg_logical s) in
  with_db $ λ d,
  throw_if (negb (dirty_bytes (hd_id handle) d =? sg_capacity s) ||
    ((0 <? dirty_count (hd_id handle) d) && (chunk_count <=? dirty_max (hd_id handle) d))) SQLITE_CORRUPT;;
  manifest ← insert_manifest (mkManifestRow ws (sg_logical s) kContentChunkBytes chunk_count pending_checksum);
  entries ← store_staged ws inode previous_manifest manifest (hd_id handle) s 0 (Z.to_nat chunk_count) ∅ [];
  checksum ← finalize_manifest manifest (sg_logical s) entries;
  mret (manifest, checksum).

(** [transaction_owned] says that the caller holds the lock and the savepoint. *)
Definition StoreVersionFromStaging (w : Workspace) (node : Node) (handle : Handle) (generation : Z) (message : bytes)
    (transaction_owned : bool) : M Z :=
  (if transaction_owned then mret () else AcquireWriteLock);;
  s ← query (FindStaging (hd_id handle));
  throw_if (negb (sg_generation s =? generation)) SQLITE_NOTFOUND;;
  previous_manifest ← query (previous_manifest_of node);
  query (CheckQuotaForContentSize (ws_id w) (n_id node) (sg_logical s));;
  manifest ← publish_version w node (sg_logical s)
    (if transaction_owned then CreateCommitInTransaction w message else CreateCommit w message)
    (StoreManifestFromStaging (ws_id w) (n_id node) previous_manifest handle s);
  update_staging (hd_id handle) (λ s, mkStagingRow (s_generation s) (Some manifest) (s_logical s) (s_logical s) (s_logical s) 0);;
  modify (on_staging_chunks (filter (λ '((h, _), _), h ≠ hd_id handle)));;
  mret (n_version node + 1).

Definition set_published (version generation now : Z) (h : handle_row) : handle_row :=
  mkHandleRow (h_workspace h) (h_inode h) (h_writable h) version (h_dirty_generation h)
    generation (h_state h) (h_lease_until h) (h_owner_session h) now.

Definition PublishHandleInTransaction (handle : Handle) (generation : Z) (transaction_owned : bool) : M Z :=
  throw_if (bool_decide (hd_state handle = Closed)) SQLITE_NOTFOUND;;
  if generation <=? hd_published handle then
    node ← query (NodeById (hd_inode handle) true);
    mret (n_version node)
  else
    throw_if (negb (generation =? hd_dirty handle)) SQLITE_CONSTRAINT;;
    node ← query (NodeById (hd_inode handle) true);
    throw_if (negb (n_version node =? hd_expected_version handle)) SQLITE_CONSTRAINT;;
    w ← query (WorkspaceById (hd_workspace handle));
    version ← StoreVersionFromStaging w node handle generation (str "handle publish") transaction_owned;
    with_db $ λ d,
    update_handle (hd_id handle) (set_published version generation (clock_seconds d));;
    mret version.

Definition PublishHandle (handle : Handle) (generation : Z) : M Z :=
  Savepoint (PublishHandleInTransaction handle generation false).
