(* ===== verification/VexfsHandles.v ===== *)
(** * The handle functions

    The SQL functions on handles of [src/vexdb_sqlite/src/agent_files/vexfs_sqlite.cpp] with
    the replay of completed requests. An argument is [None] when it is [NULL];
    integers are what [sqlite3_value_int64] makes of their argument. The schema is
    ready, so [EnsureSchema] does nothing. *)
From Stdlib Require Import ZArith Lia String.
From stdpp Require Import prelude gmap.
From S2P Require Import Prelude Sha256 VexfsText VexfsDb VexfsTree VexfsStore VexfsStaging.

Local Open Scope Z_scope.

Definition RequiredText (value : option bytes) : sql bytes :=
  match value with None => Throw SQLITE_MISMATCH | Some text => Ok text end.

Definition RequiredBlob (value : option bytes) : sql bytes :=
  match value with None => Throw SQLITE_MISMATCH | Some blob => Ok blob end.

(** ** Completed requests *)

Definition kRequestRetentionRows : Z := 64 * 1024.
Definition kRequestPruneInterval : Z := 4 * 1024.

Inductive CachedRequest := kMissing | kInteger (integer : Z) | kText (text : bytes).

(** The row of a request: [request_id] is the primary key. *)
Definition request_of (request_id : bytes) (d : Db) : option request_row :=
  snd <$> head (filter (λ '(_, q), q_request_id q = request_id) (map_to_list (requests d))).

Definition FindRequest (request_id operation fingerprint : bytes) (d : Db) : sql CachedRequest :=
  match request_id with
  | [] => Ok kMissing
  | _ =>
    match request_of request_id d with
    | None => Ok kMissing
    | Some q =>
      if negb (bool_decide (q_operation q = operation)) then Throw SQLITE_CONSTRAINT
      else if negb (bool_decide (q_fingerprint q = fingerprint)) then Throw SQLITE_CONSTRAINT
      else
        match q_text q with
        | Some text => Ok (kText text)
        | None => Ok (kInteger (int64 (q_integer q)))
        end
    end
  end.

Definition MaybePruneRequests (newest_rowid : Z) : M () :=
  if (newest_rowid <=? kRequestRetentionRows) || negb (newest_rowid mod kRequestPruneInterval =? 0) then mret ()
  else modify (on_requests (filter (λ '(rowid, _), newest_rowid - kRequestRetentionRows < rowid))).

Definition insert_request (row : request_row) : M () :=
  with_db $ λ d,
  throw_if (bool_decide (is_Some (request_of (q_request_id row) d))) SQLITE_CONSTRAINT;;
  let rowid := next_rowid (requests d) in
  modify (on_requests (insert rowid row));;
  MaybePruneRequests rowid.

Definition StoreRequestInteger (request_id operation fingerprint : bytes) (r : Z) : M () :=
  match request_id with
  | [] => mret ()
  | _ => insert_request (mkRequestRow request_id operation fingerprint (Some r) None)
  end.

Definition StoreRequestText (request_id operation fingerprint : bytes) (r : bytes) : M () :=
  match request_id with
  | [] => mret ()
  | _ => insert_request (mkRequestRow request_id operation fingerprint None (Some r))
  end.

(** A function with an integer result: the result of a completed request is returned
    as it is; otherwise the work is done and its result recorded. *)
Definition replayed (request_id operation fingerprint : bytes) (work : M Z) : M Z :=
  cached ← query (FindRequest request_id operation fingerprint);
  match cached with
  | kInteger r => mret r
  | _ => work
  end.

(** ** The functions *)

Definition stage_write_fingerprint (handle : bytes) (offset : Z) (patch : bytes) : bytes :=
  FinishFingerprint (AddBlob (AddInt64 (AddText (NewFingerprint (str "handle_stage_write")) handle) offset) patch).

Definition HandleStageWriteFunction (handle : option bytes) (offset : Z) (content request : option bytes) : M Z :=
  handle_id ← lift (RequiredText handle);
  patch ← lift (RequiredBlob content);
  request_id ← lift (RequiredText request);
  let fingerprint := stage_write_fingerprint handle_id offset patch in
  replayed request_id (str "handle_stage_write") fingerprint (
    h ← query (FindHandle handle_id);
    throw_if (negb (bool_decide (hd_state h = Open))) SQLITE_NOTFOUND;;
    throw_if (negb (hd_writable h)) SQLITE_READONLY;;
    throw_if ((offset <? 0) || (kMaxStagedBytes <? offset)) SQLITE_RANGE;;
    throw_if (kMaxStagedBytes - offset <? zlength patch) SQLITE_TOOBIG;;
    s ← query (FindStaging handle_id);
    let staged_size := Z.max (sg_logical s) (offset + zlength patch) in
    query (CheckQuotaForContentSize (hd_workspace h) (hd_inode h) staged_size);;
    generation ← StageWrite h offset patch;
    StoreRequestInteger request_id (str "handle_stage_write") fingerprint generation;;
    mret generation).

Definition set_expected (h : Handle) (version : Z) : Handle :=
  mkHandle (hd_id h) (hd_workspace h) (hd_inode h) (hd_writable h) version (hd_dirty h) (hd_published h) (hd_state h) (hd_owner h).
Definition set_generation (h : Handle) (generation : Z) : Handle :=
  mkHandle (hd_id h) (hd_workspace h) (hd_inode h) (hd_writable h) (hd_expected_version h) generation (hd_published h)
    (hd_state h) (hd_owner h).

(** The staging area of a handle goes away. *)
Definition remove_staging (handle : bytes) : M () :=
  modify (on_staging_chunks (filter (λ '((h, _), _), h ≠ handle)));;
  modify (on_staging (delete handle)).

Definition HandleAppendFunction (handle content request : option bytes) : M Z :=
  handle_id ← lift (RequiredText handle);
  suffix ← lift (RequiredBlob content);
  request_id ← lift (RequiredText request);
  let fingerprint := FinishFingerprint (AddBlob (AddText (NewFingerprint (str "handle_append")) handle_id) suffix) in
  replayed request_id (str "handle_append") fingerprint (
    h ← query (FindHandle handle_id);
    throw_if (negb (bool_decide (hd_state h = Open))) SQLITE_NOTFOUND;;
    throw_if (negb (hd_writable h)) SQLITE_READONLY;;
    throw_if (negb (hd_dirty h =? hd_published h)) SQLITE_CONSTRAINT;;
    w ← query (WorkspaceById (hd_workspace h));
    Savepoint (
      AcquireWriteLock;;
      node ← query (NodeById (hd_inode h) true);
      throw_if (negb (bool_decide (n_kind node = KFile))) SQLITE_MISMATCH;;
      throw_if ((n_size node <? 0) || (kMaxStagedBytes <? n_size node) || (kMaxStagedBytes - n_size node <? zlength suffix))
        SQLITE_TOOBIG;;
      query (CheckQuotaForContentSize (ws_id w) (n_id node) (n_size node + zlength suffix));;
      remove_staging (hd_id h);;
      let h := set_expected h (n_version node) in
      CreateStagingFromVersion h node;;
      generation ← StageWrite h (n_size node) suffix;
      let h := set_generation h generation in
      version ← PublishHandleInTransaction h generation false;
      StoreRequestInteger request_id (str "handle_append") fingerprint version;;
      mret version)).

Definition HandleTruncateFunction (handle : option bytes) (size : Z) (request : option bytes) : M Z :=
  handle_id ← lift (RequiredText handle);
  request_id ← lift (RequiredText request);
  let fingerprint := FinishFingerprint (AddInt64 (AddText (NewFingerprint (str "handle_truncate")) handle_id) size) in
  replayed request_id (str "handle_truncate") fingerprint (
    h ← query (FindHandle handle_id);
    throw_if (negb (bool_decide (hd_state h = Open))) SQLITE_NOTFOUND;;
    throw_if (negb (hd_writable h)) SQLITE_READONLY;;
    throw_if ((size <? 0) || (kMaxStagedBytes <? size)) SQLITE_RANGE;;
    query (CheckQuotaForContentSize (hd_workspace h) (hd_inode h) size);;
    generation ← TruncateStaging h size;
    StoreRequestInteger request_id (str "handle_truncate") fingerprint generation;;
    mret generation).

Definition HandleReadFunction (handle : option bytes) (offset len : Z) (d : Db) : sql bytes :=
  match RequiredText handle with
  | Throw e => Throw e
  | Ok id =>
    match FindHandle id d with
    | Throw e => Throw e
    | Ok h =>
      if bool_decide (hd_state h = Closed) then Throw SQLITE_NOTFOUND
      else if (offset <? 0) || (len <? 0) then Throw SQLITE_RANGE
      else ReadStagingRange h offset len d
    end
  end.

Definition durable (durability : bytes) : bool :=
  bool_decide (durability = str "none") || bool_decide (durability = str "data") || bool_decide (durability = str "full").

Definition HandlePublishFunction (handle : option bytes) (generation : Z) (durability request : option bytes) : M Z :=
  handle_id ← lift (RequiredText handle);
  durability ← lift (RequiredText durability);
  request_id ← lift (RequiredText request);
  let fingerprint := FinishFingerprint
    (AddText (AddInt64 (AddText (NewFingerprint (str "handle_publish")) handle_id) generation) durability) in
  replayed request_id (str "handle_publish") fingerprint (
    throw_if (negb (durable durability)) SQLITE_MISMATCH;;
    h ← query (FindHandle handle_id);
    version ← PublishHandle h generation;
    StoreRequestInteger request_id (str "handle_publish") fingerprint version;;
    mret version).

Definition set_closed (state : HandleState) (lease : option Z) (now : Z) (h : handle_row) : handle_row :=
  mkHandleRow (h_workspace h) (h_inode h) (h_writable h) (h_expected_version h) (h_dirty_generation h)
    (h_published_generation h) state lease (h_owner_session h) now.

Definition HandlePublishCloseFunction (handle : option bytes) (generation : Z) (durability : option bytes) : M Z :=
  handle_id ← lift (RequiredText handle);
  durability ← lift (RequiredText durability);
  throw_if (negb (durable durability)) SQLITE_MISMATCH;;
  Savepoint (
    h ← query (FindHandle handle_id);
    version ← PublishHandleInTransaction h generation false;
    with_db (λ d, update_handle handle_id (set_closed Closed None (clock_seconds d)));;
    remove_staging handle_id;;
    mret version).

Definition state_text (state : HandleState) : bytes :=
  match state with Open => str "open" | Retained => str "retained" | Closed => str "closed" end.

Definition HandleCloseFunction (handle : option bytes) (retain_requested : bool) (request : option bytes) : M bytes :=
  handle_id ← lift (RequiredText handle);
  request_id ← lift (RequiredText request);
  let fingerprint := FinishFingerprint
    (AddInt64 (AddText (NewFingerprint (str "handle_close")) handle_id) (if retain_requested then 1 else 0)) in
  cached ← query (FindRequest request_id (str "handle_close") fingerprint);
  match cached with
  | kText text => mret text
  | _ =>
    h ← query (FindHandle handle_id);
    let retain := retain_requested && (hd_published h <? hd_dirty h) in
    let state := if retain then Retained else Closed in
    with_db (λ d, update_handle (hd_id h)
      (set_closed state (if retain then Some ((clock d / 1000 + 86400) * 1000) else None) (clock_seconds d)));;
    (if retain then mret () else remove_staging (hd_id h));;
    StoreRequestText request_id (str "handle_close") fingerprint (state_text state);;
    mret (state_text state)
  end.
