(* ===== verification/VexfsChunks.v ===== *)
(** * Chunks of a byte array

    The chunk of a content at a number, its zero padding, and how an overwrite of
    the content acts on its chunks. *)
From Stdlib Require Import ZArith Lia String.
From stdpp Require Import prelude.
From S2P Require Import Prelude Sha256 VexfsText VexfsStore VexfsStoreFacts VexfsStaging.

Local Open Scope Z_scope.
Implicit Types l r d content patch part : bytes.

Definition chunk_of (content : bytes) (n : Z) : bytes :=
  slice content (n * kContentChunkBytes) ((n + 1) * kContentChunkBytes).

(** Zeros up to a full chunk. *)
Definition pad (l : bytes) : bytes := l ++ zeros (kContentChunkBytes - zlength l).

(** Growing with zeros, and writing inside. *)
Definition grow (content : bytes) (size : Z) : bytes := content ++ zeros (size - zlength content).
Definition write_at (content : bytes) (offset : Z) (patch : bytes) : bytes :=
  overwrite (grow content (offset + zlength patch)) (Z.to_nat offset) patch.

Lemma zlength_zeros n : zlength (zeros n) = Z.max 0 n.
Proof. unfold zlength, zeros. rewrite length_replicate. lia. Qed.

Lemma zlength_grow content size : zlength (grow content size) = Z.max (zlength content) size.
Proof. unfold grow. rewrite zlength_app, zlength_zeros. pose proof (zlength_nonneg content). lia. Qed.

Lemma zlength_overwrite l i d : 0 <= i → i + zlength d <= zlength l → zlength (overwrite l (Z.to_nat i) d) = zlength l.
Proof. unfold zlength. intros. rewrite length_overwrite; lia. Qed.

Lemma zlength_write_at content offset patch :
  0 <= offset → zlength (write_at content offset patch) = Z.max (zlength content) (offset + zlength patch).
Proof. intros. unfold write_at. rewrite zlength_overwrite; rewrite ?zlength_grow; lia. Qed.

Lemma slice_lookup l a b i :
  0 <= a → slice l a b !! i = if decide (Z.of_nat i < b - a) then l !! (Z.to_nat a + i)%nat else None.
Proof.
  intros. unfold slice. case_decide.
  - rewrite lookup_take_lt, lookup_drop by lia. done.
  - apply lookup_take_ge. lia.
Qed.

Lemma zlength_slice_le l a b : 0 <= a → zlength (slice l a b) = Z.max 0 (Z.min (b - a) (zlength l - a)).
Proof.
  intros. unfold zlength, slice. rewrite length_take, length_drop. lia.
Qed.

Lemma zlength_chunk content n : 0 <= n →
  zlength (chunk_of content n) = Z.max 0 (Z.min kContentChunkBytes (zlength content - n * kContentChunkBytes)).
Proof.
  sizes. intros. unfold chunk_of. rewrite zlength_slice_le by lia.
  rewrite Z.mul_add_distr_r. lia.
Qed.

Lemma zlength_pad l : zlength l <= kContentChunkBytes → zlength (pad l) = kContentChunkBytes.
Proof. intros. unfold pad. rewrite zlength_app, zlength_zeros. lia. Qed.

Lemma slice_app_l l r a b : 0 <= a → b <= zlength l → slice (l ++ r) a b = slice l a b.
Proof.
  intros Ha Hb. apply list_eq. intros i. rewrite !slice_lookup by done. case_decide; [|done].
  apply lookup_app_l. unfold zlength in Hb. lia.
Qed.

Lemma take_slice l n : take (Z.to_nat n) l = slice l 0 n.
Proof. unfold slice. rewrite drop_0. by rewrite Z.sub_0_r. Qed.

Lemma slice_clip l a b : 0 <= a → zlength l <= b → slice l a b = slice l a (zlength l).
Proof.
  intros Ha Hb. apply list_eq. intros i. rewrite !slice_lookup by done.
  repeat case_decide; try done; try (unfold zlength in *; lia). apply lookup_ge_None. unfold zlength in *. lia.
Qed.

Lemma slice_take l n a b : 0 <= a → slice (take (Z.to_nat n) l) a b = slice l a (Z.min n b).
Proof.
  intros Ha. apply list_eq. intros i. rewrite !slice_lookup by done.
  repeat case_decide; try lia; try done; [rewrite lookup_take_lt by lia; done|].
  apply lookup_take_ge. lia.
Qed.

Lemma overwrite_nil l d : length d = length l → overwrite l 0 d = d.
Proof. intros H. unfold overwrite. simpl. rewrite H, drop_all. apply app_nil_r. Qed.

(** [memcpy] to the front of a zeroed buffer. *)
Lemma overwrite_zeros d : zlength d <= kContentChunkBytes → overwrite (zeros kContentChunkBytes) 0 d = pad d.
Proof.
  intros H. unfold overwrite, pad. simpl. f_equal. unfold zeros. 
  rewrite drop_replicate. f_equal. unfold zlength. lia.
Qed.

(** ** Growing does not change the padded chunks *)

Lemma pad_zeros l n : zlength l + Z.max 0 n <= kContentChunkBytes → pad (l ++ zeros n) = pad l.
Proof.
  intros H. unfold pad. rewrite <- app_assoc. f_equal. rewrite zlength_app, zlength_zeros.
  unfold zeros. rewrite <- replicate_add. f_equal. pose proof (zlength_nonneg l). lia.
Qed.

Lemma slice_zeros n a b : 0 <= a → slice (zeros n) a b = zeros (Z.min b n - a).
Proof.
  intros Ha. unfold slice, zeros. rewrite drop_replicate, take_replicate. f_equal. lia.
Qed.

Lemma slice_app_r l r a b : zlength l <= a → slice (l ++ r) a b = slice r (a - zlength l) (b - zlength l).
Proof.
  intros Ha. pose proof (zlength_nonneg l). apply list_eq. intros i. rewrite !slice_lookup by lia.
  destruct (decide (Z.of_nat i < b - a)); [rewrite decide_True by lia|by rewrite decide_False by lia].
  rewrite lookup_app_r by (unfold zlength in *; lia). f_equal. unfold zlength in *. lia.
Qed.

Lemma pad_chunk_grow content size n : 0 <= n → pad (chunk_of (grow content size) n) = pad (chunk_of content n).
Proof.
  sizes. intros Hn. unfold grow, chunk_of. set (a := n * kContentChunkBytes). rewrite Z.mul_add_distr_r, Z.mul_1_l. fold a.
  assert (0 <= a) by lia. set (B := kContentChunkBytes) in *. set (z := zeros _).
  destruct (Z.le_gt_cases (a + B) (zlength content)).
  - rewrite slice_app_l by lia. done.
  - destruct (Z.le_gt_cases a (zlength content)).
    + rewrite <- (slice_app (content ++ z) a (zlength content)) by lia. rewrite slice_app_l, slice_app_r by lia.
      rewrite (slice_clip content a (a + B)) by lia. unfold z. rewrite slice_zeros by lia. apply pad_zeros.
      rewrite zlength_slice_le by lia. fold B. lia.
    + rewrite slice_app_r by lia. unfold z. rewrite slice_zeros by lia.
      replace (slice content a (a + B)) with (@nil Z).
      * rewrite <- (app_nil_l (zeros (_ - _))). apply pad_zeros. fold B. change (zlength []) with 0. lia.
      * symmetry. apply list_eq. intros i. rewrite slice_lookup by lia. case_decide; [|done].
        apply lookup_ge_None. unfold zlength in *. lia.
Qed.

(** ** Overwriting inside one chunk *)

Lemma overwrite_app l i d1 d2 :
  (i + length d1 + length d2 ≤ length l)%nat → overwrite (overwrite l i d1) (i + length d1) d2 = overwrite l i (d1 ++ d2).
Proof.
  intros H. apply list_eq. intros j. rewrite !overwrite_lookup; rewrite ?length_app, ?length_overwrite; try lia.
  repeat case_decide; try lia; try done.
  - rewrite lookup_app_r by lia. f_equal. lia.
  - rewrite lookup_app_l by lia. done.
Qed.

Section Overwrite.
Context (content part : bytes) (n within : Z).
Hypothesis (Hn : 0 <= n) (Hw : 0 <= within) (Hfit : within + zlength part <= kContentChunkBytes).
Hypothesis (Hend : n * kContentChunkBytes + within + zlength part <= zlength content).

Abbreviation content' := (overwrite content (Z.to_nat (n * kContentChunkBytes + within)) part).

Lemma chunk_overwrite_same : chunk_of content' n = overwrite (chunk_of content n) (Z.to_nat within) part.
Proof.
  sizes. pose proof (zlength_nonneg part). assert (0 <= n * kContentChunkBytes) by lia.
  assert (Hc : (Z.to_nat within + length part ≤ length (chunk_of content n))%nat).
  { pose proof (zlength_chunk content n Hn). unfold zlength in *. lia. }
  apply list_eq. intros i. rewrite overwrite_lookup by done. unfold chunk_of. rewrite !slice_lookup by lia.
  rewrite overwrite_lookup by (unfold zlength in *; lia). rewrite Z.mul_add_distr_r, Z.mul_1_l.
  repeat case_decide; try done; try (unfold zlength in *; lia). f_equal. lia.
Qed.

Lemma chunk_overwrite_other n' : 0 <= n' → n' ≠ n → chunk_of content' n' = chunk_of content n'.
Proof.
  sizes. pose proof (zlength_nonneg part). intros Hn' Hne. assert (0 <= n * kContentChunkBytes) by lia.
  apply list_eq. intros i. unfold chunk_of. rewrite !slice_lookup by lia. case_decide as Hi; [|done].
  rewrite overwrite_lookup by (unfold zlength in *; lia). case_decide as Hj; [|done]. exfalso.
  rewrite Z.mul_add_distr_r, Z.mul_1_l in Hi. unfold zlength in *.
  assert (0 <= n' * kContentChunkBytes) by lia.
  destruct (Z.lt_trichotomy n' n) as [|[|]]; [|done|].
  - assert ((n' + 1) * kContentChunkBytes <= n * kContentChunkBytes) by (apply Z.mul_le_mono_nonneg_r; lia). lia.
  - assert ((n + 1) * kContentChunkBytes <= n' * kContentChunkBytes) by (apply Z.mul_le_mono_nonneg_r; lia). lia.
Qed.

(** The chunk the writer stores: read padded, overwritten, cut to the new size. *)
Lemma stored_chunk :
  take (Z.to_nat (Z.min kContentChunkBytes (zlength content - n * kContentChunkBytes)))
    (overwrite (pad (chunk_of content n)) (Z.to_nat within) part) = chunk_of content' n.
Proof.
  sizes. pose proof (zlength_nonneg part). rewrite chunk_overwrite_same.
  pose proof (zlength_chunk content n Hn) as Hl. unfold overwrite, pad. unfold zlength in *.
  set (c := chunk_of content n) in *. set (z := zeros _).
  rewrite (take_app_le c z), (drop_app_le c z) by lia. rewrite !app_assoc, take_app_le, take_ge; [done|..].
  all: rewrite ?length_app, ?length_take, ?length_drop; lia.
Qed.

(** A patch that fills the chunk. *)
Lemma full_chunk : within = 0 → zlength part = kContentChunkBytes → chunk_of content' n = part.
Proof.
  sizes. intros Hw0 Hp. rewrite chunk_overwrite_same. rewrite Hw0. apply overwrite_nil.
  pose proof (zlength_chunk content n Hn). unfold zlength in *. lia.
Qed.
End Overwrite.

(** ** Reading and cutting *)

Lemma slice_pad_chunk content n a b : 0 <= n → 0 <= a → b <= kContentChunkBytes →
  n * kContentChunkBytes + b <= zlength content →
  slice (pad (chunk_of content n)) a b = slice content (n * kContentChunkBytes + a) (n * kContentChunkBytes + b).
Proof.
  sizes. intros Hn Ha Hb Hl. unfold pad. rewrite slice_app_l; [|done|rewrite zlength_chunk by done; lia].
  unfold chunk_of. rewrite slice_slice; [done|lia|done|lia].
Qed.

Lemma take_pad_chunk content n : 0 <= n →
  take (Z.to_nat (Z.min kContentChunkBytes (zlength content - n * kContentChunkBytes))) (pad (chunk_of content n)) =
  chunk_of content n.
Proof.
  sizes. intros Hn. pose proof (zlength_chunk content n Hn) as Hl. unfold pad.
  apply take_app_length'. unfold zlength in *. lia.
Qed.

Lemma chunk_take content size n : 0 <= n →
  chunk_of (take (Z.to_nat size) content) n =
    slice content (n * kContentChunkBytes) (Z.min size ((n + 1) * kContentChunkBytes)).
Proof. sizes. intros. unfold chunk_of. apply slice_take. lia. Qed.

Lemma chunk_nil content n : 0 <= n → zlength content <= n * kContentChunkBytes → chunk_of content n = [].
Proof.
  intros Hn Hl. apply nil_length_inv. pose proof (zlength_chunk content n Hn). unfold zlength in *. lia.
Qed.

Lemma pieces_chunk content n : 0 <= n < chunk_count_of (zlength content) →
  pieces C content !! Z.to_nat n = Some (chunk_of content n).
Proof.
  intros Hn. destruct (lookup_lt_is_Some_2 (pieces C content) (Z.to_nat n)) as [x Hx].
  { pose proof (length_pieces_C content). lia. }
  rewrite Hx. f_equal. apply piece_slice in Hx. rewrite Z2Nat.id in Hx by lia. done.
Qed.

Lemma chunk_count_lt size n : 0 <= n → n < chunk_count_of size ↔ n * kContentChunkBytes < size.
Proof.
  sizes. intros Hn. unfold chunk_count_of. split.
  - intros Hlt. assert (n + 1 <= (size + kContentChunkBytes - 1) / kContentChunkBytes) as Hle by lia.
    pose proof (Z.mul_div_le (size + kContentChunkBytes - 1) kContentChunkBytes ltac:(lia)). nia.
  - intros Hlt. assert (n + 1 <= (size + kContentChunkBytes - 1) / kContentChunkBytes); [|lia].
    apply Z.div_le_lower_bound; lia.
Qed.
