(* ===== verification/VexfsStagingFacts.v ===== *)
(** * The staging area is a byte array

    A staging area stands for one content: dirty chunks over the visible part of the
    base, zeros elsewhere. Writing, truncating and reading through the chunks do to
    that content what they would do to a plain array of bytes. *)
From Stdlib Require Import ZArith Lia String.
From stdpp Require Import prelude gmap.
From S2P Require Import Prelude Sha256 Sha256Facts VexfsText VexfsDb VexfsTree VexfsStore VexfsStoreFacts VexfsStoreWrite VexfsStaging VexfsChunks.

Local Open Scope Z_scope.
Implicit Types d : Db.

(** ** Dirty chunks *)

Lemma dirty_sum_fresh handle t k c : t !! k = None → dirty_sum handle (<[k := c]> t) = chunk_bytes handle k c + dirty_sum handle t.
Proof. intros H. unfold dirty_sum. rewrite map_fold_insert_L; [done|intros; lia|done]. Qed.

Lemma dirty_sum_delete handle t k :
  dirty_sum handle t = match t !! k with Some c => chunk_bytes handle k c | None => 0 end + dirty_sum handle (delete k t).
Proof.
  destruct (t !! k) as [c|] eqn:E.
  - rewrite <- (insert_delete_id t k c) at 1 by done. apply dirty_sum_fresh, lookup_delete_eq.
  - by rewrite delete_id by done.
Qed.

Lemma dirty_sum_insert handle t n c :
  dirty_sum handle (<[(handle, n) := c]> t) =
    dirty_sum handle t - match t !! (handle, n) with Some x => zlength x | None => 0 end + zlength c.
Proof.
  rewrite <- insert_delete_eq, dirty_sum_fresh by apply lookup_delete_eq.
  rewrite (dirty_sum_delete handle t (handle, n)). unfold chunk_bytes. simpl. rewrite bool_decide_eq_true_2 by done.
  destruct (t !! (handle, n)); lia.
Qed.

Lemma dirty_sum_none handle t : (∀ n c, t !! (handle, n) = Some c → False) → dirty_sum handle t = 0.
Proof.
  induction t as [|[h n] c t Hk IH] using map_ind; intros H; [done|]. rewrite dirty_sum_fresh by done.
  rewrite IH; [|intros n' c' E; apply (H n' c'); rewrite lookup_insert_ne; congruence].
  unfold chunk_bytes. simpl. case_bool_decide as E; [|done]. subst h. exfalso. eapply (H n c), lookup_insert_eq.
Qed.

Lemma dirty_sum_ext handle t t' : (∀ n, t' !! (handle, n) = t !! (handle, n)) → dirty_sum handle t = dirty_sum handle t'.
Proof.
  revert t'. induction t as [|[h n] c t Hk IH] using map_ind; intros t' Heq.
  - change (dirty_sum handle ∅) with 0. symmetry. apply dirty_sum_none. intros n c. by rewrite Heq, lookup_empty.
  - rewrite dirty_sum_fresh by done. destruct (decide (h = handle)) as [->|Hne].
    + rewrite (dirty_sum_delete handle t' (handle, n)), Heq, lookup_insert_eq. f_equal. apply IH.
      intros n'. destruct (decide (n = n')) as [->|]; [by rewrite lookup_delete_eq|].
      rewrite lookup_delete_ne, Heq, lookup_insert_ne by congruence. done.
    + unfold chunk_bytes. simpl. rewrite bool_decide_eq_false_2 by done. apply IH.
      intros n'. rewrite Heq, lookup_insert_ne by congruence. done.
Qed.

(** The chunks of a handle fit their places in a file of [L] bytes. *)
Definition chunks_fit (handle : bytes) (t : gmap (bytes * Z) bytes) (L : Z) : Prop :=
  ∀ n c, t !! (handle, n) = Some c →
    0 <= n ∧ 0 < zlength c <= kContentChunkBytes ∧ n * kContentChunkBytes + zlength c <= L.

(** Together they are no longer than the file. *)
Lemma dirty_sum_bound handle L : 0 <= L → ∀ t, chunks_fit handle t L → 0 <= dirty_sum handle t <= L.
Proof.
  sizes. intros HL.
  assert (Hk : ∀ k t, chunks_fit handle t L → (∀ n c, t !! (handle, n) = Some c → n < Z.of_nat k) →
    0 <= dirty_sum handle t <= Z.min L (Z.of_nat k * kContentChunkBytes)).
  { induction k as [|k IH]; intros t Hfit Hlt.
    - rewrite dirty_sum_none; [lia|]. intros n c E. specialize (Hlt n c E). destruct (Hfit n c E). lia.
    - rewrite (dirty_sum_delete handle t (handle, Z.of_nat k)).
      destruct (IH (delete (handle, Z.of_nat k) t)) as [I1 I2].
      + intros n c [_ E]%lookup_delete_Some. by apply Hfit.
      + intros n c [Hne E]%lookup_delete_Some. specialize (Hlt n c E).
        assert (n ≠ Z.of_nat k) by congruence. lia.
      + unfold chunk_bytes. simpl. rewrite bool_decide_eq_true_2 by done.
        destruct (t !! (handle, Z.of_nat k)) as [c|] eqn:E; [|lia].
        destruct (Hfit _ c E) as (_ & ? & ?). lia. }
  intros t Hfit. destruct (Hk (Z.to_nat L + 1)%nat t Hfit) as [? ?]; [|lia].
  intros n c E. destruct (Hfit n c E) as (? & ? & ?). nia.
Qed.

(** ** The overlay *)

(** The bytes of a chunk: the dirty ones, or the visible ones of the base. *)
Definition effective (d : Db) (handle : bytes) (visible : Z) (base : bytes) (n : Z) : bytes :=
  match staging_chunks d !! (handle, n) with
  | Some c => c
  | None => chunk_of (take (Z.to_nat visible) base) n
  end.

Definition shows (d : Db) (handle : bytes) (visible : Z) (base content : bytes) : Prop :=
  ∀ n, 0 <= n → pad (effective d handle visible base n) = pad (chunk_of content n).

Record base_ok (d : Db) (inode : Z) (s : staging_row) (base : bytes) : Prop := {
  bo_visible : 0 <= s_base_visible s <= s_base_size s;
  bo_size : s_base_size s <= kMaxStagedBytes;
  bo_length : zlength base = s_base_size s;
  bo_holds : 0 < s_base_visible s → ∃ m, s_base_manifest s = Some m ∧ 0 < m ∧ is_Some (manifests d !! m) ∧
    holds d m inode (pieces C base);
}.

(** The staging area of [handle] stands for [content]. *)
Record staged (d : Db) (handle : bytes) (inode : Z) (s : staging_row) (base content : bytes) : Prop := {
  sd_row : staging d !! handle = Some s;
  sd_base : base_ok d inode s base;
  sd_logical : s_logical s = zlength content;
  sd_max : zlength content <= kMaxStagedBytes;
  sd_visible : s_base_visible s <= zlength content;
  sd_dirty : chunks_fit handle (staging_chunks d) (zlength content);
  sd_capacity : s_capacity s = dirty_bytes handle d;
  sd_shows : shows d handle (s_base_visible s) base content;
}.

Definition stages (d : Db) (handle : bytes) (inode : Z) (content : bytes) : Prop :=
  ∃ s base, staged d handle inode s base content.

(** What the base contributes to a chunk. *)
Lemma manifest_base_row d inode s base n :
  base_ok d inode s base → 0 <= n → n * kContentChunkBytes < s_base_visible s →
  ∃ m id row, s_base_manifest s = Some m ∧ 0 < m ∧ manifest_chunk m n d = Some (id, row) ∧
    row_of inode (chunk_of base n) row ∧
    zlength (k_content row) = Z.min kContentChunkBytes (s_base_size s - n * kContentChunkBytes) ∧
    take (Z.to_nat (Z.min (zlength (k_content row)) (s_base_visible s - n * kContentChunkBytes))) (k_content row) =
      chunk_of (take (Z.to_nat (s_base_visible s)) base) n.
Proof.
  sizes. intros [Hv Hs Hl Hh] Hn Hlt. destruct Hh as (m & Hm & Hpos & _ & [_ Hrows]); [lia|].
  assert (n < chunk_count_of (zlength base)) by (apply chunk_count_lt; lia).
  destruct (Hrows (Z.to_nat n) (chunk_of base n)) as (id & row & Hmc & Hrow); [by apply pieces_chunk|].
  rewrite Z2Nat.id in Hmc by done. exists m, id, row.
  assert (Hlen : zlength (k_content row) = Z.min kContentChunkBytes (s_base_size s - n * kContentChunkBytes)).
  { destruct Hrow as [-> _]. rewrite zlength_chunk by done. lia. }
  split_and!; [done..|]. rewrite Hlen, chunk_take by done. destruct Hrow as [-> _]. unfold chunk_of.
  rewrite take_slice, slice_slice by lia. f_equal; lia.
Qed.

Lemma pad_nil : pad [] = zeros kContentChunkBytes.
Proof. unfold pad. change (zlength []) with 0. by rewrite Z.sub_0_r. Qed.

Lemma read_effective_ok d handle inode s base L n :
  base_ok d inode s base → chunks_fit handle (staging_chunks d) L → 0 <= n →
  ReadEffectiveChunk handle (staging_info s) n d =
    Ok (pad (effective d handle (s_base_visible s) base n), DirtyChunkSize handle n d).
Proof.
  sizes. intros Hbase Hfit Hn. unfold ReadEffectiveChunk, effective, DirtyChunkSize.
  destruct (Z.ltb_spec n 0); [lia|]. destruct (staging_chunks d !! (handle, n)) as [c|] eqn:E.
  - destruct (Hfit n c E) as (_ & ? & _). destruct (Z.leb_spec (zlength c) 0), (Z.ltb_spec kContentChunkBytes (zlength c)); try lia.
    simpl. by rewrite overwrite_zeros by lia.
  - simpl. destruct Hbase as [Hv Hs Hl Hh] eqn:Eb. destruct (Z.leb_spec (s_base_visible s) (n * kContentChunkBytes)).
    + rewrite chunk_nil, pad_nil; [done|done|]. rewrite zlength_take by lia. lia.
    + destruct (manifest_base_row d inode s base n) as (m & id & row & Hm & Hpos & Hmc & (_ & _ & Hi) & Hlen & Htake); [done|done|lia|].
      rewrite Hm. simpl. destruct (Z.leb_spec m 0), (Z.leb_spec (s_base_size s) (n * kContentChunkBytes)),
        (Z.ltb_spec (s_base_size s) (s_base_visible s)); try lia. simpl. rewrite Hmc.
      rewrite <- Hlen, chunk_intact_iff by lia. rewrite bool_decide_eq_true_2 by (split_and!; [lia|done|done]). simpl.
      rewrite Htake, overwrite_zeros; [done|]. rewrite <- Htake, zlength_take by lia. lia.
Qed.

(** ** Writing *)

(** Only the dirty chunks of one handle differ. *)
Definition only_chunks (handle : bytes) (d d' : Db) : Prop :=
  ∃ t, d' = on_staging_chunks (λ _, t) d ∧ ∀ h n, h ≠ handle → t !! (h, n) = staging_chunks d !! (h, n).

Lemma only_chunks_refl handle d : only_chunks handle d d.
Proof. exists (staging_chunks d). split; [|done]. by destruct d as [? ? ? []]. Qed.

Lemma only_chunks_trans handle d1 d2 d3 : only_chunks handle d1 d2 → only_chunks handle d2 d3 → only_chunks handle d1 d3.
Proof.
  intros (t1 & -> & H1) (t2 & -> & H2). exists t2. split; [done|]. intros h n Hne. rewrite H2 by done. by apply H1.
Qed.

Lemma only_chunks_base handle d d' inode s base : only_chunks handle d d' → base_ok d inode s base → base_ok d' inode s base.
Proof.
  intros (t & -> & _) [Hv Hs Hl Hh]. split; [done..|]. intros Hpos. destruct (Hh Hpos) as (m & ? & ? & ? & []).
  exists m. split_and!; [done..|]. by split.
Qed.

(** Storing the chunk of the new content at [n]. *)
Lemma store_dirty_ok handle visible base L d content n c :
  chunks_fit handle (staging_chunks d) L → shows d handle visible base content → 0 <= n →
  ∀ content', (∀ n', 0 <= n' → n' ≠ n → chunk_of content' n' = chunk_of content n') →
  c = chunk_of content' n → zlength content' = L → n * kContentChunkBytes < L →
  let d' := on_staging_chunks (insert (handle, n) c) d in
  StoreDirtyChunk handle n c d = (Ok (), d') ∧ chunks_fit handle (staging_chunks d') L ∧
  shows d' handle visible base content' ∧ only_chunks handle d d' ∧
  dirty_bytes handle d' = dirty_bytes handle d - DirtyChunkSize handle n d + zlength c.
Proof.
  sizes. intros Hfit Hshow Hn content' Hother Hc HL Hlt d'.
  assert (Hlen : 0 < zlength c <= kContentChunkBytes ∧ n * kContentChunkBytes + zlength c <= L).
  { subst c. rewrite zlength_chunk by done. lia. }
  split_and!.
  - unfold StoreDirtyChunk. destruct (Z.eqb_spec (zlength c) 0), (Z.ltb_spec kContentChunkBytes (zlength c)); try lia.
    destruct (Z.ltb_spec n 0); [lia|]. done.
  - intros n' c'. simpl. intros [[[= <-] <-]|[_ E]]%lookup_insert_Some; [lia|by apply Hfit].
  - intros n' Hn'. unfold effective. simpl. destruct (decide (n' = n)) as [->|Hne].
    + by rewrite lookup_insert_eq, Hc.
    + rewrite lookup_insert_ne by congruence. rewrite Hother by done. by apply Hshow.
  - exists (<[(handle, n) := c]> (staging_chunks d)). split; [done|]. intros h n' Hne. by rewrite lookup_insert_ne by congruence.
  - unfold dirty_bytes, DirtyChunkSize. simpl. apply dirty_sum_insert.
Qed.

Lemma div_mod_chunk a : 0 <= a →
  a = a / kContentChunkBytes * kContentChunkBytes + a mod kContentChunkBytes ∧
  0 <= a mod kContentChunkBytes < kContentChunkBytes ∧ 0 <= a / kContentChunkBytes.
Proof.
  sizes. intros. pose proof (Z.div_mod a kContentChunkBytes ltac:(lia)).
  pose proof (Z.mod_pos_bound a kContentChunkBytes ltac:(lia)). pose proof (Z.div_pos a kContentChunkBytes ltac:(done) ltac:(done)). lia.
Qed.

Lemma write_loop_step fuel handle s L absolute patch delta d : patch ≠ [] →
  let n := absolute / kContentChunkBytes in
  let within := absolute mod kContentChunkBytes in
  let k := Z.min (zlength patch) (kContentChunkBytes - within) in
  write_loop (S fuel) handle s L absolute patch delta d =
    ('(chunk, previous) ← written_chunk handle s L n within (take (Z.to_nat k) patch);
     StoreDirtyChunk handle n chunk;;
     write_loop fuel handle s L (absolute + k) (drop (Z.to_nat k) patch) (delta + (zlength chunk - previous))) d.
Proof. by destruct patch. Qed.

(** Both ways to make the chunk give the chunk of the overwritten content. *)
Lemma written_chunk_ok handle inode s base content d n within part :
  base_ok d inode s base → chunks_fit handle (staging_chunks d) (zlength content) →
  shows d handle (s_base_visible s) base content →
  0 <= n → 0 <= within → within + zlength part <= kContentChunkBytes →
  n * kContentChunkBytes + within + zlength part <= zlength content →
  written_chunk handle (staging_info s) (zlength content) n within part d =
    (Ok (chunk_of (overwrite content (Z.to_nat (n * kContentChunkBytes + within)) part) n, DirtyChunkSize handle n d), d).
Proof.
  intros Hbase Hfit Hshow Hn Hw Hfits Hend. unfold written_chunk.
  destruct (Z.eqb_spec within 0) as [E1|E1], (Z.eqb_spec (zlength part) kContentChunkBytes) as [E2|E2];
    cbn [andb]; try (unfold query; by rewrite full_chunk).
  all: erewrite bind_eval by (apply query_ok; split; [by eapply read_effective_ok|done]); cbv beta iota;
    rewrite Hshow by done; cbv zeta; by rewrite stored_chunk.
Qed.

Lemma write_loop_ok handle inode s base L : L <= kMaxStagedBytes → ∀ fuel patch absolute d content delta,
  base_ok d inode s base → chunks_fit handle (staging_chunks d) L →
  shows d handle (s_base_visible s) base content → zlength content = L →
  0 <= absolute → absolute + zlength patch <= L → (length patch ≤ fuel)%nat →
  ∃ d', write_loop fuel handle (staging_info s) L absolute patch delta d =
      (Ok (delta + (dirty_bytes handle d' - dirty_bytes handle d)), d') ∧
    chunks_fit handle (staging_chunks d') L ∧
    shows d' handle (s_base_visible s) base (overwrite content (Z.to_nat absolute) patch) ∧ only_chunks handle d d'.
Proof.
  sizes. intros HL fuel. induction fuel as [|fuel IH]; intros patch absolute d content delta Hbase Hfit Hshow Hlen Habs Hend Hfuel.
  { destruct patch; [|simpl in Hfuel; lia]. exists d. simpl. rewrite Z.sub_diag, Z.add_0_r. split_and!; [done|done| |apply only_chunks_refl].
    unfold overwrite. simpl. rewrite Nat.add_0_r, take_drop. done. }
  destruct patch as [|x patch'].
  { exists d. simpl. rewrite Z.sub_diag, Z.add_0_r. split_and!; [done|done| |apply only_chunks_refl].
    unfold overwrite. simpl. rewrite Nat.add_0_r, take_drop. done. }
  set (patch := x :: patch') in *. assert (Hpos : 0 < zlength patch) by (unfold zlength, patch; simpl; lia).
  destruct (div_mod_chunk absolute Habs) as (Ha & Hw & Hcn).
  set (n := absolute / kContentChunkBytes) in *. set (within := absolute mod kContentChunkBytes) in *.
  set (k := Z.min (zlength patch) (kContentChunkBytes - within)).
  set (part := take (Z.to_nat k) patch). assert (Hpart : zlength part = k) by (unfold part; rewrite zlength_take by lia; lia).
  set (content' := overwrite content (Z.to_nat absolute) part).
  assert (HL' : zlength content' = L) by (unfold content'; rewrite zlength_overwrite; lia).
  set (c := chunk_of content' n).
  destruct (store_dirty_ok handle (s_base_visible s) base L d content n c Hfit Hshow Hcn content')
    as (Hrun & Hfit1 & Hshow1 & Honly & Hdirty); [|done|done|lia|].
  { intros n' ? ?. unfold content'. rewrite Ha. by apply chunk_overwrite_other; lia. }
  set (d1 := on_staging_chunks _ d) in *.
  destruct (IH (drop (Z.to_nat k) patch) (absolute + k) d1 content'
    (delta + (zlength c - DirtyChunkSize handle n d))) as (d' & Hrun' & Hfit' & Hshow' & Honly'); try done.
  - by eapply only_chunks_base.
  - lia.
  - rewrite zlength_drop by lia. lia.
  - rewrite length_drop. unfold patch in *. simpl in *. lia.
  - exists d'. split_and!; [|done| |by eapply only_chunks_trans].
    + rewrite write_loop_step by done. cbv zeta. fold n within k part.
      assert (Hwc : written_chunk handle (staging_info s) L n within part d = (Ok (c, DirtyChunkSize handle n d), d)).
      { unfold c, content'. rewrite Ha, <- Hlen. eapply (written_chunk_ok _ inode _ base); rewrite ?Hlen; done || lia. }
      erewrite bind_eval by exact Hwc. cbv beta iota. erewrite bind_eval by exact Hrun. rewrite Hrun'. do 2 f_equal. lia.
    + replace (overwrite content (Z.to_nat absolute) patch) with (overwrite content' (Z.to_nat (absolute + k)) (drop (Z.to_nat k) patch)); [done|].
      unfold content'. replace (Z.to_nat (absolute + k)) with (Z.to_nat absolute + length part)%nat by (unfold zlength in Hpart; lia).
      rewrite overwrite_app; [by unfold part; rewrite take_drop|].
      unfold zlength in *. rewrite length_drop. lia.
Qed.

(** What an edit of one handle's staging area leaves alone. *)
Record edited (handle : bytes) (generation : Z) (d d' : Db) : Prop := {
  ed_tree : tree_of d' = tree_of d;
  ed_history : history_of d' = history_of d;
  ed_content : content_of d' = content_of d;
  ed_clock : clock d' = clock d;
  ed_grep : grep_index d' = grep_index d;
  ed_requests : requests d' = requests d;
  ed_handles : handles d' = alter (set_dirty generation (clock_seconds d)) handle (handles d);
  ed_staging : ∀ h, h ≠ handle → staging d' !! h = staging d !! h;
  ed_chunks : ∀ h n, h ≠ handle → staging_chunks d' !! (h, n) = staging_chunks d !! (h, n);
}.

Lemma base_ok_content d d' inode s base : content_of d' = content_of d → base_ok d inode s base → base_ok d' inode s base.
Proof.
  intros E [Hv Hs Hl Hh]. split; [done..|]. intros Hpos. destruct (Hh Hpos) as (m & ? & ? & ? & []).
  exists m. rewrite E. split_and!; [done..|]. unfold manifest_chunk in *. by split; unfold manifest_chunk; rewrite E.
Qed.

Lemma update_staging_run handle f s d :
  staging d !! handle = Some s → let s' := f s in
  0 <= s_base_visible s' <= s_base_size s' → 0 <= s_logical s' → 0 <= s_capacity s' →
  update_staging handle f d = (Ok (), on_staging (insert handle s') d).
Proof.
  intros Hs s' Hv Hl Hc. unfold update_staging, with_db. rewrite Hs. fold s'. rewrite (bind_eval _ _ _ () d); [done|].
  apply throw_if_ok. split; [|done]. rewrite !orb_false_iff, !Z.ltb_ge. lia.
Qed.

(** The end of an edit: the row of the staging area and the generation of the handle.
    [d1] differs from [d] in the chunks of the handle. *)
Lemma finish_edit handle inode s base content d d1 generation visible :
  only_chunks handle d d1 → staging d !! handle = Some s → base_ok d inode s base →
  zlength content <= kMaxStagedBytes → 0 <= visible <= s_base_visible s → visible <= zlength content →
  chunks_fit handle (staging_chunks d1) (zlength content) → shows d1 handle visible base content →
  let s' := mkStagingRow generation (s_base_manifest s) (s_base_size s) visible (zlength content) (dirty_bytes handle d1) in
  let d' := on_handles (alter (set_dirty generation (clock_seconds d)) handle) (on_staging (insert handle s') d1) in
  staged d' handle inode s' base content ∧ edited handle generation d d'.
Proof.
  intros (t & -> & Ht) Hs Hbase Hmax Hv Hvl Hfit Hshow s' d'. split.
  - split; simpl; try done.
    + apply lookup_insert_eq.
    + apply (base_ok_content d); [done|]. destruct Hbase as [? ? ? Hh]. split; simpl; try done; try lia.
      intros Hpos. apply Hh. lia.
  - split; try done.
    + intros h Hne. simpl. by rewrite lookup_insert_ne.
Qed.

Lemma stage_write_ok h offset patch inode s base content d :
  staged d (hd_id h) inode s base content → patch ≠ [] → 0 <= offset → offset + zlength patch <= kMaxStagedBytes →
  ∃ d' s', StageWrite h offset patch d = (Ok (hd_dirty h + 1), d') ∧
    staged d' (hd_id h) inode s' base (write_at content offset patch) ∧ s_generation s' = hd_dirty h + 1 ∧
    edited (hd_id h) (hd_dirty h + 1) d d'.
Proof.
  sizes. intros [Hrow Hbase Hlog Hmax Hvis Hfit Hcap Hshow] Hne Hoff Hend. set (handle := hd_id h) in *.
  pose proof (zlength_nonneg content). pose proof (zlength_nonneg patch). pose proof (bo_visible _ _ _ _ Hbase).
  set (big := grow content (offset + zlength patch)).
  assert (HL : zlength big = Z.max (zlength content) (offset + zlength patch)) by apply zlength_grow.
  destruct (write_loop_ok handle inode s base (zlength big) ltac:(lia) (length patch) patch offset d big 0)
    as (d1 & Hrun & Hfit1 & Hshow1 & Honly); try done.
  { intros n c E. destruct (Hfit n c E) as (? & ? & ?). split_and!; lia. }
  { intros n Hn. unfold big. rewrite pad_chunk_grow by done. by apply Hshow. }
  { lia. }
  assert (Hwl : zlength (write_at content offset patch) = zlength big).
  { rewrite zlength_write_at by done. lia. }
  destruct (finish_edit handle inode s base (write_at content offset patch) d d1 (hd_dirty h + 1) (s_base_visible s))
    as [Hst Hed]; try done; rewrite ?Hwl; try lia; [done|].
  eexists _, _. split; [|split; [exact Hst|split; [done|exact Hed]]].
  unfold StageWrite. rewrite bool_decide_eq_false_2 by done.
  destruct (Z.ltb_spec offset 0), (Z.ltb_spec kMaxStagedBytes offset), (Z.ltb_spec (kMaxStagedBytes - offset) (zlength patch));
    try lia. cbn [orb]. fold handle. cbv zeta.
  erewrite bind_eval by (apply query_ok; split; [unfold FindStaging; by rewrite Hrow|done]).
  replace (Z.max (sg_logical (staging_info s)) (offset + zlength patch)) with (zlength big) by (simpl; lia).
  erewrite bind_eval by exact Hrun.
  assert (Hd : 0 <= dirty_bytes handle d1) by (apply (dirty_sum_bound handle (zlength big)); [lia|done]).
  destruct Honly as (t & -> & Ht).
  erewrite bind_eval by (apply (update_staging_run _ _ s); [done|simpl; lia|simpl; lia|]; simpl; rewrite Hcap; lia).
  unfold with_db. erewrite bind_eval by reflexivity. unfold mret, M_ret. f_equal.
  unfold update_handle. rewrite Hwl, Hcap. fold handle. by replace (dirty_bytes handle d + (0 + (dirty_bytes handle (on_staging_chunks (λ _, t) d) - dirty_bytes handle d)))
    with (dirty_bytes handle (on_staging_chunks (λ _, t) d)) by lia.
Qed.

(** ** Truncating *)

(** The content cut or grown with zeros to [size]. *)
Definition resize (content : bytes) (size : Z) : bytes := grow (take (Z.to_nat size) content) size.

Lemma zlength_resize content size : 0 <= size → zlength (resize content size) = size.
Proof. intros. unfold resize. rewrite zlength_grow, zlength_take by done. lia. Qed.

Lemma resize_shorter content size : 0 <= size <= zlength content → resize content size = take (Z.to_nat size) content.
Proof.
  intros. unfold resize, grow. rewrite zlength_take by lia. replace (size - _) with 0 by lia. apply app_nil_r.
Qed.

Lemma resize_longer content size : zlength content <= size → resize content size = grow content size.
Proof. intros. unfold resize. rewrite take_ge; [done|]. unfold zlength in *. lia. Qed.

Lemma lookup_cut handle size t n : cut_chunks handle size t !! (handle, n) =
  if decide (n < chunk_count_of size) then t !! (handle, n) else None.
Proof.
  unfold cut_chunks, chunk_count_of. case_decide as Hn.
  - destruct (t !! (handle, n)) as [c|] eqn:E.
    + apply map_lookup_filter_Some. split; [done|]. by right.
    + apply map_lookup_filter_None. by left.
  - apply map_lookup_filter_None. right. intros c _ [|]; done.
Qed.

Lemma lookup_cut_other handle size t h n : h ≠ handle → cut_chunks handle size t !! (h, n) = t !! (h, n).
Proof.
  intros Hne. unfold cut_chunks. destruct (t !! (h, n)) as [c|] eqn:E.
  - apply map_lookup_filter_Some. split; [done|]. by left.
  - apply map_lookup_filter_None. by left.
Qed.

Lemma below_boundary size n : 0 <= size → n * kContentChunkBytes < size →
  size mod kContentChunkBytes = 0 ∨ n ≠ size / kContentChunkBytes → (n + 1) * kContentChunkBytes <= size.
Proof.
  sizes. intros Hs Hlt Hb. destruct (div_mod_chunk size Hs) as (Hd & Hm & Hq). set (q := size / kContentChunkBytes) in *.
  assert (n < q).
  { destruct (Z.lt_ge_cases n q) as [|Hge]; [done|].
    assert (q * kContentChunkBytes <= n * kContentChunkBytes) by (apply Z.mul_le_mono_nonneg_r; lia).
    destruct Hb as [|Hb]; [lia|].
    assert ((q + 1) * kContentChunkBytes <= n * kContentChunkBytes) by (apply Z.mul_le_mono_nonneg_r; lia). lia. }
  assert ((n + 1) * kContentChunkBytes <= q * kContentChunkBytes) by (apply Z.mul_le_mono_nonneg_r; lia). lia.
Qed.

(** Below the boundary a whole chunk is kept, above it nothing is visible. *)
Lemma cut_shows handle visible base content size d n :
  shows d handle visible base content → chunks_fit handle (staging_chunks d) (zlength content) →
  0 <= visible → 0 <= size <= zlength content → 0 <= n →
  size mod kContentChunkBytes = 0 ∨ n ≠ size / kContentChunkBytes →
  pad (effective (on_staging_chunks (cut_chunks handle size) d) handle (Z.min visible size) base n) =
  pad (chunk_of (take (Z.to_nat size) content) n).
Proof.
  sizes. intros Hshow Hfit Hv Hsize Hn Hb. unfold effective. simpl. rewrite lookup_cut.
  destruct (div_mod_chunk size ltac:(lia)) as (Hs & Hm & Hq).
  pose proof (chunk_count_lt size n Hn) as Hcc. case_decide as Hlt.
  - assert (Hfull : (n + 1) * kContentChunkBytes <= size).
    { apply Hcc in Hlt. apply below_boundary; [lia|done|done]. }
    transitivity (pad (chunk_of content n)).
    + rewrite <- (Hshow n Hn). unfold effective. destruct (staging_chunks d !! (handle, n)); [done|].
      f_equal. rewrite !chunk_take by done. f_equal. lia.
    + f_equal. rewrite chunk_take by done. unfold chunk_of. f_equal. lia.
  - rewrite Hcc in Hlt. assert (size <= n * kContentChunkBytes) by lia.
    rewrite !chunk_nil; [done|done| |done|]; rewrite zlength_take by lia; lia.
Qed.

(** The boundary chunk after a cut. *)
Lemma boundary_chunk content size : 0 <= size <= zlength content →
  take (Z.to_nat (size mod kContentChunkBytes)) (pad (chunk_of content (size / kContentChunkBytes))) =
  chunk_of (take (Z.to_nat size) content) (size / kContentChunkBytes).
Proof.
  sizes. intros Hs. destruct (div_mod_chunk size ltac:(lia)) as (Hd & Hm & Hq).
  rewrite take_slice, slice_pad_chunk, chunk_take by lia. f_equal; [lia|]. rewrite Z.mul_add_distr_r. lia.
Qed.

(** The dirty chunks after a cut. *)
Lemma cut_ok h inode s base content size d :
  staged d (hd_id h) inode s base content → 0 <= size < zlength content →
  ∃ d1, cut_staging (hd_id h) (staging_info s) size d = (Ok (Z.min (s_base_visible s) size), d1) ∧
    only_chunks (hd_id h) d d1 ∧ chunks_fit (hd_id h) (staging_chunks d1) size ∧
    shows d1 (hd_id h) (Z.min (s_base_visible s) size) base (take (Z.to_nat size) content).
Proof.
  sizes. intros [Hrow Hbase Hlog Hmax Hvis Hfit Hcap Hshow] Hsize. set (handle := hd_id h) in *. unfold cut_staging. cbv zeta.
  destruct (div_mod_chunk size ltac:(lia)) as (Hd & Hm & Hq). set (q := size / kContentChunkBytes) in *.
  set (rem := size mod kContentChunkBytes) in *.
  assert (Hlen : zlength (take (Z.to_nat size) content) = size) by (rewrite zlength_take by lia; lia).
  assert (Hcut : ∀ n, 0 <= n → rem = 0 ∨ n ≠ q → pad (effective (on_staging_chunks (cut_chunks handle size) d) handle
    (Z.min (s_base_visible s) size) base n) = pad (chunk_of (take (Z.to_nat size) content) n)).
  { intros n ? ?. apply cut_shows; [done|done|apply Hbase|lia|done|done]. }
  assert (Hfits : ∀ n c, cut_chunks handle size (staging_chunks d) !! (handle, n) = Some c → rem = 0 ∨ n ≠ q →
    0 <= n ∧ 0 < zlength c <= kContentChunkBytes ∧ n * kContentChunkBytes + zlength c <= size).
  { intros n c. rewrite lookup_cut. case_decide as Hlt; [|done]. intros E Hb. destruct (Hfit n c E) as (? & ? & ?).
    apply chunk_count_lt in Hlt; [|done].
    pose proof (below_boundary size n ltac:(lia) Hlt Hb). lia. }
  assert (Honly : only_chunks handle d (on_staging_chunks (cut_chunks handle size) d)).
  { exists (cut_chunks handle size (staging_chunks d)). split; [done|]. intros. by apply lookup_cut_other. }
  destruct (Z.eqb_spec rem 0) as [Hr|Hr].
  - eexists. split; [reflexivity|]. split_and!; [done| |].
    + intros n c E. by apply Hfits; [|left].
    + intros n Hn. by apply Hcut; [|left].
  - set (c := chunk_of (take (Z.to_nat size) content) q).
    assert (Hc : zlength c = rem) by (unfold c; rewrite zlength_chunk, Hlen by done; lia).
    exists (on_staging_chunks (insert (handle, q) c) (on_staging_chunks (cut_chunks handle size) d)). split_and!.
    + rewrite (bind_eval _ _ _ c d).
      2:{ rewrite (bind_eval _ _ _ (pad (chunk_of content q), DirtyChunkSize handle q d) d).
          - unfold c. unfold q. by rewrite <- boundary_chunk by lia.
          - apply query_ok. split; [|done]. rewrite <- Hshow by done. by eapply read_effective_ok. }
      erewrite bind_eval by reflexivity. rewrite (bind_eval _ _ _ () (on_staging_chunks (insert (handle, q) c) (on_staging_chunks (cut_chunks handle size) d))); [done|].
      unfold StoreDirtyChunk. destruct (Z.eqb_spec (zlength c) 0), (Z.ltb_spec kContentChunkBytes (zlength c)), (Z.ltb_spec q 0); try lia. done.
    + eapply only_chunks_trans; [exact Honly|]. eexists. split; [reflexivity|]. intros. by rewrite lookup_insert_ne by congruence.
    + intros n x. simpl. intros [[[= <-] <-]|[Hne E]]%lookup_insert_Some; [lia|]. apply Hfits; [done|]. right. congruence.
    + intros n Hn. unfold effective. simpl. destruct (decide (n = q)) as [->|Hne].
      * by rewrite lookup_insert_eq.
      * rewrite lookup_insert_ne by congruence. apply Hcut; [done|by right].
Qed.

Lemma truncate_ok h size inode s base content d :
  staged d (hd_id h) inode s base content → 0 <= size <= kMaxStagedBytes → size ≠ zlength content →
  ∃ d' s', TruncateStaging h size d = (Ok (hd_dirty h + 1), d') ∧
    staged d' (hd_id h) inode s' base (resize content size) ∧ s_generation s' = hd_dirty h + 1 ∧
    edited (hd_id h) (hd_dirty h + 1) d d'.
Proof.
  intros Hst Hsize Hne. pose proof Hst as [Hrow Hbase Hlog Hmax Hvis Hfit Hcap Hshow]. set (handle := hd_id h) in *.
  pose proof (bo_visible _ _ _ _ Hbase) as Hv.
  assert (Hcut : ∃ visible d1, (if size <? s_logical s then cut_staging handle (staging_info s) size else mret (s_base_visible s)) d =
      (Ok visible, d1) ∧ 0 <= visible <= s_base_visible s ∧ visible <= size ∧ only_chunks handle d d1 ∧
      chunks_fit handle (staging_chunks d1) size ∧ shows d1 handle visible base (resize content size)).
  { destruct (Z.ltb_spec size (s_logical s)).
    - destruct (cut_ok h inode s base content size d Hst ltac:(lia)) as (d1 & Hrun & Honly & Hfit1 & Hshow1).
      exists (Z.min (s_base_visible s) size), d1. rewrite resize_shorter by lia. split_and!; done || lia.
    - exists (s_base_visible s), d. rewrite resize_longer by lia. split_and!; try done; try lia.
      + apply only_chunks_refl.
      + intros n c E. destruct (Hfit n c E) as (? & ? & ?). split_and!; lia.
      + intros n Hn. rewrite pad_chunk_grow by done. by apply Hshow. }
  destruct Hcut as (visible & d1 & Hrun & Hvis1 & Hvis2 & Honly & Hfit1 & Hshow1).
  destruct (finish_edit handle inode s base (resize content size) d d1 (hd_dirty h + 1) visible)
    as [Hst' Hed]; rewrite ?zlength_resize by lia; try done; try lia.
  rewrite zlength_resize in Hst', Hed by lia.
  eexists _, _. split; [|split; [exact Hst'|split; [done|exact Hed]]]. unfold TruncateStaging.
  rewrite (bind_eval _ _ _ () d); [|apply throw_if_ok; split; [|done]; rewrite orb_false_iff, !Z.ltb_ge; lia].
  fold handle. erewrite bind_eval by (apply query_ok; split; [unfold FindStaging; by rewrite Hrow|done]).
  cbn [sg_logical sg_base_visible staging_info].
  destruct (Z.eqb_spec size (s_logical s)); [lia|]. erewrite bind_eval by exact Hrun.
  erewrite bind_eval by reflexivity. cbv zeta.
  assert (Hd : 0 <= dirty_bytes handle d1) by (apply (dirty_sum_bound handle size); [lia|done]).
  destruct Honly as (t & -> & Ht).
  erewrite bind_eval by (apply (update_staging_run _ _ s); [done|simpl; lia|simpl; lia|simpl; done]).
  done.
Qed.

(** ** Reading *)

Lemma read_loop_ok d handle inode s base content : staged d handle inode s base content →
  ∀ fuel absolute rest, 0 <= absolute → absolute + rest <= zlength content → (Z.to_nat rest ≤ fuel)%nat →
  read_staging_loop fuel handle (staging_info s) absolute rest d = Ok (slice content absolute (absolute + rest)).
Proof.
  sizes. intros [Hrow Hbase Hlog Hmax Hvis Hfit Hcap Hshow] fuel.
  induction fuel as [|fuel IH]; intros absolute rest Habs Hend Hfuel; cbn [read_staging_loop].
  - destruct (Z.leb_spec rest 0); [|lia]. by rewrite slice_nil by lia.
  - destruct (Z.leb_spec rest 0); [by rewrite slice_nil by lia|].
    destruct (div_mod_chunk absolute Habs) as (Ha & Hw & Hcn).
    set (n := absolute / kContentChunkBytes) in *. set (within := absolute mod kContentChunkBytes) in *. cbv zeta.
    set (k := Z.min rest (kContentChunkBytes - within)).
    rewrite (read_effective_ok d handle inode s base (zlength content)) by done.
    rewrite IH by lia. rewrite Hshow by done. rewrite slice_pad_chunk by lia.
    f_equal. replace (n * kContentChunkBytes + within) with absolute by lia.
    replace (n * kContentChunkBytes + (within + k)) with (absolute + k) by lia.
    rewrite slice_app by lia. f_equal. lia.
Qed.

Lemma read_range_ok d h inode s base content offset len :
  staged d (hd_id h) inode s base content → 0 <= offset <= kMaxStagedBytes → 0 <= len <= kMaxStagedBytes →
  ReadStagingRange h offset len d = Ok (slice content offset (Z.min (zlength content) (offset + len))).
Proof.
  intros Hst Ho Hl. pose proof (sd_row _ _ _ _ _ _ Hst) as Hrow. pose proof (sd_logical _ _ _ _ _ _ Hst) as Hlog.
  unfold ReadStagingRange, FindStaging. rewrite Hrow.
  destruct (Z.ltb_spec offset 0), (Z.ltb_spec len 0), (Z.ltb_spec kMaxStagedBytes offset), (Z.ltb_spec kMaxStagedBytes len); try lia.
  cbn [orb sg_logical staging_info]. rewrite Hlog.
  destruct (Z.eqb_spec len 0), (Z.leb_spec (zlength content) offset); cbn [orb]; try (by rewrite slice_nil by lia).
  cbv zeta. rewrite (read_loop_ok d (hd_id h) inode s base content Hst) by lia. f_equal. f_equal. lia.
Qed.
