(* ===== verification/VexfsPublish.v ===== *)
(** * Publishing a staging area

    [StoreManifestFromStaging] stores the content a staging area stands for, so a
    published handle reads as its staged bytes; an edit that has been published is
    also what the handle goes on seeing. *)
From Stdlib Require Import ZArith Lia String.
From stdpp Require Import prelude gmap.
From S2P Require Import Prelude Sha256 Sha256Facts VexfsText VexfsDb VexfsTree VexfsStore VexfsStoreFacts VexfsStoreWrite VexfsQuota VexfsVersion VexfsStaging VexfsChunks VexfsStagingFacts VexfsHandles.

Local Open Scope Z_scope.
Implicit Types d : Db.

(** ** The chunks of a staging area *)

Lemma base_ok_extends d d' inode s base :
  content_wf d → extends d d' → base_ok d inode s base → base_ok d' inode s base.
Proof.
  intros Hwf Hex [Hv Hs Hl Hh]. split; [done..|]. intros Hpos. destruct (Hh Hpos) as (m & ? & ? & Hm & [He Hr]).
  exists m. split_and!; [done|done| |].
  - destruct Hm as [x Hx]. exists x. by eapply lookup_weaken, Hex.
  - split.
    + intros n. rewrite (ex_entries _ _ Hex) by done. apply He.
    + intros k data Hk. rewrite (manifest_chunk_extends d d') by done. by apply Hr.
Qed.

Lemma staged_sessions d d' handle inode s base content :
  sessions_of d' = sessions_of d → base_ok d' inode s base →
  staged d handle inode s base content → staged d' handle inode s base content.
Proof.
  intros E Hb [Hrow _ Hlog Hmax Hvis Hfit Hcap Hshow]. split; try done; rewrite ?E; try done.
  - unfold dirty_bytes. by rewrite E.
  - intros n Hn. unfold effective. rewrite E. by apply Hshow.
Qed.

Lemma pad_inj l r : zlength l = zlength r → pad l = pad r → l = r.
Proof. intros Hl. unfold pad. unfold zlength in Hl. apply app_inj_1. lia. Qed.

Lemma staged_chunk_ok d handle inode s base content n :
  content_wf d → staged d handle inode s base content → 0 <= n < chunk_count_of (zlength content) →
  ∃ id sum, staged_chunk handle (staging_info s) inode n d = Ok (chunk_of content n, id, sum) ∧
    (id = 0 ∨ (∃ row, chunks d !! id = Some row ∧ row_of inode (chunk_of content n) row) ∧ sum = sha (chunk_of content n)).
Proof.
  sizes. intros Hwf [Hrow Hbase Hlog Hmax Hvis Hfit Hcap Hshow] Hn. unfold staged_chunk. cbv zeta.
  cbn [sg_logical staging_info sg_base_visible sg_base_size sg_base_manifest]. rewrite Hlog.
  specialize (Hshow n ltac:(lia)). unfold effective in Hshow. pose proof (bo_visible _ _ _ _ Hbase).
  destruct (staging_chunks d !! (handle, n)) as [c|] eqn:E.
  - destruct (Hfit n c E) as (_ & ? & _). destruct (Z.leb_spec (zlength c) 0), (Z.ltb_spec kContentChunkBytes (zlength c)); try lia.
    cbn [orb]. eexists _, _. split; [|by left]. rewrite overwrite_zeros, Hshow, take_pad_chunk by lia. done.
  - destruct (Z.ltb_spec (n * kContentChunkBytes) (s_base_visible s)) as [Hlt|Hge].
    + destruct (manifest_base_row d inode s base n Hbase ltac:(lia) Hlt) as (m & id & row & Hm & Hpos & Hmc & Hrof & Hlen & Htake).
      rewrite Hm. change (int64 (Some m)) with m. rewrite Hmc. destruct Hrof as (Hc & Hino & Hsz & Hsum).
      rewrite Hsz, Hlen, Z.eqb_refl, Hino, Z.eqb_refl, Hsum, length_sha. change (64 =? 64)%nat with true.
      destruct (Z.leb_spec m 0), (Z.leb_spec (Z.min kContentChunkBytes (s_base_size s - n * kContentChunkBytes)) 0); try lia.
      cbn [orb negb]. rewrite Hlen in Htake. rewrite Htake, overwrite_zeros, Hshow, take_pad_chunk; [|lia|].
      2:{ rewrite <- Htake, zlength_take by lia. lia. }
      set (expected := Z.min kContentChunkBytes (s_base_size s - n * kContentChunkBytes)) in *.
      destruct (Z.eqb_spec (Z.min expected (s_base_visible s - n * kContentChunkBytes)) expected) as [E1|E1],
        (Z.eqb_spec expected (Z.min kContentChunkBytes (zlength content - n * kContentChunkBytes))) as [E2|E2]; cbn [andb].
      2,3,4: rewrite sha256_hex by (unfold zlength in *; lia); cbn [hashed]; rewrite bool_decide_eq_true_2 by done;
        eexists _, _; split; [done|by left].
      assert (Heq : k_content row = chunk_of content n).
      { apply pad_inj; [rewrite zlength_chunk by lia; lia|]. rewrite <- Hshow, <- Htake, E1.
        f_equal. symmetry. apply take_ge. unfold zlength in *. lia. }
      exists id, (sha (k_content row)). split; [done|]. right. rewrite Heq. split; [|done]. exists row.
      unfold manifest_chunk in Hmc. destruct (manifest_chunks d !! (m, n)) as [i|]; [|done]. simpl in Hmc.
      destruct (chunks d !! i) eqn:Ei; [|done]. simpl in Hmc. injection Hmc as -> ->.
      by split_and!.
    + eexists _, _. split; [|by left]. f_equal. f_equal. f_equal.
      rewrite chunk_nil in Hshow; [|lia|rewrite zlength_take by lia; lia].
      rewrite pad_nil in Hshow. rewrite Hshow. apply take_pad_chunk. lia.
Qed.

(** ** Storing the manifest *)

Lemma storing_extends ws size d d' inode datas new_chunks :
  content_wf d → storing (begun ws size d) d' (next_rowid (manifests d)) inode datas new_chunks → extends d d'.
Proof.
  intros Hwf [_ Hm Hv _ Hk Hot _ _]. set (m := next_rowid (manifests d)) in *.
  assert (Hfresh : manifests d !! m = None) by (apply next_rowid_none; lia). split.
  - rewrite Hm. simpl. by apply insert_subseteq.
  - done.
  - intros m' n [x Hx]. apply Hot. congruence.
  - by rewrite Hv.
Qed.

Lemma take_S_pieces content n : 0 <= n < chunk_count_of (zlength content) →
  take (S (Z.to_nat n)) (pieces C content) = take (Z.to_nat n) (pieces C content) ++ [chunk_of content n].
Proof. intros Hn. apply take_S_r. by apply pieces_chunk. Qed.

Lemma store_staged_ok ws inode prev handle s base content d : content_wf d →
  staged d handle inode s base content → no_collision (pieces C content) →
  let m := next_rowid (manifests d) in let d0 := begun ws (zlength content) d in
  ∀ count n new_chunks di, Z.of_nat count + n = chunk_count_of (zlength content) → 0 <= n →
  storing d0 di m inode (take (Z.to_nat n) (pieces C content)) new_chunks →
  ∃ new' d', store_staged ws inode prev m handle (staging_info s) n count new_chunks (checks (take (Z.to_nat n) (pieces C content))) di =
      (Ok (checks (pieces C content)), d') ∧ storing d0 d' m inode (pieces C content) new'.
Proof.
  sizes. intros Hwf Hst Hnc m d0. pose proof (length_pieces_C content) as Hlen.
  induction count as [|count IH]; intros n new_chunks di Hcount Hn Hs.
  { rewrite take_ge in Hs |- * by lia. exists new_chunks, di. done. }
  assert (Hex : extends d di) by by eapply storing_extends.
  assert (Hsi : staged di handle inode s base content).
  { apply (staged_sessions d); [|by eapply base_ok_extends; [..|apply (sd_base _ _ _ _ _ _ Hst)]|done].
    pose proof (so_outside _ _ _ _ _ _ Hs) as Ho. unfold outside_content in Ho. by injection Ho. }
  destruct (staged_chunk_ok di handle inode s base content n) as (id & sum & Hrun & Hid);
    [apply (so_wf _ _ _ _ _ _ Hs)|done|lia|].
  assert (Hlt : (Z.to_nat n < length (pieces C content))%nat) by lia.
  destruct (store_chunk_ok ws inode prev m (chunk_of content n) id new_chunks d0 di (take (Z.to_nat n) (pieces C content)))
    as (new1 & d1 & Hrun1 & Hs1); [done| |by destruct Hid as [|[]]; [left|right]| |].
  { rewrite (so_manifests _ _ _ _ _ _ Hs). unfold d0, begun. simpl. fold m. rewrite lookup_insert_eq. eauto. }
  { intros x Hx. apply Hnc.
    - apply list_elem_of_lookup in Hx as [i [Hi _]%lookup_take_Some]. by eapply list_elem_of_lookup_2.
    - eapply list_elem_of_lookup_2. apply pieces_chunk. lia. }
  rewrite length_take, Nat.min_l, Z2Nat.id in Hrun1 by lia. rewrite <- take_S_pieces in Hs1 by lia.
  replace (S (Z.to_nat n)) with (Z.to_nat (n + 1)) in Hs1 by lia.
  destruct (IH (n + 1) new1 d1) as (new' & d' & Hrun' & Hs'); [lia|lia|done|].
  exists new', d'. split; [|done]. cbn [store_staged].
  erewrite bind_eval by (by apply query_ok). cbv beta iota.
  rewrite (bind_eval _ _ _ (sha (chunk_of content n)) di).
  2:{ rewrite sha256_hex; [done|]. pose proof (zlength_chunk content n Hn). unfold zlength in *. lia. }
  rewrite (bind_eval _ _ _ () di).
  2:{ apply throw_if_ok. split; [|done]. destruct Hid as [->|[_ ->]]; [done|]. rewrite bool_decide_eq_true_2 by done. apply andb_false_r. }
  erewrite bind_eval by exact Hrun1. rewrite <- Hrun'. f_equal. unfold checks at 2.
  replace (Z.to_nat (n + 1)) with (S (Z.to_nat n)) by lia. rewrite take_S_pieces, fmap_app by lia. done.
Qed.

Lemma dirty_max_lt d handle L : 0 <= L → chunks_fit handle (staging_chunks d) L →
  dirty_count handle d <= 0 ∨ dirty_max handle d < chunk_count_of L.
Proof.
  intros HL Hfit. destruct (decide (L = 0)) as [->|Hpos].
  - left. unfold dirty_count. apply (map_fold_weak_ind (λ r t, chunks_fit handle t 0 → r <= 0)); [done| |done].
    intros [h n] c t r Hk IH Hf. case_bool_decide as E; [|].
    + subst h. destruct (Hf n c) as (? & ? & ?); [apply lookup_insert_eq|]. sizes. nia.
    + apply IH. intros n' c' E'. apply Hf. rewrite lookup_insert_ne; [done|congruence].
  - right. unfold dirty_max. revert Hfit. apply (map_fold_weak_ind (λ r t, chunks_fit handle t L → r < chunk_count_of L)).
    + intros _. assert (0 < chunk_count_of L); [|lia]. apply chunk_count_lt; lia.
    + intros [h n] c t r Hk IH Hf.
      assert (Hr : r < chunk_count_of L).
      { apply IH. intros n' c' E'. apply Hf. rewrite lookup_insert_ne; [done|congruence]. }
      case_bool_decide as E; [|done]. subst h. destruct (Hf n c) as (? & ? & ?); [apply lookup_insert_eq|].
      assert (n < chunk_count_of L) by (apply chunk_count_lt; lia). lia.
Qed.

Lemma store_manifest_from_staging_ok ws inode prev h s base content d :
  content_wf d → staged d (hd_id h) inode s base content → no_collision (pieces C content) →
  ∃ m d', StoreManifestFromStaging ws inode prev h (staging_info s) d = (Ok (m, content_sum content), d') ∧
    manifest_stored d d' ws inode m content.
Proof.
  sizes. intros Hwf Hst Hnc. set (m := next_rowid (manifests d)). exists m.
  destruct (manifest_begins ws (zlength content) inode d Hwf) as [Hs0 _]. fold m in Hs0.
  pose proof (zlength_nonneg content).
  assert (Hcount : 0 <= chunk_count_of (zlength content)) by (rewrite <- length_pieces_C; lia).
  destruct (store_staged_ok ws inode prev (hd_id h) s base content d Hwf Hst Hnc (Z.to_nat (chunk_count_of (zlength content)))
    0 ∅ (begun ws (zlength content) d)) as (new & d2 & Hrun & Hs2); [lia|done|done|].
  destruct (finalize_ok ws inode content new d d2 Hwf (sd_max _ _ _ _ _ _ Hst) Hs2) as (d' & Hfin & Hms).
  exists d'. split; [|done]. destruct Hst as [Hrow [Hv Hbs Hbl _] Hlog Hmax Hvis Hfit Hcap Hshow].
  pose proof (dirty_sum_bound (hd_id h) (zlength content) ltac:(done) _ Hfit) as Hd. fold (dirty_bytes (hd_id h) d) in Hd.
  unfold StoreManifestFromStaging. cbn [staging_info sg_logical sg_base_size sg_base_visible sg_capacity]. rewrite Hlog.
  rewrite (bind_eval _ _ _ () d); [|apply throw_if_ok; split; [|done]; rewrite !orb_false_iff, !Z.ltb_ge; lia].
  unfold with_db. rewrite (bind_eval _ _ _ () d).
  2:{ apply throw_if_ok. split; [|done]. rewrite Hcap, Z.eqb_refl. cbn [negb orb].
      destruct (dirty_max_lt d (hd_id h) (zlength content)) as [?|?]; [done|done|..].
      - by destruct (Z.ltb_spec 0 (dirty_count (hd_id h) d)); [lia|].
      - destruct (Z.leb_spec (chunk_count_of (zlength content)) (dirty_max (hd_id h) d)); [lia|]. apply andb_false_r. }
  erewrite bind_eval by reflexivity. fold m. erewrite bind_eval by exact Hrun. erewrite bind_eval by exact Hfin. done.
Qed.

(** ** Publishing a handle *)

(** A handle with staged bytes that no other publish has overtaken. *)
Record publishable (d : Db) (h : Handle) (r : inode_row) (s : staging_row) (base content : bytes) : Prop := {
  pu_open : hd_state h ≠ Closed;
  pu_dirty : hd_published h < hd_dirty h;
  pu_staged : staged d (hd_id h) (hd_inode h) s base content;
  pu_generation : s_generation s = hd_dirty h;
  pu_current : i_version r = hd_expected_version h;
  pu_node : ∀ w, workspaces d !! hd_workspace h = Some w →
    writable_node (workspace_of (hd_workspace h) w) (node_of (hd_inode h) r) r (zlength content) d;
  pu_workspace : is_Some (workspaces d !! hd_workspace h);
}.

(** The staging area after its chunks have become the base. *)
Definition rebased (handle : bytes) (m : Z) (s : staging_row) (d : Db) : Db :=
  on_staging_chunks (filter (λ '((h, _), _), h ≠ handle))
    (on_staging (insert handle (mkStagingRow (s_generation s) (Some m) (s_logical s) (s_logical s) (s_logical s) 0)) d).

Lemma lookup_cleared (t : gmap (bytes * Z) bytes) handle h n :
  filter (λ '((h, _), _), h ≠ handle) t !! (h, n) = if decide (h = handle) then None else t !! (h, n).
Proof.
  case_decide as E.
  - apply map_lookup_filter_None. right. intros c _ Hne. done.
  - destruct (t !! (h, n)) eqn:El; [by apply map_lookup_filter_Some|]. apply map_lookup_filter_None. by left.
Qed.

Lemma rebased_staged d handle inode s content m :
  s_logical s = zlength content → zlength content <= kMaxStagedBytes → 0 < m → is_Some (manifests d !! m) →
  holds d m inode (pieces C content) →
  staged (rebased handle m s d) handle inode
    (mkStagingRow (s_generation s) (Some m) (s_logical s) (s_logical s) (s_logical s) 0) content content.
Proof.
  intros Hlog Hmax Hpos Hm [He Hr]. pose proof (zlength_nonneg content).
  assert (Hnone : ∀ n, staging_chunks (rebased handle m s d) !! (handle, n) = None).
  { intros n. simpl. rewrite lookup_cleared. by rewrite decide_True. }
  split; try done.
  - apply lookup_insert_eq.
  - split; simpl; [lia|lia|done|]. intros _. exists m. split_and!; [done|done|done|by split].
  - simpl. lia.
  - intros n c. by rewrite Hnone.
  - unfold dirty_bytes. symmetry. apply dirty_sum_none. intros n c. by rewrite Hnone.
  - intros n Hn. unfold effective. rewrite Hnone. do 2 f_equal. apply take_ge. simpl. unfold zlength in *. lia.
Qed.

Lemma publish_in_transaction_ok owned h r s base content d :
  publishable d h r s base content → no_collision (pieces C content) →
  ∃ d' m, PublishHandleInTransaction h (hd_dirty h) owned d = (Ok (i_version r + 1), d') ∧
    ∃ d1, published d d1 (node_of (hd_inode h) r) r content m ∧
      d' = on_handles (alter (set_published (i_version r + 1) (hd_dirty h) (clock_seconds d)) (hd_id h))
             (rebased (hd_id h) m s d1).
Proof.
  intros [Hopen Hdirty Hst Hgen Hcur Hnode [wr Hwr]] Hnc. destruct (Hnode wr Hwr) as [Hwf Hct Hws Hr Hv [p Hp] Hq Hf].
  set (w := workspace_of (hd_workspace h) wr) in *. set (node := node_of (hd_inode h) r) in *.
  pose proof Hst as [Hrow Hbase Hlog Hmax Hvis Hfit Hcap Hshow]. pose proof (zlength_nonneg content).
  set (commit := if owned then CreateCommitInTransaction w (str "handle publish") else CreateCommit w (str "handle publish")).
  destruct (publish_run w node content commit
    (StoreManifestFromStaging (ws_id w) (n_id node) p h (staging_info s)) d r) as (m & d1 & Hrun & Hpub); try done.
  { intros d1 Hd1. unfold commit. destruct owned; [by apply commit_in_transaction_run|by apply commit_run]. }
  { intros d2 Hc Hs Hwf2. eapply store_manifest_from_staging_ok; [done| |done].
    apply (staged_sessions d); [done| |done]. by apply (base_ok_content d). }
  eexists _, m. split; [|exists d1; split; [exact Hpub|reflexivity]].
  unfold PublishHandleInTransaction. rewrite (bind_eval _ _ _ () d); [|apply throw_if_ok; by rewrite bool_decide_eq_false_2].
  destruct (Z.leb_spec (hd_dirty h) (hd_published h)); [lia|]. rewrite Z.eqb_refl.
  erewrite bind_eval by reflexivity. rewrite (bind_eval _ _ _ node d); [|apply query_ok; unfold NodeById; change (hd_inode h) with (n_id node); by rewrite Hr].
  rewrite (bind_eval _ _ _ () d); [|apply throw_if_ok; rewrite <- Hcur, Z.eqb_refl; done].
  rewrite (bind_eval _ _ _ w d); [|apply query_ok; unfold WorkspaceById; by rewrite Hwr].
  rewrite (bind_eval _ _ _ (i_version r + 1) (rebased (hd_id h) m s d1)).
  { unfold with_db. unfold clock_seconds. cbn [clock rebased on_staging_chunks on_staging set_sessions_of].
    by rewrite (pb_clock _ _ _ _ _ _ Hpub). }
  unfold StoreVersionFromStaging. rewrite (bind_eval _ _ _ () d); [|by destruct owned].
  rewrite (bind_eval _ _ _ (staging_info s) d); [|apply query_ok; unfold FindStaging; by rewrite Hrow].
  rewrite (bind_eval _ _ _ () d); [|apply throw_if_ok; cbn [sg_generation staging_info]; by rewrite Hgen, Z.eqb_refl].
  cbn [sg_logical staging_info]. rewrite Hlog.
  erewrite bind_eval by (by apply query_ok). erewrite bind_eval by (by apply query_ok).
  fold commit. erewrite bind_eval by exact Hrun.
  erewrite bind_eval by (apply (update_staging_run _ _ s); [by rewrite (pb_sessions _ _ _ _ _ _ Hpub)|simpl; lia..]). done.
Qed.
