(* ===== verification/VexfsRequests.v ===== *)
(** * Completed requests

    The request table answers a repeated call with the recorded result, refuses a
    request id that is used again for something else, and stays bounded although
    every completed request is recorded. *)
From Stdlib Require Import ZArith Lia String.
From stdpp Require Import prelude gmap.
From S2P Require Import Prelude Sha256 VexfsText VexfsDb VexfsTree VexfsStore VexfsStaging VexfsHandles.

Local Open Scope Z_scope.
Implicit Types d : Db.

Lemma retention_pos : 0 < kRequestRetentionRows.
Proof. done. Qed.
Lemma interval_pos : 0 < kRequestPruneInterval.
Proof. done. Qed.

#[global] Opaque kRequestRetentionRows kRequestPruneInterval.

(** ** The table *)

(** [request_id] is a key. *)
Definition requests_unique (t : gmap Z request_row) : Prop :=
  ∀ i j p q, t !! i = Some p → t !! j = Some q → q_request_id p = q_request_id q → i = j.

Lemma request_of_some rid d q : request_of rid d = Some q → ∃ i, requests d !! i = Some q ∧ q_request_id q = rid.
Proof.
  unfold request_of. intros H. apply fmap_Some in H as ([i q'] & Hh & ->).
  apply head_Some_elem_of in Hh. apply list_elem_of_filter in Hh as [Hq Hin%elem_of_map_to_list]. eauto.
Qed.

Lemma request_of_row d i q : requests_unique (requests d) → requests d !! i = Some q → request_of (q_request_id q) d = Some q.
Proof.
  intros Hu Hi. destruct (request_of (q_request_id q) d) as [q'|] eqn:E.
  - apply request_of_some in E as (j & Hj & Heq). rewrite (Hu j i q' q Hj Hi Heq) in Hj. congruence.
  - exfalso. unfold request_of in E. apply fmap_None, head_None in E.
    assert (Hin : (i, q) ∈ filter (λ '(_, p), q_request_id p = q_request_id q) (map_to_list (requests d))).
    { apply list_elem_of_filter. split; [done|]. by apply elem_of_map_to_list. }
    rewrite E in Hin. by apply not_elem_of_nil in Hin.
Qed.

Definition recorded (row : request_row) (t t' : gmap Z request_row) : Prop :=
  ((next_rowid t <= kRequestRetentionRows ∨ next_rowid t mod kRequestPruneInterval ≠ 0) ∧ t' = <[next_rowid t := row]> t) ∨
  (kRequestRetentionRows < next_rowid t ∧ next_rowid t mod kRequestPruneInterval = 0 ∧
    t' = filter (λ '(i, _), next_rowid t - kRequestRetentionRows < i) (<[next_rowid t := row]> t)).

Lemma insert_request_inv row d d' : insert_request row d = (Ok (), d') →
  request_of (q_request_id row) d = None ∧ recorded row (requests d) (requests d').
Proof.
  unfold insert_request. intros Hrun. runs Hrun. apply bool_decide_eq_false in R.
  split; [by apply eq_None_not_Some|]. unfold MaybePruneRequests in Hrun. unfold recorded.
  destruct (Z.leb_spec (next_rowid (requests d)) kRequestRetentionRows); cbn [orb] in Hrun.
  { apply ret_ok in Hrun as [_ ->]. left. split; [by left|done]. }
  destruct (Z.eqb_spec (next_rowid (requests d) mod kRequestPruneInterval) 0); cbn [negb] in Hrun.
  - apply modify_ok in Hrun as ->. by right.
  - apply ret_ok in Hrun as [_ ->]. left. split; [by right|done].
Qed.

Lemma recorded_lookup row t t' i q : recorded row t t' → t' !! i = Some q → i = next_rowid t ∧ q = row ∨ i ≠ next_rowid t ∧ t !! i = Some q.
Proof.
  intros [[_ ->]|(_ & _ & ->)].
  - intros [[-> ->]|[? ?]]%lookup_insert_Some; [by left|by right].
  - intros [[[-> ->]|[? ?]]%lookup_insert_Some _]%map_lookup_filter_Some; [by left|by right].
Qed.

(** The new row and the rows no older than the retention are in the table. *)
Lemma recorded_keeps row t t' i q : recorded row t t' → <[next_rowid t := row]> t !! i = Some q →
  next_rowid t - kRequestRetentionRows < i → t' !! i = Some q.
Proof. intros [[_ ->]|(_ & _ & ->)] Hi Hlt; [done|]. by apply map_lookup_filter_Some. Qed.

Lemma recorded_new row t t' : recorded row t t' → t' !! next_rowid t = Some row.
Proof.
  intros H. pose proof retention_pos. eapply recorded_keeps; [done|apply lookup_insert_eq|lia].
Qed.

Lemma recorded_unique row t t' :
  requests_unique t → (∀ i q, t !! i = Some q → q_request_id q ≠ q_request_id row) → recorded row t t' → requests_unique t'.
Proof.
  intros Hu Hnew Hrec i j p q Hi Hj Heq.
  apply (recorded_lookup _ _ _ _ _ Hrec) in Hi as [[-> ->]|[_ Hi]], Hj as [[-> ->]|[_ Hj]]; try done.
  - exfalso. by apply (Hnew j q Hj).
  - exfalso. by apply (Hnew i p Hi).
  - by eapply Hu.
Qed.

(** A recorded result is what the next look-up finds. *)
Lemma store_request_found rid operation fingerprint x d d' :
  rid ≠ [] → requests_unique (requests d) → StoreRequestInteger rid operation fingerprint x d = (Ok (), d') →
  ∃ q, request_of rid d' = Some q ∧ q_operation q = operation ∧ q_fingerprint q = fingerprint ∧ q_text q = None ∧ q_integer q = Some x.
Proof.
  intros Hne Hu Hrun. unfold StoreRequestInteger in Hrun. destruct rid as [|b rid]; [done|]. set (id := b :: rid) in *.
  set (row := mkRequestRow id operation fingerprint (Some x) None) in *.
  apply insert_request_inv in Hrun as (Hnone & Hrec). exists row. split_and!; try done.
  apply (request_of_row d' (next_rowid (requests d)) row); [|by apply recorded_new].
  eapply recorded_unique; [done| |done]. intros i q Hi Heq.
  pose proof (request_of_row d i q Hu Hi) as Hq. rewrite Heq in Hq. simpl in Hnone, Hq. congruence.
Qed.

(** ** Writing does not touch the table *)

Lemma store_dirty_requests handle n c d u d' : StoreDirtyChunk handle n c d = (Ok u, d') → requests d' = requests d.
Proof. unfold StoreDirtyChunk. intros H. by runs H. Qed.

Lemma written_chunk_db handle s L n within part d x d' : written_chunk handle s L n within part d = (Ok x, d') → d' = d.
Proof.
  unfold written_chunk. destruct (_ && _); intros H; [by runs H|].
  apply bind_ok in H as ([chunk previous] & d1 & H1 & H). runs H1. by runs H.
Qed.

Lemma write_loop_requests fuel : ∀ handle s L absolute patch delta d x d',
  write_loop fuel handle s L absolute patch delta d = (Ok x, d') → requests d' = requests d.
Proof.
  induction fuel as [|fuel IH]; intros handle s L absolute patch delta d x d' H; destruct patch as [|b patch]; cbn [write_loop] in H;
    try (by runs H).
  cbv zeta in H. apply bind_ok in H as ([chunk previous] & d1 & H1%written_chunk_db & H). subst d1.
  apply bind_ok in H as (u & d2 & H2%store_dirty_requests & H). apply IH in H. congruence.
Qed.

Lemma update_staging_requests handle f d u d' : update_staging handle f d = (Ok u, d') → requests d' = requests d.
Proof. unfold update_staging, with_db. destruct (staging d !! handle); intros H; by runs H. Qed.

Lemma stage_write_requests h offset patch d g d' : StageWrite h offset patch d = (Ok g, d') → requests d' = requests d.
Proof.
  unfold StageWrite. intros H. case_bool_decide; [by runs H|]. destruct (_ || _); [by runs H|]. cbv zeta in H.
  apply bind_ok in H as (s & d1 & H1 & H). runs H1.
  apply bind_ok in H as (delta & d2 & H2%write_loop_requests & H).
  apply bind_ok in H as (u & d3 & H3%update_staging_requests & H). runs H.
  unfold update_handle in *. repeat match goal with R : modify _ _ = _ |- _ => apply modify_ok in R; subst end. simpl. congruence.
Qed.

(** ** Replay *)

Lemma find_request_cached rid d q x :
  rid ≠ [] → request_of rid d = Some q → q_text q = None → q_integer q = Some x → ∀ op' fp',
  FindRequest rid op' fp' d =
    if bool_decide (q_operation q = op') && bool_decide (q_fingerprint q = fp') then Ok (kInteger x) else Throw SQLITE_CONSTRAINT.
Proof.
  intros Hne Hq Ht Hx op' fp'. unfold FindRequest. destruct rid; [done|]. rewrite Hq, Ht, Hx.
  by repeat case_bool_decide.
Qed.

Lemma replayed_cached rid operation fingerprint work d x :
  FindRequest rid operation fingerprint d = Ok (kInteger x) → replayed rid operation fingerprint work d = (Ok x, d).
Proof. intros H. unfold replayed. by erewrite bind_eval by (by apply query_ok). Qed.

Lemma replayed_refused rid operation fingerprint work d e :
  FindRequest rid operation fingerprint d = Throw e → replayed rid operation fingerprint work d = (Throw e, d).
Proof. intros H. unfold replayed. apply bind_throw. unfold query. by rewrite H. Qed.

Lemma stage_write_recorded hid offset patch rid d g d' :
  rid ≠ [] → requests_unique (requests d) → request_of rid d = None →
  HandleStageWriteFunction (Some hid) offset (Some patch) (Some rid) d = (Ok g, d') →
  ∃ q, request_of rid d' = Some q ∧ q_operation q = str "handle_stage_write" ∧
    q_fingerprint q = stage_write_fingerprint hid offset patch ∧ q_text q = None ∧ q_integer q = Some g.
Proof.
  intros Hne Hu Hnone Hrun. unfold HandleStageWriteFunction in Hrun.
  do 3 (apply bind_ok in Hrun as (? & ? & Hx & Hrun); apply lift_ok in Hx as [[= <-] ->]). cbv zeta in Hrun.
  unfold replayed in Hrun. apply bind_ok in Hrun as (c & e & Hc & Hrun). apply query_ok in Hc as [Hc ->].
  unfold FindRequest in Hc. rewrite Hnone in Hc. assert (c = kMissing) as -> by (destruct rid; by injection Hc). clear Hc.
  apply bind_ok in Hrun as (h & e & Hx & Hrun). apply query_ok in Hx as [_ ->].
  do 4 (apply bind_ok in Hrun as (? & ? & Hx & Hrun); apply throw_if_ok in Hx as [_ ->]).
  apply bind_ok in Hrun as (s & e & Hx & Hrun). apply query_ok in Hx as [_ ->]. cbv zeta in Hrun.
  apply bind_ok in Hrun as (? & e & Hx & Hrun). apply query_ok in Hx as [_ ->].
  apply bind_ok in Hrun as (g' & e & Hw%stage_write_requests & Hrun).
  apply bind_ok in Hrun as ([] & e' & Hs & Hrun). apply ret_ok in Hrun as [-> ->].
  eapply store_request_found; [done| |exact Hs]. by rewrite Hw.
Qed.

(** C34: a staged write that has succeeded under a request id is not done twice:
    the same call again returns the recorded generation and changes nothing, and the
    id used for a write with another fingerprint, a truncation, an append or a
    publish is refused without a change. *)
Theorem stage_write_replays hid offset patch rid d g d' :
  rid ≠ [] → requests_unique (requests d) → request_of rid d = None →
  HandleStageWriteFunction (Some hid) offset (Some patch) (Some rid) d = (Ok g, d') →
  HandleStageWriteFunction (Some hid) offset (Some patch) (Some rid) d' = (Ok g, d') ∧
  (∀ hid' offset' patch', stage_write_fingerprint hid' offset' patch' ≠ stage_write_fingerprint hid offset patch →
    HandleStageWriteFunction (Some hid') offset' (Some patch') (Some rid) d' = (Throw SQLITE_CONSTRAINT, d')) ∧
  (∀ hid' size, HandleTruncateFunction (Some hid') size (Some rid) d' = (Throw SQLITE_CONSTRAINT, d')) ∧
  (∀ hid' suffix, HandleAppendFunction (Some hid') (Some suffix) (Some rid) d' = (Throw SQLITE_CONSTRAINT, d')) ∧
  (∀ hid' generation durability, HandlePublishFunction (Some hid') generation (Some durability) (Some rid) d' =
    (Throw SQLITE_CONSTRAINT, d')).
Proof.
  intros Hne Hu Hnone Hrun. destruct (stage_write_recorded hid offset patch rid d g d' Hne Hu Hnone Hrun) as (q & Hq & Hop & Hfp & Ht & Hi).
  pose proof (find_request_cached rid d' q g Hne Hq Ht Hi) as Hfind. split_and!.
  - unfold HandleStageWriteFunction. do 3 erewrite bind_eval by reflexivity. cbv zeta. apply replayed_cached.
    by rewrite Hfind, Hop, Hfp, !bool_decide_eq_true_2.
  - intros hid' offset' patch' Hdiff. unfold HandleStageWriteFunction. do 3 erewrite bind_eval by reflexivity. cbv zeta.
    apply replayed_refused. rewrite Hfind, Hop, Hfp. rewrite (bool_decide_eq_false_2 (_ = stage_write_fingerprint _ _ _)) by congruence.
    by rewrite andb_false_r.
  - intros hid' size. unfold HandleTruncateFunction. do 2 erewrite bind_eval by reflexivity. cbv zeta.
    apply replayed_refused. by rewrite Hfind, Hop, bool_decide_eq_false_2.
  - intros hid' suffix. unfold HandleAppendFunction. do 3 erewrite bind_eval by reflexivity. cbv zeta.
    apply replayed_refused. by rewrite Hfind, Hop, bool_decide_eq_false_2.
  - intros hid' generation durability. unfold HandlePublishFunction. do 3 erewrite bind_eval by reflexivity. cbv zeta.
    apply replayed_refused. by rewrite Hfind, Hop, bool_decide_eq_false_2.
Qed.

(** ** The table stays bounded *)

(** Every row is newer than what the last pruning removed. *)
Definition retained (t : gmap Z request_row) : Prop := ∀ i q, t !! i = Some q →
  0 < i ∧ (next_rowid t - 1) / kRequestPruneInterval * kRequestPruneInterval - kRequestRetentionRows < i.

Lemma next_rowid_last {A} (t : gmap Z A) : next_rowid t = 1 ∨ is_Some (t !! (next_rowid t - 1)).
Proof.
  unfold next_rowid. induction t as [|j y t Hj IH] using map_ind; [by left|].
  rewrite map_fold_insert_L by (intros; lia || done). set (n := map_fold _ 0 t) in *. rewrite Z.add_simpl_r in *.
  destruct (Z.max_spec j n) as [[Hlt ->]|[Hge ->]].
  - destruct IH as [?|[x Hx]]; [by left|right]. exists x. rewrite lookup_insert_ne; [done|lia].
  - right. exists y. apply lookup_insert_eq.
Qed.

Lemma next_rowid_recorded row t t' : recorded row t t' → next_rowid t' = next_rowid t + 1.
Proof.
  intros Hrec. pose proof (next_rowid_fresh _ _ _ (recorded_new _ _ _ Hrec)) as Hlo.
  destruct (Z.eq_dec (next_rowid t') (next_rowid t + 1)) as [|Hne]; [done|exfalso].
  destruct (next_rowid_last t') as [Hl|[q Hq]]; [pose proof (next_rowid_pos t); lia|].
  apply (recorded_lookup _ _ _ _ _ Hrec) in Hq as [[? _]|[_ Hq]]; [lia|]. apply next_rowid_fresh in Hq. lia.
Qed.

Lemma recorded_retained row t t' : retained t → recorded row t t' → retained t'.
Proof.
  intros Hr Hrec i q Hi. pose proof retention_pos. pose proof interval_pos. pose proof (next_rowid_pos t).
  rewrite (next_rowid_recorded _ _ _ Hrec), Z.add_simpl_r. set (n := next_rowid t) in *. set (I := kRequestPruneInterval) in *.
  pose proof (Z.div_mod n I ltac:(lia)) as Hdm. pose proof (Z.mod_pos_bound n I ltac:(lia)).
  destruct (recorded_lookup _ _ _ _ _ Hrec Hi) as [[-> _]|[Hne Hold]]; [fold n; lia|].
  destruct (Hr i q Hold) as [Hpos Hlow]. fold n I in Hlow. split; [done|].
  destruct Hrec as [[[Hle|Hmod] _]|(_ & _ & ->)].
  - fold n in Hle. lia.
  - assert (n / I = (n - 1) / I) as ->; [|lia]. fold n I in Hmod. apply (Z.div_unique _ _ _ (n mod I - 1)); [left; lia|lia].
  - apply map_lookup_filter_Some in Hi as [_ Hi]. fold n in Hi. lia.
Qed.

Lemma retained_size t : retained t → Z.of_nat (size t) < kRequestRetentionRows + kRequestPruneInterval.
Proof.
  intros Hr. pose proof retention_pos. pose proof interval_pos. pose proof (next_rowid_pos t).
  set (n := next_rowid t - 1). set (I := kRequestPruneInterval) in *. set (lo := n / I * I - kRequestRetentionRows).
  pose proof (Z.div_mod n I ltac:(lia)). pose proof (Z.mod_pos_bound n I ltac:(lia)).
  assert (Hsub : dom t ⊆ list_to_set (seqZ (lo + 1) (n - lo))).
  { intros i [q Hq]%elem_of_dom. apply elem_of_list_to_set, elem_of_seqZ. pose proof (next_rowid_fresh _ _ _ Hq).
    destruct (Hr i q Hq) as [_ Hlow]. fold n I in Hlow. fold lo in Hlow. lia. }
  apply subseteq_size in Hsub. rewrite size_dom, size_list_to_set, length_seqZ in Hsub by apply NoDup_seqZ. lia.
Qed.

(** Recording results keeps the request table below 65,536 + 4,096 rows for any
    number of requests, and never drops one of the newest 65,536 results. *)
Theorem requests_bounded rid operation fingerprint x d d' :
  rid ≠ [] → retained (requests d) → StoreRequestInteger rid operation fingerprint x d = (Ok (), d') →
  retained (requests d') ∧ Z.of_nat (size (requests d')) < kRequestRetentionRows + kRequestPruneInterval ∧
  (∀ i q, requests d !! i = Some q → next_rowid (requests d) - kRequestRetentionRows < i → requests d' !! i = Some q).
Proof.
  intros Hne Hr Hrun. unfold StoreRequestInteger in Hrun. destruct rid; [done|].
  apply insert_request_inv in Hrun as [_ Hrec]. pose proof (recorded_retained _ _ _ Hr Hrec) as Hr'.
  split_and!; [done|by apply retained_size|].
  intros i q Hi Hlt. eapply recorded_keeps; [done| |done].
  rewrite lookup_insert_ne; [done|]. apply next_rowid_fresh in Hi. lia.
Qed.
