(* ===== verification/VexfsHandleFacts.v ===== *)
(** * What a handle promises

    A handle is a private byte array until it is published: edits act on the array,
    a publish makes the array the next version of the file or changes nothing, an
    append adds to the current version, and a repeated request is answered from its
    record. *)
From Stdlib Require Import ZArith Lia String.
From stdpp Require Import prelude gmap.
From S2P Require Import Prelude Sha256 Sha256Facts VexfsText VexfsDb VexfsTree VexfsStore VexfsStoreFacts VexfsStoreWrite VexfsQuota VexfsVersion VexfsStaging VexfsChunks VexfsStagingFacts VexfsHandles VexfsPublish VexfsRequests.

Local Open Scope Z_scope.
Implicit Types d : Db.

(** ** Edits of a byte array *)

Inductive edit := Write (offset : Z) (patch : bytes) | Truncate (size : Z).

Definition edit_valid (e : edit) : Prop :=
  match e with
  | Write offset patch => 0 <= offset ∧ offset + zlength patch <= kMaxStagedBytes
  | Truncate size => 0 <= size <= kMaxStagedBytes
  end.

(** The specification: what an edit does to the bytes. *)
Definition apply_edit (content : bytes) (e : edit) : bytes :=
  match e with
  | Write offset [] => content
  | Write offset patch => write_at content offset patch
  | Truncate size => resize content size
  end.

(** The code: the handle is looked up for every edit. *)
Definition run_edit (handle : bytes) (e : edit) : M Z :=
  h ← query (FindHandle handle);
  match e with
  | Write offset patch => StageWrite h offset patch
  | Truncate size => TruncateStaging h size
  end.

Fixpoint run_edits (handle : bytes) (es : list edit) : M () :=
  match es with
  | [] => mret ()
  | e :: es => run_edit handle e;; run_edits handle es
  end.

(** Everything outside one handle and its staging area is as before. *)
Record untouched (handle : bytes) (d d' : Db) : Prop := {
  un_tree : tree_of d' = tree_of d;
  un_content : content_of d' = content_of d;
  un_handles : ∀ h, h ≠ handle → handles d' !! h = handles d !! h;
  un_handle : is_Some (handles d !! handle) → is_Some (handles d' !! handle);
  un_stages : ∀ h inode content, h ≠ handle → stages d h inode content → stages d' h inode content;
}.

#[export] Instance untouched_preorder handle : PreOrder (untouched handle).
Proof.
  split.
  - intros d. by split.
  - intros d1 d2 d3 [] []. split; [congruence|congruence| |by auto|by auto].
    intros h Hne. by rewrite un_handles1, un_handles0.
Qed.

Lemma stages_other d d' handle h inode content :
  h ≠ handle → (∀ s base, base_ok d inode s base → base_ok d' inode s base) →
  (∀ h', h' ≠ handle → staging d' !! h' = staging d !! h') →
  (∀ h' n, h' ≠ handle → staging_chunks d' !! (h', n) = staging_chunks d !! (h', n)) →
  stages d h inode content → stages d' h inode content.
Proof.
  intros Hne Hb Hs Hc (s & base & [Hrow Hbase Hlog Hmax Hvis Hfit Hcap Hshow]). exists s, base.
  split; try done.
  - by rewrite Hs.
  - by apply Hb.
  - intros n c. rewrite Hc by done. apply Hfit.
  - rewrite Hcap. apply dirty_sum_ext. intros n. by apply Hc.
  - intros n Hn. unfold effective. rewrite Hc by done. by apply Hshow.
Qed.

Lemma edited_untouched handle generation d d' : edited handle generation d d' → untouched handle d d'.
Proof.
  intros []. split; try done.
  - intros h Hne. rewrite ed_handles. by rewrite lookup_alter_ne.
  - intros Hs. rewrite ed_handles, lookup_alter_eq. by rewrite fmap_is_Some.
  - intros h inode content Hne. apply (stages_other d d' handle); try done. intros. by apply (base_ok_content d).
Qed.

Lemma run_edit_ok handle e inode content d :
  stages d handle inode content → is_Some (handles d !! handle) → edit_valid e →
  ∃ g d', run_edit handle e d = (Ok g, d') ∧ stages d' handle inode (apply_edit content e) ∧ untouched handle d d'.
Proof.
  intros (s & base & Hst) [row Hrow] Hv. unfold run_edit.
  assert (Hfind : query (FindHandle handle) d = (Ok (handle_of handle row), d)).
  { apply query_ok. unfold FindHandle. by rewrite Hrow. }
  destruct e as [offset patch|size].
  - destruct Hv as [Ho Hl]. destruct patch as [|x patch].
    + exists (h_dirty_generation row), d. split; [by erewrite bind_eval by exact Hfind|]. split; [by exists s, base|done].
    + destruct (stage_write_ok (handle_of handle row) offset (x :: patch) inode s base content d) as (d' & s' & Hrun & Hst' & _ & Hed); try done.
      eexists _, d'. split; [by erewrite bind_eval by exact Hfind|]. split; [by exists s', base|by eapply edited_untouched].
  - destruct (decide (size = zlength content)) as [->|Hne].
    + exists (h_dirty_generation row), d. split_and!; [|exists s, base|done].
      * erewrite bind_eval by exact Hfind. unfold TruncateStaging. change (hd_id (handle_of handle row)) with handle.
        rewrite (bind_eval _ _ _ () d); [|apply throw_if_ok; split; [|done]; simpl in Hv; rewrite orb_false_iff, !Z.ltb_ge; lia].
        rewrite (bind_eval _ _ _ (staging_info s) d); [|apply query_ok; unfold FindStaging; by rewrite (sd_row _ _ _ _ _ _ Hst)].
        cbn [sg_logical staging_info]. by rewrite (sd_logical _ _ _ _ _ _ Hst), Z.eqb_refl.
      * simpl. rewrite resize_longer by done. unfold grow. by rewrite Z.sub_diag, app_nil_r.
    + destruct (truncate_ok (handle_of handle row) size inode s base content d) as (d' & s' & Hrun & Hst' & _ & Hed); try done.
      eexists _, d'. split; [by erewrite bind_eval by exact Hfind|]. split; [by exists s', base|by eapply edited_untouched].
Qed.

Lemma run_edits_ok handle inode es : ∀ content d,
  stages d handle inode content → is_Some (handles d !! handle) → Forall edit_valid es →
  ∃ d', run_edits handle es d = (Ok (), d') ∧ stages d' handle inode (foldl apply_edit content es) ∧ untouched handle d d'.
Proof.
  induction es as [|e es IH]; intros content d Hst Hh Hv.
  { exists d. by split_and!. }
  apply Forall_cons in Hv as [Hv Hvs].
  destruct (run_edit_ok handle e inode content d Hst Hh Hv) as (g & d1 & Hrun & Hst1 & Hu1).
  destruct (IH _ d1 Hst1 (un_handle _ _ _ Hu1 Hh) Hvs) as (d' & Hrun' & Hst' & Hu').
  exists d'. split_and!; [|done|by etrans]. cbn [run_edits]. by erewrite bind_eval by exact Hrun.
Qed.

(** C8: a staging area refines a plain byte array. After any sequence of valid writes
    and truncations through a handle, every range read returns the bytes the same
    edits leave in an array (writes past the end and growing truncations fill with
    zeros), no edit fails, and no other handle's staged bytes, no file version and
    nothing of the tree changes. *)
Theorem staging_refines_array handle inode content es d :
  stages d handle inode content → is_Some (handles d !! handle) → Forall edit_valid es →
  ∃ d', run_edits handle es d = (Ok (), d') ∧
    (∀ h offset len, hd_id h = handle → 0 <= offset <= kMaxStagedBytes → 0 <= len <= kMaxStagedBytes →
      let final := foldl apply_edit content es in
      ReadStagingRange h offset len d' = Ok (slice final offset (Z.min (zlength final) (offset + len)))) ∧
    (∀ h inode' content', h ≠ handle → stages d h inode' content' → stages d' h inode' content') ∧
    tree_of d' = tree_of d ∧ content_of d' = content_of d.
Proof.
  intros Hst Hh Hv. destruct (run_edits_ok handle inode es content d Hst Hh Hv) as (d' & Hrun & Hst' & []).
  exists d'. split_and!; [done| |done|done|done].
  intros h offset len <- Ho Hl. destruct Hst' as (s & base & Hst'). by eapply read_range_ok.
Qed.

(** ** Publishing *)


Lemma published_stages d d1 node r content m handle inode content' s :
  content_wf d → published d d1 node r content m → ∀ h, h ≠ handle →
  stages d h inode content' → stages (rebased handle m s d1) h inode content'.
Proof.
  intros Hwf Hpub h Hne (s0 & base & Hst). apply (stages_other d1 _ handle); [done| | | |].
  - intros s' base' [? ? ? Hh]. split; [done..|]. intros Hp. destruct (Hh Hp) as (x & ? & ? & ? & []). exists x. split_and!; [done..|by split].
  - intros h' Hne'. simpl. by rewrite lookup_insert_ne.
  - intros h' n Hne'. simpl. rewrite lookup_cleared. by rewrite decide_False.
  - exists s0, base. apply (staged_sessions d); [apply (pb_sessions _ _ _ _ _ _ Hpub)| |done].
    eapply base_ok_extends; [done|apply (pb_extends _ _ _ _ _ _ Hpub)|apply (sd_base _ _ _ _ _ _ Hst)].
Qed.

Lemma stages_handles d f h inode content : stages d h inode content → stages (on_handles f d) h inode content.
Proof.
  intros (s & base & [? Hbase ? ? ? ? ? ?]). exists s, base. split; try done. by apply (base_ok_content d).
Qed.

(** C9: publishing a handle whose file nobody else has changed, with a content within
    the quotas of the workspace, makes exactly the staged bytes the file's next version, keeps every version readable and every
    handle's staged bytes (its own included), and publishing the same generation
    again returns the same version and changes nothing. *)
Theorem publish_handle_round_trip h row r s base content d :
  publishable d h r s base content → handles d !! hd_id h = Some row → hd_state h = h_state row →
  hd_inode h = h_inode row → no_collision (pieces C content) →
  ∃ d', PublishHandle h (hd_dirty h) d = (Ok (i_version r + 1), d') ∧
    ReadVersionContent (hd_inode h) (i_version r + 1) d' = Ok content ∧
    (∀ inode version c, ReadVersionContent inode version d = Ok c → ReadVersionContent inode version d' = Ok c) ∧
    stages d' (hd_id h) (hd_inode h) content ∧
    (∀ h' inode c, h' ≠ hd_id h → stages d h' inode c → stages d' h' inode c) ∧
    (∃ h', FindHandle (hd_id h) d' = Ok h' ∧ PublishHandle h' (hd_dirty h) d' = (Ok (i_version r + 1), d')).
Proof.
  intros Hp Hrow Hstate Hino Hnc. destruct (publish_in_transaction_ok false h r s base content d Hp Hnc) as (d' & m & Hrun & d1 & Hpub & ->).
  assert (Hwf : content_wf d) by (destruct (pu_workspace _ _ _ _ _ _ Hp) as [w Hw]; apply (pu_node _ _ _ _ _ _ Hp w Hw)).
  set (f := set_published (i_version r + 1) (hd_dirty h) (clock_seconds d)).
  set (d' := on_handles (alter f (hd_id h)) (rebased (hd_id h) m s d1)) in *. exists d'. split.
  { unfold PublishHandle, Savepoint. by rewrite Hrun. }
  split_and!.
  - rewrite (read_content_of _ _ d1 d') by done. apply (pb_read _ _ _ _ _ _ Hpub).
  - intros inode version c Hc. rewrite (read_content_of _ _ d1 d') by done.
    by eapply read_extends; [|apply (pb_extends _ _ _ _ _ _ Hpub)|].
  - apply stages_handles. eexists _, content. pose proof (pu_staged _ _ _ _ _ _ Hp) as [].
    apply rebased_staged; [done|done|apply (pb_pos _ _ _ _ _ _ Hpub)|apply (pb_manifest _ _ _ _ _ _ Hpub)|].
    apply (pb_holds _ _ _ _ _ _ Hpub).
  - intros h' inode c Hne Hst. apply stages_handles. by eapply published_stages.
  - assert (Hh' : handles d' !! hd_id h = Some (f row)).
    { simpl. rewrite lookup_alter_eq, (pb_sessions _ _ _ _ _ _ Hpub), Hrow. done. }
    exists (handle_of (hd_id h) (f row)). split; [unfold FindHandle; by rewrite Hh'|].
    unfold PublishHandle, Savepoint, PublishHandleInTransaction.
    rewrite (bind_eval _ _ _ () d').
    2:{ apply throw_if_ok. split; [|done]. apply bool_decide_eq_false_2. simpl. rewrite <- Hstate. apply (pu_open _ _ _ _ _ _ Hp). }
    change (hd_published (handle_of (hd_id h) (f row))) with (hd_dirty h). rewrite Z.leb_refl.
    assert (Hn : query (NodeById (hd_inode (handle_of (hd_id h) (f row))) true) d' =
      (Ok (node_of (hd_inode h) (touch (clock d) (zlength content) (i_version r + 1) r)), d')).
    { apply query_ok. split; [|done]. change (hd_inode (handle_of (hd_id h) (f row))) with (h_inode row). rewrite <- Hino.
      unfold NodeById. change (inodes d') with (inodes d1). rewrite (pb_inodes _ _ _ _ _ _ Hpub).
      change (n_id (node_of (hd_inode h) r)) with (hd_inode h). by rewrite lookup_insert_eq. }
    by erewrite bind_eval by exact Hn.
Qed.

(** A publish that comes too late (the file has another version than the one the
    handle was opened or last published with), names a generation that is not the
    staged one, or uses a closed handle is refused, and any refused publish leaves
    the database as it was. *)
Theorem publish_conflict h r generation d :
  inodes d !! hd_inode h = Some r →
  (hd_state h = Closed → PublishHandle h generation d = (Throw SQLITE_NOTFOUND, d)) ∧
  (hd_state h ≠ Closed → hd_published h < generation → generation ≠ hd_dirty h →
    PublishHandle h generation d = (Throw SQLITE_CONSTRAINT, d)) ∧
  (hd_state h ≠ Closed → hd_published h < hd_dirty h → i_version r ≠ hd_expected_version h →
    PublishHandle h (hd_dirty h) d = (Throw SQLITE_CONSTRAINT, d)) ∧
  (∀ e d', PublishHandle h generation d = (Throw e, d') → d' = d).
Proof.
  intros Hr. unfold PublishHandle. split_and!.
  - intros Hc. unfold Savepoint, PublishHandleInTransaction. rewrite bool_decide_eq_true_2 by done. done.
  - intros Ho Hp Hg. unfold Savepoint, PublishHandleInTransaction. rewrite bool_decide_eq_false_2 by done.
    erewrite bind_eval by reflexivity. destruct (Z.leb_spec generation (hd_published h)); [lia|].
    destruct (Z.eqb_spec generation (hd_dirty h)); done.
  - intros Ho Hp Hv. unfold Savepoint, PublishHandleInTransaction. rewrite bool_decide_eq_false_2 by done.
    erewrite bind_eval by reflexivity. destruct (Z.leb_spec (hd_dirty h) (hd_published h)); [lia|]. rewrite Z.eqb_refl.
    erewrite bind_eval by reflexivity. rewrite (bind_eval _ _ _ (node_of (hd_inode h) r) d); [|apply query_ok; unfold NodeById; by rewrite Hr].
    simpl. destruct (Z.eqb_spec (i_version r) (hd_expected_version h)); done.
  - intros e d'. apply savepoint_rolls_back.
Qed.

(** ** Appending *)

(** [content] is the current content of the file [inode]. *)
Record current (d : Db) (inode : Z) (r : inode_row) (content : bytes) : Prop := {
  cu_kind : i_kind r = KFile;
  cu_size : i_size r = zlength content;
  cu_new : i_version r <= 0 → content = [];
  cu_stored : 0 < i_version r → content ≠ [] → ∃ st, ResolveVersionStorage inode (i_version r) d = Ok st ∧
    vs_size st = zlength content ∧ holds d (vs_manifest st) inode (pieces C content);
}.

Lemma write_at_end content suffix : write_at content (zlength content) suffix = content ++ suffix.
Proof.
  unfold write_at, overwrite, grow, zlength. rewrite Nat2Z.id. rewrite take_app_length.
  f_equal. rewrite drop_ge; [apply app_nil_r|]. rewrite length_app. unfold zeros. rewrite length_replicate. lia.
Qed.

Lemma writable_node_same w node r size d d' : tree_of d' = tree_of d → content_of d' = content_of d →
  writable_node w node r size d → writable_node w node r size d'.
Proof.
  intros Ht Hc [[We Wc] [Hf Hb Hs] Hws Hr Hv [m Hm] Hq Hfr]. split; rewrite ?Ht, ?Hc; try done.
  - split; rewrite Hc; done.
  - split; rewrite Ht; done.
  - exists m. unfold previous_manifest_of, ResolveVersionStorage in *. by rewrite Hc.
  - unfold CheckQuotaForContentSize, ReadQuotaPolicy, live_size in *. by rewrite Ht.
Qed.

(** A handle without a staging area gets one that shows the current content. *)
Lemma create_staging_ok h r content d :
  current d (hd_inode h) r content → zlength content <= kMaxStagedBytes →
  staging d !! hd_id h = None → (∀ n, staging_chunks d !! (hd_id h, n) = None) →
  ∃ s base, CreateStagingFromVersion h (node_of (hd_inode h) r) d = (Ok (), on_staging (insert (hd_id h) s) d) ∧
    staged (on_staging (insert (hd_id h) s) d) (hd_id h) (hd_inode h) s base content.
Proof.
  sizes. intros [_ Hsize Hnew Hst] Hmax Hnone Hno. pose proof (zlength_nonneg content).
  assert (Hd0 : dirty_sum (hd_id h) (staging_chunks d) = 0) by (apply dirty_sum_none; intros n c; by rewrite Hno).
  assert (Hins : ∀ s, insert_staging (hd_id h) s d = (Ok (), on_staging (insert (hd_id h) s) d)).
  { intros s. unfold insert_staging, with_db. rewrite (bind_eval _ _ _ () d); [done|]. apply throw_if_ok. split; [|done].
    apply bool_decide_eq_false_2. rewrite Hnone. by intros []. }
  destruct (decide (i_version r <= 0 ∨ content = [])) as [Hempty|Hfull].
  - assert (content = []) as -> by (destruct Hempty; auto).
    exists (mkStagingRow (hd_dirty h) None 0 0 0 0), []. split.
    + unfold CreateStagingFromVersion. simpl. rewrite Hsize. simpl. rewrite orb_true_r. unfold CreateStaging.
      rewrite (bind_eval _ _ _ () d); [|apply throw_if_ok; split; [|done]; apply Z.ltb_ge; done].
      erewrite bind_eval by apply Hins. done.
    + split; simpl; try done.
      * apply lookup_insert_eq.
      * intros n c. by rewrite Hno.
      * intros n Hn. unfold effective. simpl. rewrite Hno. done.
  - assert (0 < i_version r ∧ content ≠ []) as [Hv Hne] by (split; [lia|tauto]).
    destruct (Hst Hv Hne) as (st & Hres & Hsz & Hh).
    exists (mkStagingRow (hd_dirty h) (Some (vs_manifest st)) (vs_size st) (vs_size st) (vs_size st) 0), content. split.
    + unfold CreateStagingFromVersion. simpl. assert (0 < zlength content) by (destruct content; [done|unfold zlength; simpl; lia]).
      destruct (Z.leb_spec (i_version r) 0), (Z.eqb_spec (i_size r) 0); try lia. cbn [orb].
      erewrite bind_eval by (by apply query_ok).
      rewrite (bind_eval _ _ _ () d); [apply Hins|]. apply throw_if_ok. split; [|done]. rewrite Hsz, Hsize, Z.eqb_refl. done.
    + pose proof (resolve_size _ _ _ _ Hres) as (_ & _ & Hpos).
      apply resolve_iff in Hres as (v & m & row & Hr & ->). simpl in *. split; simpl; try done; try lia.
      * apply lookup_insert_eq.
      * split; simpl; try lia. intros _. exists m. split_and!; [done|done| |by destruct Hh; split].
        rewrite (rs_row _ _ _ _ _ _ Hr). eauto.
      * intros n c. by rewrite Hno.
      * intros n Hn. unfold effective. simpl. rewrite Hno. do 2 f_equal. apply take_ge. unfold zlength in *. lia.
Qed.

(** A recorded result touches the request table only. *)
Lemma store_request_run request_id operation fingerprint x d : request_id = [] ∨ request_of request_id d = None →
  ∃ t, StoreRequestInteger request_id operation fingerprint x d = (Ok (), on_requests (λ _, t) d).
Proof.
  intros Hreq. unfold StoreRequestInteger. destruct request_id as [|b request_id].
  { exists (requests d). destruct d as [? ? ? []]. done. }
  destruct Hreq as [|Hreq]; [done|]. unfold insert_request, with_db. cbn [q_request_id].
  rewrite (bind_eval _ _ _ () d).
  2:{ apply throw_if_ok. split; [|done]. apply bool_decide_eq_false_2. rewrite Hreq. by intros []. }
  erewrite bind_eval by reflexivity. unfold MaybePruneRequests. destruct (_ || _); eexists; reflexivity.
Qed.

(** A request that has not been answered yet. *)
Definition unanswered (request_id : bytes) (d : Db) : Prop := request_id = [] ∨ request_of request_id d = None.

Lemma replayed_fresh request_id operation fingerprint work d :
  unanswered request_id d → replayed request_id operation fingerprint work d = work d.
Proof.
  intros Hu. unfold replayed. rewrite (bind_eval _ _ _ kMissing d); [done|]. apply query_ok. split; [|done].
  unfold FindRequest. destruct request_id; [done|]. by destruct Hu as [| ->].
Qed.

Lemma current_content d d' inode r content : content_of d' = content_of d → current d inode r content → current d' inode r content.
Proof.
  intros E [Hk Hs Hn Hst]. split; try done. intros Hv Hne. destruct (Hst Hv Hne) as (st & Hr & Hsz & [He Hrow]).
  exists st. split_and!; [|done|].
  - unfold ResolveVersionStorage in *. by rewrite E.
  - unfold manifest_chunk in *. split; unfold manifest_chunk; rewrite E; done.
Qed.

(** The steps of an append under the savepoint: [h] has no staged bytes of its own. *)
Lemma append_steps h r w content suffix d :
  hd_dirty h = hd_published h → hd_state h = Open → workspaces d !! hd_workspace h = Some w →
  current d (hd_inode h) r content →
  writable_node (workspace_of (hd_workspace h) w) (node_of (hd_inode h) r) r (zlength (content ++ suffix)) d →
  suffix ≠ [] → zlength (content ++ suffix) <= kMaxStagedBytes → no_collision (pieces C (content ++ suffix)) →
  let h1 := set_expected h (i_version r) in
  ∃ d', (remove_staging (hd_id h);;
         CreateStagingFromVersion h1 (node_of (hd_inode h) r);;
         generation ← StageWrite h1 (zlength content) suffix;
         PublishHandleInTransaction (set_generation h1 generation) generation false) d = (Ok (i_version r + 1), d') ∧
    ReadVersionContent (hd_inode h) (i_version r + 1) d' = Ok (content ++ suffix) ∧ extends d d' ∧ requests d' = requests d.
Proof.
  intros Hclean Hopen Hw Hcur Hnode Hne Hmax Hnc h1. rewrite zlength_app in Hmax.
  pose proof (zlength_nonneg content). pose proof (zlength_nonneg suffix).
  set (d1 := on_staging (delete (hd_id h)) (on_staging_chunks (filter (λ '((h', _), _), h' ≠ hd_id h)) d)).
  destruct (create_staging_ok h1 r content d1) as (s & base & Hrun2 & Hst2);
    [by apply (current_content d)|lia|apply lookup_delete_eq| |].
  { intros n. simpl. rewrite lookup_cleared. by rewrite decide_True. }
  set (d2 := on_staging _ d1) in *.
  destruct (stage_write_ok h1 (zlength content) suffix (hd_inode h) s base content d2 Hst2 Hne) as (d3 & s3 & Hrun3 & Hst3 & Hgen & Hed);
    [lia|lia|]. rewrite write_at_end in Hst3.
  set (h3 := set_generation h1 (hd_dirty h + 1)).
  assert (Ht : tree_of d3 = tree_of d) by (rewrite (ed_tree _ _ _ _ Hed); done).
  assert (Hc : content_of d3 = content_of d) by (rewrite (ed_content _ _ _ _ Hed); done).
  destruct (publish_in_transaction_ok false h3 r s3 base (content ++ suffix) d3) as (d' & m & Hrun4 & d4 & Hpub & ->); [|done|].
  { split; [simpl; by rewrite Hopen|simpl; lia|done|done|done| |rewrite Ht; simpl; rewrite Hw; eauto].
    intros w'. rewrite Ht. simpl. rewrite Hw. intros [= <-]. by apply (writable_node_same _ _ _ _ d). }
  eexists. split; [|split_and!].
  - unfold remove_staging. erewrite bind_eval by reflexivity. erewrite bind_eval by exact Hrun2.
    erewrite bind_eval by exact Hrun3. exact Hrun4.
  - rewrite (read_content_of _ _ d4) by done. apply (pb_read _ _ _ _ _ _ Hpub).
  - assert (extends d d3) by (split; rewrite Hc; done). etrans; [done|]. etrans; [apply (pb_extends _ _ _ _ _ _ Hpub)|]. by split.
  - simpl. rewrite (pb_sessions _ _ _ _ _ _ Hpub), (ed_requests _ _ _ _ Hed). done.
Qed.

(** [handle_append] through an open, clean, writable handle publishes the current
    content of the file followed by the suffix as the next version, whatever version
    the handle was opened on, and keeps every stored version readable. *)
Theorem handle_append_adds hid suffix rid row r w content d :
  handles d !! hid = Some row → h_state row = Open → h_writable row = true →
  h_dirty_generation row = h_published_generation row →
  workspaces d !! h_workspace row = Some w → current d (h_inode row) r content →
  writable_node (workspace_of (h_workspace row) w) (node_of (h_inode row) r) r (zlength (content ++ suffix)) d →
  suffix ≠ [] → zlength (content ++ suffix) <= kMaxStagedBytes → no_collision (pieces C (content ++ suffix)) →
  unanswered rid d →
  ∃ d', HandleAppendFunction (Some hid) (Some suffix) (Some rid) d = (Ok (i_version r + 1), d') ∧
    ReadVersionContent (h_inode row) (i_version r + 1) d' = Ok (content ++ suffix) ∧
    (∀ inode version c, ReadVersionContent inode version d = Ok c → ReadVersionContent inode version d' = Ok c).
Proof.
  intros Hrow Ho Hwr Hclean Hw Hcur Hnode Hne Hmax Hnc Hu. set (h := handle_of hid row).
  destruct (append_steps h r w content suffix d) as (d1 & Hrun & Hread & Hext & Hreq); try done.
  set (fp := FinishFingerprint (AddBlob (AddText (NewFingerprint (str "handle_append")) hid) suffix)).
  destruct (store_request_run rid (str "handle_append") fp (i_version r + 1) d1) as (t & Ht).
  { unfold request_of in *. by rewrite Hreq. }
  exists (on_requests (λ _, t) d1). split_and!.
  - unfold HandleAppendFunction. erewrite bind_eval by reflexivity. erewrite bind_eval by reflexivity.
    erewrite bind_eval by reflexivity. cbv zeta. fold fp. rewrite replayed_fresh by done.
    rewrite (bind_eval _ _ _ h d); [|apply query_ok; unfold FindHandle; by rewrite Hrow].
    rewrite (bind_eval _ _ _ () d); [|apply throw_if_ok; simpl; by rewrite Ho].
    rewrite (bind_eval _ _ _ () d); [|apply throw_if_ok; simpl; by rewrite Hwr].
    rewrite (bind_eval _ _ _ () d); [|apply throw_if_ok; simpl; by rewrite Hclean, Z.eqb_refl].
    rewrite (bind_eval _ _ _ (workspace_of (h_workspace row) w) d); [|apply query_ok; unfold WorkspaceById; simpl; by rewrite Hw].
    unfold Savepoint. erewrite bind_eval by reflexivity.
    rewrite (bind_eval _ _ _ (node_of (h_inode row) r) d); [|apply query_ok; unfold NodeById; simpl].
    2:{ by rewrite (wn_inode _ _ _ _ _ Hnode : inodes d !! h_inode row = Some r). }
    pose proof (zlength_nonneg content). pose proof (zlength_nonneg suffix). rewrite zlength_app in Hmax.
    rewrite (bind_eval _ _ _ () d); [|apply throw_if_ok; simpl; by rewrite (cu_kind _ _ _ _ Hcur)].
    cbn [n_size node_of n_version n_id]. rewrite (cu_size _ _ _ _ Hcur).
    rewrite (bind_eval _ _ _ () d); [|apply throw_if_ok; split; [|done]; rewrite !orb_false_iff, !Z.ltb_ge; lia].
    rewrite (bind_eval _ _ _ () d); [|apply query_ok; split; [|done]; rewrite <- zlength_app; apply (wn_quota _ _ _ _ _ Hnode)].
    apply bind_ok in Hrun as (? & e1 & R1 & Hrun). erewrite bind_eval by exact R1.
    apply bind_ok in Hrun as (? & e2 & R2 & Hrun). erewrite bind_eval by exact R2.
    apply bind_ok in Hrun as (g & e3 & R3 & Hrun). erewrite bind_eval by exact R3.
    erewrite bind_eval by exact Hrun. erewrite bind_eval by exact Ht. done.
  - rewrite (read_content_of _ _ d1) by done. done.
  - intros inode version c Hc. rewrite (read_content_of _ _ d1) by done.
    eapply read_extends; [apply (wn_wf _ _ _ _ _ Hnode)|done|done].
Qed.

(** ** Instances *)

(** A handle on the file of [demo1], opened for writing on its first version. *)
Definition demo_handle : handle_row := mkHandleRow 1 2 true 1 0 0 Open None None 5000.
Definition demo2_pre : Db := on_handles (insert (str "h") demo_handle) demo1.
Definition demo2 : Db := (CreateStagingFromVersion (handle_of (str "h") demo_handle) demo1_node demo2_pre).2.

Lemma demo1_published : ∃ m, published demo demo1 demo_node demo_file (str "hello") m ∧ m = 1.
Proof.
  destruct (store_version_run demo_ws demo_node demo_file (str "hello") (str "m") demo demo_writable hello_small hello_no_collision)
    as (m & d' & Hrun & Hpub).
  assert (d' = demo1) as -> by (unfold demo1; rewrite Hrun; reflexivity). exists m. split; [done|].
  pose proof (pb_holds _ _ _ _ _ _ Hpub) as [He _].
  assert (Hm : is_Some (manifest_chunks demo1 !! (m, 0))).
  { apply He. rewrite pieces_single; [simpl; lia|done|]. sizes. assert (16 < kContentChunkBytes) by done. simpl. lia. }
  destruct Hm as [x Hx]. apply elem_of_map_to_list in Hx.
  assert (E : (map_to_list (manifest_chunks demo1)).*1 = [(1, 0)]) by (vm_compute; reflexivity).
  apply (list_elem_of_fmap_2 fst) in Hx. rewrite E in Hx. apply list_elem_of_singleton in Hx. by injection Hx.
Qed.

Lemma demo1_current : current demo1 2 demo1_file (str "hello").
Proof.
  destruct demo1_published as (m & Hpub & ->). split; try reflexivity; try done.
  intros _ _. eexists. split_and!; [vm_compute; reflexivity|reflexivity|]. exact (pb_holds _ _ _ _ _ _ Hpub).
Qed.

Lemma demo2_stages : stages demo2 (str "h") 2 (str "hello").
Proof.
  destruct (create_staging_ok (handle_of (str "h") demo_handle) demo1_file (str "hello") demo2_pre) as (s & base & Hrun & Hst).
  - apply (current_content demo1); [vm_compute; reflexivity|exact demo1_current].
  - exact hello_small.
  - vm_compute. reflexivity.
  - intros n. assert (staging_chunks demo2_pre = ∅) as -> by (vm_compute; reflexivity). apply lookup_empty.
  - exists s, base. unfold demo2. change demo1_node with (node_of (hd_inode (handle_of (str "h") demo_handle)) demo1_file).
    rewrite Hrun. exact Hst.
Qed.

Lemma demo2_handle : handles demo2 !! str "h" = Some demo_handle.
Proof. vm_compute. reflexivity. Qed.

Lemma staging_refines_array_witness :
  ∃ d', run_edits (str "h") [Write 6 (str "x"); Truncate 7; Truncate 3] demo2 = (Ok (), d') ∧
    ReadStagingRange (handle_of (str "h") demo_handle) 1 10 d' = Ok (str "el").
Proof.
  pose proof (staging_refines_array (str "h") 2 (str "hello") [Write 6 (str "x"); Truncate 7; Truncate 3] demo2
    demo2_stages (mk_is_Some _ _ demo2_handle) ltac:(repeat constructor; vm_compute; discriminate)) as (d' & H1 & H2 & _).
  exists d'. split; [exact H1|].
  exact (H2 (handle_of (str "h") demo_handle) 1 10 eq_refl ltac:(split; vm_compute; discriminate) ltac:(split; vm_compute; discriminate)).
Defined.

(** The handle after one write. *)
Definition demo3_pair := StageWrite (handle_of (str "h") demo_handle) 5 (str "!") demo2.
Definition demo3_handle : handle_row := set_dirty 1 5000 demo_handle.

Lemma demo2_writable size : size = 6 →
  writable_node demo_ws demo1_node demo1_file size demo2.
Proof.
  intros ->. apply (writable_node_same _ _ _ _ demo1); [vm_compute; reflexivity|vm_compute; reflexivity|].
  destruct demo1_writable as [H1 H2 H3 H4 H5 H6 _ H8]. split; [exact H1|exact H2|exact H3|exact H4|exact H5|exact H6| |exact H8].
  vm_compute. reflexivity.
Qed.

(** The workspace of a handle stands for the same workspace. *)
Lemma demo_workspace_of w node r size d : writable_node demo_ws node r size d → writable_node (workspace_of 1 w) node r size d.
Proof. intros [H1 H2 H3 H4 H5 H6 H7 H8]. split; [exact H1|exact H2|exact H3|exact H4|exact H5|exact H6|exact H7|exact H8]. Qed.

Lemma demo3_publishable : ∃ s base, publishable demo3_pair.2 (handle_of (str "h") demo3_handle) demo1_file s base (str "hello!").
Proof.
  destruct demo2_stages as (s & base & Hst).
  destruct (stage_write_ok (handle_of (str "h") demo_handle) 5 (str "!") 2 s base (str "hello") demo2 Hst)
    as (d' & s' & Hrun & Hst' & Hgen & Hed); [done|done|done|].
  assert (demo3_pair.2 = d') as -> by (unfold demo3_pair; rewrite Hrun; reflexivity).
  assert (Hw : ∃ w, workspaces demo2 !! 1 = Some w ∧ w_root_inode w = Some 1).
  { eexists. split; vm_compute; reflexivity. } destruct Hw as (w & Hw & Hroot).
  exists s', base. split; [discriminate|reflexivity|exact Hst'|exact Hgen|reflexivity| |].
  - intros w'. simpl. rewrite (ed_tree _ _ _ _ Hed), Hw. intros [= <-].
    apply (writable_node_same _ _ _ _ demo2); [apply (ed_tree _ _ _ _ Hed)|apply (ed_content _ _ _ _ Hed)|].
    exact (demo_workspace_of _ _ _ _ _ (demo2_writable 6 eq_refl)).
  - simpl. rewrite (ed_tree _ _ _ _ Hed), Hw. exists w. reflexivity.
Qed.

Lemma publish_handle_round_trip_witness :
  ∃ d', PublishHandle (handle_of (str "h") demo3_handle) 1 demo3_pair.2 = (Ok 2, d') ∧
    ReadVersionContent 2 2 d' = Ok (str "hello!") ∧ ReadVersionContent 2 1 d' = Ok (str "hello").
Proof.
  destruct demo3_publishable as (s & base & Hp).
  assert (Hrow : handles demo3_pair.2 !! str "h" = Some demo3_handle) by (vm_compute; reflexivity).
  assert (Hold : ReadVersionContent 2 1 demo3_pair.2 = Ok (str "hello")) by (vm_compute; reflexivity).
  pose proof (publish_handle_round_trip (handle_of (str "h") demo3_handle) demo3_handle demo1_file s base (str "hello!") demo3_pair.2
    Hp Hrow eq_refl eq_refl (small_no_collision (str "hello!") ltac:(vm_compute; discriminate))) as (d' & H1 & H2 & H3 & _).
  exists d'. split; [exact H1|]. split; [exact H2|exact (H3 2 1 _ Hold)].
Defined.

Lemma publish_conflict_witness :
  PublishHandle (handle_of (str "h") (set_published 0 0 5000 demo3_handle)) 1 demo3_pair.2 = (Throw SQLITE_CONSTRAINT, demo3_pair.2).
Proof.
  assert (Hr : inodes demo3_pair.2 !! hd_inode (handle_of (str "h") (set_published 0 0 5000 demo3_handle)) = Some demo1_file)
    by (vm_compute; reflexivity).
  apply (publish_conflict (handle_of (str "h") (set_published 0 0 5000 demo3_handle)) demo1_file 1 demo3_pair.2 Hr); vm_compute; done.
Defined.

Lemma handle_append_adds_witness :
  ∃ d', HandleAppendFunction (Some (str "h")) (Some (str "!")) (Some []) demo2 = (Ok 2, d') ∧
    ReadVersionContent 2 2 d' = Ok (str "hello!").
Proof.
  assert (Hw : ∃ w, workspaces demo2 !! 1 = Some w ∧ w_root_inode w = Some 1).
  { eexists. split; vm_compute; reflexivity. } destruct Hw as (w & Hw & Hroot).
  assert (Hcur : current demo2 2 demo1_file (str "hello")).
  { apply (current_content demo1); [vm_compute; reflexivity|exact demo1_current]. }
  assert (Hnode : writable_node (workspace_of 1 w) (node_of 2 demo1_file) demo1_file (zlength (str "hello" ++ str "!")) demo2).
  { exact (demo_workspace_of _ _ _ _ _ (demo2_writable 6 eq_refl)). }
  pose proof (handle_append_adds (str "h") (str "!") [] demo_handle demo1_file w (str "hello") demo2 demo2_handle eq_refl eq_refl eq_refl
    Hw Hcur Hnode ltac:(discriminate) ltac:(vm_compute; discriminate)
    (small_no_collision (str "hello!") ltac:(vm_compute; discriminate)) (or_introl eq_refl)) as (d' & H1 & H2 & _).
  exists d'. split; [exact H1|exact H2].
Defined.

Definition demo4_pair := HandleStageWriteFunction (Some (str "h")) 5 (Some (str "!")) (Some (str "q")) demo2.

Lemma demo4_run : demo4_pair = (Ok 1, demo4_pair.2).
Proof.
  assert (E : demo4_pair.1 = Ok 1) by (vm_compute; reflexivity). revert E. generalize demo4_pair.
  intros [r d'] E. simpl in *. by rewrite E.
Qed.

Lemma stage_write_replays_witness :
  HandleStageWriteFunction (Some (str "h")) 5 (Some (str "!")) (Some (str "q")) demo4_pair.2 = (Ok 1, demo4_pair.2).
Proof.
  assert (E : requests demo2 = ∅) by (vm_compute; reflexivity).
  assert (Hu : requests_unique (requests demo2)) by (rewrite E; intros i j p q Hi; discriminate Hi).
  exact (proj1 (stage_write_replays (str "h") 5 (str "!") (str "q") demo2 1 demo4_pair.2 ltac:(discriminate) Hu
    ltac:(vm_compute; reflexivity) demo4_run)).
Defined.

Lemma requests_bounded_witness :
  ∃ d', StoreRequestInteger (str "q") (str "op") [] 7 demo = (Ok (), d') ∧ retained (requests d').
Proof.
  exists (StoreRequestInteger (str "q") (str "op") [] 7 demo).2.
  assert (H : StoreRequestInteger (str "q") (str "op") [] 7 demo = (Ok (), (StoreRequestInteger (str "q") (str "op") [] 7 demo).2))
    by (vm_compute; reflexivity).
  split; [exact H|]. apply (requests_bounded (str "q") (str "op") [] 7 demo _ ltac:(discriminate)); [|exact H].
  intros i q Hi. discriminate Hi.
Defined.
