(* ===== verification/VexfsNames.v ===== *)
(** * The functions of the name space

    The SQL functions of [src/vexdb_sqlite/src/agent_files/vexfs_sqlite.cpp] that change or
    read files by path: creating workspaces, directories, files and links, writing,
    appending, reading, restoring, renaming and removing, and opening handles.
    Arguments are as in the handle functions; [uid] and [gid] are those of the
    process and [handle_id] is what [RandomHandleId] returns. *)
From Stdlib Require Import ZArith Lia String.
From stdpp Require Import prelude gmap.
From S2P Require Import Prelude Sha256 VexfsText VexfsDb VexfsTree VexfsStore VexfsStaging VexfsHandles.

Local Open Scope Z_scope.

Definition kMaxSymlinkBytes : Z := 4096.

(** A [Node] whose other fields keep their initializers. *)
Definition fresh_node (id : Z) (kind : Kind) (mode : Z) : Node := mkNode id kind 0 0 mode (str "local") 0 0 0 0 0 0.

(** ** Rows *)

(** [UPDATE _vexfs_dentries SET parent_inode, name WHERE …] of one key, with the
    update triggers; the new key must be free. *)
Definition move_dentry (w p : Z) (n : bytes) (p' : Z) (n' : bytes) : M () :=
  with_db $ λ d,
  match dentries d !! (w, p, n) with
  | None => mret ()
  | Some i =>
    throw_if (bool_decide ((p', n') ≠ (p, n)) && bool_decide (is_Some (dentries d !! (w, p', n')))) SQLITE_CONSTRAINT;;
    modify (on_dentries (λ t, <[(w, p', n') := i]> (delete (w, p, n) t)));;
    modify (dirty_dentry w p n i);;
    modify (dirty_dentry w p' n' i)
  end.

Definition set_tombstone (now : Z) (r : inode_row) : inode_row :=
  mkInodeRow (i_workspace r) (i_kind r) (i_mode r) (i_owner r) (i_uid r) (i_gid r) (i_size r) (i_version r)
    (i_created r) (i_accessed r) (i_updated r) (i_changed r) (Some now).

(** [UPDATE _vexfs_inodes SET deleted_at=… WHERE workspace_id=… AND id IN …]. *)
Fixpoint tombstone_rows (ws : Z) (ids : list Z) : M () :=
  match ids with
  | [] => mret ()
  | id :: ids =>
    (with_db $ λ d,
      match inodes d !! id with
      | Some r => if i_workspace r =? ws then update_inode id r (set_tombstone (clock_seconds d) r) else mret ()
      | None => mret ()
      end);;
    tombstone_rows ws ids
  end.

Definition RemoveDeletedFilesFromGrepIndex (ws : Z) : M () :=
  with_db $ λ d,
  match grep_index d with
  | kDisabled => mret ()
  | kUnavailable => MarkGrepIndexDirty
  | kAvailable =>
    modify (set_content_fts (filter (λ '(rowid, _),
      match inodes d !! rowid with
      | Some r => (i_workspace r =? ws) && bool_decide (i_kind r = KFile) && negb (live r)
      | None => false
      end = false)))
  end.

(** ** Removing *)

Definition DirectoryIsEmpty (ws inode : Z) (d : Db) : bool :=
  negb (existsb (λ '((w, p, _), i), (w =? ws) && (p =? inode) &&
    match inodes d !! i with Some r => live r | None => false end) (map_to_list (dentries d))).

(** The entries of a directory. *)
Definition children (ws p : Z) (d : Db) : list Z :=
  omap (λ '((w, q, _), i), if (w =? ws) && (q =? p) then Some i else None) (map_to_list (dentries d)).

(** The recursive query of [TombstoneTree], level by level; [None] when the fuel runs
    out, as it would for ever on a cycle. *)
Fixpoint tree_rows (fuel : nat) (ws : Z) (level : list Z) (d : Db) : option (list Z) :=
  match level, fuel with
  | [], _ => Some []
  | _, O => None
  | _, S fuel => rest ← tree_rows fuel ws (p ← level; children ws p d) d; Some (level ++ rest)
  end.

(** A failing statement takes back its own changes. A query that does not end is an
    error here; it does end on a tree. *)
Definition TombstoneTree (ws inode : Z) : M () :=
  with_db (λ d,
    match tree_rows (S (size (dentries d))) ws [inode] d with
    | None => throw SQLITE_ERROR
    | Some ids => Savepoint (tombstone_rows ws (elements (list_to_set ids : gset Z)))
    end);;
  RemoveDeletedFilesFromGrepIndex ws.

Definition referenced (ws inode : Z) (d : Db) : bool :=
  existsb (λ '((w, _, _), i), (w =? ws) && (i =? inode)) (map_to_list (dentries d)).

Definition TombstoneIfUnreferenced (ws inode : Z) : M () :=
  with_db (λ d,
    match inodes d !! inode with
    | Some r =>
      if (i_workspace r =? ws) && negb (bool_decide (i_kind r = KDirectory)) && negb (referenced ws inode d)
      then Savepoint (update_inode inode r (set_tombstone (clock_seconds d) r)) else mret ()
    | None => mret ()
    end);;
  RemoveDeletedFilesFromGrepIndex ws.

(** What is done with an inode whose entry has been removed. *)
Definition drop_node (ws : Z) (node : Node) : M () :=
  if bool_decide (n_kind node = KDirectory) then TombstoneTree ws (n_id node)
  else TombstoneIfUnreferenced ws (n_id node).

Definition RemoveFunction (workspace path : option bytes) (recursive : bool) : M Z :=
  name ← lift (RequiredText workspace);
  w ← query (FindWorkspace name);
  path ← lift (RequiredText path);
  parts ← lift (PathParts path);
  throw_if (bool_decide (parts = [])) SQLITE_MISMATCH;;
  '(parent, name) ← query (ResolveParent w parts);
  child ← query (λ d, Ok (FindChild (ws_id w) (n_id parent) name d));
  match child with
  | None => throw SQLITE_NOTFOUND
  | Some node =>
    full ← query (λ d, Ok (negb (DirectoryIsEmpty (ws_id w) (n_id node) d)));
    throw_if (bool_decide (n_kind node = KDirectory) && negb recursive && full) VEXFS_SQLITE_CONSTRAINT_NOT_EMPTY;;
    delete_dentry (ws_id w) (n_id parent) name;;
    drop_node (ws_id w) node;;
    TouchDirectory (ws_id w) (n_id parent);;
    CreateCommit w (str "remove");;
    mret 1
  end.

(** ** Renaming *)

(** [replace] is false without a fourth argument. *)
Definition RenameFunction (workspace source destination : option bytes) (replace : bool) : M Z :=
  name ← lift (RequiredText workspace);
  w ← query (FindWorkspace name);
  source ← lift (RequiredText source);
  source_parts ← lift (PathParts source);
  destination ← lift (RequiredText destination);
  destination_parts ← lift (PathParts destination);
  throw_if (bool_decide (source_parts = []) || bool_decide (destination_parts = [])) SQLITE_MISMATCH;;
  if bool_decide (source_parts = destination_parts) then mret 1
  else
    throw_if ((length source_parts <? length destination_parts)%nat &&
      bool_decide (take (length source_parts) destination_parts = source_parts)) SQLITE_MISMATCH;;
    '(source_parent, source_name) ← query (ResolveParent w source_parts);
    found ← query (λ d, Ok (FindChild (ws_id w) (n_id source_parent) source_name d));
    match found with
    | None => throw SQLITE_NOTFOUND
    | Some source =>
      '(destination_parent, destination_name) ← query (ResolveParent w destination_parts);
      existing ← query (λ d, Ok (FindChild (ws_id w) (n_id destination_parent) destination_name d));
      match existing with
      | None => mret ()
      | Some existing =>
        throw_if (negb replace) SQLITE_CONSTRAINT;;
        throw_if (negb (bool_decide (n_kind source = n_kind existing))) SQLITE_MISMATCH;;
        full ← query (λ d, Ok (negb (DirectoryIsEmpty (ws_id w) (n_id existing) d)));
        throw_if (bool_decide (n_kind existing = KDirectory) && full) VEXFS_SQLITE_CONSTRAINT_NOT_EMPTY;;
        delete_dentry (ws_id w) (n_id destination_parent) destination_name;;
        drop_node (ws_id w) existing
      end;;
      move_dentry (ws_id w) (n_id source_parent) source_name (n_id destination_parent) destination_name;;
      TouchDirectory (ws_id w) (n_id source_parent);;
      (if n_id destination_parent =? n_id source_parent then mret ()
       else TouchDirectory (ws_id w) (n_id destination_parent));;
      CreateCommit w (if replace then str "rename replace" else str "move");;
      mret 1
    end.

(** ** Creating *)

Definition insert_workspace (name : bytes) : M Z :=
  with_db $ λ d,
  throw_if (existsb (λ '(_, w), bool_decide (w_name w = name)) (map_to_list (workspaces d))) SQLITE_CONSTRAINT;;
  let id := next_rowid (workspaces d) in
  modify (on_workspaces (insert id (mkWorkspaceRow name true None None None None None None 0 0 default_retention)));;
  mret id.

Definition set_root (root : Z) (w : workspace_row) : workspace_row :=
  mkWorkspaceRow (w_name w) (w_active w) (Some root) (w_head_commit w) (w_history_floor w)
    (w_max_bytes w) (w_max_files w) (w_max_file_bytes w) (w_live_files w) (w_live_bytes w) (w_retention w).

Definition insert_acl (k : acl_key) (permissions : bytes) (inherit_flags : Z) : M () :=
  with_db $ λ d,
  throw_if (bool_decide (is_Some (acl_entries d !! k))) SQLITE_CONSTRAINT;;
  modify (on_acl_entries (insert k (permissions, inherit_flags)));;
  modify (on_dirty_acl (λ s, {[ k ]} ∪ s)).

Definition WorkspaceCreateFunction (uid gid : Z) (workspace : option bytes) : M Z :=
  name ← lift (RequiredText workspace);
  throw_if (bool_decide (name = []) || (128 <? zlength name)) SQLITE_MISMATCH;;
  with_db $ λ d,
  match FindWorkspace name d with
  | Ok existing => mret (ws_id existing)
  | Throw _ =>
    ws ← insert_workspace name;
    root ← CreateInode uid gid ws KDirectory 493;
    modify (on_workspaces (alter (set_root root) ws));;
    insert_acl (ws, root, str "local", Allow)
      (str "traverse,list,read,write,create,delete,rename,history,snapshot,share,admin") 1;;
    CreateCommit (mkWorkspace ws root 0) (str "create workspace");;
    mret ws
  end.

(** A new inode with its entry. *)
Definition create_entry (uid gid : Z) (w : Workspace) (parent : Node) (name : bytes) (kind : Kind) (mode : Z) : M Node :=
  id ← CreateInode uid gid (ws_id w) kind mode;
  AddDentry (ws_id w) (n_id parent) name id;;
  mret (fresh_node id kind mode).

(** The loop of [MkdirFunction]: the last directory, and whether one was created. *)
Fixpoint mkdir_loop (uid gid : Z) (w : Workspace) (current : Node) (parts : list bytes) (changed : bool)
    : M (Node * bool) :=
  match parts with
  | [] => mret (current, changed)
  | part :: parts =>
    child ← query (λ d, Ok (FindChild (ws_id w) (n_id current) part d));
    match child with
    | None =>
      child ← create_entry uid gid w current part KDirectory 493;
      mkdir_loop uid gid w child parts true
    | Some child =>
      throw_if (negb (bool_decide (n_kind child = KDirectory))) SQLITE_MISMATCH;;
      mkdir_loop uid gid w child parts changed
    end
  end.

Definition MkdirFunction (uid gid : Z) (workspace path : option bytes) : M Z :=
  name ← lift (RequiredText workspace);
  w ← query (FindWorkspace name);
  path ← lift (RequiredText path);
  parts ← lift (PathParts path);
  root ← query (RootNode w);
  '(current, changed) ← mkdir_loop uid gid w root parts false;
  (if changed : bool then CreateCommit w (str "mkdir");; mret () else mret ());;
  mret (n_id current).

(** The parent of a path that must be new, and its last name. *)
Definition new_path (w : Workspace) (parts : list bytes) : M (Node * bytes) :=
  '(parent, name) ← query (ResolveParent w parts);
  existing ← query (λ d, Ok (FindChild (ws_id w) (n_id parent) name d));
  throw_if (bool_decide (is_Some existing)) SQLITE_CONSTRAINT;;
  mret (parent, name).

(** The kinds [CreateFunction] accepts. *)
Definition create_kind (kind : bytes) : option Kind :=
  if bool_decide (kind = str "file") then Some KFile
  else if bool_decide (kind = str "directory") then Some KDirectory else None.

Definition CreateFunction (uid gid : Z) (workspace path kind : option bytes) (mode : sqlite_value) : M Z :=
  name ← lift (RequiredText workspace);
  w ← query (FindWorkspace name);
  path ← lift (RequiredText path);
  parts ← lift (PathParts path);
  kind ← lift (RequiredText kind);
  mode ← lift (RequiredMode mode);
  throw_if (bool_decide (parts = [])) SQLITE_CONSTRAINT;;
  match create_kind kind with
  | None => throw SQLITE_MISMATCH
  | Some kind =>
    Savepoint (
      AcquireWriteLock;;
      '(parent, name) ← new_path w parts;
      node ← create_entry uid gid w parent name kind mode;
      match kind with
      | KFile => StoreVersion w node [] (str "create file");; mret ()
      | _ => CreateCommit w (str "create directory");; mret ()
      end;;
      mret (n_id node))
  end.

Definition SymlinkFunction (uid gid : Z) (workspace path target : option bytes) : M Z :=
  name ← lift (RequiredText workspace);
  w ← query (FindWorkspace name);
  path ← lift (RequiredText path);
  parts ← lift (PathParts path);
  target ← lift (RequiredBlob target);
  throw_if (bool_decide (parts = [])) SQLITE_CONSTRAINT;;
  throw_if (bool_decide (target = [])) SQLITE_MISMATCH;;
  throw_if (kMaxSymlinkBytes <? zlength target) SQLITE_TOOBIG;;
  throw_if (existsb (Z.eqb 0) target) SQLITE_MISMATCH;;
  Savepoint (
    AcquireWriteLock;;
    '(parent, name) ← new_path w parts;
    node ← create_entry uid gid w parent name KSymlink 511;
    StoreVersion w node target (str "create symlink");;
    mret (n_id node)).

Definition HardlinkFunction (workspace source destination : option bytes) : M Z :=
  name ← lift (RequiredText workspace);
  w ← query (FindWorkspace name);
  source ← lift (RequiredText source);
  source_parts ← lift (PathParts source);
  destination ← lift (RequiredText destination);
  destination_parts ← lift (PathParts destination);
  throw_if (bool_decide (source_parts = []) || bool_decide (destination_parts = [])) SQLITE_MISMATCH;;
  Savepoint (
    AcquireWriteLock;;
    source ← query (Resolve w source_parts);
    throw_if (negb (bool_decide (n_kind source = KFile))) SQLITE_MISMATCH;;
    '(parent, name) ← new_path w destination_parts;
    AddDentry (ws_id w) (n_id parent) name (n_id source);;
    CreateCommit w (str "create hard link");;
    mret (n_id source)).

(** ** Writing *)

Definition WritePath (uid gid : Z) (w : Workspace) (parts : list bytes) (content message : bytes) : M Z :=
  Savepoint (
    AcquireWriteLock;;
    '(parent, name) ← query (ResolveParent w parts);
    child ← query (λ d, Ok (FindChild (ws_id w) (n_id parent) name d));
    node ← (match child with
      | None => create_entry uid gid w parent name KFile 420
      | Some node => mret node
      end);
    throw_if (negb (bool_decide (n_kind node = KFile))) SQLITE_MISMATCH;;
    StoreVersion w node content message).

Definition WriteFunction (uid gid : Z) (workspace path content : option bytes) : M Z :=
  name ← lift (RequiredText workspace);
  w ← query (FindWorkspace name);
  path ← lift (RequiredText path);
  parts ← lift (PathParts path);
  content ← lift (RequiredBlob content);
  throw_if (kMaxStagedBytes <? zlength content) SQLITE_TOOBIG;;
  WritePath uid gid w parts content (str "write file").

Definition RequireWorkspaceInode (w : Workspace) (inode : Z) (d : Db) : sql () :=
  match inodes d !! inode with
  | Some r => if i_workspace r =? ws_id w then Ok () else Throw SQLITE_NOTFOUND
  | None => Throw SQLITE_NOTFOUND
  end.

Definition AppendFunction (workspace : option bytes) (inode : sqlite_value) (content : option bytes) : M Z :=
  name ← lift (RequiredText workspace);
  w ← query (FindWorkspace name);
  inode ← lift (RequiredPositiveInteger inode);
  suffix ← lift (RequiredBlob content);
  Savepoint (
    AcquireWriteLock;;
    query (RequireWorkspaceInode w inode);;
    node ← query (NodeById inode true);
    throw_if (negb (bool_decide (n_kind node = KFile))) SQLITE_MISMATCH;;
    throw_if ((n_size node <? 0) || (kMaxStagedBytes <? n_size node) || (kMaxStagedBytes - n_size node <? zlength suffix))
      SQLITE_TOOBIG;;
    content ← query (ReadNode node);
    StoreVersion w node (content ++ suffix) (str "append file")).

Definition RestoreVersionFunction (workspace path : option bytes) (target expected : sqlite_value) : M Z :=
  name ← lift (RequiredText workspace);
  w ← query (FindWorkspace name);
  path ← lift (RequiredText path);
  parts ← lift (PathParts path);
  node ← query (Resolve w parts);
  target_version ← lift (RequiredPositiveInteger target);
  expected_version ← lift (RequiredPositiveInteger expected);
  throw_if (negb (n_version node =? expected_version)) SQLITE_CONSTRAINT;;
  throw_if (target_version =? n_version node) SQLITE_MISMATCH;;
  StoreVersionFromVersion w node target_version (str "restore version " ++ to_string target_version).

(** ** Reading *)

(** The handle of the mounted session that holds unpublished changes of a file. *)
Definition FindActiveMountStaging (ws inode : Z) (d : Db) : option Handle :=
  match mount_sessions d !! ws with
  | None => None
  | Some (session, lease_until) =>
    let active := filter (λ '(_, h),
      (h_workspace h =? ws) && (h_inode h =? inode) && h_writable h && bool_decide (h_state h = Open) &&
      (h_published_generation h <? h_dirty_generation h) && bool_decide (h_owner_session h = Some session) &&
      (clock d <? lease_until) = true) (map_to_list (handles d)) in
    '(id, h) ← foldl later_handle None active;
    Some (handle_of id h)
  end.

Definition ReadFunction (workspace path : option bytes) : M bytes :=
  name ← lift (RequiredText workspace);
  w ← query (FindWorkspace name);
  path ← lift (RequiredText path);
  parts ← lift (PathParts path);
  node ← query (Resolve w parts);
  mounted ← query (λ d, Ok (FindActiveMountStaging (ws_id w) (n_id node) d));
  match n_kind node, mounted with
  | KFile, Some mounted => query (ReadStagingRange mounted 0 kMaxStagedBytes)
  | _, _ => query (ReadNode node)
  end.

Definition ReadRangeFunction (workspace path : option bytes) (offset len : sqlite_value) : M bytes :=
  name ← lift (RequiredText workspace);
  w ← query (FindWorkspace name);
  path ← lift (RequiredText path);
  parts ← lift (PathParts path);
  node ← query (Resolve w parts);
  offset ← lift (RequiredNonnegativeInteger offset);
  len ← lift (RequiredNonnegativeInteger len);
  throw_if (negb (bool_decide (n_kind node = KFile))) SQLITE_MISMATCH;;
  mounted ← query (λ d, Ok (FindActiveMountStaging (ws_id w) (n_id node) d));
  match mounted with
  | Some mounted =>
    if len =? 0 then mret [] else query (ReadStagingRange mounted offset len)
  | None =>
    if (n_version node =? 0) || (len =? 0) || (n_size node <=? offset) then mret []
    else query (ReadVersionRange (n_id node) (n_version node) offset len)
  end.

Definition ReadVersionFunction (workspace path : option bytes) (version : sqlite_value) : M bytes :=
  name ← lift (RequiredText workspace);
  w ← query (FindWorkspace name);
  path ← lift (RequiredText path);
  parts ← lift (PathParts path);
  node ← query (Resolve w parts);
  version ← lift (RequiredPositiveInteger version);
  query (ReadNodeVersion node version).

(** ** Opening handles *)

Definition HasPendingContentPublish (ws inode : Z) (d : Db) : bool :=
  existsb (λ '(_, h), (h_workspace h =? ws) && (h_inode h =? inode) && h_writable h &&
    (bool_decide (h_state h = Open) || bool_decide (h_state h = Retained)) &&
    (h_published_generation h <? h_dirty_generation h)) (map_to_list (handles d)).

Definition CommitMetadataChange (w : Workspace) (inode : Z) (message : bytes) : M () :=
  with_db $ λ d,
  if HasPendingContentPublish (ws_id w) inode d then mret ()
  else CreateCommit w message;; mret ().

(** [INSERT INTO _vexfs_handles], with its staging area. *)
Definition insert_handle (id : bytes) (row : handle_row) : M () :=
  with_db $ λ d,
  throw_if (bool_decide (is_Some (handles d !! id))) SQLITE_CONSTRAINT;;
  modify (on_handles (insert id row)).

Definition set_owner_ids (uid gid : Z) (r : inode_row) : inode_row :=
  mkInodeRow (i_workspace r) (i_kind r) (i_mode r) (i_owner r) uid gid (i_size r) (i_version r)
    (i_created r) (i_accessed r) (i_updated r) (i_changed r) (i_deleted r).

(** [UPDATE _vexfs_inodes SET uid, gid WHERE workspace_id=… AND id=…]. *)
Definition update_owner (ws inode uid gid : Z) : M () :=
  with_db $ λ d,
  match inodes d !! inode with
  | Some r => if i_workspace r =? ws then update_inode inode r (set_owner_ids uid gid r) else mret ()
  | None => mret ()
  end.

(** The optional last argument of an open: absent, or a text. *)
Definition owner_session_arg (session : option (option bytes)) : sql (option bytes) :=
  match session with
  | None => Ok None
  | Some value => match RequiredText value with Ok text => Ok (Some text) | Throw e => Throw e end
  end.

(** [owner] is given by the call with seven arguments, which also has [session]. *)
Definition HandleCreateFunction (uid gid : Z) (handle_id : bytes) (workspace path : option bytes) (mode : sqlite_value)
    (owner : option (sqlite_value * sqlite_value)) (request : option bytes) (session : option (option bytes)) : M bytes :=
  workspace_name ← lift (RequiredText workspace);
  path ← lift (RequiredText path);
  mode ← lift (RequiredMode mode);
  owner_uid ← lift (match owner with Some (u, _) => RequiredOwnerId u | None => Ok 0 end);
  owner_gid ← lift (match owner with Some (_, g) => RequiredOwnerId g | None => Ok 0 end);
  request_id ← lift (RequiredText request);
  owner_session ← lift (owner_session_arg session);
  let fingerprint := FinishFingerprint (AddText (AddInt64 (AddInt64 (AddInt64 (AddText (AddText
    (NewFingerprint (str "handle_create")) workspace_name) path) mode) owner_uid) owner_gid) (default [] owner_session)) in
  cached ← query (FindRequest request_id (str "handle_create") fingerprint);
  match cached with
  | kText text => mret text
  | _ =>
    w ← query (FindWorkspace workspace_name);
    parts ← lift (PathParts path);
    throw_if (bool_decide (parts = [])) SQLITE_CONSTRAINT;;
    Savepoint (
      AcquireWriteLock;;
      '(parent, name) ← new_path w parts;
      inode ← CreateInode uid gid (ws_id w) KFile mode;
      (if owner is Some _ then update_owner (ws_id w) inode owner_uid owner_gid else mret ());;
      AddDentry (ws_id w) (n_id parent) name inode;;
      with_db (λ d, insert_handle handle_id
        (mkHandleRow (ws_id w) inode true 0 1 0 Open None owner_session (clock_seconds d)));;
      CreateStaging (mkHandle handle_id (ws_id w) inode true 0 1 0 Open (default [] owner_session)) [];;
      StoreRequestText request_id (str "handle_create") fingerprint handle_id;;
      mret handle_id)
  end.

Definition has_flag (c : Z) (flags : bytes) : bool := existsb (Z.eqb c) flags.

(** The node of a path; with [create] a missing one is made first. *)
Definition open_node (uid gid : Z) (w : Workspace) (parts : list bytes) (create : bool) : M Node :=
  found ← query (TryResolve w parts);
  match found with
  | Some node => mret node
  | None =>
    throw_if (negb create) SQLITE_NOTFOUND;;
    WritePath uid gid w parts [] (str "create file");;
    w ← query (WorkspaceById (ws_id w));
    query (Resolve w parts)
  end.

Definition HandleOpenFunction (uid gid : Z) (handle_id : bytes) (workspace path flags request : option bytes)
    (session : option (option bytes)) : M bytes :=
  workspace_name ← lift (RequiredText workspace);
  path ← lift (RequiredText path);
  flags ← lift (RequiredText flags);
  request_id ← lift (RequiredText request);
  owner_session ← lift (owner_session_arg session);
  let fingerprint := FinishFingerprint (AddText (AddText (AddText (AddText
    (NewFingerprint (str "handle_open")) workspace_name) path) flags) (default [] owner_session)) in
  cached ← query (FindRequest request_id (str "handle_open") fingerprint);
  match cached with
  | kText text => mret text
  | _ =>
    let writable := has_flag 119 flags in
    let create := has_flag 99 flags in
    let truncate := has_flag 116 flags in
    throw_if (negb (has_flag 114 flags) && negb writable) SQLITE_MISMATCH;;
    throw_if ((create || truncate) && negb writable) SQLITE_MISMATCH;;
    w ← query (FindWorkspace workspace_name);
    parts ← lift (PathParts path);
    node ← open_node uid gid w parts create;
    throw_if (negb (bool_decide (n_kind node = KFile))) SQLITE_MISMATCH;;
    let dirty_generation := if truncate then 1 else 0 in
    with_db (λ d, insert_handle handle_id
      (mkHandleRow (ws_id w) (n_id node) writable (n_version node) dirty_generation 0 Open None owner_session (clock_seconds d)));;
    let handle := mkHandle handle_id (ws_id w) (n_id node) writable (n_version node) dirty_generation 0 Open
      (default [] owner_session) in
    (if truncate then CreateStaging handle [] else CreateStagingFromVersion handle node);;
    StoreRequestText request_id (str "handle_open") fingerprint handle_id;;
    mret handle_id
  end.
