(* ===== verification/VexfsMetadata.v ===== *)
(** * Modes, times, owners, access control and attributes

    The SQL functions of [src/vexdb_sqlite/src/agent_files/vexfs_sqlite.cpp] that change
    the metadata of an inode. An argument that the code reads with [sqlite3_value_int] is
    the integer it gets; the JSON of an access control list is what [json_each] makes of
    it: the rows, or [None] for a value that is no array. *)
From Stdlib Require Import ZArith Lia String.
From stdpp Require Import prelude gmap.
From S2P Require Import Prelude Sha256 VexfsText VexfsDb VexfsTree VexfsStore VexfsStaging VexfsHandles VexfsNames.

Local Open Scope Z_scope.

Fixpoint for_each {A : Type} (l : list A) (f : A → M ()) : M () :=
  match l with
  | [] => mret ()
  | x :: l => f x;; for_each l f
  end.

(** ** Rows *)

(** [UPDATE _vexfs_inodes … WHERE id=… AND workspace_id=…]; how many rows changed. *)
Definition update_row (ws inode : Z) (f : inode_row → inode_row) : M bool :=
  with_db $ λ d,
  match inodes d !! inode with
  | Some r => if i_workspace r =? ws then update_inode inode r (f r);; mret true else mret false
  | None => mret false
  end.

Definition delete_acl (k : acl_key) : M () :=
  modify (on_acl_entries (delete k));; modify (on_dirty_acl (λ s, {[ k ]} ∪ s)).

(** The trigger finds the workspace of an attribute in the inode row. *)
Definition dirty_xattr (i : Z) (n : bytes) (d : Db) : Db :=
  match inodes d !! i with
  | Some r => on_dirty_xattrs (λ s, {[ (i_workspace r, i, n) ]} ∪ s) d
  | None => d
  end.
Definition delete_xattr (i : Z) (n : bytes) : M () :=
  modify (on_xattrs (delete (i, n)));; modify (dirty_xattr i n).
(** [INSERT … ON CONFLICT DO UPDATE]. *)
Definition store_xattr (i : Z) (n value : bytes) : M () :=
  modify (on_xattrs (insert (i, n) value));; modify (dirty_xattr i n).

(** ** Mode, times and owner *)

Definition set_mode (mode now : Z) (r : inode_row) : inode_row :=
  mkInodeRow (i_workspace r) (i_kind r) mode (i_owner r) (i_uid r) (i_gid r) (i_size r) (i_version r)
    (i_created r) (i_accessed r) (i_updated r) now (i_deleted r).

Definition SetModeFunction (workspace : option bytes) (inode mode : sqlite_value) : M Z :=
  workspace ← lift (RequiredText workspace);
  w ← query (FindWorkspace workspace);
  inode ← lift (RequiredPositiveInteger inode);
  mode ← lift (RequiredMode mode);
  Savepoint (
    AcquireWriteLock;;
    query (RequireWorkspaceInode w inode);;
    node ← query (NodeById inode true);
    throw_if (bool_decide (n_kind node = KSymlink)) SQLITE_MISMATCH;;
    (if n_mode node =? mode then mret ()
     else
       with_db (λ d, changed ← update_row (ws_id w) inode (set_mode mode (clock d)); throw_if (negb changed) SQLITE_NOTFOUND);;
       CommitMetadataChange w inode (str "chmod"));;
    mret mode).

Definition set_times (mask accessed updated now : Z) (r : inode_row) : inode_row :=
  mkInodeRow (i_workspace r) (i_kind r) (i_mode r) (i_owner r) (i_uid r) (i_gid r) (i_size r) (i_version r)
    (i_created r) (if Z.land mask 1 =? 0 then i_accessed r else accessed)
    (if Z.land mask 2 =? 0 then i_updated r else updated) now (i_deleted r).

(** Only live rows are updated. *)
Definition SetTimesFunction (workspace : option bytes) (inode accessed updated : sqlite_value) (mask : Z) : M Z :=
  workspace ← lift (RequiredText workspace);
  w ← query (FindWorkspace workspace);
  inode ← lift (RequiredPositiveInteger inode);
  accessed ← lift (RequiredNonnegativeInteger accessed);
  updated ← lift (RequiredNonnegativeInteger updated);
  throw_if (negb (Z.land mask (Z.lnot 3) =? 0) || (mask =? 0)) SQLITE_MISMATCH;;
  Savepoint (
    AcquireWriteLock;;
    query (RequireWorkspaceInode w inode);;
    with_db (λ d,
      throw_if (match inodes d !! inode with Some r => negb (live r) | None => true end) SQLITE_NOTFOUND;;
      changed ← update_row (ws_id w) inode (set_times mask accessed updated (clock d)); throw_if (negb changed) SQLITE_NOTFOUND);;
    CommitMetadataChange w inode (str "set times");;
    mret mask).

Definition set_ids (uid gid now : Z) (r : inode_row) : inode_row :=
  mkInodeRow (i_workspace r) (i_kind r) (i_mode r) (i_owner r) uid gid (i_size r) (i_version r)
    (i_created r) (i_accessed r) (i_updated r) now (i_deleted r).

Definition ChownFunction (workspace : option bytes) (inode uid gid : sqlite_value) : M Z :=
  workspace ← lift (RequiredText workspace);
  w ← query (FindWorkspace workspace);
  inode ← lift (RequiredPositiveInteger inode);
  requested_uid ← lift (RequiredOwnerId uid);
  requested_gid ← lift (RequiredOwnerId gid);
  query (RequireWorkspaceInode w inode);;
  current ← query (NodeById inode true);
  let uid := if requested_uid <? 0 then n_uid current else requested_uid in
  let gid := if requested_gid <? 0 then n_gid current else requested_gid in
  Savepoint (
    AcquireWriteLock;;
    with_db (λ d, changed ← update_row (ws_id w) inode (set_ids uid gid (clock d)); throw_if (negb changed) SQLITE_NOTFOUND);;
    CommitMetadataChange w inode (str "chown");;
    mret uid).

Definition set_owner (owner : bytes) (now : Z) (r : inode_row) : inode_row :=
  mkInodeRow (i_workspace r) (i_kind r) (i_mode r) owner (i_uid r) (i_gid r) (i_size r) (i_version r)
    (i_created r) (i_accessed r) (i_updated r) now (i_deleted r).

Definition OwnerSetFunction (workspace path owner : option bytes) : M bytes :=
  workspace ← lift (RequiredText workspace);
  w ← query (FindWorkspace workspace);
  path ← lift (RequiredText path);
  owner ← lift (RequiredText owner);
  throw_if (bool_decide (owner = []) || (255 <? zlength owner)) SQLITE_RANGE;;
  parts ← lift (PathParts path);
  node ← query (Resolve w parts);
  Savepoint (
    AcquireWriteLock;;
    with_db (λ d, changed ← update_row (ws_id w) (n_id node) (set_owner owner (clock d)); throw_if (negb changed) SQLITE_NOTFOUND);;
    CommitMetadataChange w (n_id node) (str "set owner");;
    mret owner).

(** ** Access control *)

Definition effect_of (text : bytes) : option AclEffect :=
  if bool_decide (text = str "allow") then Some Allow else if bool_decide (text = str "deny") then Some Deny else None.

(** principal, effect, permissions and inherit flags of a row *)
Abbreviation acl_json_row := (bytes * bytes * bytes * Z)%type.

Fixpoint parse_acl_rows (rows : list acl_json_row) (count : Z) : sql (list (bytes * AclEffect * bytes * Z)) :=
  match rows with
  | [] => Ok []
  | (principal, effect, permissions, inherit) :: rows =>
    if bool_decide (principal = []) || (255 <? zlength principal) then Throw SQLITE_RANGE
    else
      match effect_of effect with
      | None => Throw SQLITE_MISMATCH
      | Some effect =>
        if bool_decide (permissions = []) || (1024 <? zlength permissions) then Throw SQLITE_RANGE
        else if (inherit <? 0) || (255 <? inherit) then Throw SQLITE_RANGE
        else if 1024 <? count + 1 then Throw SQLITE_TOOBIG
        else
          match parse_acl_rows rows (count + 1) with
          | Throw e => Throw e
          | Ok entries => Ok ((principal, effect, permissions, inherit) :: entries)
          end
      end
  end.
Definition ParseAclJson (rows : option (list acl_json_row)) : sql (list (bytes * AclEffect * bytes * Z)) :=
  match rows with None => Throw SQLITE_MISMATCH | Some rows => parse_acl_rows rows 0 end.

(** The entries of an inode that a condition selects. *)
Definition acl_keys (ws inode : Z) (P : bytes → AclEffect → bool) (d : Db) : list acl_key :=
  filter (λ '(w, i, p, e), (w =? ws) && (i =? inode) && P p e = true) (map_to_list (acl_entries d)).*1.

(** [DELETE FROM _vexfs_acl_entries WHERE …]; how many rows were deleted. *)
Definition delete_acls (ws inode : Z) (P : bytes → AclEffect → bool) : M Z :=
  with_db $ λ d,
  for_each (acl_keys ws inode P d) delete_acl;;
  mret (Z.of_nat (length (acl_keys ws inode P d))).

Definition set_changed (now : Z) (r : inode_row) : inode_row :=
  mkInodeRow (i_workspace r) (i_kind r) (i_mode r) (i_owner r) (i_uid r) (i_gid r) (i_size r) (i_version r)
    (i_created r) (i_accessed r) (i_updated r) now (i_deleted r).
Definition touch_row (ws inode : Z) : M () :=
  with_db $ λ d, update_row ws inode (set_changed (clock d));; mret ().

Definition AclSetFunction (workspace : option bytes) (inode : sqlite_value) (acl : option (list acl_json_row)) : M Z :=
  workspace ← lift (RequiredText workspace);
  w ← query (FindWorkspace workspace);
  inode ← lift (RequiredPositiveInteger inode);
  query (RequireWorkspaceInode w inode);;
  entries ← lift (ParseAclJson acl);
  Savepoint (
    AcquireWriteLock;;
    delete_acls (ws_id w) inode (λ _ _, true);;
    for_each entries (λ '(p, e, permissions, inherit), insert_acl (ws_id w, inode, p, e) permissions inherit);;
    touch_row (ws_id w) inode;;
    CommitMetadataChange w inode (str "set acl");;
    mret (Z.of_nat (length entries))).

Definition AclDeleteFunction (workspace : option bytes) (inode : sqlite_value) : M Z :=
  workspace ← lift (RequiredText workspace);
  w ← query (FindWorkspace workspace);
  inode ← lift (RequiredPositiveInteger inode);
  query (RequireWorkspaceInode w inode);;
  Savepoint (
    AcquireWriteLock;;
    removed ← delete_acls (ws_id w) inode (λ _ _, true);
    (if 0 <? removed then CommitMetadataChange w inode (str "delete acl") else mret ());;
    mret removed).

(** The entry keeps its inherit flags; a new one has none. *)
Definition upsert_acl (k : acl_key) (permissions : bytes) : M () :=
  modify (λ d, on_acl_entries (insert k (permissions, match acl_entries d !! k with Some (_, inherit) => inherit | None => 0 end)) d);;
  modify (on_dirty_acl (λ s, {[ k ]} ∪ s)).

(** The optional last argument, [None] when it is missing or [NULL]. *)
Definition effect_arg (effect : option bytes) : sql AclEffect :=
  match effect with
  | None => Ok Allow
  | Some text => match effect_of text with Some e => Ok e | None => Throw SQLITE_MISMATCH end
  end.

Definition AclGrantFunction (workspace : option bytes) (inode : sqlite_value) (principal permissions effect : option bytes) : M Z :=
  workspace ← lift (RequiredText workspace);
  w ← query (FindWorkspace workspace);
  inode ← lift (RequiredPositiveInteger inode);
  principal ← lift (RequiredText principal);
  permissions ← lift (RequiredText permissions);
  throw_if (bool_decide (principal = []) || (255 <? zlength principal) || bool_decide (permissions = []) || (1024 <? zlength permissions))
    SQLITE_RANGE;;
  query (RequireWorkspaceInode w inode);;
  effect ← lift (effect_arg effect);
  Savepoint (
    AcquireWriteLock;;
    upsert_acl (ws_id w, inode, principal, effect) permissions;;
    CommitMetadataChange w inode (str "grant acl");;
    mret 1).

(** No effect selects both. *)
Definition revoked_effect (effect : option bytes) : sql (option AclEffect) :=
  match effect with
  | None => Ok None
  | Some [] => Ok None
  | Some text => match effect_of text with Some e => Ok (Some e) | None => Throw SQLITE_MISMATCH end
  end.

Definition AclRevokeFunction (workspace : option bytes) (inode : sqlite_value) (principal effect : option bytes) : M Z :=
  workspace ← lift (RequiredText workspace);
  w ← query (FindWorkspace workspace);
  inode ← lift (RequiredPositiveInteger inode);
  principal ← lift (RequiredText principal);
  query (RequireWorkspaceInode w inode);;
  effect ← lift (revoked_effect effect);
  Savepoint (
    AcquireWriteLock;;
    removed ← delete_acls (ws_id w) inode (λ p e, bool_decide (p = principal) &&
      match effect with None => true | Some effect => bool_decide (e = effect) end);
    (if 0 <? removed then CommitMetadataChange w inode (str "revoke acl") else mret ());;
    mret removed).

(** ** Extended attributes *)

Definition kMaxXattrBytes : Z := 64 * 1024.

Definition xattr_name (name : bytes) : sql () := if bool_decide (name = []) || (255 <? zlength name) then Throw SQLITE_RANGE else Ok ().

Definition GetXattrFunction (workspace : option bytes) (inode : sqlite_value) (name : option bytes) : M bytes :=
  workspace ← lift (RequiredText workspace);
  w ← query (FindWorkspace workspace);
  inode ← lift (RequiredPositiveInteger inode);
  name ← lift (RequiredText name);
  lift (xattr_name name);;
  query (RequireWorkspaceInode w inode);;
  query (λ d, match xattrs d !! (inode, name) with Some value => Ok value | None => Throw SQLITE_NOTFOUND end).

(** [policy] is 0 to set, 1 to create, 2 to replace and 3 to remove. *)
Definition SetXattrFunction (workspace : option bytes) (inode : sqlite_value) (name value : option bytes) (policy : Z) : M Z :=
  workspace ← lift (RequiredText workspace);
  w ← query (FindWorkspace workspace);
  inode ← lift (RequiredPositiveInteger inode);
  name ← lift (RequiredText name);
  lift (xattr_name name);;
  throw_if ((policy <? 0) || (3 <? policy)) SQLITE_RANGE;;
  query (RequireWorkspaceInode w inode);;
  found ← query (λ d, Ok (bool_decide (is_Some (xattrs d !! (inode, name)))));
  throw_if ((policy =? 1) && found) SQLITE_CONSTRAINT;;
  throw_if (((policy =? 2) || (policy =? 3)) && negb found) SQLITE_NOTFOUND;;
  Savepoint (
    (if policy =? 3 then delete_xattr inode name
     else
       value ← lift (RequiredBlob value);
       throw_if (kMaxXattrBytes <? zlength value) SQLITE_TOOBIG;;
       store_xattr inode name value);;
    touch_row (ws_id w) inode;;
    CommitMetadataChange w inode (if policy =? 3 then str "remove xattr" else str "set xattr");;
    mret 1).
