(* ===== verification/VexfsHistory.v ===== *)
(** * Trees of the past

    How [src/vexdb_sqlite/src/agent_files/vexfs_sqlite.cpp] reads the tree of a workspace
    as it is ([CurrentTree]) and as a commit recorded it ([TreeAtCommit]), compares two
    trees, and takes, drops and restores snapshots. A tree is a map from paths to nodes;
    what is printed of it goes through its entries in the order of the paths. *)
From Stdlib Require Import ZArith Lia String.
From stdpp Require Import prelude gmap sorting.
From S2P Require Import Prelude Sha256 VexfsText VexfsDb VexfsTree VexfsStore VexfsGrepIndex VexfsStaging VexfsHandles VexfsNames.

Local Open Scope Z_scope.

(** ** Orders *)

Definition bytes_le (x y : bytes) : Prop := bytes_ltb y x = false.
#[export] Instance bytes_le_dec : RelDecision bytes_le.
Proof. intros x y. unfold bytes_le. apply _. Defined.

Definition key_le {A : Type} (x y : bytes * A) : Prop := bytes_le x.1 y.1.
#[export] Instance key_le_dec {A} : RelDecision (@key_le A).
Proof. intros x y. unfold key_le. apply _. Defined.

(** The entries of a [std::map] in order. *)
Definition entries {A : Type} (t : gmap bytes A) : list (bytes * A) := merge_sort key_le (map_to_list t).

(** ** The states a commit sees *)

(** [ROW_NUMBER() OVER(PARTITION BY k ORDER BY commit_id DESC)=1] among the rows with
    [commit_id<=bound]: the latest row of every key. *)
Definition keep_later {K A : Type} `{Countable K} (bound : Z) (kc : K * Z) (a : A) (m : gmap K (Z * A)) : gmap K (Z * A) :=
  if kc.2 <=? bound then
    match m !! kc.1 with
    | Some (c, _) => if c <? kc.2 then <[kc.1 := (kc.2, a)]> m else m
    | None => <[kc.1 := (kc.2, a)]> m
    end
  else m.
Definition latest_rows {K A : Type} `{Countable K} (t : gmap (K * Z) A) (bound : Z) : gmap K A :=
  snd <$> map_fold (keep_later bound) ∅ t.

(** ** Trees *)

Record AclEntry := mkAclEntry {
  a_principal : bytes;
  a_effect : AclEffect;
  a_permissions : bytes;
  a_inherit : Z;
}.

Record SnapshotTreeNode := mkSnapshotTreeNode {
  t_inode : Z;
  t_kind : Kind;
  t_mode : Z;
  t_owner : bytes;
  t_uid : Z;
  t_gid : Z;
  t_size : Z;
  t_version : Z;
  t_canonical : Z;
  t_created : Z;
  t_accessed : Z;
  t_updated : Z;
  t_changed : Z;
  t_acl : list AclEntry;
  t_xattrs : gmap bytes bytes;
}.

Abbreviation SnapshotTree := (gmap bytes SnapshotTreeNode).

#[export] Instance acl_entry_eq_dec : EqDecision AclEntry.
Proof. solve_decision. Defined.
#[export] Instance snapshot_tree_node_eq_dec : EqDecision SnapshotTreeNode.
Proof. solve_decision. Defined.

(** A node as read from an inode row; the rest is filled in later. *)
Definition tree_node (i : Z) (r : inode_row) : SnapshotTreeNode :=
  mkSnapshotTreeNode i (i_kind r) (i_mode r) (i_owner r) (i_uid r) (i_gid r) (i_size r) (i_version r) 0
    (i_created r) (i_accessed r) (i_updated r) (i_changed r) [] ∅.

Definition set_canonical (v : Z) (n : SnapshotTreeNode) : SnapshotTreeNode :=
  mkSnapshotTreeNode (t_inode n) (t_kind n) (t_mode n) (t_owner n) (t_uid n) (t_gid n) (t_size n) (t_version n) v
    (t_created n) (t_accessed n) (t_updated n) (t_changed n) (t_acl n) (t_xattrs n).

Definition set_metadata (acl : list AclEntry) (xattrs : gmap bytes bytes) (n : SnapshotTreeNode) : SnapshotTreeNode :=
  mkSnapshotTreeNode (t_inode n) (t_kind n) (t_mode n) (t_owner n) (t_uid n) (t_gid n) (t_size n) (t_version n) (t_canonical n)
    (t_created n) (t_accessed n) (t_updated n) (t_changed n) acl xattrs.

(** ** Versions that copy versions *)

(** The recursive query: follow [source_version_no] for at most 1024 steps. *)
Fixpoint canonical_version (fuel : nat) (inode version : Z) (t : gmap (Z * Z) version_row) : option Z :=
  v ← t !! (inode, version);
  match v_source v with
  | None => Some version
  | Some source => match fuel with O => None | S fuel => canonical_version fuel inode source t end
  end.

Definition has_content (n : SnapshotTreeNode) : bool :=
  negb (bool_decide (t_kind n = KDirectory)) && (0 <? t_version n).

Definition canonical_of (d : Db) (n : SnapshotTreeNode) : option Z :=
  canonical_version 1024 (t_inode n) (t_version n) (file_versions d).
#[global] Arguments canonical_of : simpl never.

(** Without a file the query is not asked and every node keeps 0. *)
Definition ResolveSnapshotCanonicalVersions (tree : SnapshotTree) (d : Db) : sql SnapshotTree :=
  let requested := filter (λ '(_, n), has_content n = true) (map_to_list tree) in
  if bool_decide (requested = []) then Ok tree
  else if forallb (λ '(_, n), bool_decide (is_Some (canonical_of d n))) requested
  then Ok ((λ n, set_canonical (if has_content n then default 0 (canonical_of d n) else t_version n) n) <$> tree)
  else Throw SQLITE_CORRUPT.

(** ** The present *)

Definition child_path (path name : bytes) : bytes := if bool_decide (path = [slash]) then slash :: name else path ++ slash :: name.

Definition is_live (i : Z) (d : Db) : bool := match inodes d !! i with Some r => live r | None => false end.

(** One level of the recursive query of [CurrentTree]. *)
Definition below (ws : Z) (row : bytes * Z) (d : Db) : list (bytes * Z) :=
  omap (λ '((w, p, n), i), if (w =? ws) && (p =? row.2) && is_live i d then Some (child_path row.1 n, i) else None)
    (map_to_list (dentries d)).

(** The levels from the root down; [fuel] more are looked for. *)
Fixpoint current_rows (fuel : nat) (ws : Z) (level : list (bytes * Z)) (d : Db) : list (bytes * Z) :=
  match level, fuel with
  | [], _ => []
  | _, O => level
  | _, S fuel => level ++ current_rows fuel ws (row ← level; below ws row d) d
  end.

Definition current_acl (ws i : Z) (d : Db) : list (bytes * AclEffect * (bytes * Z)) :=
  omap (λ '((w, j, p, e), entry), if (w =? ws) && (j =? i) then Some (p, e, entry) else None) (map_to_list (acl_entries d)).

Definition effect_rank (e : AclEffect) : Z := match e with Allow => 0 | Deny => 1 end.
Definition acl_le (x y : AclEntry) : Prop :=
  bytes_ltb (a_principal x) (a_principal y) ||
  bool_decide (a_principal x = a_principal y) && (effect_rank (a_effect x) <=? effect_rank (a_effect y)) = true.
#[export] Instance acl_le_dec : RelDecision acl_le.
Proof. intros x y. unfold acl_le. apply _. Defined.

(** [ORDER BY principal_id, effect]. *)
Definition acl_list (rows : list (bytes * AclEffect * (bytes * Z))) : list AclEntry :=
  merge_sort acl_le ((λ '(p, e, (permissions, inherit)), mkAclEntry p e permissions inherit) <$> rows).

Definition current_xattrs (ws i : Z) (d : Db) : gmap bytes bytes :=
  match inodes d !! i with
  | Some r =>
    if (i_workspace r =? ws) && live r
    then list_to_map (omap (λ '((j, n), value), if j =? i then Some (n, value) else None) (map_to_list (xattrs d)))
    else ∅
  | None => ∅
  end.

(** A directory that is reached twice. *)
Definition repeated_directory (rows : list (bytes * Z)) (kind : Z → option Kind) : bool :=
  existsb (λ '(_, i), bool_decide (kind i = Some KDirectory) && (1 <? length (filter (λ row, row.2 = i) rows))%nat) rows.

Definition CurrentTree (w : Workspace) (d : Db) : sql SnapshotTree :=
  let rows := filter (λ row, is_live row.2 d = true) (current_rows 1024 (ws_id w) [([slash], ws_root w)] d) in
  let tree : SnapshotTree := list_to_map (omap (λ '(path, i), r ← inodes d !! i; Some (path, tree_node i r)) rows) in
  if bool_decide (tree !! [slash] = None) then Throw SQLITE_CORRUPT
  else if repeated_directory rows (λ i, i_kind <$> inodes d !! i) then Throw SQLITE_CORRUPT
  else
    match ResolveSnapshotCanonicalVersions tree d with
    | Throw e => Throw e
    | Ok tree =>
      Ok ((λ n, set_metadata (acl_list (current_acl (ws_id w) (t_inode n) d)) (current_xattrs (ws_id w) (t_inode n) d) n) <$> tree)
    end.

(** ** The past *)

Definition CurrentHead (w : Workspace) (d : Db) : sql Z :=
  match workspaces d !! ws_id w with
  | None => Throw SQLITE_NOTFOUND
  | Some row => Ok (int64 (w_head_commit row))
  end.

Definition ValidateHistoryCommit (w : Workspace) (commit : Z) (d : Db) : sql () :=
  match workspaces d !! ws_id w, commits d !! commit with
  | Some row, Some c =>
    if negb (c_workspace c =? ws_id w) then Throw SQLITE_NOTFOUND
    else
      let floor := int64 (w_history_floor row) in
      if (floor =? 0) || (commit <? floor) then Throw SQLITE_NOTFOUND else Ok ()
  | _, _ => Throw SQLITE_NOTFOUND
  end.

(** The inodes and the entries of a workspace at a commit. *)
Definition nodes_at (ws commit : Z) (d : Db) : gmap Z inode_row :=
  list_to_map (omap (λ '((w, i), r), if (w =? ws) && live r then Some (i, r) else None)
    (map_to_list (latest_rows (inode_states d) commit))).
Definition entries_at (ws commit : Z) (d : Db) : list (Z * bytes * Z) :=
  omap (λ '((w, p, n), (i, deleted)), if (w =? ws) && negb deleted then Some (p, n, i) else None)
    (map_to_list (latest_rows (dentry_states d) commit)).

(** The entries of a directory in the order of their names. *)
Definition children_of (p : Z) (rows : list (Z * bytes * Z)) : list (bytes * Z) :=
  merge_sort key_le (omap (λ '(q, n, i), if q =? p then Some (n, i) else None) rows).

Record PendingNode := mkPendingNode { pn_inode : Z; pn_path : bytes; pn_depth : Z }.

(** The loop over the queue of [TreeAtCommit]: the rows of the tree, last first.
    [None] when the fuel runs out. *)
Fixpoint tree_loop (fuel : nat) (nodes : gmap Z inode_row) (rows : list (Z * bytes * Z)) (pending : list PendingNode)
    (visited : gset Z) (acc : list (bytes * Z)) : option (sql (list (bytes * Z))) :=
  match fuel, pending with
  | _, [] => Some (Ok acc)
  | O, _ => None
  | S fuel, current :: pending =>
    match nodes !! pn_inode current with
    | None => tree_loop fuel nodes rows pending visited acc
    | Some r =>
      let directory := bool_decide (i_kind r = KDirectory) in
      if directory && bool_decide (pn_inode current ∈ visited) then Some (Throw SQLITE_CORRUPT)
      else
        let acc := (pn_path current, pn_inode current) :: acc in
        if negb directory then tree_loop fuel nodes rows pending visited acc
        else
          let visited := {[ pn_inode current ]} ∪ visited in
          match children_of (pn_inode current) rows with
          | [] => tree_loop fuel nodes rows pending visited acc
          | children =>
            if 1024 <=? pn_depth current then Some (Throw SQLITE_TOOBIG)
            else
              let found := filter (λ '(_, i), bool_decide (is_Some (nodes !! i)) = true) children in
              tree_loop fuel nodes rows
                (pending ++ ((λ '(n, i), mkPendingNode i (child_path (pn_path current) n) (pn_depth current + 1)) <$> found))
                visited acc
          end
    end
  end.

(** Every entry is queued at most once, because its directory is. *)
Definition walk_tree (root : Z) (nodes : gmap Z inode_row) (rows : list (Z * bytes * Z)) : sql (list (bytes * Z)) :=
  match tree_loop (S (S (length rows))) nodes rows [mkPendingNode root [slash] 0] ∅ [] with
  | Some result => result
  | None => Throw SQLITE_ERROR
  end.

Definition acl_at (ws commit i : Z) (d : Db) : list (bytes * AclEffect * (bytes * Z)) :=
  omap (λ '((w, j, p, e), (entry, deleted)), if (w =? ws) && (j =? i) && negb deleted then Some (p, e, entry) else None)
    (map_to_list (latest_rows (acl_states d) commit)).
Definition xattrs_at (ws commit i : Z) (d : Db) : gmap bytes bytes :=
  list_to_map (omap (λ '((w, j, n), (value, deleted)), if (w =? ws) && (j =? i) && negb deleted then Some (n, value) else None)
    (map_to_list (latest_rows (xattr_states d) commit))).

Definition TreeAtCommit (w : Workspace) (commit : Z) (d : Db) : sql SnapshotTree :=
  match ValidateHistoryCommit w commit d with
  | Throw e => Throw e
  | Ok _ =>
    let nodes := nodes_at (ws_id w) commit d in
    if bool_decide (nodes !! ws_root w = None) then Throw SQLITE_CORRUPT
    else
      match walk_tree (ws_root w) nodes (entries_at (ws_id w) commit d) with
      | Throw e => Throw e
      | Ok found =>
        let tree : SnapshotTree := list_to_map (omap (λ '(path, i), r ← nodes !! i; Some (path, tree_node i r)) (rev found)) in
        match ResolveSnapshotCanonicalVersions tree d with
        | Throw e => Throw e
        | Ok tree =>
          Ok ((λ n, set_metadata (acl_list (acl_at (ws_id w) commit (t_inode n) d)) (xattrs_at (ws_id w) commit (t_inode n) d) n) <$> tree)
        end
      end
  end.
