(* ===== verification/VexfsSnapshots.v ===== *)
(** * Comparing trees and snapshots

    The differences of two trees with their paging, and the SQL functions on snapshots
    of [src/vexdb_sqlite/src/agent_files/vexfs_sqlite.cpp]: creating, dropping, showing and
    restoring. An optional argument is [None] when the call leaves it out. Where the code
    prints a value as JSON, the function here returns the value. *)
From Stdlib Require Import ZArith Lia String.
From stdpp Require Import prelude gmap sorting.
From S2P Require Import Prelude Sha256 VexfsText VexfsDb VexfsTree VexfsStore VexfsGrepIndex VexfsStaging VexfsHandles VexfsNames VexfsHistory.

Local Open Scope Z_scope.

(** ** Differences *)

(** Versions are compared by the content they stand for. *)
Definition SnapshotNodesEqual (left right : SnapshotTreeNode) : bool :=
  (t_inode left =? t_inode right) && bool_decide (t_kind left = t_kind right) && (t_mode left =? t_mode right) &&
  (t_size left =? t_size right) && (t_canonical left =? t_canonical right) &&
  bool_decide (t_owner left = t_owner right) && (t_uid left =? t_uid right) &&
  (t_gid left =? t_gid right) && (t_created left =? t_created right) &&
  (t_accessed left =? t_accessed right) && (t_updated left =? t_updated right) &&
  (t_changed left =? t_changed right) && bool_decide (t_acl left = t_acl right) &&
  bool_decide (t_xattrs left = t_xattrs right).

Inductive change :=
| Delete (path : bytes) (before : SnapshotTreeNode)
| Add (path : bytes) (after : SnapshotTreeNode)
| Modify (path : bytes) (before after : SnapshotTreeNode).

Definition change_path (c : change) : bytes :=
  match c with Delete path _ => path | Add path _ => path | Modify path _ _ => path end.

(** The merge of the two sequences of entries; every step takes an entry of one of
    them. *)
Fixpoint diff_loop (fuel : nat) (before after : list (bytes * SnapshotTreeNode)) : list change :=
  match fuel with
  | O => []
  | S fuel =>
    match before, after with
    | [], [] => []
    | (p, a) :: before, [] => Delete p a :: diff_loop fuel before []
    | [], (q, b) :: after => Add q b :: diff_loop fuel [] after
    | (p, a) :: before', (q, b) :: after' =>
      if bytes_ltb p q then Delete p a :: diff_loop fuel before' after
      else if bytes_ltb q p then Add q b :: diff_loop fuel before after'
      else if SnapshotNodesEqual a b then diff_loop fuel before' after'
      else Modify p a b :: diff_loop fuel before' after'
    end
  end.
Definition SnapshotDiff (before after : SnapshotTree) : list change :=
  diff_loop (length (entries before) + length (entries after)) (entries before) (entries after).

(** The loop of [HistoricalDiffPageJson]: the changes after the cursor, at most
    [limit], and whether one was left over. *)
Fixpoint page_loop (after_path : bytes) (limit : Z) (changes : list change) (count : Z) : list change * bool :=
  match changes with
  | [] => ([], false)
  | c :: changes =>
    if negb (bool_decide (after_path = [])) && bool_decide (bytes_le (change_path c) after_path)
    then page_loop after_path limit changes count
    else if count =? limit then ([], true)
    else let '(page, has_more) := page_loop after_path limit changes (count + 1) in (c :: page, has_more)
  end.
(** The page and the cursor of the next one. *)
Definition HistoricalDiffPage (before after : SnapshotTree) (after_path : bytes) (limit : Z) : list change * option bytes :=
  let '(page, has_more) := page_loop after_path limit (SnapshotDiff before after) 0 in
  (page, if has_more then Some (default [] (change_path <$> last page)) else None).

(** A page of a tree: the entries past the cursor. *)
Definition HistoricalTreePage (tree : SnapshotTree) (after_path : bytes) (limit : Z) : list (bytes * SnapshotTreeNode) * option bytes :=
  let rest := if bool_decide (after_path = []) then entries tree
    else filter (λ e, bytes_ltb after_path e.1 = true) (entries tree) in
  let page := take (Z.to_nat limit) rest in
  (page, if bool_decide (drop (Z.to_nat limit) rest = []) then None else Some (default [] (fst <$> last page))).

(** ** Quotas of a tree *)

Record QuotaStats := mkQuotaStats { live_files : Z; live_bytes : Z; largest_file_bytes : Z }.

Definition max_int64 : Z := 2 ^ 63 - 1.

Fixpoint quota_loop (nodes : list (bytes * SnapshotTreeNode)) (counted : gset Z) (stats : QuotaStats) : sql QuotaStats :=
  match nodes with
  | [] => Ok stats
  | (_, n) :: nodes =>
    if bool_decide (t_kind n = KDirectory) || bool_decide (t_inode n ∈ counted) then quota_loop nodes counted stats
    else if max_int64 - live_bytes stats <? t_size n then Throw SQLITE_TOOBIG
    else quota_loop nodes ({[ t_inode n ]} ∪ counted)
      (mkQuotaStats (live_files stats + 1) (live_bytes stats + t_size n) (Z.max (largest_file_bytes stats) (t_size n)))
  end.
Definition SnapshotQuotaStats (tree : SnapshotTree) : sql QuotaStats := quota_loop (entries tree) ∅ (mkQuotaStats 0 0 0).

Definition CheckQuotaForSnapshotRestore (policy : QuotaPolicy) (before after : QuotaStats) : sql () :=
  if (0 <=? max_files policy) && (max_files policy <? live_files after) && (live_files before <=? live_files after)
  then Throw SQLITE_FULL
  else if (0 <=? max_bytes policy) && (max_bytes policy <? live_bytes after) && (live_bytes before <=? live_bytes after)
  then Throw SQLITE_FULL
  else if (0 <=? max_file_bytes policy) && (max_file_bytes policy <? largest_file_bytes after) &&
    (largest_file_bytes before <=? largest_file_bytes after)
  then Throw SQLITE_FULL
  else Ok ().

(** ** Snapshots *)

Record SnapshotInfo := mkSnapshotInfo { si_id : Z; si_name : bytes; si_type : SnapshotType; si_commit : Z; si_created : Z }.

Definition find_snapshot_row (ws : Z) (name : bytes) (d : Db) : option (Z * snapshot_row) :=
  head (filter (λ '(_, p), p_workspace p = ws ∧ p_name p = name) (map_to_list (snapshots d))).

Definition FindSnapshot (w : Workspace) (name : bytes) (d : Db) : sql SnapshotInfo :=
  match find_snapshot_row (ws_id w) name d with
  | None => Throw SQLITE_NOTFOUND
  | Some (id, p) =>
    match ValidateHistoryCommit w (p_commit p) d with
    | Throw e => Throw e
    | Ok _ => Ok (mkSnapshotInfo id (p_name p) (p_type p) (p_commit p) (p_created p))
    end
  end.

Definition ResolveSnapshotReference (w : Workspace) (reference : bytes) (d : Db) : sql Z :=
  if bool_decide (reference = str "HEAD") then
    match CurrentHead w d with
    | Throw e => Throw e
    | Ok head => match ValidateHistoryCommit w head d with Throw e => Throw e | Ok _ => Ok head end
    end
  else match FindSnapshot w reference d with Throw e => Throw e | Ok info => Ok (si_commit info) end.

Definition snapshot_type_of (text : bytes) : option SnapshotType :=
  if bool_decide (text = str "manual") then Some Manual
  else if bool_decide (text = str "agent") then Some Agent
  else if bool_decide (text = str "safety") then Some Safety else None.

Definition bad_snapshot_name (name : bytes) : bool :=
  bool_decide (name = []) || (128 <? zlength name) || bool_decide (name = str "HEAD").

Definition ValidateSnapshotDefinition (name snapshot_type : bytes) : sql SnapshotType :=
  if bad_snapshot_name name then Throw SQLITE_MISMATCH
  else match snapshot_type_of snapshot_type with None => Throw SQLITE_MISMATCH | Some t => Ok t end.

(** [INSERT INTO _vexfs_snapshots], unique in workspace and name. *)
Definition insert_snapshot (ws : Z) (name : bytes) (t : SnapshotType) (commit : Z) : M () :=
  with_db $ λ d,
  throw_if (bool_decide (is_Some (find_snapshot_row ws name d))) SQLITE_CONSTRAINT;;
  modify (on_snapshots (insert (next_rowid (snapshots d)) (mkSnapshotRow ws name t commit (clock_seconds d)))).

Definition InsertSnapshot (w : Workspace) (name snapshot_type : bytes) (commit : Z) : M () :=
  t ← lift (ValidateSnapshotDefinition name snapshot_type);
  query (ValidateHistoryCommit w commit);;
  insert_snapshot (ws_id w) name t commit.

(** An optional text argument with its default. *)
Definition text_arg (default : bytes) (value : option (option bytes)) : sql bytes :=
  match value with None => Ok default | Some value => RequiredText value end.

Definition unpublished_handles (ws : Z) (d : Db) : bool :=
  existsb (λ '(_, h), (h_workspace h =? ws) &&
    (bool_decide (h_state h = Open) || bool_decide (h_state h = Retained)) &&
    (h_published_generation h <? h_dirty_generation h)) (map_to_list (handles d)).

Definition SnapshotCreateFunction (workspace name : option bytes) (expected : sqlite_value)
    (mode snapshot_type : option (option bytes)) : M Z :=
  workspace ← lift (RequiredText workspace);
  w ← query (FindWorkspace workspace);
  name ← lift (RequiredText name);
  mode ← lift (text_arg (str "consistent") mode);
  throw_if (negb (bool_decide (mode = str "consistent")) && negb (bool_decide (mode = str "committed-only"))) SQLITE_MISMATCH;;
  snapshot_type ← lift (text_arg (str "manual") snapshot_type);
  lift (ValidateSnapshotDefinition name snapshot_type);;
  Savepoint (
    AcquireWriteLock;;
    head ← query (CurrentHead w);
    (match expected with
     | VNull => mret ()
     | _ => expected ← lift (RequiredPositiveInteger expected); throw_if (negb (expected =? head)) SQLITE_CONSTRAINT
     end);;
    (if bool_decide (mode = str "consistent")
     then dirty ← query (λ d, Ok (unpublished_handles (ws_id w) d)); throw_if dirty SQLITE_BUSY
     else mret ());;
    InsertSnapshot w name snapshot_type head;;
    mret head).

Definition SnapshotDropFunction (workspace name : option bytes) : M Z :=
  workspace ← lift (RequiredText workspace);
  w ← query (FindWorkspace workspace);
  name ← lift (RequiredText name);
  with_db $ λ d,
  match find_snapshot_row (ws_id w) name d with
  | None => throw SQLITE_NOTFOUND
  | Some (id, _) => modify (on_snapshots (delete id));; mret 1
  end.

Definition SnapshotShowFunction (workspace name : option bytes) : M (SnapshotInfo * SnapshotTree) :=
  workspace ← lift (RequiredText workspace);
  w ← query (FindWorkspace workspace);
  name ← lift (RequiredText name);
  info ← query (FindSnapshot w name);
  tree ← query (TreeAtCommit w (si_commit info));
  mret (info, tree).

(** The tree a reference of [SnapshotDiffFunction] stands for. *)
Definition referenced_tree (w : Workspace) (reference : bytes) (commit : Z) (d : Db) : sql SnapshotTree :=
  if bool_decide (reference = str "HEAD") then CurrentTree w d else TreeAtCommit w commit d.

Definition SnapshotDiffFunction (workspace from to : option bytes) : M (Z * Z * list change) :=
  workspace ← lift (RequiredText workspace);
  w ← query (FindWorkspace workspace);
  from ← lift (RequiredText from);
  to ← lift (RequiredText to);
  from_commit ← query (ResolveSnapshotReference w from);
  to_commit ← query (ResolveSnapshotReference w to);
  from_tree ← query (referenced_tree w from from_commit);
  to_tree ← query (referenced_tree w to to_commit);
  mret (from_commit, to_commit, SnapshotDiff from_tree to_tree).

(** A cursor is absent or an absolute path. *)
Definition cursor_arg (cursor : option bytes) : sql bytes :=
  match cursor with
  | None => Ok []
  | Some path => if bool_decide (path = []) || bool_decide (head path = Some slash) then Ok path else Throw SQLITE_MISMATCH
  end.

Definition page_limit (limit : Z) : sql () := if 1000 <? limit then Throw SQLITE_RANGE else Ok ().

Definition WorkspaceShowCommitFunction (workspace : option bytes) (commit : sqlite_value) (cursor : option bytes) (limit : sqlite_value)
    : M (list (bytes * SnapshotTreeNode) * option bytes) :=
  workspace ← lift (RequiredText workspace);
  w ← query (FindWorkspace workspace);
  commit ← lift (RequiredPositiveInteger commit);
  limit ← lift (RequiredPositiveInteger limit);
  lift (page_limit limit);;
  after_path ← lift (cursor_arg cursor);
  tree ← query (TreeAtCommit w commit);
  mret (HistoricalTreePage tree after_path limit).

Definition WorkspaceDiffCommitsFunction (workspace : option bytes) (from to : sqlite_value) (cursor : option bytes) (limit : sqlite_value)
    : M (list change * option bytes) :=
  workspace ← lift (RequiredText workspace);
  w ← query (FindWorkspace workspace);
  from_commit ← lift (RequiredPositiveInteger from);
  to_commit ← (match to with VNull => query (CurrentHead w) | _ => lift (RequiredPositiveInteger to) end);
  limit ← lift (RequiredPositiveInteger limit);
  lift (page_limit limit);;
  after_path ← lift (cursor_arg cursor);
  before ← query (TreeAtCommit w from_commit);
  after ← query (TreeAtCommit w to_commit);
  mret (HistoricalDiffPage before after after_path limit).
