(* ===== verification/VexfsPointInTime.v ===== *)
(** * Snapshots of the past

    Snapshots taken at an old commit or at a moment, as in
    [src/vexdb_sqlite/src/agent_files/vexfs_sqlite.cpp]: the commit of a moment, and the
    check that everything the tree of a commit refers to is stored. The rows of a join
    that the code reads in any order are a list here; every one that is not as it should
    be has the same outcome. SQLite's [julianday] is a parameter: the milliseconds a text
    stands for. *)
From Stdlib Require Import ZArith Lia String.
From stdpp Require Import prelude gmap sorting.
From S2P Require Import Prelude Sha256 VexfsText VexfsDb VexfsTree VexfsStore VexfsGrepIndex VexfsStaging VexfsHandles VexfsNames VexfsHistory VexfsSnapshots.

Local Open Scope Z_scope.

(** ** The content of a manifest *)

Fixpoint hash_loop (rows : list (Z * chunk_row)) (size total chunk_no : Z) (entries : list ManifestChunkChecksum)
    : sql (Z * Z * list ManifestChunkChecksum) :=
  match rows with
  | [] => Ok (total, chunk_no, entries)
  | (n, row) :: rows =>
    let expected_size := Z.min kContentChunkBytes (size - total) in
    if negb (n =? chunk_no) || (expected_size <=? 0) || negb (k_size row =? expected_size) ||
       negb (zlength (k_content row) =? expected_size) || negb (IsSha256 (k_checksum row)) then Throw SQLITE_CORRUPT
    else
      match hashed (Sha256Hex (k_content row)) with
      | Throw e => Throw e
      | Ok checksum =>
        if bool_decide (checksum = k_checksum row)
        then hash_loop rows size (total + expected_size) (chunk_no + 1) (entries ++ [mkChunkChecksum expected_size (k_checksum row)])
        else Throw SQLITE_CORRUPT
      end
  end.

Definition HashManifest (manifest size chunk_count : Z) (d : Db) : sql bytes :=
  match hash_loop (manifest_rows manifest (λ _, true) d) size 0 0 [] with
  | Throw e => Throw e
  | Ok (total, chunk_no, entries) =>
    if negb (total =? size) || negb (chunk_no =? chunk_count) || negb (chunk_no =? chunk_count_of size) then Throw SQLITE_CORRUPT
    else hashed (ManifestChecksum size kContentChunkBytes entries)
  end.

(** ** The counters *)

Definition CurrentQuotaStats (w : Workspace) (d : Db) : sql QuotaStats :=
  let sizes := omap (λ '(_, r), if (i_workspace r =? ws_id w) && live r && negb (bool_decide (i_kind r = KDirectory)) then Some (i_size r) else None)
    (map_to_list (inodes d)) in
  let actual := mkQuotaStats (Z.of_nat (length sizes)) (foldr Z.add 0 sizes)
    (match sizes with [] => 0 | x :: sizes => foldr Z.max x sizes end) in
  match workspaces d !! ws_id w with
  | None => Throw SQLITE_NOTFOUND
  | Some row =>
    if negb (w_live_files row =? live_files actual) || negb (w_live_bytes row =? live_bytes actual) then Throw SQLITE_CORRUPT
    else Ok actual
  end.

(** ** What a tree refers to *)

(** The files and symlinks of a tree, each version of an inode once. *)
Fixpoint requested_versions (nodes : list (bytes * SnapshotTreeNode)) (seen : gset (Z * Z)) : list SnapshotTreeNode :=
  match nodes with
  | [] => []
  | (_, n) :: nodes =>
    if bool_decide (t_kind n = KDirectory) || bool_decide ((t_inode n, t_version n) ∈ seen) then requested_versions nodes seen
    else n :: requested_versions nodes ({[ (t_inode n, t_version n) ]} ∪ seen)
  end.

(** A row of the join; [None] when there is none. *)
Definition requested_storage (n : SnapshotTreeNode) (d : Db) : option (sql VersionStorage) :=
  requested ← file_versions d !! (t_inode n, t_version n);
  canonical ← file_versions d !! (t_inode n, t_canonical n);
  let manifest := m ← v_manifest canonical; manifests d !! m in
  let size := v_size requested in
  let chunk_count := int64 (m_chunk_count <$> manifest) in
  let expected_chunk_count := if (size <? 0) || (kMaxStagedBytes <? size) then -1 else chunk_count_of size in
  Some (
    if negb (t_size n =? size) || negb (size =? int64 (m_file_size <$> manifest)) ||
       bool_decide (v_manifest canonical = None) || (int64 (v_manifest canonical) <=? 0) ||
       negb (length (v_checksum requested) =? 64)%nat || negb (bool_decide (v_checksum requested = v_checksum canonical)) ||
       negb (bool_decide (v_checksum requested = default [] (m_checksum <$> manifest))) ||
       negb (int64 (m_chunk_size <$> manifest) =? kContentChunkBytes) || negb (chunk_count =? expected_chunk_count)
    then Throw SQLITE_CORRUPT
    else Ok (mkVersionStorage (int64 (v_manifest canonical)) size (t_canonical n) chunk_count (v_checksum requested))).

(** The manifests of the rows; two rows of one manifest must agree. *)
Fixpoint collect_manifests (rows : list (sql VersionStorage)) (found : gmap Z VersionStorage) : sql (gmap Z VersionStorage) :=
  match rows with
  | [] => Ok found
  | Throw e :: _ => Throw e
  | Ok storage :: rows =>
    match found !! vs_manifest storage with
    | None => collect_manifests rows (<[vs_manifest storage := storage]> found)
    | Some existing =>
      if negb (vs_size existing =? vs_size storage) || negb (vs_chunk_count existing =? vs_chunk_count storage) ||
         negb (bool_decide (vs_checksum existing = vs_checksum storage)) then Throw SQLITE_CORRUPT
      else collect_manifests rows found
    end
  end.

Fixpoint check_manifests (manifests : list (Z * VersionStorage)) (d : Db) : sql () :=
  match manifests with
  | [] => Ok ()
  | (m, storage) :: manifests =>
    match HashManifest m (vs_size storage) (vs_chunk_count storage) d with
    | Throw e => Throw e
    | Ok checksum => if bool_decide (checksum = vs_checksum storage) then check_manifests manifests d else Throw SQLITE_CORRUPT
    end
  end.

Definition manifest_le (x y : Z * VersionStorage) : Prop := x.1 <= y.1.
#[export] Instance manifest_le_dec : RelDecision manifest_le.
Proof. intros x y. unfold manifest_le. apply _. Defined.

Definition ValidateHistoricalSnapshotTarget (w : Workspace) (commit : Z) (d : Db) : sql () :=
  match TreeAtCommit w commit d with
  | Throw e => Throw e
  | Ok target =>
    match ReadQuotaPolicy (ws_id w) d, CurrentQuotaStats w d, SnapshotQuotaStats target with
    | Ok policy, Ok before, Ok after =>
      match CheckQuotaForSnapshotRestore policy before after with
      | Throw e => Throw e
      | Ok _ =>
        let requested := requested_versions (entries target) ∅ in
        if bool_decide (requested = []) then Ok ()
        else
          let rows := omap (λ n, requested_storage n d) requested in
          match collect_manifests rows ∅ with
          | Throw e => Throw e
          | Ok found =>
            if negb (length rows =? length requested)%nat then Throw SQLITE_CORRUPT
            else check_manifests (merge_sort manifest_le (map_to_list found)) d
          end
      end
    | Throw e, _, _ => Throw e
    | _, Throw e, _ => Throw e
    | _, _, Throw e => Throw e
    end
  end.

Definition SnapshotCreateAtCommitFunction (workspace name : option bytes) (commit : sqlite_value) (snapshot_type : option (option bytes)) : M Z :=
  workspace ← lift (RequiredText workspace);
  w ← query (FindWorkspace workspace);
  name ← lift (RequiredText name);
  commit ← lift (RequiredPositiveInteger commit);
  snapshot_type ← lift (text_arg (str "manual") snapshot_type);
  lift (ValidateSnapshotDefinition name snapshot_type);;
  Savepoint (
    AcquireWriteLock;;
    query (ValidateHistoricalSnapshotTarget w commit);;
    InsertSnapshot w name snapshot_type commit;;
    mret commit).

(** ** The commit of a moment *)

(** [ORDER BY created_at DESC, id DESC]. *)
Definition commit_le (x y : Z * commit_row) : Prop :=
  (c_created y.2 <? c_created x.2) || (c_created x.2 =? c_created y.2) && (y.1 <=? x.1) = true.
#[export] Instance commit_le_dec : RelDecision commit_le.
Proof. intros x y. unfold commit_le. apply _. Defined.

Definition restorable (w : Workspace) (until : Z) (d : Db) (x : Z * commit_row) : Prop :=
  c_workspace x.2 = ws_id w ∧ c_created x.2 <= until ∧
  match workspaces d !! ws_id w with
  | Some row => let floor := int64 (w_history_floor row) in 0 < floor ∧ floor <= x.1
  | None => False
  end.
#[export] Instance restorable_dec w until d x : Decision (restorable w until d x).
Proof. unfold restorable. destruct (workspaces d !! ws_id w); apply _. Defined.

Definition ResolveCommitAtTime (julian : bytes → option Z) (w : Workspace) (requested_at : bytes) (d : Db) : sql (Z * Z) :=
  if negb (HasExplicitRfc3339Timezone requested_at) then Throw SQLITE_MISMATCH
  else
    match julian requested_at with
    | None => Throw SQLITE_MISMATCH
    | Some until =>
      match merge_sort commit_le (filter (restorable w until d) (map_to_list (commits d))) with
      | [] => Throw SQLITE_NOTFOUND
      | (id, c) :: _ => Ok (id, c_created c)
      end
    end.

(** The commit and when it was made. *)
Definition SnapshotCreateAtTimeFunction (julian : bytes → option Z) (workspace name requested_at : option bytes)
    (snapshot_type : option (option bytes)) : M (Z * Z) :=
  workspace ← lift (RequiredText workspace);
  w ← query (FindWorkspace workspace);
  name ← lift (RequiredText name);
  requested_at ← lift (RequiredText requested_at);
  snapshot_type ← lift (text_arg (str "manual") snapshot_type);
  lift (ValidateSnapshotDefinition name snapshot_type);;
  Savepoint (
    AcquireWriteLock;;
    '(commit, created) ← query (ResolveCommitAtTime julian w requested_at);
    query (ValidateHistoricalSnapshotTarget w commit);;
    InsertSnapshot w name snapshot_type commit;;
    mret (commit, created)).
