(* ===== verification/VexfsRestore.v ===== *)
(** * Restoring a snapshot

    [SnapshotRestoreFunction] of [src/vexdb_sqlite/src/agent_files/vexfs_sqlite.cpp]: the tree
    of a workspace is cleared, written again from the states a commit recorded, and
    committed; a file that has been changed since gets a new version that copies the
    old one. A statement on many rows is a loop over them. *)
From Stdlib Require Import ZArith Lia String.
From stdpp Require Import prelude gmap sorting.
From S2P Require Import Prelude Sha256 VexfsText VexfsDb VexfsTree VexfsStore VexfsGrepIndex VexfsStaging VexfsHandles VexfsNames VexfsMetadata VexfsHistory VexfsSnapshots.

Local Open Scope Z_scope.

(** ** Clearing *)

(** The inodes of a workspace. *)
Definition inodes_in (ws : Z) (d : Db) : list Z :=
  omap (λ '(i, r), if i_workspace r =? ws then Some i else None) (map_to_list (inodes d)).

Definition clear_acl (ws : Z) : M () :=
  with_db $ λ d,
  for_each (filter (λ '(w, _, _, _), w = ws) (map_to_list (acl_entries d)).*1) delete_acl.
Definition clear_xattrs (ws : Z) : M () :=
  with_db $ λ d,
  for_each (filter (λ '(i, _), i ∈ inodes_in ws d) (map_to_list (xattrs d)).*1) (λ '(i, n), delete_xattr i n).
Definition clear_dentries (ws : Z) : M () :=
  with_db $ λ d,
  for_each (filter (λ '(w, _, _), w = ws) (map_to_list (dentries d)).*1) (λ '(w, p, n), delete_dentry w p n).

(** ** Writing the old tree *)

(** The columns an inode takes from a state. *)
Definition restored_row (old state : inode_row) : inode_row :=
  mkInodeRow (i_workspace old) (i_kind state) (i_mode state) (i_owner state) (i_uid state) (i_gid state)
    (i_size state) (i_version state) (i_created state) (i_accessed state) (i_updated state) (i_changed state) None.

Definition restore_inode (ws i : Z) (state : inode_row) : M () :=
  with_db $ λ d,
  match inodes d !! i with
  | Some r => if i_workspace r =? ws then update_inode i r (restored_row r state) else mret ()
  | None => mret ()
  end.
Definition restore_inodes (ws commit : Z) : M () :=
  with_db $ λ d, for_each (map_to_list (nodes_at ws commit d)) (λ '(i, state), restore_inode ws i state).

(** The entries whose two ends are live at the commit. *)
Definition restore_dentries (ws commit : Z) : M () :=
  with_db $ λ d,
  let nodes := nodes_at ws commit d in
  for_each (filter (λ '(p, _, i), is_Some (nodes !! i) ∧ is_Some (nodes !! p)) (entries_at ws commit d))
    (λ '(p, n, i), insert_dentry ws p n i).

Definition insert_xattr (i : Z) (n value : bytes) : M () :=
  with_db $ λ d,
  throw_if (bool_decide (is_Some (xattrs d !! (i, n)))) SQLITE_CONSTRAINT;;
  modify (on_xattrs (insert (i, n) value));; modify (dirty_xattr i n).
Definition restore_xattrs (ws commit : Z) : M () :=
  with_db $ λ d,
  let nodes := nodes_at ws commit d in
  for_each (omap (λ '((w, i, n), (value, deleted)),
      if (w =? ws) && negb deleted && bool_decide (is_Some (nodes !! i)) then Some (i, n, value) else None)
    (map_to_list (latest_rows (xattr_states d) commit))) (λ '(i, n, value), insert_xattr i n value).

Definition restore_acl (ws commit : Z) : M () :=
  with_db $ λ d,
  let nodes := nodes_at ws commit d in
  for_each (omap (λ '((w, i, p, e), ((permissions, inherit), deleted)),
      if (w =? ws) && negb deleted && bool_decide (is_Some (nodes !! i)) then Some ((ws, i, p, e), permissions, inherit) else None)
    (map_to_list (latest_rows (acl_states d) commit))) (λ '(k, permissions, inherit), insert_acl k permissions inherit).

Definition RestoreWorkspaceTree (w : Workspace) (commit : Z) : M () :=
  clear_acl (ws_id w);;
  clear_xattrs (ws_id w);;
  clear_dentries (ws_id w);;
  with_db (λ d, tombstone_rows (ws_id w) (inodes_in (ws_id w) d));;
  restore_inodes (ws_id w) commit;;
  restore_dentries (ws_id w) commit;;
  restore_xattrs (ws_id w) commit;;
  restore_acl (ws_id w) commit.

(** ** Versions *)

(** [MAX(version_no)] of the versions of an inode. *)
Definition max_version (i : Z) (t : gmap (Z * Z) version_row) : option Z :=
  map_fold (λ '(j, v) _ best, if j =? i then Some (Z.max v (default v best)) else best) None t.

Definition set_version (v : Z) (r : inode_row) : inode_row :=
  mkInodeRow (i_workspace r) (i_kind r) (i_mode r) (i_owner r) (i_uid r) (i_gid r) (i_size r) v
    (i_created r) (i_accessed r) (i_updated r) (i_changed r) (i_deleted r).

(** The live files and symlinks of a workspace that the commit has as well, with the
    state they had. *)
Definition restored_files (ws commit : Z) (d : Db) : list (Z * inode_row * inode_row) :=
  omap (λ '(i, r),
    if (i_workspace r =? ws) && live r && negb (bool_decide (i_kind r = KDirectory))
    then state ← nodes_at ws commit d !! i; Some (i, r, state) else None) (map_to_list (inodes d)).

Definition PrepareRestoredVersionAliases (w : Workspace) (commit : Z) : M () :=
  with_db $ λ d,
  for_each (restored_files (ws_id w) commit d) (λ '(i, r, state),
    match max_version i (file_versions d) with
    | Some v => if i_version state <? v then update_inode i r (set_version (v + 1) r) else mret ()
    | None => mret ()
    end).

Definition StoreRestoredVersionAliases (w : Workspace) (target_commit restore_commit : Z) : M () :=
  with_db $ λ d,
  for_each (restored_files (ws_id w) target_commit d) (λ '(i, r, state),
    match file_versions d !! (i, i_version state) with
    | Some source =>
      if negb (i_version r =? i_version state)
      then insert_version i (i_version r) restore_commit None (i_size state) (v_checksum source)
        (Some (default (i_version state) (v_source source)))
      else mret ()
    | None => mret ()
    end).

(** ** The function *)

Definition active_mount (ws : Z) (d : Db) : bool :=
  match mount_sessions d !! ws with
  | Some (_, lease_until) => clock_seconds d <? lease_until
  | None => false
  end.
Definition held_handles (ws : Z) (d : Db) : bool :=
  existsb (λ '(_, h), (h_workspace h =? ws) && (bool_decide (h_state h = Open) || bool_decide (h_state h = Retained)))
    (map_to_list (handles d)).

(** The two trees, and whether the target fits the quotas. *)
Definition restore_check (w : Workspace) (current target : SnapshotTree) (d : Db) : sql () :=
  if bool_decide (SnapshotDiff current target = []) then Throw SQLITE_MISMATCH
  else
    match ReadQuotaPolicy (ws_id w) d, SnapshotQuotaStats current, SnapshotQuotaStats target with
    | Ok policy, Ok before, Ok after => CheckQuotaForSnapshotRestore policy before after
    | Throw e, _, _ => Throw e
    | _, Throw e, _ => Throw e
    | _, _, Throw e => Throw e
    end.

(** [safety] is [None] when the argument is missing or [NULL]. *)
Definition SnapshotRestoreFunction (workspace name : option bytes) (expected : sqlite_value) (safety : option bytes) : M Z :=
  workspace ← lift (RequiredText workspace);
  _ ← query (FindWorkspace workspace);
  name ← lift (RequiredText name);
  expected_head ← lift (RequiredPositiveInteger expected);
  throw_if (match safety with Some safety => bad_snapshot_name safety | None => false end) SQLITE_MISMATCH;;
  Savepoint (
    AcquireWriteLock;;
    w ← query (FindWorkspace workspace);
    throw_if (negb (ws_head w =? expected_head)) SQLITE_CONSTRAINT;;
    mounted ← query (λ d, Ok (active_mount (ws_id w) d));
    throw_if mounted SQLITE_BUSY;;
    snapshot ← query (FindSnapshot w name);
    held ← query (λ d, Ok (held_handles (ws_id w) d));
    throw_if held SQLITE_BUSY;;
    current ← query (CurrentTree w);
    target ← query (TreeAtCommit w (si_commit snapshot));
    query (restore_check w current target);;
    (match safety with Some safety => insert_snapshot (ws_id w) safety Safety (ws_head w) | None => mret () end);;
    RestoreWorkspaceTree w (si_commit snapshot);;
    PrepareRestoredVersionAliases w (si_commit snapshot);;
    commit ← CreateCommit w (str "restore snapshot " ++ name);
    StoreRestoredVersionAliases w (si_commit snapshot) commit;;
    RefreshGrepIndexAfterTreeChange;;
    mret commit).
