(* ===== verification/VexfsRetention.v ===== *)
(** * Retention

    Quotas, retention policies, the pruning of snapshots and the collection of versions
    that no policy keeps, as in [src/vexdb_sqlite/src/agent_files/vexfs_sqlite.cpp]. The
    temporary tables of the collection are values here. Where the code prints a value as
    JSON, the function here returns the value. *)
From Stdlib Require Import ZArith Lia String.
From stdpp Require Import prelude gmap sorting.
From S2P Require Import Prelude Sha256 VexfsText VexfsDb VexfsTree VexfsStore VexfsGrepIndex VexfsStaging VexfsHandles VexfsNames VexfsHistory VexfsSnapshots.

Local Open Scope Z_scope.

(** ** Policies *)

(** [sqlite3_value_int]. *)
Definition value_int (z : Z) : Z := (z + 2 ^ 31) mod 2 ^ 32 - 2 ^ 31.

(** An argument that must be 0 or 1. *)
Definition flag_arg (value : sqlite_value) : sql bool :=
  match value with
  | VInteger z => if (value_int z =? 0) || (value_int z =? 1) then Ok (negb (value_int z =? 0)) else Throw SQLITE_MISMATCH
  | _ => Throw SQLITE_MISMATCH
  end.

Definition set_retention (f : retention_row → retention_row) (w : workspace_row) : workspace_row :=
  mkWorkspaceRow (w_name w) (w_active w) (w_root_inode w) (w_head_commit w) (w_history_floor w)
    (w_max_bytes w) (w_max_files w) (w_max_file_bytes w) (w_live_files w) (w_live_bytes w) (f (w_retention w)).

(** [-1] stands for no limit. *)
Definition OptionalQuotaValue (value : sqlite_value) : sql Z :=
  match value with VNull => Ok (-1) | _ => RequiredNonnegativeInteger value end.

Definition set_quotas (max_bytes max_files max_file_bytes : Z) (w : workspace_row) : workspace_row :=
  let column x := if x <? 0 then None else Some x in
  mkWorkspaceRow (w_name w) (w_active w) (w_root_inode w) (w_head_commit w) (w_history_floor w)
    (column max_bytes) (column max_files) (column max_file_bytes) (w_live_files w) (w_live_bytes w) (w_retention w).

(** The largest file of a workspace. *)
Definition largest_file (ws : Z) (d : Db) : Z :=
  map_fold (λ _ r n, if (i_workspace r =? ws) && live r && negb (bool_decide (i_kind r = KDirectory)) then Z.max (i_size r) n else n)
    0 (inodes d).
Definition ReadQuotaStats (ws : Z) (d : Db) : QuotaStats :=
  match workspaces d !! ws with
  | Some row => mkQuotaStats (w_live_files row) (w_live_bytes row) (largest_file ws d)
  | None => mkQuotaStats 0 0 0
  end.

Definition QuotaSetFunction (workspace : option bytes) (max_bytes max_files max_file_bytes : sqlite_value) : M (QuotaPolicy * QuotaStats) :=
  workspace ← lift (RequiredText workspace);
  max_bytes ← lift (OptionalQuotaValue max_bytes);
  max_files ← lift (OptionalQuotaValue max_files);
  max_file_bytes ← lift (OptionalQuotaValue max_file_bytes);
  w ← query (FindWorkspace workspace);
  Savepoint (
    AcquireWriteLock;;
    modify (on_workspaces (alter (set_quotas max_bytes max_files max_file_bytes) (ws_id w))));;
  stats ← query (λ d, Ok (ReadQuotaStats (ws_id w) d));
  mret (mkQuotaPolicy max_bytes max_files max_file_bytes, stats).

(** ** Pruning snapshots *)

Record SnapshotPolicy := mkSnapshotPolicy { agent_keep : Z; safety_keep : Z; keep_snapshot_days : Z }.

Definition ReadSnapshotPolicy (w : Workspace) (d : Db) : sql SnapshotPolicy :=
  match workspaces d !! ws_id w with
  | Some row =>
    let r := w_retention row in Ok (mkSnapshotPolicy (rt_agent_keep r) (rt_safety_keep r) (rt_snapshot_keep_days r))
  | None => Throw SQLITE_NOTFOUND
  end.

Definition set_snapshot_policy (p : SnapshotPolicy) (r : retention_row) : retention_row :=
  mkRetentionRow (rt_keep_versions r) (rt_keep_days r) (agent_keep p) (safety_keep p) (keep_snapshot_days p) (rt_gc_paused r).

Definition SnapshotPolicySetFunction (workspace : option bytes) (agent safety days : sqlite_value) : M SnapshotPolicy :=
  workspace ← lift (RequiredText workspace);
  agent ← lift (RequiredNonnegativeInteger agent);
  safety ← lift (RequiredNonnegativeInteger safety);
  days ← lift (RequiredNonnegativeInteger days);
  throw_if ((1000000 <? agent) || (1000000 <? safety)) SQLITE_RANGE;;
  throw_if (36500 <? days) SQLITE_RANGE;;
  w ← query (FindWorkspace workspace);
  Savepoint (
    AcquireWriteLock;;
    modify (on_workspaces (alter (set_retention (set_snapshot_policy (mkSnapshotPolicy agent safety days))) (ws_id w))));;
  mret (mkSnapshotPolicy agent safety days).

(** [ORDER BY created_at DESC, id DESC]: the snapshot [x] comes before [y]. *)
Definition newer (x y : Z * snapshot_row) : bool :=
  (p_created y.2 <? p_created x.2) || (p_created x.2 =? p_created y.2) && (y.1 <? x.1).
(** [ROW_NUMBER()] among the snapshots of a workspace of the same type. *)
Definition snapshot_rank (ws : Z) (x : Z * snapshot_row) (d : Db) : Z :=
  Z.of_nat (length (filter (λ y, p_workspace y.2 = ws ∧ p_type y.2 = p_type x.2 ∧ newer y x = true) (map_to_list (snapshots d)))) + 1.

Definition expired (ws : Z) (policy : SnapshotPolicy) (x : Z * snapshot_row) (d : Db) : bool :=
  (p_workspace x.2 =? ws) &&
  match p_type x.2 with
  | Manual => false
  | Agent => agent_keep policy <? snapshot_rank ws x d
  | Safety => safety_keep policy <? snapshot_rank ws x d
  end &&
  ((keep_snapshot_days policy =? 0) || (p_created x.2 <? clock d - keep_snapshot_days policy * 86400000)).

(** The number of candidates and of snapshots that were deleted. *)
Definition SnapshotPruneFunction (workspace : option bytes) (dry_run : sqlite_value) : M (Z * Z) :=
  workspace ← lift (RequiredText workspace);
  dry_run ← lift (flag_arg dry_run);
  w ← query (FindWorkspace workspace);
  policy ← query (ReadSnapshotPolicy w);
  Savepoint ((if dry_run then mret () else AcquireWriteLock);; with_db $ λ d,
    let candidates := filter (λ x, expired (ws_id w) policy x d = true) (map_to_list (snapshots d)) in
    let count := Z.of_nat (length candidates) in
    if negb dry_run && (0 <? count)
    then modify (on_snapshots (filter (λ x, expired (ws_id w) policy x d = false)));; mret (count, count)
    else mret (count, 0)).

(** ** What is kept *)

Record RetentionPolicy := mkRetentionPolicy { keep_versions : Z; keep_days : Z; gc_paused : bool }.

Definition ReadRetentionPolicy (w : Workspace) (d : Db) : sql RetentionPolicy :=
  match workspaces d !! ws_id w with
  | Some row => let r := w_retention row in Ok (mkRetentionPolicy (rt_keep_versions r) (rt_keep_days r) (rt_gc_paused r))
  | None => Throw SQLITE_NOTFOUND
  end.

(** An inode of the workspace, in whatever state. *)
Definition belongs (ws i : Z) (d : Db) : bool := match inodes d !! i with Some r => i_workspace r =? ws | None => false end.

Definition kept_current (ws : Z) (d : Db) : gset (Z * Z) :=
  list_to_set (omap (λ '(i, r),
    if (i_workspace r =? ws) && live r && negb (bool_decide (i_kind r = KDirectory)) && (0 <? i_version r)
    then Some (i, i_version r) else None) (map_to_list (inodes d))).
Definition kept_handles (ws : Z) (d : Db) : gset (Z * Z) :=
  list_to_set (omap (λ '(_, h),
    if (h_workspace h =? ws) && (bool_decide (h_state h = Open) || bool_decide (h_state h = Retained)) && (0 <? h_expected_version h)
    then Some (h_inode h, h_expected_version h) else None) (map_to_list (handles d))).
(** [ROW_NUMBER() OVER(PARTITION BY inode_id ORDER BY version_no DESC)]. *)
Definition version_rank (k : Z * Z) (d : Db) : Z :=
  Z.of_nat (length (filter (λ '(i, v), i = k.1 ∧ k.2 < v) (map_to_list (file_versions d)).*1)) + 1.
Definition kept_recent (ws n : Z) (d : Db) : gset (Z * Z) :=
  list_to_set (filter (λ k, belongs ws k.1 d && (version_rank k d <=? n) = true) (map_to_list (file_versions d)).*1).
Definition kept_days (ws n : Z) (d : Db) : gset (Z * Z) :=
  list_to_set (omap (λ '(k, v), if belongs ws k.1 d && (clock d - n * 86400000 <=? v_created v) then Some k else None)
    (map_to_list (file_versions d))).
(** The states of files and symlinks that have a version; the latest at the commit of
    a snapshot counts. *)
Definition kept_by (commit ws : Z) (d : Db) : gset (Z * Z) :=
  list_to_set (omap (λ '((w, i), r), if (w =? ws) && live r then Some (i, i_version r) else None)
    (map_to_list (latest_rows (filter (λ '(_, r), negb (bool_decide (i_kind r = KDirectory)) && (0 <? i_version r) = true)
      (inode_states d)) commit))).
Definition kept_snapshots (ws : Z) (d : Db) : gset (Z * Z) :=
  ⋃ ((λ '(_, p), if p_workspace p =? ws then kept_by (p_commit p) ws d else ∅) <$> map_to_list (snapshots d)).

(** One round of the loop over the sources. *)
Definition add_sources (d : Db) (keep : gset (Z * Z)) : gset (Z * Z) :=
  keep ∪ list_to_set (omap (λ '((i, v), row), if bool_decide ((i, v) ∈ keep) then (λ s, (i, s)) <$> v_source row else None)
    (map_to_list (file_versions d))).
(** [None] when the fuel runs out; every round but the last adds a source. *)
Fixpoint close_sources (fuel : nat) (d : Db) (keep : gset (Z * Z)) : option (gset (Z * Z)) :=
  let next := add_sources d keep in
  if decide (next = keep) then Some keep
  else match fuel with O => None | S fuel => close_sources fuel d next end.

Definition PrepareRetentionKeepSet (w : Workspace) (policy : RetentionPolicy) (d : Db) : gset (Z * Z) :=
  let ws := ws_id w in
  let keep := kept_current ws d ∪ kept_handles ws d ∪
    (if 0 <? keep_versions policy then kept_recent ws (keep_versions policy) d else ∅) ∪
    (if 0 <? keep_days policy then kept_days ws (keep_days policy) d else ∅) ∪ kept_snapshots ws d in
  default keep (close_sources (size (file_versions d)) d keep).

(** ** Statistics *)

Record RetentionStats := mkRetentionStats {
  rs_live_files : Z;
  rs_live_bytes : Z;
  rs_versions : Z;
  rs_stored_bytes : Z;
  rs_live_storage : Z;
  rs_reclaimable_versions : Z;
  rs_reclaimable_bytes : Z;
}.

Definition chunk_bytes (d : Db) (ids : gset Z) : Z :=
  set_fold (λ id n, match chunks d !! id with Some c => k_size c + n | None => n end) 0 ids.

(** The versions of a workspace, and those of them that are not kept. *)
Definition versions_of (ws : Z) (d : Db) : list (Z * Z * version_row) :=
  filter (λ x, belongs ws x.1.1 d = true) (map_to_list (file_versions d)).
Definition reclaimable (ws : Z) (keep : gset (Z * Z)) (d : Db) : list (Z * Z * version_row) :=
  filter (λ x, x.1 ∉ keep) (versions_of ws d).
Definition manifests_of (versions : list (Z * Z * version_row)) : gset Z := list_to_set (omap (λ x, v_manifest x.2) versions).

Definition entries_of (manifest_ids : gset Z) (d : Db) : gset Z :=
  list_to_set (omap (λ '((m, _), c), if bool_decide (m ∈ manifest_ids) then Some c else None) (map_to_list (manifest_chunks d))).
(** The chunks that only these manifests use. *)
Definition freed_chunks (manifest_ids : gset Z) (d : Db) : gset Z :=
  entries_of manifest_ids d ∖
  list_to_set (omap (λ '((m, _), c), if bool_decide (m ∈ manifest_ids) then None else Some c) (map_to_list (manifest_chunks d))).

Definition live_manifests (ws : Z) (d : Db) : gset Z :=
  list_to_set (omap (λ '(i, r),
    if (i_workspace r =? ws) && live r && negb (bool_decide (i_kind r = KDirectory))
    then current ← file_versions d !! (i, i_version r);
      source ← file_versions d !! (i, default (i_version r) (v_source current)); v_manifest source
    else None) (map_to_list (inodes d))).

Definition ReadRetentionStats (w : Workspace) (keep : gset (Z * Z)) (d : Db) : RetentionStats :=
  let ws := ws_id w in
  let counters := match workspaces d !! ws with Some row => (w_live_files row, w_live_bytes row) | None => (0, 0) end in
  mkRetentionStats counters.1 counters.2 (Z.of_nat (length (versions_of ws d)))
    (map_fold (λ _ c n, if k_workspace c =? ws then k_size c + n else n) 0 (chunks d))
    (chunk_bytes d (entries_of (live_manifests ws d) d))
    (Z.of_nat (length (reclaimable ws keep d)))
    (chunk_bytes d (freed_chunks (manifests_of (reclaimable ws keep d)) d)).

Definition retention_report (w : Workspace) : M (RetentionPolicy * RetentionStats) :=
  policy ← query (ReadRetentionPolicy w);
  stats ← query (λ d, Ok (ReadRetentionStats w (PrepareRetentionKeepSet w policy d) d));
  mret (policy, stats).

Definition RetentionGetFunction (workspace : option bytes) : M (RetentionPolicy * RetentionStats) :=
  workspace ← lift (RequiredText workspace);
  w ← query (FindWorkspace workspace);
  retention_report w.

Definition set_versions_policy (versions days : Z) (r : retention_row) : retention_row :=
  mkRetentionRow versions days (rt_agent_keep r) (rt_safety_keep r) (rt_snapshot_keep_days r) (rt_gc_paused r).
Definition RetentionSetFunction (workspace : option bytes) (versions days : sqlite_value) : M (RetentionPolicy * RetentionStats) :=
  workspace ← lift (RequiredText workspace);
  versions ← lift (RequiredNonnegativeInteger versions);
  days ← lift (RequiredNonnegativeInteger days);
  throw_if (1000000 <? versions) SQLITE_RANGE;;
  throw_if (36500 <? days) SQLITE_RANGE;;
  w ← query (FindWorkspace workspace);
  modify (on_workspaces (alter (set_retention (set_versions_policy versions days)) (ws_id w)));;
  retention_report w.

Definition set_paused (paused : bool) (r : retention_row) : retention_row :=
  mkRetentionRow (rt_keep_versions r) (rt_keep_days r) (rt_agent_keep r) (rt_safety_keep r) (rt_snapshot_keep_days r) paused.
Definition GcPauseFunction (workspace : option bytes) (paused : sqlite_value) : M (RetentionPolicy * RetentionStats) :=
  workspace ← lift (RequiredText workspace);
  paused ← lift (flag_arg paused);
  w ← query (FindWorkspace workspace);
  Savepoint (AcquireWriteLock;; modify (on_workspaces (alter (set_retention (set_paused paused)) (ws_id w))));;
  retention_report w.

(** ** Collection *)

(** [ORDER BY source_version_no IS NULL, created_at, id]. *)
Definition candidate_le (x y : Z * Z * version_row) : Prop :=
  let rank v := if v_source v then 0 else 1 in
  let a := x.2 in let b := y.2 in
  (rank a <? rank b) || (rank a =? rank b) &&
    ((v_created a <? v_created b) || (v_created a =? v_created b) && (v_id a <=? v_id b)) = true.
#[export] Instance candidate_le_dec : RelDecision candidate_le.
Proof. intros x y. unfold candidate_le. apply _. Defined.

(** A version that copies another one, or that no other one copies. *)
Definition removable (d : Db) (x : Z * Z * version_row) : bool :=
  bool_decide (is_Some (v_source x.2)) ||
  negb (existsb (λ '((i, _), row), (i =? x.1.1) && bool_decide (v_source row = Some x.1.2)) (map_to_list (file_versions d))).

Definition gc_candidates (ws : Z) (keep : gset (Z * Z)) (batch : Z) (d : Db) : list (Z * Z * version_row) :=
  take (Z.to_nat batch) (merge_sort candidate_le (filter (λ x, removable d x = true) (reclaimable ws keep d))).

(** The deletions of one batch. *)
Definition delete_versions (ws : Z) (removed : list (Z * Z * version_row)) (d : Db) : Db :=
  let keys : gset (Z * Z) := list_to_set removed.*1 in
  let ids := manifests_of removed ∖ {[ 0 ]} in
  let entries := filter (λ '((m, _), _), m ∉ ids) (manifest_chunks d) in
  let used : gset Z := list_to_set (map_to_list entries).*2 in
  on_chunks (filter (λ '(id, c), k_workspace c ≠ ws ∨ id ∈ used)) $
  on_manifests (filter (λ '(m, _), m ∉ ids)) $
  on_manifest_chunks (λ _, entries) $
  on_file_versions (filter (λ '(k, _), k ∉ keys)) $
  on_inode_states (filter (λ '((w, i, _), r), ¬ (w = ws ∧ (i, i_version r) ∈ keys))) d.

Record GcResult := mkGcResult { gc_deleted : Z; gc_reclaimed : Z; gc_remaining : RetentionStats }.
Definition has_more (r : GcResult) : bool := negb (rs_reclaimable_versions (gc_remaining r) =? 0).

Definition mounted (ws : Z) (d : Db) : bool :=
  match mount_sessions d !! ws with Some (_, lease_until) => clock d <? lease_until | None => false end.

Definition GcFunction (workspace : option bytes) (batch : sqlite_value) : M GcResult :=
  workspace ← lift (RequiredText workspace);
  batch ← lift (RequiredPositiveInteger batch);
  throw_if (10000 <? batch) SQLITE_RANGE;;
  w ← query (FindWorkspace workspace);
  Savepoint (
    AcquireWriteLock;;
    busy ← query (λ d, Ok (mounted (ws_id w) d));
    throw_if busy SQLITE_BUSY;;
    policy ← query (ReadRetentionPolicy w);
    throw_if (gc_paused policy) SQLITE_BUSY;;
    removed ← query (λ d, Ok (gc_candidates (ws_id w) (PrepareRetentionKeepSet w policy d) batch d));
    reclaimed ← query (λ d, Ok (chunk_bytes d (freed_chunks (manifests_of removed ∖ {[ 0 ]}) d)));
    (if bool_decide (removed = []) then mret () else modify (delete_versions (ws_id w) removed));;
    remaining ← query (λ d, Ok (ReadRetentionStats w (PrepareRetentionKeepSet w policy d) d));
    mret (mkGcResult (Z.of_nat (length removed)) reclaimed remaining)).
