(* ===== verification/VexfsSessions.v ===== *)
(** * Mount sessions

    The lease a mounted workspace holds, the handles of its sessions and their
    publication, as in [src/vexdb_sqlite/src/agent_files/vexfs_sqlite.cpp]. A session row
    is its identifier and the end of its lease. *)
From Stdlib Require Import ZArith Lia String.
From stdpp Require Import prelude gmap sorting.
From S2P Require Import Prelude Sha256 VexfsText VexfsDb VexfsTree VexfsStore VexfsGrepIndex VexfsStaging VexfsHandles VexfsNames VexfsMetadata VexfsHistory.

Local Open Scope Z_scope.

Definition dirty (h : handle_row) : bool := h_published_generation h <? h_dirty_generation h.

(** The end of a lease that starts now. *)
Definition lease (seconds : Z) (d : Db) : Z := (clock d / 1000 + seconds) * 1000.

(** ** Retaining and claiming handles *)

Definition retain_row (lease_until now : Z) (h : handle_row) : handle_row :=
  mkHandleRow (h_workspace h) (h_inode h) (h_writable h) (h_expected_version h) (h_dirty_generation h) (h_published_generation h)
    (if dirty h then Retained else Closed) (if dirty h then Some lease_until else None) (h_owner_session h) now.

Definition owned_by (session : bytes) (matching : bool) (h : handle_row) : bool :=
  match h_owner_session h with
  | Some owner => if matching then bool_decide (owner = session) else negb (bool_decide (owner = session))
  | None => false
  end.

(** The staging areas of closed handles go. *)
Definition closed_handle (ws : Z) (d : Db) (handle : bytes) : bool :=
  match handles d !! handle with Some h => (h_workspace h =? ws) && bool_decide (h_state h = Closed) | None => false end.
Definition clear_closed (ws : Z) : M () :=
  modify (λ d, on_staging_chunks (filter (λ '((h, _), _), closed_handle ws d h = false)) d);;
  modify (λ d, on_staging (filter (λ '(h, _), closed_handle ws d h = false)) d).

Definition RetainOpenHandles (w : Workspace) (session : bytes) (matching : bool) : M () :=
  modify (λ d, on_handles (fmap (λ h,
    if (h_workspace h =? ws_id w) && bool_decide (h_state h = Open) && owned_by session matching h
    then retain_row (lease 86400 d) (clock_seconds d) h else h)) d);;
  clear_closed (ws_id w).

Definition claim_row (session : bytes) (now : Z) (h : handle_row) : handle_row :=
  mkHandleRow (h_workspace h) (h_inode h) (h_writable h) (h_expected_version h) (h_dirty_generation h) (h_published_generation h)
    Open None (Some session) now.

Definition ClaimRetainedHandles (w : Workspace) (session : bytes) : M () :=
  modify (λ d, on_handles (fmap (λ h,
    if (h_workspace h =? ws_id w) && bool_decide (h_state h = Retained) && dirty h
    then claim_row session (clock_seconds d) h else h)) d).

(** ** Sessions *)

Definition session_arg (session : option bytes) : sql bytes :=
  match RequiredText session with
  | Throw e => Throw e
  | Ok session => if bool_decide (session = []) then Throw SQLITE_MISMATCH else Ok session
  end.

(** The session of a workspace, and whether its lease runs; no session is the empty one. *)
Definition current_session (ws : Z) (d : Db) : bytes * bool :=
  match mount_sessions d !! ws with
  | Some (session, lease_until) => (session, clock_seconds d <? lease_until)
  | None => ([], false)
  end.

(** The identifier of a session is unique among the workspaces. *)
Definition session_taken (ws : Z) (session : bytes) (d : Db) : bool :=
  existsb (λ '(v, (other, _)), negb (v =? ws) && bool_decide (other = session)) (map_to_list (mount_sessions d)).

Definition SessionStartFunction (workspace session : option bytes) : M Z :=
  workspace ← lift (RequiredText workspace);
  w ← query (FindWorkspace workspace);
  session ← lift (session_arg session);
  Savepoint (
    '(previous, active) ← query (λ d, Ok (current_session (ws_id w) d));
    throw_if (active && negb (bool_decide (previous = session))) SQLITE_BUSY;;
    (if negb (bool_decide (previous = [])) && negb (bool_decide (previous = session))
     then RetainOpenHandles w previous true else mret ());;
    ClaimRetainedHandles w session;;
    taken ← query (λ d, Ok (session_taken (ws_id w) session d));
    throw_if taken SQLITE_CONSTRAINT;;
    modify (λ d, on_mount_sessions (insert (ws_id w) (session, lease 30 d)) d);;
    mret 1).

Definition holds_session (ws : Z) (session : bytes) (d : Db) : bool :=
  match mount_sessions d !! ws with Some (current, _) => bool_decide (current = session) | None => false end.

Definition SessionHeartbeatFunction (workspace session : option bytes) : M Z :=
  workspace ← lift (RequiredText workspace);
  w ← query (FindWorkspace workspace);
  session ← lift (session_arg session);
  held ← query (λ d, Ok (holds_session (ws_id w) session d));
  throw_if (negb held) SQLITE_BUSY;;
  modify (λ d, on_mount_sessions (insert (ws_id w) (session, lease 30 d)) d);;
  mret 1.

Definition SessionEndFunction (workspace session : option bytes) : M Z :=
  workspace ← lift (RequiredText workspace);
  w ← query (FindWorkspace workspace);
  session ← lift (session_arg session);
  Savepoint (
    RetainOpenHandles w session true;;
    held ← query (λ d, Ok (holds_session (ws_id w) session d));
    (if held : bool then modify (on_mount_sessions (delete (ws_id w))) else mret ());;
    mret 1).

(** ** Publishing the handles of a session *)

(** [SELECT id, dirty_generation … ORDER BY id]. *)
Definition pending_handles (P : handle_row → bool) (d : Db) : list (bytes * Z) :=
  (λ '(id, h), (id, h_dirty_generation h)) <$>
    filter (λ '(_, h), P h && dirty h = true) (merge_sort key_le (map_to_list (handles d))).

(** [owner] is given by the call with three arguments. *)
Definition SynchronizeFunction (workspace request : option bytes) (owner : option (option bytes)) : M Z :=
  workspace ← lift (RequiredText workspace);
  request_id ← lift (RequiredText request);
  owner ← lift (match owner with None => Ok None | Some owner => match RequiredText owner with Ok o => Ok (Some o) | Throw e => Throw e end end);
  let fingerprint := FinishFingerprint (AddText (AddText (NewFingerprint (str "mount_synchronize")) workspace) (default [] owner)) in
  replayed request_id (str "mount_synchronize") fingerprint (
    w ← query (FindWorkspace workspace);
    pending ← query (λ d, Ok (pending_handles (λ h, (h_workspace h =? ws_id w) &&
      match owner with
      | Some owner => bool_decide (h_state h = Open) && bool_decide (h_owner_session h = Some owner)
      | None => (bool_decide (h_state h = Open) || bool_decide (h_state h = Retained)) && bool_decide (h_owner_session h = None)
      end) d));
    for_each pending (λ '(id, generation), h ← query (FindHandle id); PublishHandle h generation;; mret ());;
    StoreRequestInteger request_id (str "mount_synchronize") fingerprint (Z.of_nat (length pending));;
    mret (Z.of_nat (length pending))).

(** The value of a limit the call leaves out is 0. *)
Definition PublishCloseAllFunction (workspace owner : option bytes) (limit : Z) : M Z :=
  workspace ← lift (RequiredText workspace);
  w ← query (FindWorkspace workspace);
  owner ← lift (session_arg owner);
  throw_if (limit <? 0) SQLITE_RANGE;;
  Savepoint (
    AcquireWriteLock;;
    pending ← query (λ d, Ok (pending_handles (λ h, (h_workspace h =? ws_id w) && bool_decide (h_owner_session h = Some owner) &&
      bool_decide (h_state h = Open) && h_writable h) d));
    let pending := if limit =? 0 then pending else take (Z.to_nat limit) pending in
    for_each pending (λ '(id, generation),
      h ← query (FindHandle id);
      PublishHandleInTransaction h generation true;;
      with_db (λ d, update_handle id (set_closed Closed None (clock_seconds d)));;
      remove_staging id);;
    mret (Z.of_nat (length pending))).

Definition ReclaimFunction (workspace request : option bytes) : M Z :=
  workspace ← lift (RequiredText workspace);
  request_id ← lift (RequiredText request);
  let fingerprint := FinishFingerprint (AddText (NewFingerprint (str "item_reclaim")) workspace) in
  replayed request_id (str "item_reclaim") fingerprint (
    w ← query (FindWorkspace workspace);
    closed ← query (λ d, Ok (omap (λ '(id, h), if (h_workspace h =? ws_id w) && bool_decide (h_state h = Closed) then Some id else None)
      (map_to_list (handles d))));
    for_each closed (λ id, remove_staging id;; modify (on_handles (delete id)));;
    StoreRequestInteger request_id (str "item_reclaim") fingerprint (Z.of_nat (length closed));;
    mret (Z.of_nat (length closed))).
