(* ===== verification/VexfsReports.v ===== *)
(** * Functions that report

    The SQL functions of [src/vexdb_sqlite/src/agent_files/vexfs_sqlite.cpp] that read a
    workspace and change nothing: the state of a path, directories, searches by name, the
    versions of a file, the log of a workspace, snapshots, quotas and attributes. The code
    prints what it finds as JSON; the model returns the values it prints. The [run_id] of a
    commit is never written, so the log leaves it out. *)
From Stdlib Require Import ZArith Lia String.
From stdpp Require Import prelude gmap sorting.
From S2P Require Import Prelude Sha256 VexfsText VexfsDb VexfsTree VexfsStore VexfsGrepIndex VexfsStaging VexfsHandles VexfsNames VexfsMetadata VexfsHistory VexfsSnapshots VexfsRetention.

Local Open Scope Z_scope.

(** ** One path *)

Record PathStat := mkPathStat { st_path : bytes; st_node : Node; st_link_count : Z; st_checksum : option bytes }.

(** An empty checksum is printed as [null]. *)
Definition stat_checksum (node : Node) (d : Db) : sql (option bytes) :=
  if negb (bool_decide (n_kind node = KDirectory)) && (0 <? n_version node) then
    match file_versions d !! (n_id node, n_version node) with
    | None => Throw SQLITE_CORRUPT
    | Some v => Ok (if bool_decide (v_checksum v = []) then None else Some (v_checksum v))
    end
  else Ok None.

Definition StatFunction (workspace path : option bytes) : M PathStat :=
  path ← lift (RequiredText path);
  name ← lift (RequiredText workspace);
  w ← query (FindWorkspace name);
  parts ← lift (PathParts path);
  node ← query (Resolve w parts);
  checksum ← query (stat_checksum node);
  links ← query (LinkCount w (n_id node));
  mret (mkPathStat path node links checksum).

Definition PathFunction (workspace : option bytes) (inode : Z) : M bytes :=
  name ← lift (RequiredText workspace);
  w ← query (FindWorkspace name);
  query (PathForInode w inode).

Definition ReadlinkFunction (workspace : option bytes) (inode : sqlite_value) : M bytes :=
  name ← lift (RequiredText workspace);
  w ← query (FindWorkspace name);
  inode ← lift (RequiredPositiveInteger inode);
  query (RequireWorkspaceInode w inode);;
  node ← query (NodeById inode true);
  throw_if (negb (bool_decide (n_kind node = KSymlink))) SQLITE_MISMATCH;;
  throw_if (n_version node <=? 0) SQLITE_CORRUPT;;
  query (ReadVersionContent (n_id node) (n_version node)).

(** ** Directories *)

Definition directory_entries (ws p : Z) (d : Db) : list (bytes * Node) :=
  merge_sort key_le (omap (λ '((w, q, n), i),
    if (w =? ws) && (q =? p) then r ← inodes d !! i; if live r then Some (n, node_of i r) else None else None)
    (map_to_list (dentries d))).

Fixpoint list_loop (w : Workspace) (rows : list (bytes * Node)) (d : Db) : sql (list (bytes * Node * Z)) :=
  match rows with
  | [] => Ok []
  | (name, node) :: rows =>
    match LinkCount w (n_id node) d with
    | Throw e => Throw e
    | Ok links =>
      match list_loop w rows d with
      | Throw e => Throw e
      | Ok rest => Ok ((name, node, links) :: rest)
      end
    end
  end.

Definition ListFunction (workspace path : option bytes) : M (list (bytes * Node * Z)) :=
  name ← lift (RequiredText workspace);
  w ← query (FindWorkspace name);
  path ← lift (RequiredText path);
  parts ← lift (PathParts path);
  directory ← query (Resolve w parts);
  throw_if (negb (bool_decide (n_kind directory = KDirectory))) SQLITE_MISMATCH;;
  query (λ d, list_loop w (directory_entries (ws_id w) (n_id directory) d) d).

(** ** Searches by name *)

Record FoundEntry := mkFoundEntry {
  fe_path : bytes;
  fe_name : bytes;
  fe_inode : Z;
  fe_kind : Kind;
  fe_size : Z;
  fe_version : Z;
  fe_modified : Z;
}.

Definition found_entry (path name : bytes) (i : Z) (r : inode_row) : FoundEntry :=
  mkFoundEntry path name i (i_kind r) (i_size r) (i_version r) (i_updated r).

Record FindQuery := mkFindQuery {
  fq_pattern : bytes;
  fq_kind : option Kind;
  fq_min_size : Z;
  fq_max_size : Z;
  fq_after : Z;
  fq_before : Z;
  fq_cursor : bytes;
  fq_limit : Z;
}.

Definition kMaximumTimestampMilliseconds : Z := 253402300799999.

(** An argument that may be [NULL]; [Some None] is one that is neither [NULL] nor text. *)
Definition optional_text (value : option (option bytes)) : sql bytes :=
  match value with None => Ok [] | Some text => RequiredText text end.
Definition optional_number (value : sqlite_value) : sql Z :=
  match value with VNull => Ok (-1) | _ => RequiredNonnegativeInteger value end.

Definition kind_named (kind : bytes) : option Kind :=
  if bool_decide (kind = str "file") then Some KFile
  else if bool_decide (kind = str "directory") then Some KDirectory
  else if bool_decide (kind = str "symlink") then Some KSymlink
  else None.

Local Open Scope vex_scope.

(** The arguments after the path and the checks on them. *)
Definition find_query (pattern kind : option (option bytes)) (min_size max_size modified_after modified_before : sqlite_value)
    (cursor : option (option bytes)) (limit : sqlite_value) : sql FindQuery :=
  let! name_pattern := optional_text pattern in
  let! kind_text := optional_text kind in
  let! min := optional_number min_size in
  let! max := optional_number max_size in
  let! after := optional_number modified_after in
  let! before := optional_number modified_before in
  let! after_path := optional_text cursor in
  let! count := RequiredPositiveInteger limit in
  if bool_decide (is_Some pattern) && (bool_decide (name_pattern = []) || (255 <? zlength name_pattern)) then Throw SQLITE_RANGE
  else if bool_decide (is_Some kind) && bool_decide (kind_named kind_text = None) then Throw SQLITE_MISMATCH
  else if bool_decide (is_Some cursor) && bool_decide (after_path = []) then Throw SQLITE_MISMATCH
  else if 1000 <? count then Throw SQLITE_RANGE
  else if (0 <=? min) && (0 <=? max) && (max <? min) then Throw SQLITE_RANGE
  else if (0 <=? after) && (0 <=? before) && (before <? after) then Throw SQLITE_RANGE
  else if (kMaximumTimestampMilliseconds <? after) || (kMaximumTimestampMilliseconds <? before) then Throw SQLITE_RANGE
  else
    let query := mkFindQuery name_pattern (kind_named kind_text) min max after before after_path count in
    if bool_decide (after_path = []) then Ok query
    else
      let! parts := PathParts after_path in
      if bool_decide (CanonicalPath parts = after_path) then Ok query else Throw SQLITE_MISMATCH.

(** The entries of a directory, each with its path. *)
Definition find_children (ws : Z) (dir : bytes * Z) (d : Db) : list FoundEntry :=
  omap (λ '((w, p, n), i),
    if (w =? ws) && (p =? dir.2) then
      r ← inodes d !! i;
      if (i_workspace r =? ws) && live r then Some (found_entry (child_path dir.1 n) n i r) else None
    else None) (map_to_list (dentries d)).

(** The recursive query [directories], a level at a time; [None] when the fuel runs out. *)
Definition find_directories (ws : Z) (dir : bytes * Z) (d : Db) : list (bytes * Z) :=
  omap (λ e, if bool_decide (fe_kind e = KDirectory) then Some (fe_path e, fe_inode e) else None) (find_children ws dir d).
Fixpoint directory_rows (fuel : nat) (ws : Z) (level : list (bytes * Z)) (d : Db) : option (list (bytes * Z)) :=
  match level, fuel with
  | [], _ => Some []
  | _, O => None
  | _, S fuel => rest ← directory_rows fuel ws (dir ← level; find_directories ws dir d) d; Some (level ++ rest)
  end.

Definition find_tree (ws root : Z) (root_path root_name : bytes) (d : Db) : option (list FoundEntry) :=
  match inodes d !! root with
  | Some r =>
    if i_workspace r =? ws then
      dirs ← directory_rows (S (S (size (dentries d)))) ws (if bool_decide (i_kind r = KDirectory) then [(root_path, root)] else []) d;
      Some (found_entry root_path root_name root r :: (dir ← dirs; find_children ws dir d))
    else Some []
  | None => Some []
  end.

(** The [WHERE] of the query. *)
Definition selected (q : FindQuery) (e : FoundEntry) : bool :=
  bytes_ltb (fq_cursor q) (fe_path e) &&
  match fq_kind q with None => true | Some kind => bool_decide (fe_kind e = kind) end &&
  ((fq_min_size q <? 0) || (fq_min_size q <=? fe_size e)) && ((fq_max_size q <? 0) || (fe_size e <=? fq_max_size q)) &&
  ((fq_after q <? 0) || (fq_after q <=? fe_modified e)) && ((fq_before q <? 0) || (fe_modified e <=? fq_before q)).

Definition name_matches (q : FindQuery) (e : FoundEntry) : bool :=
  bool_decide (fq_pattern q = []) || bool_decide (FindGlobMatches (fq_pattern q) (fe_name e) = Some true).

Definition entry_le (x y : FoundEntry) : Prop := bytes_le (fe_path x) (fe_path y).
#[export] Instance entry_le_dec : RelDecision entry_le.
Proof. intros x y. unfold entry_le. apply _. Defined.

(** One more than the limit shows that there is more. *)
Fixpoint find_loop (q : FindQuery) (rows matches : list FoundEntry) : list FoundEntry :=
  match rows with
  | [] => matches
  | e :: rows =>
    if negb (name_matches q e) then find_loop q rows matches
    else
      let matches := matches ++ [e] in
      if fq_limit q <? Z.of_nat (length matches) then matches else find_loop q rows matches
  end.

Record FindPage := mkFindPage { fp_root : bytes; fp_entries : list FoundEntry; fp_next : option bytes }.

Definition find_page (w : Workspace) (root_parts : list bytes) (root : Node) (q : FindQuery) (d : Db) : sql FindPage :=
  let root_path := CanonicalPath root_parts in
  match find_tree (ws_id w) (n_id root) root_path (default [slash] (last root_parts)) d with
  | None => Throw SQLITE_ERROR
  | Some tree =>
    let matches := find_loop q (merge_sort entry_le (filter (λ e, selected q e = true) tree)) [] in
    let has_more := fq_limit q <? Z.of_nat (length matches) in
    let shown := if has_more then take (Z.to_nat (fq_limit q)) matches else matches in
    Ok (mkFindPage root_path shown (if has_more then fe_path <$> last shown else None))
  end.

Definition FindFunction (workspace path : option bytes) (pattern kind : option (option bytes))
    (min_size max_size modified_after modified_before : sqlite_value) (cursor : option (option bytes)) (limit : sqlite_value) : M FindPage :=
  name ← lift (RequiredText workspace);
  w ← query (FindWorkspace name);
  path ← lift (RequiredText path);
  root_parts ← lift (PathParts path);
  root ← query (Resolve w root_parts);
  q ← lift (find_query pattern kind min_size max_size modified_after modified_before cursor limit);
  query (find_page w root_parts root q).

(** ** Lists with a number before which to go on *)

(** [ORDER BY key DESC]. *)
Definition key_ge {A : Type} (x y : Z * A) : Prop := y.1 <= x.1.
#[export] Instance key_ge_dec {A} : RelDecision (@key_ge A).
Proof. intros x y. unfold key_ge. apply _. Defined.

(** The loop over the rows: the entries, the key of the last one, and if there is more. *)
Fixpoint before_loop {A : Type} (rows : list (Z * A)) (limit count last_key : Z) : list (Z * A) * Z * bool :=
  match rows with
  | [] => ([], last_key, false)
  | (k, a) :: rows =>
    if count =? limit then ([], last_key, true)
    else let '(entries, last_key, has_more) := before_loop rows limit (count + 1) k in ((k, a) :: entries, last_key, has_more)
  end.

Record NumberedPage (A : Type) := mkNumberedPage { np_entries : list (Z * A); np_next : option Z }.
#[global] Arguments mkNumberedPage {A} _ _.
#[global] Arguments np_entries {A} _.
#[global] Arguments np_next {A} _.

Definition numbered_page {A : Type} (rows : list (Z * A)) (before limit : Z) : NumberedPage A :=
  let selected := merge_sort key_ge (filter (λ x, (before =? 0) || (x.1 <? before) = true) rows) in
  let '(entries, last_key, has_more) := before_loop (take (Z.to_nat (limit + 1)) selected) limit 0 0 in
  mkNumberedPage entries (if has_more then Some last_key else None).

(** A version, its commit, and whether it is the current one. *)
Definition version_rows (node : Node) (d : Db) : list (Z * (version_row * commit_row * bool)) :=
  omap (λ '((i, v), row), if i =? n_id node then c ← commits d !! v_commit row; Some (v, (row, c, v =? n_version node)) else None)
    (map_to_list (file_versions d)).

(** Without [limit] and [before] the first hundred are listed, and no number to go on. *)
Definition HistoryFunction (workspace path : option bytes) (paging : option (sqlite_value * sqlite_value))
    : M (NumberedPage (version_row * commit_row * bool)) :=
  name ← lift (RequiredText workspace);
  w ← query (FindWorkspace name);
  path ← lift (RequiredText path);
  parts ← lift (PathParts path);
  node ← query (Resolve w parts);
  throw_if (negb (bool_decide (n_kind node = KFile))) SQLITE_MISMATCH;;
  limit ← lift (match paging with None => Ok 100 | Some (limit, _) => RequiredPositiveInteger limit end);
  before ← lift (match paging with None => Ok 0 | Some (_, before) => RequiredNonnegativeInteger before end);
  throw_if (1000 <? limit) SQLITE_RANGE;;
  query (λ d,
    let page := numbered_page (version_rows node d) before limit in
    Ok (mkNumberedPage (np_entries page) (if paging is None then None else np_next page))).

(** A commit and the names of its snapshots. *)
Definition log_rows (ws : Z) (d : Db) : list (Z * (commit_row * list bytes)) :=
  omap (λ '(id, c), if c_workspace c =? ws
    then Some (id, (c, merge_sort bytes_le (omap (λ '(_, p), if (p_workspace p =? ws) && (p_commit p =? id) then Some (p_name p) else None)
      (map_to_list (snapshots d)))))
    else None) (map_to_list (commits d)).

Definition WorkspaceLogFunction (workspace : option bytes) (limit before : sqlite_value) : M (NumberedPage (commit_row * list bytes)) :=
  name ← lift (RequiredText workspace);
  w ← query (FindWorkspace name);
  limit ← lift (RequiredPositiveInteger limit);
  before ← lift (match before with VNull => Ok 0 | _ => RequiredNonnegativeInteger before end);
  throw_if (1000 <? limit) SQLITE_RANGE;;
  query (λ d, Ok (numbered_page (log_rows (ws_id w) d) before limit)).

(** ** Snapshots, quotas, attributes *)

(** [ORDER BY created_at DESC, id DESC], and its reverse. *)
Definition newest_first (x y : Z * snapshot_row) : Prop := newer y x = false.
Definition oldest_first (x y : Z * snapshot_row) : Prop := newer x y = false.
#[export] Instance newest_first_dec : RelDecision newest_first.
Proof. intros x y. unfold newest_first. apply _. Defined.
#[export] Instance oldest_first_dec : RelDecision oldest_first.
Proof. intros x y. unfold oldest_first. apply _. Defined.

Definition SnapshotListFunction (workspace : option bytes) : M (list (Z * snapshot_row)) :=
  name ← lift (RequiredText workspace);
  w ← query (FindWorkspace name);
  query (λ d, Ok (merge_sort newest_first
    (filter (λ x, p_workspace x.2 = ws_id w) (map_to_list (snapshots d))))).

Definition over_quota (policy : QuotaPolicy) (stats : QuotaStats) : bool :=
  (0 <=? max_bytes policy) && (max_bytes policy <? live_bytes stats) ||
  (0 <=? max_files policy) && (max_files policy <? live_files stats) ||
  (0 <=? max_file_bytes policy) && (max_file_bytes policy <? largest_file_bytes stats).

Definition QuotaGetFunction (workspace : option bytes) : M (QuotaPolicy * QuotaStats * bool) :=
  name ← lift (RequiredText workspace);
  w ← query (FindWorkspace name);
  policy ← query (ReadQuotaPolicy (ws_id w));
  query (λ d, let stats := ReadQuotaStats (ws_id w) d in Ok (policy, stats, over_quota policy stats)).

Definition AclGetFunction (workspace : option bytes) (inode : sqlite_value) : M (list AclEntry) :=
  name ← lift (RequiredText workspace);
  w ← query (FindWorkspace name);
  inode ← lift (RequiredPositiveInteger inode);
  query (RequireWorkspaceInode w inode);;
  query (λ d, Ok (acl_list (current_acl (ws_id w) inode d))).

Definition ListXattrsFunction (workspace : option bytes) (inode : sqlite_value) : M (list bytes) :=
  name ← lift (RequiredText workspace);
  w ← query (FindWorkspace name);
  inode ← lift (RequiredPositiveInteger inode);
  query (RequireWorkspaceInode w inode);;
  query (λ d, Ok (merge_sort bytes_le (omap (λ '((i, n), _), if i =? inode then Some n else None) (map_to_list (xattrs d))))).

(** How many snapshots there are, of each type, how many have expired, and the oldest. *)
Record SnapshotSummary := mkSnapshotSummary {
  sm_total : Z;
  sm_manual : Z;
  sm_agent : Z;
  sm_safety : Z;
  sm_expired_agent : Z;
  sm_expired_safety : Z;
  sm_oldest : option (Z * Z);
}.

Definition snapshot_summary (w : Workspace) (policy : SnapshotPolicy) (d : Db) : SnapshotSummary :=
  let rows := filter (λ x, p_workspace x.2 = ws_id w) (map_to_list (snapshots d)) in
  let of_type t := count_if (λ x, bool_decide (p_type x.2 = t)) rows in
  let expired_of t := count_if (λ x, bool_decide (p_type x.2 = t) && expired (ws_id w) policy x d) rows in
  mkSnapshotSummary (Z.of_nat (length rows)) (of_type Manual) (of_type Agent) (of_type Safety) (expired_of Agent) (expired_of Safety)
    ((λ x, (p_commit x.2, p_created x.2)) <$> head (merge_sort oldest_first rows)).

Definition SnapshotPolicyGetFunction (workspace : option bytes) : M (SnapshotPolicy * SnapshotSummary) :=
  name ← lift (RequiredText workspace);
  w ← query (FindWorkspace name);
  policy ← query (ReadSnapshotPolicy w);
  query (λ d, Ok (policy, snapshot_summary w policy d)).

(** ** The content index *)

Record GrepIndexReport := mkGrepIndexReport { gr_enabled : bool; gr_available : bool; gr_dirty : bool; gr_indexed_files : Z }.

Definition GrepIndexStatus (d : Db) : GrepIndexReport :=
  let available := if grep_index d is kAvailable then true else false in
  mkGrepIndexReport (if grep_index d is kDisabled then false else true) available (GrepIndexDirty d)
    (if available then Z.of_nat (size (content_fts d)) else 0).

Definition GrepIndexFunction (fts5 : bool) (action : option bytes) : M GrepIndexReport :=
  action ← lift (RequiredText action);
  (if bool_decide (action = str "enable") then EnableGrepIndex fts5
   else if bool_decide (action = str "rebuild") then
     with_db (λ d, if grep_index d is kAvailable then RebuildGrepIndex else throw SQLITE_MISMATCH)
   else if bool_decide (action = str "disable") then DisableGrepIndex fts5
   else throw_if (negb (bool_decide (action = str "status"))) SQLITE_MISMATCH);;
  query (λ d, Ok (GrepIndexStatus d)).
