(* ===== verification/VexfsCheck.v ===== *)
(** * The check of a workspace

    [CheckFunction] of [src/vexdb_sqlite/src/agent_files/vexfs_sqlite.cpp]: what it looks
    at and what it reports. An issue is its code and the object it is about; the type, the
    message and the suggestion follow from the code. The lines of SQLite's own
    [quick_check] are an argument. The issues of one loop over an unordered map come in
    the order of the model's map. *)
From Stdlib Require Import ZArith Lia String.
From stdpp Require Import prelude gmap sorting.
From S2P Require Import Prelude Sha256 VexfsText VexfsDb VexfsTree VexfsStore VexfsGrepIndex VexfsStaging VexfsHandles VexfsNames VexfsMetadata VexfsHistory VexfsSnapshots VexfsPointInTime VexfsRetention.

Local Open Scope Z_scope.

(** ** Issues *)

Inductive CheckCode :=
| VEXFS_SQLITE_CORRUPTION | VEXFS_SQLITE_CHECK_FAILED
| VEXFS_HEAD_COMMIT_MISSING | VEXFS_COMMIT_PARENT_MISSING | VEXFS_COMMIT_CHAIN_INVALID | VEXFS_COMMIT_CYCLE | VEXFS_COMMIT_UNREACHABLE
| VEXFS_QUOTA_USAGE_MISMATCH | VEXFS_ROOT_INVALID
| VEXFS_DENTRY_NAME_INVALID | VEXFS_DENTRY_PARENT_INVALID | VEXFS_DENTRY_CHILD_INVALID | VEXFS_ROOT_HAS_PARENT
| VEXFS_DIRECTORY_HARDLINK | VEXFS_INODE_UNREACHABLE
| VEXFS_VERSION_INODE_MISSING | VEXFS_VERSION_SIZE_INVALID | VEXFS_CHECKSUM_INVALID | VEXFS_VERSION_COMMIT_MISSING
| VEXFS_MANIFEST_MISMATCH | VEXFS_CHECKSUM_MISMATCH | VEXFS_CHUNK_INVALID | VEXFS_ALIAS_HAS_MANIFEST
| VEXFS_VERSION_SOURCE_INVALID | VEXFS_VERSION_SOURCE_MISMATCH
| VEXFS_MANIFEST_UNREFERENCED | VEXFS_MANIFEST_WORKSPACE_MISMATCH | VEXFS_CHUNK_UNREFERENCED | VEXFS_MANIFEST_CHUNK_REFERENCE_INVALID
| VEXFS_CURRENT_VERSION_MISSING | VEXFS_CURRENT_SIZE_MISMATCH | VEXFS_SNAPSHOT_COMMIT_MISSING
| VEXFS_HISTORY_COMMIT_MISSING | VEXFS_HISTORY_INODE_MISSING | VEXFS_HISTORY_VERSION_MISSING | VEXFS_HISTORY_SIZE_MISMATCH | VEXFS_HISTORY_DENTRY_INVALID
| VEXFS_HANDLE_INODE_MISSING | VEXFS_HANDLE_GENERATION_INVALID | VEXFS_STAGING_MISSING | VEXFS_STAGING_INVALID | VEXFS_CLOSED_HANDLE_STAGING
| VEXFS_ORPHAN_STAGING | VEXFS_ORPHAN_STAGING_DATA.
#[export] Instance check_code_eq_dec : EqDecision CheckCode.
Proof. solve_decision. Defined.

Inductive CheckObject :=
| ODatabase | OWorkspace (name : bytes) | OCommit (id : Z) | OInode (id : Z) | ODentry (parent : Z) (name : bytes)
| OVersionRow (id : Z) | OVersion (inode version : Z) | OManifest (id : Z) | OChunk (id : Z) | OManifestChunk (manifest chunk_no : Z)
| OSnapshot (name : bytes) | OInodeState (inode commit : Z) | ODentryState (parent : Z) (name : bytes) (commit : Z)
| OXattrState (commit : Z) | OAclState (commit : Z) | OHandle (id : bytes).

Record CheckIssue := mkIssue { ci_code : CheckCode; ci_object : CheckObject }.

Definition issue_if (b : bool) (code : CheckCode) (object : CheckObject) : list CheckIssue := if b then [mkIssue code object] else [].

(** ** Commits *)

(** The commits of the workspace with their parents. *)
Definition commits_of (ws : Z) (d : Db) : gmap Z Z :=
  omap (λ c, if c_workspace c =? ws then Some (int64 (c_parent c)) else None) (commits d).

Definition has_row {A : Type} (i : Z) (t : gmap Z A) : bool := bool_decide (is_Some (t !! i)).

(** The walk along the parents: where it stops and what it has seen. *)
Fixpoint commit_chain (fuel : nat) (parent_of : gmap Z Z) (c : Z) (seen : gset Z) : Z * gset Z :=
  match fuel with
  | O => (c, seen)
  | S fuel =>
    if c =? 0 then (c, seen)
    else
      match parent_of !! c with
      | None => (c, seen)
      | Some parent => if bool_decide (c ∈ seen) then (c, seen) else commit_chain fuel parent_of parent ({[ c ]} ∪ seen)
      end
  end.

Definition check_commits (name : bytes) (w : Workspace) (parent_of : gmap Z Z) : list CheckIssue :=
  let '(last, chain) := commit_chain (S (size parent_of)) parent_of (ws_head w) ∅ in
  issue_if (negb (ws_head w =? 0) && negb (has_row (ws_head w) parent_of)) VEXFS_HEAD_COMMIT_MISSING (OWorkspace name) ++
  ('(id, parent) ← map_to_list parent_of;
   if negb (parent =? 0) && negb (has_row parent parent_of) then [mkIssue VEXFS_COMMIT_PARENT_MISSING (OCommit id)]
   else issue_if ((id <=? parent) && negb (parent =? 0)) VEXFS_COMMIT_CHAIN_INVALID (OCommit id)) ++
  issue_if (negb (last =? 0) && bool_decide (last ∈ chain)) VEXFS_COMMIT_CYCLE (OCommit last) ++
  ('(id, _) ← map_to_list parent_of; issue_if (bool_decide (id ∉ chain)) VEXFS_COMMIT_UNREACHABLE (OCommit id)).

(** ** Inodes and entries *)

Definition inodes_of (ws : Z) (d : Db) : gmap Z inode_row := filter (λ x, i_workspace x.2 = ws) (inodes d).

Definition check_usage (name : bytes) (w : Workspace) (nodes : gmap Z inode_row) (d : Db) : list CheckIssue :=
  let counted := filter (λ x, live x.2 = true ∧ i_kind x.2 ≠ KDirectory) (map_to_list nodes) in
  issue_if (match workspaces d !! ws_id w with
    | None => true
    | Some row => negb (w_live_files row =? Z.of_nat (length counted)) || negb (w_live_bytes row =? foldr Z.add 0 ((λ x, i_size x.2) <$> counted))
    end) VEXFS_QUOTA_USAGE_MISMATCH (OWorkspace name).

Definition valid_directory (i : Z) (nodes : gmap Z inode_row) : bool :=
  match nodes !! i with Some r => live r && bool_decide (i_kind r = KDirectory) | None => false end.
Definition valid_node (i : Z) (nodes : gmap Z inode_row) : bool :=
  match nodes !! i with Some r => live r | None => false end.

Definition check_root (w : Workspace) (nodes : gmap Z inode_row) : list CheckIssue :=
  issue_if (negb (valid_directory (ws_root w) nodes)) VEXFS_ROOT_INVALID (OInode (ws_root w)).

Definition entries_of_workspace (ws : Z) (d : Db) : list (Z * bytes * Z) :=
  omap (λ '((v, p, n), i), if v =? ws then Some (p, n, i) else None) (map_to_list (dentries d)).

Definition bad_name (name : bytes) : bool :=
  bool_decide (name = []) || bool_decide (name = str ".") || bool_decide (name = str "..") || (255 <? length name)%nat ||
  bool_decide (slash ∈ name) || bool_decide (0 ∈ name).

Definition check_entry (w : Workspace) (nodes : gmap Z inode_row) (entry : Z * bytes * Z) : list CheckIssue :=
  let '(parent, name, child) := entry in
  let object := ODentry parent name in
  issue_if (bad_name name) VEXFS_DENTRY_NAME_INVALID object ++
  issue_if (negb (valid_directory parent nodes)) VEXFS_DENTRY_PARENT_INVALID object ++
  issue_if (negb (valid_node child nodes)) VEXFS_DENTRY_CHILD_INVALID object ++
  issue_if (child =? ws_root w) VEXFS_ROOT_HAS_PARENT object.

(** The valid entries that lead to a directory, counted for each directory. *)
Definition directory_links (nodes : gmap Z inode_row) (rows : list (Z * bytes * Z)) (i : Z) : nat :=
  length (filter (λ x, x.2 = i ∧ valid_directory i nodes = true) rows).
Definition check_links (nodes : gmap Z inode_row) (rows : list (Z * bytes * Z)) : list CheckIssue :=
  i ← elements (list_to_set rows.*2 : gset Z); issue_if (1 <? directory_links nodes rows i)%nat VEXFS_DIRECTORY_HARDLINK (OInode i).

Definition check_children (nodes : gmap Z inode_row) (rows : list (Z * bytes * Z)) (parent : Z) : list Z :=
  omap (λ '(p, _, i), if (p =? parent) && valid_directory p nodes && valid_node i nodes then Some i else None) rows.

(** The search from the root; [None] when the fuel runs out. *)
Fixpoint push_new (children : list Z) (seen : gset Z) (pending : list Z) : gset Z * list Z :=
  match children with
  | [] => (seen, pending)
  | c :: children => if bool_decide (c ∈ seen) then push_new children seen pending else push_new children ({[ c ]} ∪ seen) (c :: pending)
  end.
Fixpoint reach_loop (fuel : nat) (nodes : gmap Z inode_row) (rows : list (Z * bytes * Z)) (seen : gset Z) (pending : list Z) : option (gset Z) :=
  match pending, fuel with
  | [], _ => Some seen
  | _, O => None
  | parent :: pending, S fuel =>
    let '(seen, pending) := push_new (check_children nodes rows parent) seen pending in
    reach_loop fuel nodes rows seen pending
  end.
Definition reachable_nodes (w : Workspace) (nodes : gmap Z inode_row) (rows : list (Z * bytes * Z)) : option (gset Z) :=
  if valid_node (ws_root w) nodes then reach_loop (S (size nodes)) nodes rows {[ ws_root w ]} [ws_root w] else Some ∅.

Definition check_reachable (nodes : gmap Z inode_row) (reachable : gset Z) : list CheckIssue :=
  '(i, r) ← map_to_list nodes; issue_if (live r && bool_decide (i ∉ reachable)) VEXFS_INODE_UNREACHABLE (OInode i).

(** ** Versions, manifests and chunks *)

Definition versions_in (ws : Z) (d : Db) : gmap (Z * Z) version_row :=
  filter (λ x, match inodes d !! x.1.1 with Some r => i_workspace r =? ws | None => false end = true) (file_versions d).

Record ChunkStats := mkChunkStats { cs_count : Z; cs_bytes : Z; cs_minimum : Z; cs_maximum : Z }.

(** The aggregate over the chunks of a manifest; -1 in every column without one. *)
Definition chunk_stats (manifest : Z) (d : Db) : ChunkStats :=
  let rows := manifest_rows manifest (λ _, true) d in
  match rows with
  | [] => mkChunkStats (-1) (-1) (-1) (-1)
  | (n, _) :: _ =>
    mkChunkStats (Z.of_nat (length rows)) (foldr Z.add 0 ((λ x, k_size x.2) <$> rows))
      (foldr Z.min n rows.*1) (foldr Z.max n rows.*1)
  end.

Definition manifest_mismatch (v : version_row) (d : Db) : bool :=
  let m := int64 (v_manifest v) in
  let row := i ← v_manifest v; manifests d !! i in
  let stats := match row with Some _ => chunk_stats m d | None => mkChunkStats (-1) (-1) (-1) (-1) end in
  let expected_chunks := if v_size v <? 0 then -1 else chunk_count_of (v_size v) in
  (m <=? 0) || negb (default (-1) (m_file_size <$> row) =? v_size v) ||
  negb (default (-1) (m_chunk_size <$> row) =? kContentChunkBytes) || negb (default (-1) (m_chunk_count <$> row) =? expected_chunks) ||
  (expected_chunks =? 0) && negb (cs_count stats =? -1) ||
  (0 <? expected_chunks) && (negb (cs_count stats =? expected_chunks) || negb (cs_bytes stats =? v_size v) ||
    negb (cs_minimum stats =? 0) || negb (cs_maximum stats =? expected_chunks - 1)) ||
  negb (bool_decide (default [] (m_checksum <$> row) = v_checksum v)).

(** A [SqlError] of the hash is reported; its only code is [SQLITE_CORRUPT]. *)
Definition check_content (object : CheckObject) (v : version_row) (d : Db) : sql (list CheckIssue) :=
  match HashManifest (int64 (v_manifest v)) (v_size v) (default (-1) (m_chunk_count <$> (m ← v_manifest v; manifests d !! m))) d with
  | Ok actual => Ok (issue_if (negb (bool_decide (actual = v_checksum v))) VEXFS_CHECKSUM_MISMATCH object)
  | Throw SQLITE_CORRUPT => Ok [mkIssue VEXFS_CHUNK_INVALID object]
  | Throw e => Throw e
  end.

Definition check_version (deep : bool) (parent_of : gmap Z Z) (versions : gmap (Z * Z) version_row) (x : Z * Z * version_row) (d : Db)
    : sql (list CheckIssue) :=
  let '((inode, number), v) := x in
  let object := OVersion inode number in
  let columns :=
    issue_if ((v_size v <? 0) || (kMaxStagedBytes <? v_size v)) VEXFS_VERSION_SIZE_INVALID object ++
    issue_if (negb (IsSha256 (v_checksum v))) VEXFS_CHECKSUM_INVALID object ++
    issue_if (negb (has_row (v_commit v) parent_of)) VEXFS_VERSION_COMMIT_MISSING object in
  let source := int64 (v_source v) in
  if source =? 0 then
    if manifest_mismatch v d then Ok (columns ++ [mkIssue VEXFS_MANIFEST_MISMATCH object])
    else if deep && IsSha256 (v_checksum v) then
      match check_content object v d with
      | Throw e => Throw e
      | Ok issues => Ok (columns ++ issues)
      end
    else Ok columns
  else
    Ok (columns ++ issue_if (negb (int64 (v_manifest v) =? 0)) VEXFS_ALIAS_HAS_MANIFEST object ++
      match versions !! (inode, source) with
      | None => [mkIssue VEXFS_VERSION_SOURCE_INVALID object]
      | Some s =>
        if negb (int64 (v_source s) =? 0) then [mkIssue VEXFS_VERSION_SOURCE_INVALID object]
        else issue_if (negb (v_size s =? v_size v) || negb (bool_decide (v_checksum s = v_checksum v))) VEXFS_VERSION_SOURCE_MISMATCH object
      end).

Fixpoint check_versions (deep : bool) (parent_of : gmap Z Z) (versions : gmap (Z * Z) version_row) (rows : list (Z * Z * version_row)) (d : Db)
    : sql (list CheckIssue) :=
  match rows with
  | [] => Ok []
  | x :: rows =>
    match check_version deep parent_of versions x d with
    | Throw e => Throw e
    | Ok issues =>
      match check_versions deep parent_of versions rows d with
      | Throw e => Throw e
      | Ok rest => Ok (issues ++ rest)
      end
    end
  end.

Definition check_orphan_versions (d : Db) : list CheckIssue :=
  '((i, _), v) ← map_to_list (file_versions d); issue_if (negb (has_row i (inodes d))) VEXFS_VERSION_INODE_MISSING (OVersionRow (v_id v)).

Definition check_storage (ws : Z) (d : Db) : list CheckIssue :=
  ('(m, row) ← map_to_list (manifests d);
   issue_if ((m_workspace row =? ws) && negb (existsb (λ '(_, v), bool_decide (v_manifest v = Some m) && bool_decide (v_source v = None))
     (map_to_list (file_versions d)))) VEXFS_MANIFEST_UNREFERENCED (OManifest m)) ++
  ('(_, v) ← map_to_list (versions_in ws d);
   match m ← v_manifest v; manifests d !! m with
   | Some row => issue_if (negb (m_workspace row =? ws)) VEXFS_MANIFEST_WORKSPACE_MISMATCH (OVersionRow (v_id v))
   | None => []
   end) ++
  ('(k, _) ← map_to_list (chunks d);
   issue_if (negb (existsb (λ '(_, id), id =? k) (map_to_list (manifest_chunks d)))) VEXFS_CHUNK_UNREFERENCED (OChunk k)) ++
  ('((m, n), k) ← map_to_list (manifest_chunks d);
   issue_if (negb (has_row m (manifests d)) || negb (has_row k (chunks d))) VEXFS_MANIFEST_CHUNK_REFERENCE_INVALID (OManifestChunk m n)).

Definition is_active (h : handle_row) : bool := bool_decide (h_state h = Open) || bool_decide (h_state h = Retained).

(** Files and symlinks against their current versions. *)
Definition check_current (ws : Z) (versions : gmap (Z * Z) version_row) (x : Z * inode_row) (d : Db) : list CheckIssue :=
  let '(i, r) := x in
  if negb (live r) || bool_decide (i_kind r = KDirectory) then []
  else
    let pending_first_publish := (i_version r =? 0) && (i_size r =? 0) &&
      existsb (λ '(_, h), (h_workspace h =? ws) && (h_inode h =? i) && is_active h) (map_to_list (handles d)) in
    if pending_first_publish then []
    else
      match versions !! (i, i_version r) with
      | None => [mkIssue VEXFS_CURRENT_VERSION_MISSING (OInode i)]
      | Some v =>
        if i_version r <=? 0 then [mkIssue VEXFS_CURRENT_VERSION_MISSING (OInode i)]
        else issue_if (negb (v_size v =? i_size r)) VEXFS_CURRENT_SIZE_MISMATCH (OInode i)
      end.

(** ** The past *)

Definition check_snapshots (ws : Z) (parent_of : gmap Z Z) (d : Db) : list CheckIssue :=
  '(_, p) ← map_to_list (snapshots d);
  issue_if ((p_workspace p =? ws) && negb (has_row (p_commit p) parent_of)) VEXFS_SNAPSHOT_COMMIT_MISSING (OSnapshot (p_name p)).

Definition check_inode_states (ws : Z) (parent_of : gmap Z Z) (nodes : gmap Z inode_row) (versions : gmap (Z * Z) version_row) (d : Db)
    : list CheckIssue :=
  '((v, i, c), r) ← map_to_list (inode_states d);
  if negb (v =? ws) then []
  else
    issue_if (negb (has_row c parent_of)) VEXFS_HISTORY_COMMIT_MISSING (OInodeState i c) ++
    issue_if (negb (has_row i nodes)) VEXFS_HISTORY_INODE_MISSING (OInodeState i c) ++
    if live r && negb (bool_decide (i_kind r = KDirectory)) then
      match versions !! (i, i_version r) with
      | None => [mkIssue VEXFS_HISTORY_VERSION_MISSING (OInodeState i c)]
      | Some row => issue_if (negb (v_size row =? i_size r)) VEXFS_HISTORY_SIZE_MISMATCH (OInodeState i c)
      end
    else [].

Definition check_dentry_states (ws : Z) (parent_of : gmap Z Z) (nodes : gmap Z inode_row) (d : Db) : list CheckIssue :=
  '((v, p, n, c), (i, _)) ← map_to_list (dentry_states d);
  if negb (v =? ws) then []
  else
    issue_if (negb (has_row c parent_of)) VEXFS_HISTORY_COMMIT_MISSING (ODentryState p n c) ++
    issue_if (negb (has_row p nodes) || negb (has_row i nodes)) VEXFS_HISTORY_DENTRY_INVALID (ODentryState p n c).

Definition check_metadata_states (ws : Z) (parent_of : gmap Z Z) (nodes : gmap Z inode_row) (d : Db) : list CheckIssue :=
  ('((v, i, _, c), _) ← map_to_list (xattr_states d);
   if negb (v =? ws) then []
   else issue_if (negb (has_row c parent_of)) VEXFS_HISTORY_COMMIT_MISSING (OXattrState c) ++
     issue_if (negb (has_row i nodes)) VEXFS_HISTORY_INODE_MISSING (OXattrState c)) ++
  ('((v, i, _, _, c), _) ← map_to_list (acl_states d);
   if negb (v =? ws) then []
   else issue_if (negb (has_row c parent_of)) VEXFS_HISTORY_COMMIT_MISSING (OAclState c) ++
     issue_if (negb (has_row i nodes)) VEXFS_HISTORY_INODE_MISSING (OAclState c)).

(** ** Handles *)

(** The staging chunks of a handle with their numbers. *)
Definition dirty_chunks (id : bytes) (d : Db) : list (Z * bytes) :=
  omap (λ '((h, n), content), if bool_decide (h = id) then Some (n, content) else None) (map_to_list (staging_chunks d)).

Definition staging_invalid (h : handle_row) (s : staging_row) (dirty : list (Z * bytes)) : bool :=
  negb (s_generation s =? h_dirty_generation h) || (s_base_size s <? 0) || (s_base_visible s <? 0) ||
  (s_base_size s <? s_base_visible s) || (s_logical s <? s_base_visible s) || (s_logical s <? 0) || (kMaxStagedBytes <? s_logical s) ||
  (s_capacity s <? 0) || (kMaxStagedBytes <? s_capacity s) ||
  (0 <? s_base_size s) && (bool_decide (s_base_manifest s = None) || (int64 (s_base_manifest s) <=? 0)) ||
  negb (foldr Z.add 0 ((λ x, zlength x.2) <$> dirty) =? s_capacity s) ||
  match dirty with [] => false | (n, _) :: _ => chunk_count_of (s_logical s) <=? foldr Z.max n dirty.*1 end.

Definition check_handle (ws : Z) (nodes : gmap Z inode_row) (x : bytes * handle_row) (d : Db) : list CheckIssue :=
  let '(id, h) := x in
  if negb (h_workspace h =? ws) then []
  else
    let dirty := dirty_chunks id d in
    issue_if (negb (has_row (h_inode h) nodes)) VEXFS_HANDLE_INODE_MISSING (OHandle id) ++
    issue_if (h_dirty_generation h <? h_published_generation h) VEXFS_HANDLE_GENERATION_INVALID (OHandle id) ++
    match staging d !! id with
    | None =>
      if is_active h then [mkIssue VEXFS_STAGING_MISSING (OHandle id)]
      else issue_if (negb (bool_decide (dirty = []))) VEXFS_CLOSED_HANDLE_STAGING (OHandle id)
    | Some s =>
      if is_active h then
        if (0 <? s_capacity s) && bool_decide (dirty = []) then [mkIssue VEXFS_STAGING_MISSING (OHandle id)]
        else issue_if (staging_invalid h s dirty) VEXFS_STAGING_INVALID (OHandle id)
      else [mkIssue VEXFS_CLOSED_HANDLE_STAGING (OHandle id)]
    end.

Definition check_orphan_staging (d : Db) : list CheckIssue :=
  ('(id, _) ← map_to_list (staging d); issue_if (bool_decide (handles d !! id = None)) VEXFS_ORPHAN_STAGING (OHandle id)) ++
  ('((id, _), _) ← map_to_list (staging_chunks d); issue_if (bool_decide (staging d !! id = None)) VEXFS_ORPHAN_STAGING_DATA (OHandle id)).

(** ** The report *)

Definition kMaxReportedIssues : nat := 1000.

(** The issues that were found, of which the first thousand are printed, and the counters. *)
Record CheckReport := mkCheckReport {
  cr_issues : list CheckIssue;
  cr_inodes : Z;
  cr_dentries : Z;
  cr_versions : Z;
  cr_manifests : Z;
  cr_chunks : Z;
  cr_content_bytes : Z;
  cr_commits : Z;
  cr_snapshots : Z;
  cr_handles : Z;
  cr_staging_objects : Z;
  cr_history_rows : Z;
}.

Definition total_issues (r : CheckReport) : Z := Z.of_nat (length (cr_issues r)).
Definition reported_issues (r : CheckReport) : list CheckIssue := take kMaxReportedIssues (cr_issues r).

Definition history_rows (ws : Z) (d : Db) : Z :=
  count_if (λ '((v, _, _), _), v =? ws) (map_to_list (inode_states d)) + count_if (λ '((v, _, _, _), _), v =? ws) (map_to_list (dentry_states d)) +
  count_if (λ '((v, _, _, _), _), v =? ws) (map_to_list (xattr_states d)) + count_if (λ '((v, _, _, _, _), _), v =? ws) (map_to_list (acl_states d)).

(** [quick_check]: its lines, and whether the statement failed after them. *)
Definition check_sqlite (quick_check : list bytes * bool) : list CheckIssue :=
  (line ← quick_check.1; issue_if (negb (bool_decide (line = str "ok"))) VEXFS_SQLITE_CORRUPTION ODatabase) ++
  issue_if quick_check.2 VEXFS_SQLITE_CHECK_FAILED ODatabase.

Definition deep_arg (value : sqlite_value) : sql bool :=
  match value with
  | VInteger z => if (value_int z =? 0) || (value_int z =? 1) then Ok (negb (value_int z =? 0)) else Throw SQLITE_RANGE
  | _ => Throw SQLITE_MISMATCH
  end.

Definition check_workspace (quick_check : list bytes * bool) (name : bytes) (deep : bool) (w : Workspace) (d : Db) : sql CheckReport :=
  let ws := ws_id w in
  let parent_of := commits_of ws d in
  let nodes := inodes_of ws d in
  let rows := entries_of_workspace ws d in
  let versions := versions_in ws d in
  let active := filter (λ x, h_workspace x.2 = ws ∧ is_active x.2 = true) (map_to_list (handles d)) in
  match reachable_nodes w nodes rows, check_versions deep parent_of versions (map_to_list versions) d with
  | None, _ => Throw SQLITE_ERROR
  | _, Throw e => Throw e
  | Some reachable, Ok version_issues =>
    Ok (mkCheckReport
      (check_sqlite quick_check ++ check_commits name w parent_of ++ check_usage name w nodes d ++ check_root w nodes ++
       (entry ← rows; check_entry w nodes entry) ++ check_links nodes rows ++ check_reachable nodes reachable ++
       check_orphan_versions d ++ version_issues ++ check_storage ws d ++ (x ← map_to_list nodes; check_current ws versions x d) ++
       check_snapshots ws parent_of d ++ check_inode_states ws parent_of nodes versions d ++ check_dentry_states ws parent_of nodes d ++
       check_metadata_states ws parent_of nodes d ++ (x ← map_to_list (handles d); check_handle ws nodes x d) ++ check_orphan_staging d)
      (Z.of_nat (size nodes)) (Z.of_nat (length rows)) (Z.of_nat (size versions))
      (count_if (λ '(_, m), m_workspace m =? ws) (map_to_list (manifests d))) (count_if (λ '(_, k), k_workspace k =? ws) (map_to_list (chunks d)))
      (foldr Z.add 0 ((λ '(_, v), if int64 (v_source v) =? 0 then Z.max (v_size v) 0 else 0) <$> map_to_list versions))
      (Z.of_nat (size parent_of)) (count_if (λ '(_, p), p_workspace p =? ws) (map_to_list (snapshots d)))
      (count_if (λ '(_, h), h_workspace h =? ws) (map_to_list (handles d))) (Z.of_nat (length active)) (history_rows ws d))
  end.

Definition CheckFunction (quick_check : list bytes * bool) (workspace : option bytes) (deep : sqlite_value) : M CheckReport :=
  name ← lift (RequiredText workspace);
  deep ← lift (deep_arg deep);
  w ← query (FindWorkspace name);
  query (check_workspace quick_check name deep w).
