(* ===== verification/VexfsFrame.v ===== *)
(** * What a function leaves alone

    A function frames a relation when the database it leaves behind, whether it
    returns or throws, is related to the one it was called on. Relations that only
    speak of the tree and its history ([Frame]) are framed by everything that works on
    contents, staging areas, requests, counters and the content index; what that is,
    is proved here once for all of them. *)
From Stdlib Require Import ZArith Lia String.
From stdpp Require Import prelude gmap.
From S2P Require Import Prelude Sha256 VexfsText VexfsDb VexfsTree VexfsStore VexfsGrepIndex VexfsStaging VexfsHandles VexfsNames.

Local Open Scope Z_scope.
Implicit Types d : Db.

Create HintDb frame.

(** ** Steps beside the tree *)

(** A workspace row apart from its counters. *)
Definition fixed (row : workspace_row) :=
  (w_name row, w_active row, w_root_inode row, w_head_commit row, w_history_floor row,
   (w_max_bytes row, w_max_files row, w_max_file_bytes row, w_retention row)).

Record aside (d d' : Db) : Prop := {
  as_inodes : inodes d' = inodes d;
  as_dentries : dentries d' = dentries d;
  as_xattrs : xattrs d' = xattrs d;
  as_acl : acl_entries d' = acl_entries d;
  as_history : history_of d' = history_of d;
  as_workspaces : ∀ ws, fixed <$> workspaces d' !! ws = fixed <$> workspaces d !! ws;
  as_versions : file_versions d ⊆ file_versions d';
}.

#[export] Instance aside_preorder : PreOrder aside.
Proof.
  split; [by intros d; split|]. intros d1 d2 d3 [I1 D1 X1 A1 H1 W1 V1] [I2 D2 X2 A2 H2 W2 V2].
  split; [congruence..| |by etrans]. intros ws. by rewrite W2.
Qed.

Class Frame (R : relation Db) : Prop := {
  frame_preorder :: PreOrder R;
  frame_aside : ∀ d d', aside d d' → R d d';
}.

#[export] Instance aside_frame : Frame aside.
Proof. by split; [apply _|]. Qed.

Lemma aside_row d d' ws row : aside d d' → workspaces d !! ws = Some row →
  ∃ row', workspaces d' !! ws = Some row' ∧ fixed row' = fixed row.
Proof.
  intros [_ _ _ _ _ W _] Hrow. specialize (W ws). rewrite Hrow in W. destruct (workspaces d' !! ws) as [row'|]; [|done].
  exists row'. split; [done|]. by apply (inj Some) in W.
Qed.

Definition frames {A} (R : relation Db) (m : M A) : Prop := ∀ d, R d (m d).2.

Section Frames.

Context {R : relation Db} `{!Frame R}.

Lemma frames_ret {A} (x : A) : frames R (mret x).
Proof. intros d. reflexivity. Qed.
Lemma frames_throw {A} e : frames R (throw e : M A).
Proof. intros d. reflexivity. Qed.
Lemma frames_throw_if b e : frames R (throw_if b e).
Proof. intros d. destruct b; reflexivity. Qed.
Lemma frames_query {A} (f : Db → sql A) : frames R (query f).
Proof. intros d. reflexivity. Qed.
Lemma frames_lift {A} (r : sql A) : frames R (lift r).
Proof. intros d. reflexivity. Qed.
Lemma frames_lock : frames R AcquireWriteLock.
Proof. intros d. reflexivity. Qed.
Lemma frames_bind {A B} (m : M A) (k : A → M B) : frames R m → (∀ a, frames R (k a)) → frames R (m ≫= k).
Proof.
  intros Hm Hk d. unfold mbind, M_bind. specialize (Hm d). destruct (m d) as [[a|e] d1]; [|done].
  simpl in *. etrans; [done|apply Hk].
Qed.
(** At one database. *)
Lemma frames_bind_at {A B} (m : M A) (k : A → M B) d :
  R d (m d).2 → (∀ a d', m d = (Ok a, d') → R d' (k a d').2) → R d ((m ≫= k) d).2.
Proof. intros Hm Hk. unfold mbind, M_bind. destruct (m d) as [[a|] d'] eqn:E; [|done]. etrans; [exact Hm|by apply Hk]. Qed.
Lemma frames_query_at {A B} (f : Db → sql A) (k : A → M B) d : (∀ a, f d = Ok a → R d (k a d).2) → R d ((query f ≫= k) d).2.
Proof. intros Hk. apply frames_bind_at; [apply frames_query|]. intros a ? [E ->]%query_ok. by apply Hk. Qed.
Lemma frames_throw_if_at {A} b e (k : () → M A) d : R d (k () d).2 → R d ((throw_if b e ≫= k) d).2.
Proof. intros Hk. apply frames_bind_at; [apply frames_throw_if|]. by intros [] ? [_ ->]%throw_if_ok. Qed.
Lemma frames_savepoint_at {A} (m : M A) d : R d (m d).2 → R d (Savepoint m d).2.
Proof. intros Hm. unfold Savepoint. by destruct (m d) as [[] ?]. Qed.
Lemma frames_with_db {A} (k : Db → M A) : (∀ d, frames R (k d)) → frames R (with_db k).
Proof. intros Hk d. apply Hk. Qed.
Lemma frames_with_db_at {A} (k : Db → M A) : (∀ d, R d (k d d).2) → frames R (with_db k).
Proof. done. Qed.
Lemma frames_savepoint {A} (m : M A) : frames R m → frames R (Savepoint m).
Proof. intros Hm d. unfold Savepoint. specialize (Hm d). by destruct (m d) as [[] ?]. Qed.
Lemma frames_modify f : (∀ d, R d (f d)) → frames R (modify f).
Proof. intros Hf d. apply Hf. Qed.

End Frames.
#[export] Hint Extern 0 (Frame _) => typeclasses eauto : frame.
#[export] Hint Resolve frames_ret frames_throw frames_throw_if frames_query frames_lift frames_lock : frame.

(** [frames]: runs down a function; [solve_modify] is for the changes of tables. What
    it does not know is left over. *)
Ltac frames_step solve_modify :=
  match goal with
  | |- frames _ (_ ≫= _) => apply frames_bind; [|intros ?]
  | |- frames _ (Savepoint _) => apply frames_savepoint
  | |- frames _ (modify _) => apply frames_modify; intros ?; solve_modify
  | |- frames _ (let '_ := ?x in _) => destruct x
  | |- frames _ (match ?x with _ => _ end) => destruct x
  | |- frames _ _ => solve [eauto with frame]
  | |- frames _ (with_db _) => apply frames_with_db; intros ?
  end.
Ltac frames := repeat (cbv zeta; frames_step ltac:(apply frame_aside; by split)).

Section Aside.

Context {R : relation Db} `{!Frame R}.

Lemma frames_count_live ws files size : frames R (count_live ws files size).
Proof.
  intros d. unfold count_live, with_db. destruct (workspaces d !! ws) as [w|] eqn:E; [|done].
  destruct (_ || _); [done|]. apply frame_aside. split; [done..| |done]. intros ws'. simpl. destruct (decide (ws = ws')) as [<-|].
  - rewrite lookup_insert_eq, E. done.
  - by rewrite lookup_insert_ne.
Qed.

(** ** Contents *)

Lemma frames_mark_grep : frames R MarkGrepIndexDirty.
Proof. unfold MarkGrepIndexDirty. frames. Qed.
#[local] Hint Resolve frames_mark_grep : frame.
Lemma frames_remove_deleted ws : frames R (RemoveDeletedFilesFromGrepIndex ws).
Proof. unfold RemoveDeletedFilesFromGrepIndex. frames. Qed.
Lemma frames_update_grep ws inode version : frames R (UpdateGrepIndexFromVersion ws inode version).
Proof. unfold UpdateGrepIndexFromVersion. frames. Qed.
Lemma frames_index_files files : frames R (index_files files).
Proof. induction files as [|[id r] files IH]; cbn [index_files]; frames. Qed.
#[local] Hint Resolve frames_index_files : frame.
Lemma frames_rebuild : frames R RebuildGrepIndex.
Proof. unfold RebuildGrepIndex. frames. Qed.
#[local] Hint Resolve frames_rebuild : frame.
Lemma frames_refresh : frames R RefreshGrepIndexAfterTreeChange.
Proof. unfold RefreshGrepIndexAfterTreeChange. frames. Qed.
Lemma frames_enable_index fts5 : frames R (EnableGrepIndex fts5).
Proof. unfold EnableGrepIndex, SetGrepIndexState. frames. Qed.
Lemma frames_disable_index fts5 : frames R (DisableGrepIndex fts5).
Proof. unfold DisableGrepIndex, SetGrepIndexState. frames. Qed.

Lemma frames_store_chunk ws inode previous manifest chunk_no data checksum chunk_id new_chunks :
  frames R (store_chunk ws inode previous manifest chunk_no data checksum chunk_id new_chunks).
Proof. unfold store_chunk, insert_chunk, insert_entry. frames. Qed.
#[local] Hint Resolve frames_store_chunk : frame.
Lemma frames_store_chunks ws inode previous manifest chunk_no datas new_chunks entries :
  frames R (store_chunks ws inode previous manifest chunk_no datas new_chunks entries).
Proof. revert chunk_no new_chunks entries. induction datas; intros; cbn [store_chunks]; frames. Qed.
#[local] Hint Resolve frames_store_chunks : frame.
Lemma frames_store_manifest ws inode previous content : frames R (StoreManifest ws inode previous content).
Proof. unfold StoreManifest, insert_manifest, finalize_manifest. frames. Qed.

Lemma frames_insert_version inode version commit manifest size checksum source :
  frames R (insert_version inode version commit manifest size checksum source).
Proof.
  unfold insert_version. apply frames_with_db_at. intros d. destruct (file_versions d !! (inode, version)) as [v|] eqn:E.
  - rewrite bool_decide_eq_true_2 by done. done.
  - rewrite bool_decide_eq_false_2 by (by intros []). apply frame_aside. split; try done. by apply insert_subseteq.
Qed.

(** ** Staging areas and requests *)

Lemma frames_store_dirty handle chunk_no content : frames R (StoreDirtyChunk handle chunk_no content).
Proof. unfold StoreDirtyChunk. frames. Qed.
#[local] Hint Resolve frames_store_dirty : frame.
Lemma frames_store_dirties handle chunk_no datas : frames R (store_dirty_chunks handle chunk_no datas).
Proof. revert chunk_no. induction datas; intros; cbn [store_dirty_chunks]; frames. Qed.
#[local] Hint Resolve frames_store_dirties : frame.
Lemma frames_create_staging handle content : frames R (CreateStaging handle content).
Proof. unfold CreateStaging, insert_staging. frames. Qed.
#[local] Hint Resolve frames_create_staging : frame.
Lemma frames_staging_from_version handle node : frames R (CreateStagingFromVersion handle node).
Proof. unfold CreateStagingFromVersion, insert_staging. frames. Qed.
Lemma frames_update_staging handle f : frames R (update_staging handle f).
Proof. unfold update_staging. frames. Qed.
Lemma frames_update_handle handle f : frames R (update_handle handle f).
Proof. unfold update_handle. frames. Qed.
#[local] Hint Resolve frames_update_staging frames_update_handle : frame.
Lemma frames_write_loop fuel handle s logical absolute patch delta :
  frames R (write_loop fuel handle s logical absolute patch delta).
Proof.
  revert absolute patch delta. induction fuel; intros absolute patch delta; cbn [write_loop]; unfold written_chunk; frames.
Qed.
#[local] Hint Resolve frames_write_loop : frame.
Lemma frames_stage_write handle offset patch : frames R (StageWrite handle offset patch).
Proof. unfold StageWrite. frames. Qed.
Lemma frames_truncate handle size : frames R (TruncateStaging handle size).
Proof. unfold TruncateStaging, cut_staging. frames. Qed.
Lemma frames_store_staged ws inode previous manifest handle s chunk_no count new_chunks entries :
  frames R (store_staged ws inode previous manifest handle s chunk_no count new_chunks entries).
Proof. revert chunk_no new_chunks entries. induction count; intros; cbn [store_staged]; frames. Qed.
Lemma frames_prune rowid : frames R (MaybePruneRequests rowid).
Proof. unfold MaybePruneRequests. frames. Qed.
#[local] Hint Resolve frames_prune : frame.
Lemma frames_store_integer request operation fingerprint r : frames R (StoreRequestInteger request operation fingerprint r).
Proof. unfold StoreRequestInteger, insert_request. frames. Qed.
Lemma frames_store_text request operation fingerprint r : frames R (StoreRequestText request operation fingerprint r).
Proof. unfold StoreRequestText, insert_request. frames. Qed.
Lemma frames_insert_handle id row : frames R (insert_handle id row).
Proof. unfold insert_handle. frames. Qed.
Lemma frames_remove_staging handle : frames R (remove_staging handle).
Proof. unfold remove_staging. frames. Qed.

End Aside.
#[export] Hint Resolve frames_count_live frames_mark_grep frames_remove_deleted frames_update_grep frames_index_files frames_rebuild
  frames_refresh frames_enable_index frames_disable_index frames_store_chunk frames_store_chunks frames_store_manifest
  frames_insert_version frames_store_dirty frames_store_dirties frames_create_staging frames_staging_from_version
  frames_update_staging frames_update_handle frames_write_loop frames_stage_write frames_truncate frames_store_staged
  frames_prune frames_store_integer frames_store_text frames_insert_handle frames_remove_staging : frame.
