(* ===== verification/VexfsService.v ===== *)
(** * The functions beside the names

    The SQL functions that change metadata, sessions, policies and snapshots, and no
    name: [ServiceFrame] says what a relation on databases must accept for all of them,
    and then none of them leaves it. *)
From Stdlib Require Import ZArith Lia String.
From stdpp Require Import prelude gmap.
From S2P Require Import Prelude Sha256 VexfsText VexfsDb VexfsTree VexfsStore VexfsGrepIndex VexfsStaging VexfsHandles VexfsNames VexfsMetadata VexfsHistory VexfsSnapshots VexfsPointInTime VexfsRetention VexfsSessions VexfsFrame.

Local Open Scope Z_scope.
Implicit Types d : Db.

Inductive service :=
| SSetMode (workspace : option bytes) (inode mode : sqlite_value)
| SSetTimes (workspace : option bytes) (inode accessed updated : sqlite_value) (mask : Z)
| SChown (workspace : option bytes) (inode uid gid : sqlite_value)
| SOwnerSet (workspace path owner : option bytes)
| SAclSet (workspace : option bytes) (inode : sqlite_value) (acl : option (list acl_json_row))
| SAclDelete (workspace : option bytes) (inode : sqlite_value)
| SAclGrant (workspace : option bytes) (inode : sqlite_value) (principal permissions effect : option bytes)
| SAclRevoke (workspace : option bytes) (inode : sqlite_value) (principal effect : option bytes)
| SSetXattr (workspace : option bytes) (inode : sqlite_value) (name value : option bytes) (policy : Z)
| SSessionStart (workspace session : option bytes)
| SSessionHeartbeat (workspace session : option bytes)
| SSessionEnd (workspace session : option bytes)
| SSynchronize (workspace request : option bytes) (owner : option (option bytes))
| SPublishCloseAll (workspace owner : option bytes) (limit : Z)
| SReclaim (workspace request : option bytes)
| SQuotaSet (workspace : option bytes) (max_bytes max_files max_file_bytes : sqlite_value)
| SSnapshotPolicySet (workspace : option bytes) (agent safety days : sqlite_value)
| SRetentionSet (workspace : option bytes) (versions days : sqlite_value)
| SGcPause (workspace : option bytes) (paused : sqlite_value)
| SSnapshotCreate (workspace name : option bytes) (expected : sqlite_value) (mode snapshot_type : option (option bytes))
| SSnapshotAtCommit (workspace name : option bytes) (commit : sqlite_value) (snapshot_type : option (option bytes))
| SSnapshotAtTime (julian : bytes → option Z) (workspace name requested_at : option bytes) (snapshot_type : option (option bytes))
| SSnapshotDrop (workspace name : option bytes)
| SSnapshotPrune (workspace : option bytes) (dry_run : sqlite_value).

Definition run_service (s : service) (d : Db) : Db :=
  match s with
  | SSetMode w i m => (SetModeFunction w i m d).2
  | SSetTimes w i a u m => (SetTimesFunction w i a u m d).2
  | SChown w i u g => (ChownFunction w i u g d).2
  | SOwnerSet w p o => (OwnerSetFunction w p o d).2
  | SAclSet w i a => (AclSetFunction w i a d).2
  | SAclDelete w i => (AclDeleteFunction w i d).2
  | SAclGrant w i p m e => (AclGrantFunction w i p m e d).2
  | SAclRevoke w i p e => (AclRevokeFunction w i p e d).2
  | SSetXattr w i n v p => (SetXattrFunction w i n v p d).2
  | SSessionStart w s => (SessionStartFunction w s d).2
  | SSessionHeartbeat w s => (SessionHeartbeatFunction w s d).2
  | SSessionEnd w s => (SessionEndFunction w s d).2
  | SSynchronize w q o => (SynchronizeFunction w q o d).2
  | SPublishCloseAll w o l => (PublishCloseAllFunction w o l d).2
  | SReclaim w q => (ReclaimFunction w q d).2
  | SQuotaSet w b f m => (QuotaSetFunction w b f m d).2
  | SSnapshotPolicySet w a s n => (SnapshotPolicySetFunction w a s n d).2
  | SRetentionSet w v n => (RetentionSetFunction w v n d).2
  | SGcPause w p => (GcPauseFunction w p d).2
  | SSnapshotCreate w n e m t => (SnapshotCreateFunction w n e m t d).2
  | SSnapshotAtCommit w n c t => (SnapshotCreateAtCommitFunction w n c t d).2
  | SSnapshotAtTime j w n a t => (SnapshotCreateAtTimeFunction j w n a t d).2
  | SSnapshotDrop w n => (SnapshotDropFunction w n d).2
  | SSnapshotPrune w y => (SnapshotPruneFunction w y d).2
  end.

(** ** The interface *)

(** What of an inode row the names, contents and history of the tree depend on. *)
Definition row_core (r : inode_row) := (i_workspace r, i_kind r, i_version r).
(** What of a workspace row they depend on. *)
Definition space_core (row : workspace_row) := (w_name row, w_active row, w_root_inode row, w_head_commit row, w_history_floor row).

Class ServiceFrame (R : relation Db) : Prop := {
  sf_frame :: Frame R;
  sf_row : ∀ id r new d, inodes d !! id = Some r → row_core new = row_core r → R d (update_inode id r new d).2;
  sf_acl : ∀ f k d, (∀ k', k' ≠ k → f (acl_entries d) !! k' = acl_entries d !! k') →
    R d (on_dirty_acl (λ s, {[ k ]} ∪ s) (on_acl_entries f d));
  sf_xattr : ∀ f i n r d, inodes d !! i = Some r → (∀ k, k ≠ (i, n) → f (xattrs d) !! k = xattrs d !! k) →
    R d (on_dirty_xattrs (λ s, {[ (i_workspace r, i, n) ]} ∪ s) (on_xattrs f d));
  sf_space : ∀ f ws d, (∀ row, space_core (f row) = space_core row) → R d (on_workspaces (alter f ws) d);
  sf_snapshots : ∀ f d, R d (on_snapshots f d);
  sf_commit : ∀ w message, frames R (CreateCommit w message);
  sf_publish : ∀ handle generation owned, frames R (PublishHandleInTransaction handle generation owned);
}.

Section Service.

Context {R : relation Db} `{!ServiceFrame R}.

#[local] Hint Resolve sf_commit sf_publish : frame.
Ltac serve_modify := idtac;
  lazymatch goal with
  | |- _ _ (on_snapshots _ _) => apply sf_snapshots
  | |- _ _ (on_workspaces (alter _ _) _) => apply sf_space; intros; reflexivity
  | |- _ => apply frame_aside; by split
  end.
Ltac serve := repeat (cbv zeta; frames_step ltac:(serve_modify)).

Lemma frames_for_each {A} (l : list A) (f : A → M ()) : (∀ x, frames R (f x)) → frames R (for_each l f).
Proof. intros Hf. induction l; cbn [for_each]; [apply frames_ret|]. by apply frames_bind; [|intros ?]. Qed.

(** ** Metadata *)

Lemma frames_update_row ws inode f : (∀ r, row_core (f r) = row_core r) → frames R (update_row ws inode f).
Proof.
  intros Hf d. unfold update_row, with_db. destruct (inodes d !! inode) as [r|] eqn:Hr; [|done]. destruct (_ =? _); [|done].
  unfold mbind, M_bind. pose proof (sf_row inode r (f r) d Hr (Hf r)) as H. by destruct (update_inode _ _ _ d) as [[] ?].
Qed.
#[local] Hint Extern 3 (frames _ (update_row _ _ _)) => apply frames_update_row; intros; done : frame.

Lemma frames_commit_metadata w inode message : frames R (CommitMetadataChange w inode message).
Proof. unfold CommitMetadataChange. serve. Qed.
Lemma frames_touch_row ws inode : frames R (touch_row ws inode).
Proof. unfold touch_row. serve. Qed.
Lemma frames_delete_acl k : frames R (delete_acl k).
Proof. intros d. apply sf_acl. intros. by rewrite lookup_delete_ne. Qed.
Lemma frames_upsert_acl k permissions : frames R (upsert_acl k permissions).
Proof. intros d. apply (sf_acl (insert k _)). intros. by rewrite lookup_insert_ne. Qed.
Lemma frames_insert_acl k permissions inherit : frames R (insert_acl k permissions inherit).
Proof.
  unfold insert_acl. apply frames_with_db_at. intros d. destruct (bool_decide _); [done|]. apply (sf_acl (insert k _)). intros.
  by rewrite lookup_insert_ne.
Qed.
#[local] Hint Resolve frames_commit_metadata frames_touch_row frames_delete_acl frames_upsert_acl frames_insert_acl : frame.
Lemma frames_delete_acls ws inode P : frames R (delete_acls ws inode P).
Proof. unfold delete_acls. serve. apply frames_for_each. auto with frame. Qed.
#[local] Hint Resolve frames_delete_acls : frame.

Lemma frames_acl_set workspace inode acl : frames R (AclSetFunction workspace inode acl).
Proof. unfold AclSetFunction. serve. apply frames_for_each. intros [[[p e] m] i]. auto with frame. Qed.

(** The inode of an attribute exists. *)
Lemma delete_xattr_at i n r d : inodes d !! i = Some r → R d (delete_xattr i n d).2.
Proof.
  intros Hr. change (R d (dirty_xattr i n (on_xattrs (delete (i, n)) d))). unfold dirty_xattr. simpl. rewrite Hr.
  apply sf_xattr; [done|]. intros. by rewrite lookup_delete_ne.
Qed.
Lemma store_xattr_at i n value r d : inodes d !! i = Some r → R d (store_xattr i n value d).2.
Proof.
  intros Hr. change (R d (dirty_xattr i n (on_xattrs (insert (i, n) value) d))). unfold dirty_xattr. simpl. rewrite Hr.
  apply sf_xattr; [done|]. intros. by rewrite lookup_insert_ne.
Qed.

Lemma frames_set_xattr workspace inode name value policy : frames R (SetXattrFunction workspace inode name value policy).
Proof.
  unfold SetXattrFunction. do 6 (apply frames_bind; [auto with frame|intros ?]). intros d. apply frames_query_at. intros [] Hin.
  unfold RequireWorkspaceInode in Hin. destruct (inodes d !! _) as [r|] eqn:Hr; [|done].
  apply frames_query_at. intros found _. do 2 apply frames_throw_if_at. apply frames_savepoint_at, frames_bind_at.
  - destruct (policy =? 3); [by eapply delete_xattr_at|]. apply frames_bind_at; [apply frames_lift|]. intros v ? [_ ->]%lift_ok.
    apply frames_throw_if_at. by eapply store_xattr_at.
  - intros [] d1 _. revert d1. match goal with |- ∀ d, R d (?m d).2 => change (frames R m) end. serve.
Qed.

(** ** Sessions *)

Lemma frames_retain w session matching : frames R (RetainOpenHandles w session matching).
Proof. unfold RetainOpenHandles, clear_closed. serve. Qed.
Lemma frames_claim w session : frames R (ClaimRetainedHandles w session).
Proof. unfold ClaimRetainedHandles. serve. Qed.
Lemma frames_publish handle generation : frames R (PublishHandle handle generation).
Proof. unfold PublishHandle. serve. Qed.
Lemma frames_replayed request operation fingerprint work : frames R work → frames R (replayed request operation fingerprint work).
Proof. intros. unfold replayed. serve. Qed.
#[local] Hint Resolve frames_retain frames_claim frames_publish : frame.

Ltac service := repeat first
  [ progress serve | apply frames_for_each; intros [] || (apply frames_for_each; intros ?) | apply frames_replayed ].

Lemma run_service_frames s d : R d (run_service s d).
Proof.
  assert (Hrun : ∀ A (m : M A), frames R m → R d (m d).2) by (intros A m Hm; apply Hm).
  destruct s; cbn [run_service]; apply Hrun; lazymatch goal with
    | |- frames _ (SetXattrFunction _ _ _ _ _) => apply frames_set_xattr
    | |- frames _ (AclSetFunction _ _ _) => apply frames_acl_set
    | |- _ =>
      unfold SetModeFunction, SetTimesFunction, ChownFunction, OwnerSetFunction, AclDeleteFunction, AclGrantFunction, AclRevokeFunction,
        SessionStartFunction, SessionHeartbeatFunction, SessionEndFunction, SynchronizeFunction, PublishCloseAllFunction, ReclaimFunction,
        QuotaSetFunction, SnapshotPolicySetFunction, RetentionSetFunction, GcPauseFunction, retention_report,
        SnapshotCreateFunction, SnapshotCreateAtCommitFunction, SnapshotCreateAtTimeFunction, InsertSnapshot, insert_snapshot, SnapshotDropFunction, SnapshotPruneFunction; service
    end.
Qed.

End Service.
