(* ===== verification/VexfsForest.v ===== *)
(** * The directory forest

    The entries of a workspace form a tree of directories: every directory has one
    name, the root has none and no directory lies below itself. Files and symlinks
    may have several names. Every SQL function that is modelled keeps this, whether
    it succeeds or throws. The key is [RenameFunction]: its test on the two paths is
    what keeps a directory from moving below itself. *)
From Stdlib Require Import ZArith Lia String.
From stdpp Require Import prelude gmap.
From S2P Require Import Prelude Sha256 VexfsText VexfsDb VexfsTree VexfsStore VexfsStaging VexfsHandles VexfsNames VexfsMetadata VexfsHistory VexfsSnapshots VexfsRetention VexfsSessions VexfsFrame VexfsService.

Local Open Scope Z_scope.
Implicit Types d : Db.

(** ** The invariant *)

Definition kind_at (d : Db) (i : Z) : option Kind := i_kind <$> inodes d !! i.
Definition child (d : Db) (ws p i : Z) : Prop := ∃ n, dentries d !! (ws, p, n) = Some i.

Record forest (d : Db) : Prop := {
  fo_parent : ∀ ws p n i, dentries d !! (ws, p, n) = Some i → kind_at d p = Some KDirectory;
  fo_inode : ∀ ws p n i, dentries d !! (ws, p, n) = Some i → is_Some (kind_at d i);
  fo_unique : ∀ ws p n p' n' i, dentries d !! (ws, p, n) = Some i → dentries d !! (ws, p', n') = Some i →
    kind_at d i = Some KDirectory → (p, n) = (p', n');
  fo_root : ∀ ws row p n, workspaces d !! ws = Some row → dentries d !! (ws, p, n) ≠ Some (int64 (w_root_inode row));
  fo_root_directory : ∀ ws row i, workspaces d !! ws = Some row → w_root_inode row = Some i → kind_at d i = Some KDirectory;
  fo_positive : ∀ i, is_Some (inodes d !! i) → 0 < i;
  fo_acyclic : ∀ ws i, ¬ tc (child d ws) i i;
}.

Lemma tc_mono {A} (R R' : relation A) : (∀ x y, R x y → R' x y) → ∀ x y, tc R x y → tc R' x y.
Proof. intros HR x y. induction 1; [by apply tc_once, HR|eapply tc_l; eauto]. Qed.

Lemma rtc_mono {A} (R R' : relation A) : (∀ x y, R x y → R' x y) → ∀ x y, rtc R x y → rtc R' x y.
Proof. intros HR x y. induction 1; [done|eapply rtc_l; eauto]. Qed.

(** Adding one edge [a → b] makes no cycle when there was no path from [b] to [a]. *)
Lemma acyclic_add_edge {A} (R R' : relation A) a b :
  (∀ x y, R' x y → R x y ∨ (x = a ∧ y = b)) → (∀ x, ¬ tc R x x) → ¬ rtc R b a → ∀ x, ¬ tc R' x x.
Proof.
  intros HR Hac Hba.
  assert (Hdec : ∀ x y, tc R' x y → tc R x y ∨ (rtc R x a ∧ rtc R b y)).
  { induction 1 as [x y H|x y z H _ [IH|[IH1 IH2]]].
    - destruct (HR _ _ H) as [?|[-> ->]]; [left; by apply tc_once|by right].
    - destruct (HR _ _ H) as [?|[-> ->]]; [left; by eapply tc_l|right; split; [done|by apply tc_rtc]].
    - destruct (HR _ _ H) as [?|[-> ->]]; [right; split; [by eapply rtc_l|done]|done]. }
  intros x [H|[H1 H2]]%Hdec; [by eapply Hac|]. apply Hba. by etrans.
Qed.

(** ** Functions that leave the names alone *)

Record quiet_rel (d d' : Db) : Prop := {
  qr_dentries : dentries d' = dentries d;
  qr_kinds : ∀ i, kind_at d' i = kind_at d i;
  qr_roots : ∀ ws, w_root_inode <$> workspaces d' !! ws = w_root_inode <$> workspaces d !! ws;
}.

#[export] Instance quiet_rel_preorder : PreOrder quiet_rel.
Proof.
  split; [done|]. intros d1 d2 d3 [D1 K1 R1] [D2 K2 R2].
  split; [by rewrite D2|intros i; by rewrite K2|intros ws; by rewrite R2].
Qed.

Lemma kind_at_is_Some d i : is_Some (kind_at d i) ↔ is_Some (inodes d !! i).
Proof. apply fmap_is_Some. Qed.

Lemma quiet_forest d d' : quiet_rel d d' → forest d → forest d'.
Proof.
  intros [D K R] [Hp Hi Hu Hr Hd Hpos Ha].
  assert (Hc : ∀ ws p i, child d' ws p i ↔ child d ws p i) by (unfold child; by rewrite D).
  assert (HR : ∀ ws row, workspaces d' !! ws = Some row →
    ∃ row0, workspaces d !! ws = Some row0 ∧ w_root_inode row0 = w_root_inode row).
  { intros ws row Hrow. specialize (R ws). rewrite Hrow in R. destruct (workspaces d !! ws) as [row0|]; [|done].
    injection R as R. by exists row0. }
  split; rewrite ?D.
  - intros. rewrite K. eauto.
  - intros. rewrite K. eauto.
  - intros ws p n p' n' i. rewrite K. apply Hu.
  - intros ws row p n Hrow. destruct (HR _ _ Hrow) as (row0 & Hrow0 & <-). by eapply Hr.
  - intros ws row i Hrow Hi'. destruct (HR _ _ Hrow) as (row0 & Hrow0 & Hf). rewrite K. eapply Hd; [done|congruence].
  - intros i. rewrite <- kind_at_is_Some, K, kind_at_is_Some. apply Hpos.
  - intros ws i Ht. apply (Ha ws i). revert Ht. apply tc_mono. intros x y. apply Hc.
Qed.

#[export] Instance quiet_frame : Frame quiet_rel.
Proof.
  split; [apply _|]. intros d d' [I D _ _ _ W _]. split; [done|intros i; unfold kind_at; by rewrite I|].
  intros ws. specialize (W ws). destruct (workspaces d' !! ws), (workspaces d !! ws); try done.
  apply (inj Some) in W. simpl. by injection W as _ _ -> _ _ _ _ _ _.
Qed.

(** [quiet m]: running [m] leaves names, kinds and roots as they are, also when it
    throws. *)
Abbreviation quiet := (frames quiet_rel).

Ltac quiet := repeat (cbv zeta; frames_step ltac:(by split)).

Lemma roots_alter f ws d : (∀ w, w_root_inode (f w) = w_root_inode w) → quiet_rel d (on_workspaces (alter f ws) d).
Proof.
  intros Hf. split; [done|done|]. intros ws'. simpl. rewrite lookup_alter. case_decide; subst; [|done].
  destruct (workspaces d !! ws') as [w|]; [|done]. simpl. by rewrite Hf.
Qed.

Lemma quiet_update_inode id old new d :
  inodes d !! id = Some old → i_kind new = i_kind old → quiet_rel d (update_inode id old new d).2.
Proof.
  intros Hid Hk. unfold update_inode. set (d1 := dirty_inode (i_workspace new) id (on_inodes (insert id new) d)).
  trans d1.
  - split; [done| |done]. intros i. unfold kind_at. simpl. destruct (decide (id = i)) as [<-|].
    + rewrite lookup_insert_eq, Hid. simpl. by rewrite Hk.
    + by rewrite lookup_insert_ne.
  - change (quiet_rel d1 ((count_live (i_workspace old) (- count_files old) (- count_bytes old) ≫= λ _,
      count_live (i_workspace new) (count_files new) (count_bytes new)) d1).2).
    apply frames_bind; intros; apply frames_count_live.
Qed.

Ltac quiet_at := apply frames_with_db_at; intros d; destruct (inodes d !! _) as [r|] eqn:Hr; [|done].

Lemma quiet_touch_directory ws inode : quiet (TouchDirectory ws inode).
Proof. unfold TouchDirectory. quiet_at. case_match; [|done]. by apply quiet_update_inode. Qed.
Lemma quiet_advance inode old size version : quiet (advance_inode inode old size version).
Proof. unfold advance_inode. quiet_at. case_match; [|done]. by apply quiet_update_inode. Qed.
Lemma quiet_update_owner ws inode uid gid : quiet (update_owner ws inode uid gid).
Proof. unfold update_owner. quiet_at. case_match; [|done]. by apply quiet_update_inode. Qed.
Lemma quiet_tombstone_rows ws ids : quiet (tombstone_rows ws ids).
Proof.
  induction ids as [|id ids IH]; cbn [tombstone_rows]; [apply frames_ret|]. apply frames_bind; [|done].
  quiet_at. case_match; [|done]. by apply quiet_update_inode.
Qed.
#[export] Hint Resolve quiet_touch_directory quiet_advance quiet_update_owner quiet_tombstone_rows : frame.

Lemma quiet_tombstone_tree ws inode : quiet (TombstoneTree ws inode).
Proof. unfold TombstoneTree. quiet. Qed.
Lemma quiet_tombstone_unreferenced ws inode : quiet (TombstoneIfUnreferenced ws inode).
Proof.
  unfold TombstoneIfUnreferenced. apply frames_bind; [|auto with frame]. quiet_at. case_match; [|done].
  unfold Savepoint. pose proof (quiet_update_inode inode r (set_tombstone (clock_seconds d) r) d Hr eq_refl) as Hq.
  by destruct (update_inode _ _ _ d) as [[] ?].
Qed.
#[export] Hint Resolve quiet_tombstone_tree quiet_tombstone_unreferenced : frame.
Lemma quiet_drop_node ws node : quiet (drop_node ws node).
Proof. unfold drop_node. quiet. Qed.
#[export] Hint Resolve quiet_drop_node : frame.

Lemma quiet_commit_in_transaction w message : quiet (CreateCommitInTransaction w message).
Proof.
  unfold CreateCommitInTransaction, FlushHistoryChanges. quiet. apply frames_modify. intros ?. by apply roots_alter.
Qed.
#[export] Hint Resolve quiet_commit_in_transaction : frame.
Lemma quiet_commit w message : quiet (CreateCommit w message).
Proof. unfold CreateCommit. quiet. Qed.
#[export] Hint Resolve quiet_commit : frame.

(** Storing versions. *)
Lemma quiet_publish_version w node size commit store :
  quiet commit → quiet store → quiet (publish_version w node size commit store).
Proof. intros. unfold publish_version. quiet. Qed.
#[export] Hint Resolve quiet_publish_version : frame.
Lemma quiet_store_version w node content message : quiet (StoreVersion w node content message).
Proof. unfold StoreVersion. quiet. Qed.
Lemma quiet_restore w node source message : quiet (StoreVersionFromVersion w node source message).
Proof. unfold StoreVersionFromVersion. quiet. Qed.
#[export] Hint Resolve quiet_store_version quiet_restore : frame.

Lemma quiet_publish_in_transaction handle generation owned : quiet (PublishHandleInTransaction handle generation owned).
Proof.
  unfold PublishHandleInTransaction, StoreVersionFromStaging, StoreManifestFromStaging, insert_manifest, finalize_manifest.
  quiet; apply quiet_publish_version; quiet.
Qed.
#[export] Hint Resolve quiet_publish_in_transaction : frame.

(** None of the functions beside the names changes a name. *)
#[export] Instance quiet_service : ServiceFrame quiet_rel.
Proof.
  split; try (intros; by split); try solve [intros; auto with frame].
  - intros id r new d Hr [= _ Hk _]. by apply quiet_update_inode.
  - intros f ws d Hf. apply roots_alter. intros row. by injection (Hf row).
Qed.
