(* ===== verification/VexfsForestOps.v ===== *)
(** * Every function keeps the directory forest *)
From Stdlib Require Import ZArith Lia String.
From stdpp Require Import prelude gmap.
From S2P Require Import Prelude Sha256 VexfsText VexfsDb VexfsTree VexfsStore VexfsStaging VexfsHandles VexfsNames VexfsFrame VexfsForest.

Local Open Scope Z_scope.
Implicit Types d : Db.

(** ** Walks *)

(** Following the names [ns] from [p] leads to [i]. *)
Inductive walk (d : Db) (ws : Z) : Z → list bytes → Z → Prop :=
| walk_nil p : walk d ws p [] p
| walk_cons p n q ns i : dentries d !! (ws, p, n) = Some q → walk d ws q ns i → walk d ws p (n :: ns) i.

Lemma walk_app d ws p ns q ms i : walk d ws p ns q → walk d ws q ms i → walk d ws p (ns ++ ms) i.
Proof. induction 1; simpl; [done|]. intros. econstructor; eauto. Qed.

Lemma walk_snoc d ws p ns q n i : walk d ws p ns q → dentries d !! (ws, q, n) = Some i → walk d ws p (ns ++ [n]) i.
Proof. intros Hw Hn. eapply walk_app; [done|]. econstructor; [done|constructor]. Qed.

Lemma walk_snoc_inv d ws p ns n i : walk d ws p (ns ++ [n]) i → ∃ q, walk d ws p ns q ∧ dentries d !! (ws, q, n) = Some i.
Proof.
  revert p. induction ns as [|m ns IH]; intros p Hw; inversion Hw as [|? ? q ? ? Hq Hw']; subst.
  - inversion Hw'; subst. exists p. split; [constructor|done].
  - destruct (IH q Hw') as (q' & Hw2 & Hq'). exists q'. split; [by econstructor|done].
Qed.

Lemma rtc_walk d ws p i : rtc (child d ws) p i → ∃ ns, walk d ws p ns i.
Proof.
  induction 1 as [p|p q i [n Hn] _ [ns IH]]; [exists []; constructor|]. exists (n :: ns). by econstructor.
Qed.

(** A directory has one path from the root. *)
Lemma walk_unique d ws row ns ms i : forest d → workspaces d !! ws = Some row →
  walk d ws (int64 (w_root_inode row)) ns i → walk d ws (int64 (w_root_inode row)) ms i →
  kind_at d i = Some KDirectory → ns = ms.
Proof.
  intros Hf Hrow. revert ms i. induction ns as [|n ns IH] using rev_ind; intros ms i H1 H2 Hk;
    destruct ms as [|m ms _] using rev_ind; [done| | |].
  - inversion H1; subst. apply walk_snoc_inv in H2 as (q & _ & Hq). by apply (fo_root _ Hf _ _ _ _ Hrow) in Hq.
  - inversion H2; subst. apply walk_snoc_inv in H1 as (q & _ & Hq). by apply (fo_root _ Hf _ _ _ _ Hrow) in Hq.
  - apply walk_snoc_inv in H1 as (q & Hw & Hq), H2 as (q' & Hw' & Hq').
    pose proof (fo_unique _ Hf _ _ _ _ _ _ Hq Hq' Hk) as [= <- <-].
    f_equal. apply (IH ms q); [done|done|]. by eapply fo_parent.
Qed.

(** ** What resolution finds *)


Lemma find_child_inv ws p n d node : FindChild ws p n d = Some node →
  dentries d !! (ws, p, n) = Some (n_id node) ∧ ∃ r, inodes d !! n_id node = Some r ∧ live r = true ∧ node = node_of (n_id node) r.
Proof.
  unfold FindChild. destruct (dentries d !! (ws, p, n)) as [i|]; [|done]. simpl.
  destruct (inodes d !! i) as [r|] eqn:Hr; [|done]. simpl. destruct (live r) eqn:Hl; [|done]. intros [= <-]. simpl. eauto.
Qed.

Lemma find_child_kind ws p n d node : FindChild ws p n d = Some node → kind_at d (n_id node) = Some (n_kind node).
Proof. intros (_ & r & Hr & _ & ->)%find_child_inv. unfold kind_at. simpl in *. by rewrite Hr. Qed.

Lemma root_node_inv w d node : RootNode w d = Ok node →
  n_id node = ws_root w ∧ ∃ r, inodes d !! ws_root w = Some r ∧ live r = true ∧ i_workspace r = ws_id w ∧ node = node_of (ws_root w) r.
Proof.
  unfold RootNode. destruct (inodes d !! ws_root w) as [r|]; [|done].
  destruct (bool_decide_reflect (i_workspace r = ws_id w)); [|done]. simpl.
  destruct (live r) eqn:Hl; [|done]. intros [= <-]. split; [done|]. exists r. by split_and!.
Qed.

Lemma resolve_from_walk ws parts d : ∀ current node, kind_at d (n_id current) = Some (n_kind current) →
  resolve_from ws current parts d = Some node →
  walk d ws (n_id current) parts (n_id node) ∧ kind_at d (n_id node) = Some (n_kind node).
Proof.
  induction parts as [|part parts IH]; intros current node Hk; cbn [resolve_from].
  - intros [= <-]. split; [constructor|done].
  - destruct (negb _); [done|]. destruct (FindChild ws (n_id current) part d) as [c|] eqn:Hc; [|done]. simpl.
    intros Hr. destruct (IH c node (find_child_kind _ _ _ _ _ Hc) Hr) as [Hw ?]. apply find_child_inv in Hc as [Hd _].
    split; [by econstructor|done].
Qed.

Lemma resolve_walk w parts d node : Resolve w parts d = Ok node →
  walk d (ws_id w) (ws_root w) parts (n_id node) ∧ kind_at d (n_id node) = Some (n_kind node).
Proof.
  unfold Resolve, TryResolve. destruct (RootNode w d) as [root|] eqn:Hroot; [|done].
  destruct (resolve_from _ root parts d) as [x|] eqn:Hx; [|done]. intros [= <-].
  apply root_node_inv in Hroot as (Hid & r & Hr & _ & _ & ->). rewrite <- Hid. eapply resolve_from_walk; [|done].
  unfold kind_at. simpl. by rewrite Hr.
Qed.

Lemma resolve_parent_inv w parts d parent name : ResolveParent w parts d = Ok (parent, name) →
  parts = removelast parts ++ [name] ∧ walk d (ws_id w) (ws_root w) (removelast parts) (n_id parent) ∧
  kind_at d (n_id parent) = Some KDirectory.
Proof.
  unfold ResolveParent. destruct (last parts) as [n|] eqn:Hl; [|done].
  destruct (Resolve w (removelast parts) d) as [p|] eqn:Hr; [|done].
  destruct (bool_decide_reflect (n_kind p = KDirectory)) as [Hk|]; [|done]. intros [= <- <-].
  apply resolve_walk in Hr as [Hw Hkp]. rewrite Hk in Hkp. split_and!; [|done|done].
  apply last_Some in Hl as [l ->]. by rewrite removelast_last.
Qed.

Lemma find_workspace_inv name d w : FindWorkspace name d = Ok w →
  ∃ row, workspaces d !! ws_id w = Some row ∧ ws_root w = int64 (w_root_inode row).
Proof.
  unfold FindWorkspace. destruct (filter _ _) as [|[id row] l] eqn:E; [done|]. intros [= <-].
  assert (Hin : (id, row) ∈ filter (λ '(_, w), w_name w = name ∧ w_active w = true) (map_to_list (workspaces d))) by (rewrite E; left).
  apply list_elem_of_filter in Hin as [_ Hin%elem_of_map_to_list]. by exists row.
Qed.

(** ** Changing the tables *)

(** What makes a name [n] in [p] for [i] fit the forest. *)
Record linkable (d : Db) (ws p i : Z) : Prop := {
  lk_parent : kind_at d p = Some KDirectory;
  lk_inode : is_Some (kind_at d i);
  lk_root : ∀ row, workspaces d !! ws = Some row → int64 (w_root_inode row) ≠ i;
  lk_single : kind_at d i = Some KDirectory → ∀ q n, dentries d !! (ws, q, n) ≠ Some i;
  lk_above : ¬ rtc (child d ws) i p;
}.

Lemma child_link d ws p n i ws' a b :
  child (on_dentries (insert (ws, p, n) i) d) ws' a b → child d ws' a b ∨ (ws' = ws ∧ a = p ∧ b = i).
Proof. intros [m H]. simpl in H. apply lookup_insert_Some in H as [[[= -> -> ->] ->]|[_ H]]; [by right|left; by exists m]. Qed.

Lemma child_unlink d k ws p i : child (on_dentries (delete k) d) ws p i → child d ws p i.
Proof. intros [n H]. simpl in H. apply lookup_delete_Some in H as [_ H]. by exists n. Qed.

Lemma forest_link d ws p n i :
  forest d → linkable d ws p i → dentries d !! (ws, p, n) = None → forest (on_dentries (insert (ws, p, n) i) d).
Proof.
  intros [Hp Hi Hu Hr Hd Hpos Ha] [Lp Li Lr Ls La] Hn. split; simpl.
  - intros ws' p' n' i' [[[= -> -> ->] ->]|[_ H]]%lookup_insert_Some; [done|by eapply Hp].
  - intros ws' p' n' i' [[[= -> -> ->] ->]|[_ H]]%lookup_insert_Some; [done|by eapply Hi].
  - intros ws' p1 n1 p2 n2 i' H1 H2 Hk. change (kind_at d i' = Some KDirectory) in Hk.
    apply lookup_insert_Some in H1 as [[[= <- <- <-] <-]|[_ H1]]; apply lookup_insert_Some in H2 as [[E E']|[_ H2]].
    + by injection E as <- <-.
    + by destruct (Ls Hk p2 n2).
    + injection E as <- <- <-. subst i'. by destruct (Ls Hk p1 n1).
    + by eapply Hu.
  - intros ws' row p' n' Hrow [[[= -> -> ->] E]|[_ H]]%lookup_insert_Some; [by eapply Lr|by eapply Hr].
  - done.
  - done.
  - intros ws' x. destruct (decide (ws' = ws)) as [->|Hne].
    + apply (acyclic_add_edge (child d ws) _ p i); [|apply Ha|done].
      intros a b [H|(_ & -> & ->)]%child_link; [by left|by right].
    + intros Ht. apply (Ha ws' x). revert Ht. apply tc_mono. by intros a b [H|(-> & _)]%child_link.
Qed.

Lemma forest_unlink d k : forest d → forest (on_dentries (delete k) d).
Proof.
  intros [Hp Hi Hu Hr Hd Hpos Ha]. split; simpl.
  - intros ws p n i [_ H]%lookup_delete_Some. by eapply Hp.
  - intros ws p n i [_ H]%lookup_delete_Some. by eapply Hi.
  - intros ws p n p' n' i [_ H]%lookup_delete_Some [_ H']%lookup_delete_Some. by eapply Hu.
  - intros ws row p n Hrow [_ H]%lookup_delete_Some. by eapply Hr.
  - done.
  - done.
  - intros ws x Ht. apply (Ha ws x). revert Ht. apply tc_mono. intros a b. apply child_unlink.
Qed.

Lemma forest_move d ws p n p' n' i :
  forest d → dentries d !! (ws, p, n) = Some i → kind_at d p' = Some KDirectory → ¬ rtc (child d ws) i p' →
  (p', n') = (p, n) ∨ dentries d !! (ws, p', n') = None →
  forest (on_dentries (λ t, <[(ws, p', n') := i]> (delete (ws, p, n) t)) d).
Proof.
  intros Hf Hn Hk Ha Hfree. change (forest (on_dentries (insert (ws, p', n') i) (on_dentries (delete (ws, p, n)) d))).
  apply forest_link; [by apply forest_unlink| |].
  - split; simpl.
    + done.
    + by eapply (fo_inode _ Hf).
    + intros row Hrow <-. by eapply (fo_root _ Hf).
    + intros Hi q m [Hne H]%lookup_delete_Some. apply Hne. by injection (fo_unique _ Hf _ _ _ _ _ _ Hn H Hi) as -> ->.
    + intros Ht. apply Ha. revert Ht. apply rtc_mono. intros a b. apply child_unlink.
  - simpl. destruct Hfree as [[= -> ->]|H]; [apply lookup_delete_eq|]. apply lookup_delete_None. by right.
Qed.

(** An inode nothing refers to. *)
Definition unlinked (d : Db) (i : Z) : Prop :=
  (∀ ws p n, dentries d !! (ws, p, n) ≠ Some i) ∧ (∀ ws n x, dentries d !! (ws, i, n) ≠ Some x) ∧
  (∀ ws row, workspaces d !! ws = Some row → int64 (w_root_inode row) ≠ i).

Lemma forest_new_inode d i r : forest d → inodes d !! i = None → 0 < i →
  forest (on_inodes (insert i r) d) ∧ unlinked (on_inodes (insert i r) d) i ∧
  ∀ j, is_Some (kind_at d j) → j ≠ i ∧ kind_at (on_inodes (insert i r) d) j = kind_at d j.
Proof.
  intros [Hp Hi Hu Hr Hd Hpos Ha] Hfresh Hi0.
  assert (Hold : ∀ j, is_Some (kind_at d j) → j ≠ i ∧ kind_at (on_inodes (insert i r) d) j = kind_at d j).
  { intros j [k Hj]. assert (j ≠ i). { intros ->. unfold kind_at in Hj. by rewrite Hfresh in Hj. }
    split; [done|]. unfold kind_at. simpl. by rewrite lookup_insert_ne. }
  split_and!; [|split_and!|done].
  - split; simpl.
    + intros ws p n x H. destruct (Hold p) as [_ ->]; [rewrite (Hp _ _ _ _ H); eauto|]. by eapply Hp.
    + intros ws p n x H. destruct (Hold x) as [_ ->]; by eapply Hi.
    + intros ws p n p' n' x H. destruct (Hold x) as [_ ->]; [by eapply Hi|]. by apply Hu.
    + done.
    + intros ws row x Hrow Hx. destruct (Hold x) as [_ ->]; [|by eapply Hd]. rewrite (Hd _ _ _ Hrow Hx). eauto.
    + intros j [x [[<- _]|[_ H]]%lookup_insert_Some]; [done|]. apply Hpos. eauto.
    + done.
  - intros ws p n H. destruct (Hold i) as [? _]; [by eapply Hi|done].
  - intros ws n x H. destruct (Hold i) as [? _]; [|done]. rewrite (Hp _ _ _ _ H). eauto.
  - intros ws row Hrow E. destruct (w_root_inode row) as [x|] eqn:Ex; simpl in E; [|lia].
    destruct (Hold x) as [? _]; [|done]. rewrite (Hd _ _ _ Hrow Ex). eauto.
Qed.

(** ** Functions that keep the forest

    [keeps P m Q]: from a forest where [P] holds, [m] ends in a forest, whether it
    returns or throws, and in [Q] when it returns. *)

Definition keeps {A} (P : Db → Prop) (m : M A) (Q : A → Db → Prop) : Prop :=
  ∀ d, forest d → P d →
  match m d with (Ok a, d') => forest d' ∧ Q a d' | (Throw _, d') => forest d' end.

(** Facts that survive what is quiet. *)
Class Stable (P : Db → Prop) : Prop := stable : ∀ d d', quiet_rel d d' → P d → P d'.

#[export] Instance stable_pure (φ : Prop) : Stable (λ _, φ).
Proof. by intros d d' _. Qed.
#[export] Instance stable_and P Q : Stable P → Stable Q → Stable (λ d, P d ∧ Q d).
Proof. intros HP HQ d d' Hq [? ?]. split; [by eapply HP|by eapply HQ]. Qed.
#[export] Instance stable_kind i k : Stable (λ d, kind_at d i = k).
Proof. intros d d' [_ K _]. by rewrite K. Qed.

Lemma keeps_bind {A B} P (m : M A) (k : A → M B) Q R :
  keeps P m Q → (∀ a, keeps (Q a) (k a) R) → keeps P (m ≫= k) R.
Proof.
  intros Hm Hk d Hf HP. unfold mbind, M_bind. specialize (Hm d Hf HP). destruct (m d) as [[a|e] d1]; [|done].
  destruct Hm. by apply Hk.
Qed.
Lemma keeps_weaken {A} (P P' : Db → Prop) (m : M A) (Q Q' : A → Db → Prop) :
  keeps P' m Q' → (∀ d, forest d → P d → P' d) → (∀ a d, Q' a d → Q a d) → keeps P m Q.
Proof.
  intros Hm HP HQ d Hf Hd. specialize (Hm d Hf (HP d Hf Hd)). destruct (m d) as [[a|e] d1]; [|done]. destruct Hm. eauto.
Qed.
Lemma keeps_ret {A} (P : Db → Prop) (x : A) (Q : A → Db → Prop) : (∀ d, forest d → P d → Q x d) → keeps P (mret x) Q.
Proof. intros H d Hf HP. split; [done|by apply H]. Qed.
Lemma keeps_throw {A} P e (Q : A → Db → Prop) : keeps P (throw e) Q.
Proof. by intros d Hf _. Qed.
Lemma keeps_throw_if P b e : keeps P (throw_if b e) (λ _ d, P d ∧ b = false).
Proof. intros d Hf HP. by destruct b. Qed.
Lemma keeps_query {A} P (f : Db → sql A) : keeps P (query f) (λ a d, P d ∧ f d = Ok a).
Proof. intros d Hf HP. unfold query. by destruct (f d). Qed.
Lemma keeps_lift {A} P (r : sql A) : keeps P (lift r) (λ a d, P d ∧ r = Ok a).
Proof. intros d Hf HP. unfold lift. by destruct r. Qed.
Lemma keeps_savepoint {A} P (m : M A) Q : keeps P m Q → keeps P (Savepoint m) Q.
Proof. intros Hm d Hf HP. unfold Savepoint. specialize (Hm d Hf HP). by destruct (m d) as [[] ?]. Qed.
Lemma keeps_with_db {A} P (k : Db → M A) Q : (∀ d0, keeps (λ d, P d ∧ d = d0) (k d0) Q) → keeps P (with_db k) Q.
Proof. intros Hk d Hf HP. by apply (Hk d). Qed.
Lemma keeps_quiet {A} (P : Db → Prop) (m : M A) : quiet m → Stable P → keeps P m (λ _, P).
Proof.
  intros Hq HP d Hf Hd. specialize (Hq d). pose proof (quiet_forest _ _ Hq Hf). pose proof (HP _ _ Hq Hd).
  by destruct (m d) as [[] ?].
Qed.
Lemma keeps_quiet_last {A} (P : Db → Prop) (m : M A) : quiet m → keeps P m (λ _ _, True).
Proof. intros Hq d Hf Hd. pose proof (quiet_forest _ _ (Hq d) Hf). by destruct (m d) as [[] ?]. Qed.

(** The new row of an inode is quiet except for the kind of the new id. *)
Lemma create_inode_spec uid gid ws kind mode d : forest d →
  match CreateInode uid gid ws kind mode d with
  | (Ok id, d') => forest d' ∧ kind_at d' id = Some kind ∧ unlinked d' id ∧
      (∀ j, is_Some (kind_at d j) → j ≠ id ∧ kind_at d' j = kind_at d j)
  | (Throw _, d') => forest d'
  end.
Proof.
  intros Hf. destruct (CheckQuotaForNewInode ws kind d) as [[]|e] eqn:Eq;
    [|unfold CreateInode, query, mbind, M_bind; by rewrite Eq].
  set (row := new_inode_row uid gid ws kind mode (clock_seconds d)). set (id := next_rowid (inodes d)).
  set (d1 := on_inodes (insert id row) d).
  destruct (forest_new_inode d id row Hf) as (Hf1 & Hu1 & Hold); [apply next_rowid_none; lia|apply next_rowid_pos|].
  fold d1 in Hf1, Hu1, Hold.
  assert (Hk1 : kind_at d1 id = Some kind) by (unfold kind_at; simpl; by rewrite lookup_insert_eq).
  set (rest := (λ _ : unit, (if counts row then count_live (i_workspace row) 1 (i_size row) else mret ()) ≫= λ _, mret id)).
  assert (CreateInode uid gid ws kind mode d = (modify (dirty_inode (i_workspace row) id) ≫= rest) d1) as ->.
  { unfold CreateInode. erewrite bind_eval by (unfold query; rewrite Eq; reflexivity). reflexivity. }
  assert (Hq : quiet (modify (dirty_inode (i_workspace row) id) ≫= rest)) by (unfold rest; quiet).
  specialize (Hq d1).
  destruct ((modify (dirty_inode (i_workspace row) id) ≫= rest) d1) as [[x|e] d'] eqn:E;
    simpl in Hq; [|by eapply quiet_forest].
  assert (x = id) as ->.
  { apply bind_ok in E as (? & ? & _ & E). unfold rest in E. apply bind_ok in E as (? & ? & _ & E). by injection E. }
  pose proof Hq as [D K R]. split_and!; [by eapply quiet_forest|by rewrite K| |].
  - destruct Hu1 as (U1 & U2 & U3). split_and!; rewrite ?D; [done|done|].
    intros ws' r' Hr'. specialize (R ws'). rewrite Hr' in R. destruct (workspaces d1 !! ws') as [r0|] eqn:E0; [|done].
    injection R as ->. by eapply U3.
  - intros j Hj. destruct (Hold j Hj) as [? <-]. split; [done|apply K].
Qed.

Lemma insert_dentry_keeps ws p n i j k :
  keeps (λ d, linkable d ws p i ∧ kind_at d j = k) (insert_dentry ws p n i) (λ _ d, kind_at d j = k).
Proof.
  intros d Hf [Hl HF]. unfold insert_dentry, with_db. destruct (dentries d !! (ws, p, n)) as [x|] eqn:Hn; [done|].
  split; [|done]. eapply quiet_forest; [|apply (forest_link d ws p n i Hf Hl Hn)]. by split.
Qed.

Lemma delete_dentry_keeps ws p n (P : Db → Prop) :
  (∀ d, P d → P (on_dentries (delete (ws, p, n)) d)) → Stable P → keeps P (delete_dentry ws p n) (λ _, P).
Proof.
  intros Hdel Hst d Hf HP. unfold delete_dentry, with_db. destruct (dentries d !! (ws, p, n)) as [i|]; [|done].
  set (d1 := on_dentries (delete (ws, p, n)) d). assert (Hq : quiet_rel d1 (dirty_dentry ws p n i d1)) by by split.
  split; [eapply quiet_forest; [exact Hq|by apply forest_unlink]|]. eapply Hst; [exact Hq|by apply Hdel].
Qed.

(** The entry that a rename moves does not lead to its new parent. *)
Definition movable (ws p : Z) (n : bytes) (p' : Z) (d : Db) : Prop :=
  kind_at d p' = Some KDirectory ∧ ∀ i, dentries d !! (ws, p, n) = Some i → ¬ rtc (child d ws) i p'.

#[export] Instance stable_movable ws p n p' : Stable (movable ws p n p').
Proof.
  intros d d' [D K _] [Hk Hm]. split; [by rewrite K|]. rewrite D. intros i Hi Ht. apply (Hm i Hi). revert Ht.
  apply rtc_mono. unfold child. by rewrite D.
Qed.

Lemma movable_unlink ws p n p' k d : movable ws p n p' d → movable ws p n p' (on_dentries (delete k) d).
Proof.
  intros [Hk Hm]. split; [done|]. simpl. intros i [_ Hi]%lookup_delete_Some Ht. apply (Hm i Hi). revert Ht.
  apply rtc_mono. intros a b. apply child_unlink.
Qed.

Lemma move_dentry_keeps ws p n p' n' : keeps (movable ws p n p') (move_dentry ws p n p' n') (λ _ _, True).
Proof.
  intros d Hf [Hk Hm]. unfold move_dentry, with_db. destruct (dentries d !! (ws, p, n)) as [i|] eqn:Hi; [|done].
  assert (Hcase : (p', n') = (p, n) ∨ dentries d !! (ws, p', n') = None ∨
    bool_decide ((p', n') ≠ (p, n)) && bool_decide (is_Some (dentries d !! (ws, p', n'))) = true).
  { destruct (decide ((p', n') = (p, n))); [by left|right]. rewrite bool_decide_eq_true_2 by done.
    destruct (dentries d !! (ws, p', n')); [by right|by left]. }
  destruct (_ && _) eqn:Eb; [done|]. split; [|done].
  eapply quiet_forest; [|apply (forest_move d ws p n p' n' i Hf Hi Hk (Hm i eq_refl)); naive_solver].
  by split.
Qed.

(** ** The functions *)

(** [keeps_run]: the queries and checks at the head of a function, whose results go
    into the precondition. *)
Ltac keeps_step :=
  lazymatch goal with
  | |- keeps _ (query _ ≫= _) _ => eapply keeps_bind; [apply keeps_query|intros ?]
  | |- keeps _ (lift _ ≫= _) _ => eapply keeps_bind; [apply keeps_lift|intros ?]
  | |- keeps _ (throw_if _ _ ≫= _) _ => eapply keeps_bind; [apply keeps_throw_if|intros ?]
  | |- keeps ?P (AcquireWriteLock ≫= _) _ => apply (keeps_bind P _ _ (λ _, P)); [by apply keeps_ret|intros ?]
  | |- keeps _ (Savepoint _) _ => apply keeps_savepoint
  | |- keeps _ (throw _) _ => apply keeps_throw
  | |- keeps _ (let '(_, _) := ?x in _) _ => destruct x
  | |- keeps _ (match ?x with _ => _ end) _ => destruct x
  end.
Ltac keeps_run := repeat (cbv beta zeta; keeps_step).
Ltac keeps_end := apply keeps_quiet_last; quiet.

Lemma quiet_inherit_acl ws parent inode : quiet (modify (inherit_acl ws parent inode)).
Proof. quiet. Qed.
#[export] Hint Resolve quiet_inherit_acl : frame.

Lemma add_dentry_keeps ws p n i j k :
  keeps (λ d, linkable d ws p i ∧ kind_at d j = k) (AddDentry ws p n i) (λ _ d, kind_at d j = k).
Proof.
  unfold AddDentry. eapply keeps_bind; [apply insert_dentry_keeps|intros []].
  apply keeps_quiet; [quiet|apply _].
Qed.

Lemma unlinked_linkable d ws p i k : kind_at d p = Some KDirectory → kind_at d i = Some k → unlinked d i → p ≠ i →
  linkable d ws p i.
Proof.
  intros Hp Hi (U1 & U2 & U3) Hne. split; [done|eauto|by eapply U3|by intros _ q n; apply U1|].
  intros Ht. inversion Ht as [|? y ? [n Hn] _]; subst; [done|]. by eapply U2.
Qed.

(** The new node is linked to its parent, which was a directory. *)
Lemma create_entry_keeps uid gid w parent name kind mode :
  keeps (λ d, kind_at d (n_id parent) = Some KDirectory) (create_entry uid gid w parent name kind mode)
    (λ node d, kind_at d (n_id node) = Some kind).
Proof.
  intros d Hf Hp. unfold create_entry, mbind at 1, M_bind at 1.
  pose proof (create_inode_spec uid gid (ws_id w) kind mode d Hf) as Hc.
  destruct (CreateInode uid gid (ws_id w) kind mode d) as [[id|e] d1]; [|done].
  destruct Hc as (Hf1 & Hk & Hu & Hold). destruct (Hold (n_id parent)) as [Hne Hkp]; [by rewrite Hp; eauto|].
  apply (keeps_bind (λ d, linkable d (ws_id w) (n_id parent) id ∧ kind_at d id = Some kind) _ _
    (λ _ d, kind_at d id = Some kind)); [apply add_dentry_keeps| |done|].
  - intros []. by apply keeps_ret.
  - split; [|done]. eapply unlinked_linkable; [by rewrite Hkp|done|done|done].
Qed.

Lemma mkdir_loop_keeps uid gid w parts : ∀ current changed,
  keeps (λ d, kind_at d (n_id current) = Some KDirectory) (mkdir_loop uid gid w current parts changed) (λ _ _, True).
Proof.
  induction parts as [|part parts IH]; intros current changed; cbn [mkdir_loop]; [by apply keeps_ret|].
  keeps_step. destruct a as [child|].
  - keeps_step. eapply keeps_weaken; [apply (IH child changed)| |done].
    intros d Hf [[_ [= Hc]] Hk]. apply find_child_kind in Hc.
    destruct (bool_decide_reflect (n_kind child = KDirectory)) as [E|]; [by rewrite Hc, E|done].
  - eapply (keeps_bind _ _ _ (λ node d, kind_at d (n_id node) = Some KDirectory)); [|intros node; apply IH].
    eapply keeps_weaken; [apply create_entry_keeps| |done]. tauto.
Qed.

Lemma root_directory w d name root : forest d → FindWorkspace name d = Ok w → RootNode w d = Ok root →
  kind_at d (n_id root) = Some KDirectory.
Proof.
  intros Hf (row & Hrow & Hroot)%find_workspace_inv (-> & r & Hr & _)%root_node_inv.
  destruct (w_root_inode row) as [i|] eqn:Ei; rewrite Hroot in *; simpl in *; [by eapply fo_root_directory|].
  assert (0 < 0) by (apply (fo_positive _ Hf); eauto). lia.
Qed.

Lemma mkdir_keeps uid gid workspace path : keeps (λ _, True) (MkdirFunction uid gid workspace path) (λ _ _, True).
Proof.
  unfold MkdirFunction. do 5 keeps_step.
  eapply (keeps_bind _ _ _ (λ _ _, True)).
  - eapply keeps_weaken; [apply mkdir_loop_keeps| |done]. intros d Hf H. destruct_and!. by eapply root_directory.
  - intros [current changed]. keeps_end.
Qed.

Lemma new_path_keeps w parts P : keeps P (new_path w parts) (λ '(parent, name) d,
  P d ∧ ResolveParent w parts d = Ok (parent, name)).
Proof.
  unfold new_path. keeps_run. apply keeps_ret. naive_solver.
Qed.

Lemma create_keeps uid gid workspace path kind mode :
  keeps (λ _, True) (CreateFunction uid gid workspace path kind mode) (λ _ _, True).
Proof.
  unfold CreateFunction. keeps_run. eapply keeps_bind; [apply new_path_keeps|intros [parent name]].
  eapply keeps_bind; [|intros node; keeps_end].
  eapply keeps_weaken; [apply create_entry_keeps| |done]. intros d Hf H. destruct_and!. by eapply resolve_parent_inv.
Qed.

Lemma symlink_keeps uid gid workspace path target :
  keeps (λ _, True) (SymlinkFunction uid gid workspace path target) (λ _ _, True).
Proof.
  unfold SymlinkFunction. keeps_run. eapply keeps_bind; [apply new_path_keeps|intros [parent name]].
  eapply keeps_bind; [|intros node; keeps_end].
  eapply keeps_weaken; [apply create_entry_keeps| |done]. intros d Hf H. destruct_and!. by eapply resolve_parent_inv.
Qed.

(** A file that has a name may get another one. *)
Lemma named_linkable d name w ns q i k row : forest d → workspaces d !! ws_id w = Some row →
  ws_root w = int64 (w_root_inode row) → ns ≠ [] → walk d (ws_id w) (ws_root w) ns i → kind_at d i = Some k → k ≠ KDirectory →
  walk d (ws_id w) (ws_root w) name q → kind_at d q = Some KDirectory → linkable d (ws_id w) q i.
Proof.
  intros Hf Hrow Hroot Hne Hw Hk Hnd _ Hq. split; [done|by eexists|..].
  - intros row' Hrow' <-. rewrite Hrow in Hrow'. injection Hrow' as <-.
    destruct ns as [|n ns _] using rev_ind; [done|]. apply walk_snoc_inv in Hw as (p & _ & Hp). by eapply fo_root.
  - congruence.
  - intros Ht. inversion Ht as [|? y ? [n Hn] _]; subst; [congruence|]. apply (fo_parent _ Hf) in Hn. congruence.
Qed.

Lemma add_dentry_links ws p n i : keeps (λ d, linkable d ws p i) (AddDentry ws p n i) (λ _ _, True).
Proof.
  intros d Hf Hl. pose proof (add_dentry_keeps ws p n i 0 (kind_at d 0) d Hf (conj Hl eq_refl)) as H.
  destruct (AddDentry ws p n i d) as [[] ?]; [by destruct H|done].
Qed.

Lemma hardlink_keeps workspace source destination :
  keeps (λ _, True) (HardlinkFunction workspace source destination) (λ _ _, True).
Proof.
  unfold HardlinkFunction. keeps_run. eapply keeps_bind; [apply new_path_keeps|intros [parent name]].
  eapply keeps_bind; [|intros []; keeps_end]. eapply keeps_weaken; [apply add_dentry_links| |done].
  intros d Hf H. destruct_and!.
  repeat match goal with H : negb (bool_decide _) = false |- _ => apply negb_false_iff, bool_decide_eq_true in H end.
  match goal with H : FindWorkspace _ _ = _ |- _ => apply find_workspace_inv in H as (row & Hrow & Hroot) end.
  match goal with H : Resolve _ _ _ = _ |- _ => apply resolve_walk in H as [Hw Hk] end.
  match goal with H : ResolveParent _ _ _ = _ |- _ => apply resolve_parent_inv in H as (_ & Hp & Hkp) end.
  eapply named_linkable; [done|exact Hrow|exact Hroot| |exact Hw|exact Hk|congruence|exact Hp|exact Hkp]. by intros ->.
Qed.

Lemma write_path_keeps uid gid w parts content message :
  keeps (λ _, True) (WritePath uid gid w parts content message) (λ _ _, True).
Proof.
  unfold WritePath. keeps_run. eapply (keeps_bind _ _ _ (λ _ _, True)); [|intros node; keeps_end].
  destruct a0 as [node|]; [by apply keeps_ret|].
  eapply keeps_weaken; [apply create_entry_keeps| |done]. intros d Hf H. destruct_and!. by eapply resolve_parent_inv.
Qed.

Lemma write_keeps uid gid workspace path content :
  keeps (λ _, True) (WriteFunction uid gid workspace path content) (λ _ _, True).
Proof. unfold WriteFunction. keeps_run. eapply keeps_weaken; [apply write_path_keeps|done|done]. Qed.

(** The test of [RenameFunction] on the paths. *)
Lemma rename_movable w name sps dps sp sn dp dn d : forest d → FindWorkspace name d = Ok w →
  (length sps <? length dps)%nat && bool_decide (take (length sps) dps = sps) = false →
  ResolveParent w sps d = Ok (sp, sn) → ResolveParent w dps d = Ok (dp, dn) →
  movable (ws_id w) (n_id sp) sn (n_id dp) d.
Proof.
  intros Hf (row & Hrow & Hroot)%find_workspace_inv Hguard (Hs & Hws & _)%resolve_parent_inv (Hd & Hwd & Hkd)%resolve_parent_inv.
  split; [done|]. intros i Hi (qs & Hq)%rtc_walk. rewrite Hroot in *.
  assert (Hall : walk d (ws_id w) (int64 (w_root_inode row)) (sps ++ qs) (n_id dp)).
  { eapply walk_app; [|done]. rewrite Hs. by eapply walk_snoc. }
  pose proof (walk_unique _ _ _ _ _ _ Hf Hrow Hall Hwd Hkd) as E. rewrite <- E in Hd.
  assert (dps = sps ++ qs ++ [dn]) as -> by (by rewrite (assoc_L (++))).
  apply andb_false_iff in Hguard as [H%Nat.ltb_ge|H%bool_decide_eq_false].
  - rewrite !length_app in H. simpl in H. lia.
  - apply H. apply take_app_length.
Qed.

Lemma drop_existing_keeps ws p n node (P : Db → Prop) :
  (∀ d, P d → P (on_dentries (delete (ws, p, n)) d)) → Stable P →
  keeps P (delete_dentry ws p n ≫= λ _, drop_node ws node) (λ _, P).
Proof.
  intros Hdel Hst. eapply keeps_bind; [by apply delete_dentry_keeps|intros []]. apply keeps_quiet; [auto with frame|done].
Qed.

Lemma rename_keeps workspace source destination replace :
  keeps (λ _, True) (RenameFunction workspace source destination replace) (λ _ _, True).
Proof.
  unfold RenameFunction. do 7 keeps_step. keeps_step; [by apply keeps_ret|].
  do 2 keeps_step. destruct a7 as [source_parent source_name]. keeps_step. destruct a7 as [source_node|]; [|apply keeps_throw].
  keeps_step. destruct a7 as [destination_parent destination_name]. keeps_step.
  set (P := movable (ws_id a0) (n_id source_parent) source_name (n_id destination_parent)).
  apply (keeps_bind _ _ _ (λ _, P)).
  - apply (keeps_weaken _ P _ _ (λ _, P)); [|intros d Hf H; destruct_and!; by eapply rename_movable|done].
    destruct a7 as [existing|]; [|by apply keeps_ret]. do 4 keeps_step.
    eapply keeps_weaken; [apply (drop_existing_keeps _ _ _ _ P)| |done]; [|apply _|tauto].
    intros d. apply movable_unlink.
  - intros []. eapply keeps_bind; [apply move_dentry_keeps|intros []; keeps_end].
Qed.

Lemma remove_keeps workspace path recursive : keeps (λ _, True) (RemoveFunction workspace path recursive) (λ _ _, True).
Proof.
  unfold RemoveFunction. do 6 keeps_step. destruct a4 as [parent name]. keeps_step. destruct a4 as [node|]; [|apply keeps_throw]. do 2 keeps_step.
  eapply (keeps_bind _ _ _ (λ _ _, True)).
  - eapply keeps_weaken; [apply (delete_dentry_keeps _ _ _ (λ _, True))|done|done]; [done|apply _].
  - intros []. keeps_end.
Qed.

Lemma append_keeps workspace inode content : keeps (λ _, True) (AppendFunction workspace inode content) (λ _ _, True).
Proof. unfold AppendFunction. keeps_end. Qed.

Lemma restore_keeps workspace path target expected :
  keeps (λ _, True) (RestoreVersionFunction workspace path target expected) (λ _ _, True).
Proof. unfold RestoreVersionFunction. keeps_end. Qed.

(** A new workspace starts without a root. *)
Lemma forest_new_workspace d ws row : forest d → w_root_inode row = None → forest (on_workspaces (insert ws row) d).
Proof.
  intros [Hp Hi Hu Hr Hd Hpos Ha] Hnone. split; simpl; try done.
  - intros ws' row' p n [[<- <-]|[_ H]]%lookup_insert_Some; [|by apply (Hr ws')]. rewrite Hnone. simpl. intros E.
    assert (0 < 0) by (apply Hpos, kind_at_is_Some; exact (Hi _ _ _ _ E)). lia.
  - intros ws' row' i [[<- <-]|[_ H]]%lookup_insert_Some; [congruence|by apply (Hd ws')].
Qed.

Lemma forest_set_root d ws i : forest d → kind_at d i = Some KDirectory → unlinked d i →
  forest (on_workspaces (alter (set_root i) ws) d).
Proof.
  intros [Hp Hi Hu Hr Hd Hpos Ha] Hk (U1 & _ & _). split; simpl; try done.
  - intros ws' row p n. rewrite lookup_alter. case_decide; [subst|apply Hr].
    destruct (workspaces d !! ws') as [w0|]; [|done]. intros [= <-]. apply U1.
  - intros ws' row x. rewrite lookup_alter. case_decide; [subst|apply Hd].
    destruct (workspaces d !! ws') as [w0|]; [|done]. intros [= <-] [= <-]. done.
Qed.

Lemma workspace_create_keeps uid gid workspace : keeps (λ _, True) (WorkspaceCreateFunction uid gid workspace) (λ _ _, True).
Proof.
  unfold WorkspaceCreateFunction. do 2 keeps_step. apply keeps_with_db. intros d0.
  destruct (FindWorkspace a d0); [by apply keeps_ret|].
  apply (keeps_bind _ _ _ (λ _ _, True)).
  { intros d Hf _. unfold insert_workspace, with_db. destruct (existsb _ _); [done|]. split; [|done].
    by apply forest_new_workspace. }
  intros ws. apply (keeps_bind _ _ _ (λ root d, kind_at d root = Some KDirectory ∧ unlinked d root)).
  { intros d Hf _. pose proof (create_inode_spec uid gid ws KDirectory 493 d Hf) as H.
    destruct (CreateInode uid gid ws KDirectory 493 d) as [[]?]; naive_solver. }
  intros root. apply (keeps_bind _ _ _ (λ _ _, True)).
  { intros d Hf [Hk Hu]. split; [by apply forest_set_root|done]. }
  intros []. apply keeps_quiet_last. unfold insert_acl. quiet.
Qed.

#[export] Instance stable_linkable ws p i : Stable (λ d, linkable d ws p i).
Proof.
  intros d d' [D K R] [Lp Li Lr Ls La]. split; rewrite ?K, ?D; try done.
  - intros row Hrow. specialize (R ws). rewrite Hrow in R. destruct (workspaces d !! ws) as [row0|]; [|done].
    injection R as ->. by apply Lr.
  - intros Ht. apply La. revert Ht. apply rtc_mono. unfold child. by rewrite D.
Qed.

Lemma create_inode_linkable uid gid ws ws' kind mode p :
  keeps (λ d, kind_at d p = Some KDirectory) (CreateInode uid gid ws kind mode) (λ id d, linkable d ws' p id).
Proof.
  intros d Hf Hp. pose proof (create_inode_spec uid gid ws kind mode d Hf) as Hc.
  destruct (CreateInode uid gid ws kind mode d) as [[id|e] d1]; [|done].
  destruct Hc as (Hf1 & Hk & Hu & Hold). destruct (Hold p) as [Hne Hkp]; [rewrite Hp; eauto|].
  split; [done|]. eapply unlinked_linkable; [by rewrite Hkp|done|done|done].
Qed.

Lemma handle_create_keeps uid gid handle_id workspace path mode owner request session :
  keeps (λ _, True) (HandleCreateFunction uid gid handle_id workspace path mode owner request session) (λ _ _, True).
Proof.
  unfold HandleCreateFunction. do 7 keeps_step. cbv zeta. keeps_step. destruct a6; [| |by apply keeps_ret].
  all: do 3 keeps_step; apply keeps_savepoint; keeps_step; eapply keeps_bind; [apply new_path_keeps|intros [parent name]];
    eapply keeps_bind;
    [eapply keeps_weaken; [apply (create_inode_linkable _ _ _ (ws_id a6) _ _ (n_id parent))
      |intros d Hf H; destruct_and!; by eapply resolve_parent_inv|done]|].
  all: intros id; eapply keeps_bind; [apply keeps_quiet; [quiet|apply _]|intros []];
    eapply keeps_bind; [apply add_dentry_links|intros []; keeps_end].
Qed.

Lemma handle_open_keeps uid gid handle_id workspace path flags request session :
  keeps (λ _, True) (HandleOpenFunction uid gid handle_id workspace path flags request session) (λ _ _, True).
Proof.
  unfold HandleOpenFunction. do 5 keeps_step. cbv zeta. keeps_step. destruct a4; [| |by apply keeps_ret].
  all: do 4 keeps_step; apply (keeps_bind _ _ _ (λ _ _, True)); [|intros node; keeps_end].
  all: unfold open_node; keeps_step; destruct a8 as [node|]; [by apply keeps_ret|]; keeps_step;
    apply (keeps_bind _ _ _ (λ _ _, True)); [eapply keeps_weaken; [apply write_path_keeps|done|done]|intros ?; keeps_end].
Qed.

(** The functions on an open handle do not touch names. *)
Lemma quiet_replayed request operation fingerprint work : quiet work → quiet (replayed request operation fingerprint work).
Proof. intros. unfold replayed. quiet. Qed.
Ltac quiet_function := repeat first [progress quiet | apply quiet_replayed].

Lemma handle_functions_quiet :
  (∀ h o c q, quiet (HandleStageWriteFunction h o c q)) ∧ (∀ h c q, quiet (HandleAppendFunction h c q)) ∧
  (∀ h s q, quiet (HandleTruncateFunction h s q)) ∧ (∀ h g u q, quiet (HandlePublishFunction h g u q)) ∧
  (∀ h g u, quiet (HandlePublishCloseFunction h g u)) ∧ (∀ h b q, quiet (HandleCloseFunction h b q)).
Proof.
  unfold HandleStageWriteFunction, HandleAppendFunction, HandleTruncateFunction, HandlePublishFunction, PublishHandle,
    HandlePublishCloseFunction, HandleCloseFunction.
  split_and!; intros; quiet_function.
Qed.
