(* ===== verification/VexfsForestTop.v ===== *)
(** * Reachable databases and recursive removal

    Every database that calls of the modelled functions and collections of versions can
    produce from an empty one (restoring a snapshot is not among them) is a forest, and
    on a forest the recursive query of [TombstoneTree] ends and finds exactly what lies
    below a directory. *)
From Stdlib Require Import ZArith Lia String.
From stdpp Require Import prelude gmap.
From S2P Require Import Prelude Sha256 VexfsText VexfsDb VexfsTree VexfsStore VexfsStaging VexfsHandles VexfsNames VexfsGrepIndex VexfsMetadata VexfsHistory VexfsSnapshots VexfsRetention VexfsSessions VexfsFrame VexfsService VexfsForest VexfsForestOps.

Local Open Scope Z_scope.
Implicit Types d : Db.

(** ** Sequences of calls *)

(** A call of one of the SQL functions with its arguments, or the passing of time. *)
Inductive call :=
| CWorkspaceCreate (uid gid : Z) (workspace : option bytes)
| CMkdir (uid gid : Z) (workspace path : option bytes)
| CCreate (uid gid : Z) (workspace path kind : option bytes) (mode : sqlite_value)
| CSymlink (uid gid : Z) (workspace path target : option bytes)
| CHardlink (workspace source destination : option bytes)
| CWrite (uid gid : Z) (workspace path content : option bytes)
| CAppend (workspace : option bytes) (inode : sqlite_value) (content : option bytes)
| CRestore (workspace path : option bytes) (target expected : sqlite_value)
| CRename (workspace source destination : option bytes) (replace : bool)
| CRemove (workspace path : option bytes) (recursive : bool)
| CHandleCreate (uid gid : Z) (handle_id : bytes) (workspace path : option bytes) (mode : sqlite_value)
    (owner : option (sqlite_value * sqlite_value)) (request : option bytes) (session : option (option bytes))
| CHandleOpen (uid gid : Z) (handle_id : bytes) (workspace path flags request : option bytes) (session : option (option bytes))
| CStageWrite (handle : option bytes) (offset : Z) (content request : option bytes)
| CHandleAppend (handle content request : option bytes)
| CTruncate (handle : option bytes) (size : Z) (request : option bytes)
| CPublish (handle : option bytes) (generation : Z) (durability request : option bytes)
| CPublishClose (handle : option bytes) (generation : Z) (durability : option bytes)
| CClose (handle : option bytes) (retain : bool) (request : option bytes)
| CEnableIndex (fts5 : bool)
| CDisableIndex (fts5 : bool)
| CService (s : service)
| CTick (now : Z).

Definition set_clock (now : Z) (d : Db) : Db :=
  mkDb (tree_of d) (history_of d) (content_of d) (sessions_of d) (meta d) (content_fts d) (grep_index d) now.

(** The database a call leaves behind, whatever it returns. *)
Definition run_call (c : call) (d : Db) : Db :=
  match c with
  | CWorkspaceCreate uid gid w => (WorkspaceCreateFunction uid gid w d).2
  | CMkdir uid gid w p => (MkdirFunction uid gid w p d).2
  | CCreate uid gid w p k m => (CreateFunction uid gid w p k m d).2
  | CSymlink uid gid w p t => (SymlinkFunction uid gid w p t d).2
  | CHardlink w s t => (HardlinkFunction w s t d).2
  | CWrite uid gid w p c => (WriteFunction uid gid w p c d).2
  | CAppend w i c => (AppendFunction w i c d).2
  | CRestore w p t e => (RestoreVersionFunction w p t e d).2
  | CRename w s t r => (RenameFunction w s t r d).2
  | CRemove w p r => (RemoveFunction w p r d).2
  | CHandleCreate uid gid h w p m o q s => (HandleCreateFunction uid gid h w p m o q s d).2
  | CHandleOpen uid gid h w p f q s => (HandleOpenFunction uid gid h w p f q s d).2
  | CStageWrite h o c q => (HandleStageWriteFunction h o c q d).2
  | CHandleAppend h c q => (HandleAppendFunction h c q d).2
  | CTruncate h s q => (HandleTruncateFunction h s q d).2
  | CPublish h g u q => (HandlePublishFunction h g u q d).2
  | CPublishClose h g u => (HandlePublishCloseFunction h g u d).2
  | CClose h r q => (HandleCloseFunction h r q d).2
  | CEnableIndex f => (EnableGrepIndex f d).2
  | CDisableIndex f => (DisableGrepIndex f d).2
  | CService s => run_service s d
  | CTick now => set_clock now d
  end.

Definition run_calls (cs : list call) (d : Db) : Db := foldl (λ d c, run_call c d) d cs.

(** A database right after its schema has been created. *)
Definition empty_db (now : Z) : Db :=
  mkDb (mkTreeTables ∅ ∅ ∅ ∅ ∅) (mkHistoryTables ∅ ∅ ∅ ∅ ∅ ∅ ∅ ∅ ∅ ∅) (mkContentTables ∅ ∅ ∅ ∅) (mkSessionsTables ∅ ∅ ∅ ∅ ∅)
    ∅ ∅ kDisabled now.

Lemma empty_forest now : forest (empty_db now).
Proof.
  split.
  - by intros ws p n i H.
  - by intros ws p n i H.
  - by intros ws p n p' n' i H.
  - by intros ws row p n H.
  - by intros ws row i H.
  - by intros i [x H].
  - intros ws i Ht. inversion Ht as [? ? [n H]|? y ? [n H]]; done.
Qed.

Lemma keeps_forest {A} (m : M A) d Q : keeps (λ _, True) m Q → forest d → forest (m d).2.
Proof. intros Hk Hf. specialize (Hk d Hf I). destruct (m d) as [[] ?]; naive_solver. Qed.

Lemma quiet_keeps_forest {A} (m : M A) d : quiet m → forest d → forest (m d).2.
Proof. intros Hq. by eapply quiet_forest. Qed.

Lemma run_call_forest c d : forest d → forest (run_call c d).
Proof.
  destruct handle_functions_quiet as (Q1 & Q2 & Q3 & Q4 & Q5 & Q6).
  destruct c; simpl; intros Hf.
  - eapply keeps_forest; [apply workspace_create_keeps|done].
  - eapply keeps_forest; [apply mkdir_keeps|done].
  - eapply keeps_forest; [apply create_keeps|done].
  - eapply keeps_forest; [apply symlink_keeps|done].
  - eapply keeps_forest; [apply hardlink_keeps|done].
  - eapply keeps_forest; [apply write_keeps|done].
  - eapply keeps_forest; [apply append_keeps|done].
  - eapply keeps_forest; [apply restore_keeps|done].
  - eapply keeps_forest; [apply rename_keeps|done].
  - eapply keeps_forest; [apply remove_keeps|done].
  - eapply keeps_forest; [apply handle_create_keeps|done].
  - eapply keeps_forest; [apply handle_open_keeps|done].
  - by apply quiet_keeps_forest.
  - by apply quiet_keeps_forest.
  - by apply quiet_keeps_forest.
  - by apply quiet_keeps_forest.
  - by apply quiet_keeps_forest.
  - by apply quiet_keeps_forest.
  - apply quiet_keeps_forest; [apply frames_enable_index|done].
  - apply quiet_keeps_forest; [apply frames_disable_index|done].
  - eapply quiet_forest; [apply run_service_frames|done].
  - eapply quiet_forest; [|done]. by split.
Qed.

(** A call, or a collection of versions. *)
Inductive event :=
| ECall (c : call)
| EGc (workspace : option bytes) (batch : sqlite_value).

Definition run_event (e : event) (d : Db) : Db :=
  match e with
  | ECall c => run_call c d
  | EGc workspace batch => (GcFunction workspace batch d).2
  end.
Definition run_events (es : list event) (d : Db) : Db := foldl (λ d e, run_event e d) d es.

Lemma quiet_gc workspace batch : quiet (GcFunction workspace batch).
Proof. unfold GcFunction. quiet. Qed.

Lemma run_event_forest e d : forest d → forest (run_event e d).
Proof. destruct e; simpl; [apply run_call_forest|apply quiet_keeps_forest, quiet_gc]. Qed.

Lemma run_events_forest es : ∀ d, forest d → forest (run_events es d).
Proof. induction es as [|e es IH]; intros d Hf; [done|]. by apply IH, run_event_forest. Qed.

(** C5: the directories of every workspace stay a tree. Take a new database and any
    sequence of calls of the modelled SQL functions that create, write, link, rename,
    remove, open, publish, set metadata or policies, take or drop snapshots, manage
    sessions, or collect versions, with whatever arguments and whichever of them throw;
    only [vexfs_snapshot_restore], which writes a tree anew from the history, is not
    among them. Then no entry leads back to itself, no directory has two names, the root
    of a workspace has none, and every entry is in a directory that exists and names an
    inode that exists. *)
Theorem names_stay_a_forest now es :
  let d := run_events es (empty_db now) in
  (∀ ws i, ¬ tc (child d ws) i i) ∧
  (∀ ws p n p' n' i, dentries d !! (ws, p, n) = Some i → dentries d !! (ws, p', n') = Some i →
    kind_at d i = Some KDirectory → (p, n) = (p', n')) ∧
  (∀ ws row p n, workspaces d !! ws = Some row → dentries d !! (ws, p, n) ≠ Some (int64 (w_root_inode row))) ∧
  (∀ ws p n i, dentries d !! (ws, p, n) = Some i → kind_at d p = Some KDirectory ∧ is_Some (kind_at d i)).
Proof.
  intros d. destruct (run_events_forest es (empty_db now) (empty_forest now)) as [Hp Hi Hu Hr _ _ Ha]. fold d in Hp, Hi, Hu, Hr, Ha.
  split_and!; [done|done|done|]. intros ws p n i H. eauto.
Qed.

(** ** The recursive query *)

Lemma elem_of_entries ws p d i : i ∈ children ws p d ↔ child d ws p i.
Proof.
  unfold children, child. rewrite list_elem_of_omap. split.
  - intros ([[[w q] n] j] & Hin%elem_of_map_to_list & Hif).
    destruct (Z.eqb_spec w ws) as [->|]; [|done]. destruct (Z.eqb_spec q p) as [->|]; [|done]. injection Hif as <-. by exists n.
  - intros [n Hn%elem_of_map_to_list]. eexists. split; [done|]. simpl. by rewrite !Z.eqb_refl.
Qed.

(** Without cycles a chain of entries visits different inodes. *)
Lemma chain_targets d ws : (∀ i, ¬ tc (child d ws) i i) → ∀ n x y, nsteps (child d ws) n x y →
  ∃ l, length l = n ∧ NoDup l ∧ ∀ z, z ∈ l → tc (child d ws) x z ∧ z ∈ (map_to_list (dentries d)).*2.
Proof.
  intros Ha. induction n as [|n IH]; intros x y Hs.
  - exists []. split_and!; [done|constructor|]. intros z []%not_elem_of_nil.
  - inversion Hs as [|? ? z ? Hxz Hs']; subst. destruct (IH z y Hs') as (l & Hl & Hnd & Hz).
    exists (z :: l). split_and!; [simpl; lia| |].
    + constructor; [|done]. intros Hin. apply (Ha z). by apply Hz.
    + intros w [->|Hw]%elem_of_cons.
      * split; [by apply tc_once|]. destruct Hxz as [m Hm%elem_of_map_to_list]. apply list_elem_of_fmap. by exists (ws, x, m, z).
      * destruct (Hz w Hw). split; [by eapply tc_l|done].
Qed.

Lemma chain_short d ws n x y : forest d → nsteps (child d ws) n x y → (n ≤ size (dentries d))%nat.
Proof.
  intros Hf Hs. destruct (chain_targets d ws (fo_acyclic _ Hf ws) n x y Hs) as (l & <- & Hnd & Hl).
  rewrite <- length_map_to_list, <- (length_fmap snd). apply submseteq_length, NoDup_submseteq; [done|]. intros z Hz. by apply Hl.
Qed.

Lemma tree_rows_ends d ws fuel : ∀ level,
  (∀ p n y, p ∈ level → nsteps (child d ws) n p y → (n < fuel)%nat) →
  ∃ ids, tree_rows fuel ws level d = Some ids ∧ ∀ i, i ∈ ids ↔ ∃ p, p ∈ level ∧ rtc (child d ws) p i.
Proof.
  induction fuel as [|fuel IH]; intros level Hlevel.
  - destruct level as [|p level].
    + exists []. split; [done|]. intros i. split; [by intros ?%not_elem_of_nil|by intros (? & ?%not_elem_of_nil & _)].
    + specialize (Hlevel p 0%nat p ltac:(left) ltac:(constructor)). lia.
  - destruct level as [|p0 level0] eqn:El.
    { exists []. split; [done|]. intros i. split; [by intros ?%not_elem_of_nil|by intros (? & ?%not_elem_of_nil & _)]. }
    rewrite <- El in *. set (next := p ← level; children ws p d).
    assert (Hnext : ∀ q, q ∈ next ↔ ∃ p, p ∈ level ∧ child d ws p q).
    { intros q. unfold next. rewrite list_elem_of_bind. setoid_rewrite elem_of_entries. naive_solver. }
    destruct (IH next) as (ids & Hids & Hspec).
    { intros q n y (p & Hp & Hpq)%Hnext Hn. specialize (Hlevel p (S n) y Hp). assert (S n < S fuel)%nat; [|lia].
      apply Hlevel. by econstructor. }
    exists (level ++ ids). split.
    + rewrite El. cbn [tree_rows]. rewrite <- El. fold next. by rewrite Hids.
    + intros i. rewrite elem_of_app, Hspec. split.
      * intros [Hi|(q & (p & Hp & Hpq)%Hnext & Hq)]; [exists i; by split|exists p; split; [done|by eapply rtc_l]].
      * intros (p & Hp & Hr). inversion Hr as [|? q ? Hpq Hq]; subst; [by left|right]. exists q. split; [apply Hnext|]; eauto.
Qed.

(** The query of [TombstoneTree] ends with the inodes below a directory. *)
Lemma subtree_found d ws inode : forest d →
  ∃ ids, tree_rows (S (size (dentries d))) ws [inode] d = Some ids ∧ ∀ i, i ∈ ids ↔ rtc (child d ws) inode i.
Proof.
  intros Hf. destruct (tree_rows_ends d ws (S (size (dentries d))) [inode]) as (ids & Hids & Hspec).
  - intros p n y ->%list_elem_of_singleton Hn. pose proof (chain_short _ _ _ _ _ Hf Hn). lia.
  - exists ids. split; [done|]. intros i. rewrite Hspec. setoid_rewrite list_elem_of_singleton. naive_solver.
Qed.
