(* ===== verification/VexfsRemove.v ===== *)
(** * Removing

    What [RemoveFunction] does to a directory and to a file: which rows it deletes,
    which it leaves alone, and that the path is gone. *)
From Stdlib Require Import ZArith Lia String.
From stdpp Require Import prelude gmap.
From S2P Require Import Prelude Sha256 VexfsText VexfsDb VexfsTree VexfsStore VexfsQuota VexfsVersion VexfsStaging VexfsHandles VexfsNames VexfsForest VexfsForestOps VexfsForestTop.

Local Open Scope Z_scope.
Implicit Types d : Db.

(** ** Tombstones *)

(** What an inode row becomes when the inodes in [P] of a workspace are deleted. *)
Definition tombstoned (P : Z → bool) (ws now : Z) (i : Z) (r : inode_row) : inode_row :=
  if P i && (i_workspace r =? ws) then set_tombstone now r else r.

(** The inode table after the deletion; nothing else of the tree but the counters. *)
Record deletes (P : Z → bool) (ws : Z) (d d' : Db) : Prop := {
  dl_inodes : ∀ i, inodes d' !! i = tombstoned P ws (clock_seconds d) i <$> inodes d !! i;
  dl_counted : counted d';
  dl_quiet : quiet_rel d d';
  dl_clock : clock d' = clock d;
}.

Lemma deletes_nothing P ws d : (∀ i r, inodes d !! i = Some r → P i && (i_workspace r =? ws) = false) → counted d → deletes P ws d d.
Proof.
  intros HP Hct. split; [|done|done|done]. intros i. destruct (inodes d !! i) as [r|] eqn:Hr; [|done].
  simpl. unfold tombstoned. by rewrite (HP i r Hr).
Qed.

Lemma deletes_one id r ws d : counted d → inodes d !! id = Some r → i_workspace r = ws →
  update_inode id r (set_tombstone (clock_seconds d) r) d = (Ok (), replaced id r (set_tombstone (clock_seconds d) r) d) ∧
  deletes (Z.eqb id) ws d (replaced id r (set_tombstone (clock_seconds d) r) d).
Proof.
  intros Hct Hr Hws. pose proof (ct_sizes _ Hct _ _ Hr) as Hs.
  assert (Hrun : update_inode id r (set_tombstone (clock_seconds d) r) d = (Ok (), replaced id r (set_tombstone (clock_seconds d) r) d))
    by by apply update_inode_run.
  split; [done|]. split; [|by apply replaced_counted| |done].
  - intros i. simpl. unfold tombstoned. destruct (Z.eqb_spec id i) as [<-|Hne].
    + rewrite lookup_insert_eq, Hr. simpl. by rewrite Hws, Z.eqb_refl.
    + rewrite lookup_insert_ne by done. by destruct (inodes d !! i).
  - pose proof (quiet_update_inode id r (set_tombstone (clock_seconds d) r) d Hr eq_refl) as Hq. by rewrite Hrun in Hq.
Qed.

Lemma deletes_trans P Q ws d1 d2 d3 : deletes P ws d1 d2 → deletes Q ws d2 d3 → deletes (λ i, P i || Q i) ws d1 d3.
Proof.
  intros [I1 C1 Q1 K1] [I2 C2 Q2 K2]. split; [|done|by etrans|congruence].
  intros i. rewrite I2, I1. unfold clock_seconds. rewrite K1. destruct (inodes d1 !! i) as [r|]; [|done]. simpl. f_equal.
  unfold tombstoned. destruct (P i), (Q i), (i_workspace r =? ws) eqn:E; simpl; rewrite ?E; done.
Qed.

Lemma deletes_ext P Q ws d d' : (∀ i, P i = Q i) → deletes P ws d d' → deletes Q ws d d'.
Proof. intros HPQ [I C Qr K]. split; [|done|done|done]. intros i. rewrite I. unfold tombstoned. by rewrite HPQ. Qed.

Lemma tombstone_rows_run ws ids : ∀ d, counted d →
  ∃ d', tombstone_rows ws ids d = (Ok (), d') ∧ deletes (λ i, bool_decide (i ∈ ids)) ws d d'.
Proof.
  induction ids as [|id ids IH]; intros d Hct.
  { exists d. split; [done|]. apply deletes_nothing; [|done]. intros i r _. rewrite bool_decide_eq_false_2; [done|]. by intros ?%not_elem_of_nil. }
  assert (∃ d1, (with_db (λ d, match inodes d !! id with
      | Some r => if i_workspace r =? ws then update_inode id r (set_tombstone (clock_seconds d) r) else mret ()
      | None => mret () end) d = (Ok (), d1)) ∧ deletes (Z.eqb id) ws d d1) as (d1 & Hrun1 & Hd1).
  { unfold with_db. destruct (inodes d !! id) as [r|] eqn:Hr.
    - destruct (Z.eqb_spec (i_workspace r) ws) as [Hws|Hne].
      + destruct (deletes_one id r ws d Hct Hr Hws). eauto.
      + exists d. split; [done|]. apply deletes_nothing; [|done]. intros i r' Hr'. destruct (Z.eqb_spec id i) as [<-|]; [|done].
        simpl. apply Z.eqb_neq. congruence.
    - exists d. split; [done|]. apply deletes_nothing; [|done]. intros i r' Hr'. destruct (Z.eqb_spec id i) as [<-|]; [congruence|done]. }
  destruct (IH d1 (dl_counted _ _ _ _ Hd1)) as (d2 & Hrun2 & Hd2).
  exists d2. split; [cbn [tombstone_rows]; by erewrite bind_eval by exact Hrun1|].
  eapply deletes_ext; [|by eapply deletes_trans]. intros i. simpl.
  destruct (Z.eqb_spec id i) as [<-|Hne]; simpl.
  - symmetry. apply bool_decide_eq_true_2. left.
  - apply bool_decide_ext. rewrite elem_of_cons. naive_solver.
Qed.

Lemma remove_deleted_run ws d : ∃ d', RemoveDeletedFilesFromGrepIndex ws d = (Ok (), d') ∧ tree_of d' = tree_of d ∧ clock d' = clock d.
Proof.
  unfold RemoveDeletedFilesFromGrepIndex, with_db. destruct (grep_index d) eqn:E; [by eexists|by eexists|].
  unfold MarkGrepIndexDirty, with_db. rewrite E. by eexists.
Qed.

Lemma deletes_tree P ws d d' d'' : deletes P ws d d' → tree_of d'' = tree_of d' → clock d'' = clock d' → deletes P ws d d''.
Proof.
  intros [I [Cf Cb Cs] [D K R] Kc] Ht Hc.
  split; [|split|split|congruence]; unfold kind_at in *; rewrite ?Ht; try done; intros; rewrite ?Ht; done.
Qed.

(** [TombstoneTree] deletes exactly what lies below. *)
Lemma tombstone_tree_run ws inode d : forest d → counted d →
  ∃ d' P, TombstoneTree ws inode d = (Ok (), d') ∧ deletes P ws d d' ∧ ∀ i, P i = true ↔ rtc (child d ws) inode i.
Proof.
  intros Hf Hct. destruct (subtree_found d ws inode Hf) as (ids & Hids & Hspec).
  destruct (tombstone_rows_run ws (elements (list_to_set ids : gset Z)) d Hct) as (d1 & Hrun1 & Hd1).
  destruct (remove_deleted_run ws d1) as (d2 & Hrun2 & T2 & K2).
  exists d2, (λ i, bool_decide (i ∈ elements (list_to_set ids : gset Z))). split_and!.
  - unfold TombstoneTree. erewrite bind_eval; [exact Hrun2|]. unfold with_db. rewrite Hids. unfold Savepoint. by rewrite Hrun1.
  - by eapply deletes_tree.
  - intros i. rewrite bool_decide_eq_true, elem_of_elements, elem_of_list_to_set. apply Hspec.
Qed.

Lemma referenced_iff ws inode d : referenced ws inode d = true ↔ ∃ p, child d ws p inode.
Proof.
  unfold referenced, child. rewrite existsb_exists. split.
  - intros ([[[w p] n] i] & Hin & H). apply list_elem_of_In, elem_of_map_to_list in Hin.
    apply andb_true_iff in H as [->%Z.eqb_eq ->%Z.eqb_eq]. eauto.
  - intros (p & n & Hn%elem_of_map_to_list). exists (ws, p, n, inode). split; [by apply list_elem_of_In|].
    by rewrite !Z.eqb_refl.
Qed.

(** [TombstoneIfUnreferenced] deletes a file without a name. *)
Lemma tombstone_unreferenced_run ws inode d : counted d →
  ∃ d', TombstoneIfUnreferenced ws inode d = (Ok (), d') ∧
    deletes (λ i, (i =? inode) && negb (bool_decide (kind_at d inode = Some KDirectory)) && negb (referenced ws inode d)) ws d d'.
Proof.
  intros Hct.
  assert (∃ d1, with_db (λ d, match inodes d !! inode with
      | Some r => if (i_workspace r =? ws) && negb (bool_decide (i_kind r = KDirectory)) && negb (referenced ws inode d)
        then Savepoint (update_inode inode r (set_tombstone (clock_seconds d) r)) else mret ()
      | None => mret () end) d = (Ok (), d1) ∧
    deletes (λ i, (i =? inode) && negb (bool_decide (kind_at d inode = Some KDirectory)) && negb (referenced ws inode d)) ws d d1)
    as (d1 & Hrun1 & Hd1).
  { unfold with_db, kind_at. destruct (inodes d !! inode) as [r|] eqn:Hr.
    - replace (bool_decide (i_kind <$> Some r = Some KDirectory)) with (bool_decide (i_kind r = KDirectory))
        by (apply bool_decide_ext; simpl; split; congruence).
      destruct (Z.eqb_spec (i_workspace r) ws) as [Hws|Hne]; [|exists d; split; [done|apply deletes_nothing; [|done]]].
      + destruct (_ && negb (referenced ws inode d)) eqn:E.
        * destruct (deletes_one inode r ws d Hct Hr Hws) as [Hrun Hd]. eexists. split; [unfold Savepoint; by rewrite Hrun|].
          eapply deletes_ext; [|exact Hd]. intros i. simpl in E. rewrite <- andb_assoc, E, andb_true_r. apply Z.eqb_sym.
        * exists d. split; [done|]. apply deletes_nothing; [|done]. intros i r' _. simpl in E.
          by rewrite <- (andb_assoc (i =? inode)), E, andb_false_r.
      + intros i r' Hr'. destruct (Z.eqb_spec i inode) as [->|]; [|done]. rewrite Hr in Hr'. injection Hr' as <-.
        rewrite (proj2 (Z.eqb_neq _ _) Hne). apply andb_false_r.
    - exists d. split; [done|]. apply deletes_nothing; [|done]. intros i r' Hr'.
      destruct (Z.eqb_spec i inode) as [->|]; [congruence|done]. }
  destruct (remove_deleted_run ws d1) as (d2 & Hrun2 & T2 & K2). exists d2. split; [|by eapply deletes_tree].
  unfold TombstoneIfUnreferenced. by erewrite bind_eval by exact Hrun1.
Qed.

(** ** The function *)

Lemma touch_directory_run ws inode d : counted d →
  ∃ d', TouchDirectory ws inode d = (Ok (), d') ∧ counted d' ∧ quiet_rel d d' ∧ (∀ i, i ≠ inode → inodes d' !! i = inodes d !! i).
Proof.
  intros Hct. unfold TouchDirectory, with_db. destruct (inodes d !! inode) as [r|] eqn:Hr; [|exists d; by split_and!].
  destruct (_ && _); [|exists d; by split_and!]. pose proof (ct_sizes _ Hct _ _ Hr).
  set (new := touch (clock d) (i_size r) (i_version r + 1) r).
  assert (Hrun : update_inode inode r new d = (Ok (), replaced inode r new d)) by by apply update_inode_run.
  pose proof (quiet_update_inode inode r new d Hr eq_refl) as Hq. rewrite Hrun in *.
  eexists. split_and!; [done|by apply replaced_counted|done|]. intros i Hi. simpl. by rewrite lookup_insert_ne.
Qed.

Lemma counted_unlink d k : counted d → counted (on_dentries (delete k) d).
Proof. by intros []. Qed.

Lemma workspace_quiet d d' ws : quiet_rel d d' → is_Some (workspaces d !! ws) → is_Some (workspaces d' !! ws).
Proof. intros [_ _ R]. rewrite <- !(fmap_is_Some w_root_inode). by rewrite R. Qed.

(** The tail of a removal: the entry, the inodes, the parent, the commit. *)
Lemma removal_run w parent name (drop : M ()) P d i :
  counted d → is_Some (workspaces d !! ws_id w) → dentries d !! (ws_id w, n_id parent, name) = Some i →
  (∀ d1, counted d1 → dentries d1 = delete (ws_id w, n_id parent, name) (dentries d) → inodes d1 = inodes d →
    workspaces d1 = workspaces d → clock d1 = clock d → ∃ d2, drop d1 = (Ok (), d2) ∧ deletes P (ws_id w) d1 d2) →
  ∃ d', (delete_dentry (ws_id w) (n_id parent) name ≫= λ _, drop ≫= λ _, TouchDirectory (ws_id w) (n_id parent) ≫= λ _,
      CreateCommit w (str "remove") ≫= λ _, mret 1) d = (Ok 1, d') ∧
    dentries d' = delete (ws_id w, n_id parent, name) (dentries d) ∧ counted d' ∧
    (∀ j, kind_at d' j = kind_at d j) ∧ 
    (∀ j, j ≠ n_id parent → inodes d' !! j = tombstoned P (ws_id w) (clock_seconds d) j <$> inodes d !! j).
Proof.
  intros Hct Hws Hi Hdrop.
  set (d1 := dirty_dentry (ws_id w) (n_id parent) name i (on_dentries (delete (ws_id w, n_id parent, name)) d)).
  assert (Hrun1 : delete_dentry (ws_id w) (n_id parent) name d = (Ok (), d1)) by (unfold delete_dentry, with_db; by rewrite Hi).
  destruct (Hdrop d1) as (d2 & Hrun2 & [I2 C2 Q2 K2]); [by destruct Hct|done..|].
  destruct (touch_directory_run (ws_id w) (n_id parent) d2 C2) as (d3 & Hrun3 & C3 & Q3 & I3).
  assert (Q13 : quiet_rel d1 d3) by by etrans.
  destruct (commit_run w (str "remove") d3) as (c & d4 & Hrun4 & Hc); [by apply (workspace_quiet d1)|].
  exists d4. split_and!.
  - erewrite bind_eval by exact Hrun1. erewrite bind_eval by exact Hrun2. erewrite bind_eval by exact Hrun3.
    erewrite bind_eval by exact Hrun4. done.
  - by rewrite (cm_dentries _ _ _ _ Hc), (qr_dentries _ _ Q13).
  - by eapply committed_counted.
  - intros j. unfold kind_at. rewrite (cm_inodes _ _ _ _ Hc). apply (qr_kinds _ _ Q13).
  - intros j Hj. rewrite (cm_inodes _ _ _ _ Hc), I3, I2 by done. done.
Qed.

Lemma walk_unlink d d' ws k p ns i : dentries d' = delete k (dentries d) → walk d' ws p ns i → walk d ws p ns i.
Proof.
  intros D. induction 1 as [|p n q ns i Hq _ IH]; [constructor|]. rewrite D in Hq. apply lookup_delete_Some in Hq as [_ Hq].
  by econstructor.
Qed.

Lemma walk_det d ws p ns i j : walk d ws p ns i → walk d ws p ns j → i = j.
Proof. intros Hi. revert j. induction Hi as [|p n q ns i Hq _ IH]; inversion 1; [done|]. simplify_eq. by apply IH. Qed.

(** A path whose last entry is gone does not resolve. *)
Lemma path_gone w parts parent name d d' : ResolveParent w parts d = Ok (parent, name) →
  dentries d' = delete (ws_id w, n_id parent, name) (dentries d) → ∀ x, Resolve w parts d' ≠ Ok x.
Proof.
  intros (Hparts & Hw & _)%resolve_parent_inv D x [Hx _]%resolve_walk. rewrite Hparts in Hx.
  apply walk_snoc_inv in Hx as (q & Hq & Hn). pose proof (walk_unlink _ _ _ _ _ _ _ D Hq) as Hq'.
  rewrite (walk_det _ _ _ _ _ _ Hq' Hw) in Hn. by rewrite D, lookup_delete_eq in Hn.
Qed.

(** A path of a workspace that leads to [node], the entry [n] of [parent]. *)
Record located (name path : bytes) (w : Workspace) (parts : list bytes) (parent : Node) (n : bytes) (node : Node) (d : Db) : Prop := {
  lo_workspace : FindWorkspace name d = Ok w;
  lo_parts : PathParts path = Ok parts;
  lo_parent : ResolveParent w parts d = Ok (parent, n);
  lo_child : FindChild (ws_id w) (n_id parent) n d = Some node;
}.

Lemma resolve_parent_nonempty w parts d parent n : ResolveParent w parts d = Ok (parent, n) → parts ≠ [].
Proof. by intros H ->. Qed.

(** The checks of a removal. *)
Lemma remove_prefix name path w parts parent n node recursive d : located name path w parts parent n node d →
  RemoveFunction (Some name) (Some path) recursive d =
  (if bool_decide (n_kind node = KDirectory) && negb recursive && negb (DirectoryIsEmpty (ws_id w) (n_id node) d)
   then throw VEXFS_SQLITE_CONSTRAINT_NOT_EMPTY
   else delete_dentry (ws_id w) (n_id parent) n ≫= λ _, drop_node (ws_id w) node ≫= λ _,
     TouchDirectory (ws_id w) (n_id parent) ≫= λ _, CreateCommit w (str "remove") ≫= λ _, mret 1) d.
Proof.
  intros [Hw Hp Hr Hc]. pose proof (resolve_parent_nonempty _ _ _ _ _ Hr). unfold RemoveFunction.
  erewrite bind_eval by reflexivity. erewrite bind_eval by (unfold query; rewrite Hw; reflexivity).
  erewrite bind_eval by reflexivity. erewrite bind_eval by (unfold lift; rewrite Hp; reflexivity).
  erewrite bind_eval by (by rewrite bool_decide_eq_false_2). erewrite bind_eval by (unfold query; rewrite Hr; reflexivity).
  cbv beta iota. erewrite bind_eval by (unfold query; reflexivity). rewrite Hc. erewrite bind_eval by (unfold query; reflexivity).
  destruct (bool_decide _ && _ && _); [by apply bind_throw|]. by erewrite bind_eval by reflexivity.
Qed.

Lemma located_workspace name path w parts parent n node d : located name path w parts parent n node d →
  is_Some (workspaces d !! ws_id w).
Proof. intros [(row & Hrow & _)%find_workspace_inv _ _ _]. by exists row. Qed.

(** The removal of a directory: its entry goes, and the inodes below it are deleted. *)
Lemma remove_directory_run name path w parts parent n node d :
  forest d → counted d → located name path w parts parent n node d → n_kind node = KDirectory →
  ∃ d' P, RemoveFunction (Some name) (Some path) true d = (Ok 1, d') ∧ counted d' ∧
    dentries d' = delete (ws_id w, n_id parent, n) (dentries d) ∧
    (∀ i, P i = true ↔ rtc (child d' (ws_id w)) (n_id node) i) ∧ P (n_id parent) = false ∧
    (∀ i, i ≠ n_id parent → inodes d' !! i = tombstoned P (ws_id w) (clock_seconds d) i <$> inodes d !! i).
Proof.
  intros Hf Hct Hl Hk. pose proof (located_workspace _ _ _ _ _ _ _ _ Hl) as Hws. rewrite (remove_prefix _ _ _ _ _ _ _ _ _ Hl).
  rewrite (bool_decide_eq_true_2 _ Hk). pose proof Hl as [_ _ Hr Hc]. apply find_child_inv in Hc as [Hn _].
  simpl. unfold drop_node. rewrite (bool_decide_eq_true_2 _ Hk).
  set (d0 := on_dentries (delete (ws_id w, n_id parent, n)) d).
  destruct (subtree_found d0 (ws_id w) (n_id node) (forest_unlink _ _ Hf)) as (ids & _ & Hids).
  destruct (removal_run w parent n (TombstoneTree (ws_id w) (n_id node)) (λ i, bool_decide (i ∈ ids)) d (n_id node) Hct Hws Hn)
    as (d' & Hrun & D & C & _ & I).
  { intros d1 C1 D1 I1 W1 K1. assert (Hf1 : forest d1).
    { eapply (quiet_forest d0); [|by apply forest_unlink]. split; [done| |]; intros; unfold kind_at; by rewrite ?I1, ?W1. }
    destruct (tombstone_tree_run (ws_id w) (n_id node) d1 Hf1 C1) as (d2 & P & Hrun & Hdel & HP).
    exists d2. split; [done|]. eapply deletes_ext; [|done]. intros i. apply eq_true_iff_eq. rewrite HP, bool_decide_eq_true, Hids.
    unfold child. by rewrite D1. }
  assert (Hbelow : ∀ i, rtc (child d' (ws_id w)) (n_id node) i ↔ i ∈ ids) by (intros i; rewrite Hids; unfold child; by rewrite D).
  exists d', (λ i, bool_decide (i ∈ ids)). split_and!; [exact Hrun|done|done| | |done].
  - intros i. by rewrite bool_decide_eq_true, Hbelow.
  - apply bool_decide_eq_false_2. rewrite <- Hbelow. intros Hb. apply (fo_acyclic _ Hf (ws_id w) (n_id parent)).
    eapply tc_rtc_r; [apply tc_once; by exists n|]. revert Hb. apply rtc_mono. intros a b. unfold child. rewrite D.
    intros [m [_ Hm]%lookup_delete_Some]. by exists m.
Qed.

(** C20: removing a directory with everything in it succeeds (the query for what lies
    below it ends): afterwards the path does not resolve, exactly the inodes of the
    workspace below the directory are deleted, the quota counters still equal the
    live totals, and no other inode but the parent has changed. Without the recursive
    flag a directory with live entries is refused and nothing changes. *)
Theorem remove_directory name path w parts parent n node d :
  forest d → counted d → located name path w parts parent n node d → n_kind node = KDirectory →
  (∃ d', RemoveFunction (Some name) (Some path) true d = (Ok 1, d') ∧
    (∀ x, Resolve w parts d' ≠ Ok x) ∧
    (∀ i r, inodes d !! i = Some r → i_workspace r = ws_id w → rtc (child d' (ws_id w)) (n_id node) i →
      ∃ r', inodes d' !! i = Some r' ∧ live r' = false) ∧
    (∀ i, i ≠ n_id parent → ¬ rtc (child d' (ws_id w)) (n_id node) i → inodes d' !! i = inodes d !! i) ∧ counted d') ∧
  (DirectoryIsEmpty (ws_id w) (n_id node) d = false →
    RemoveFunction (Some name) (Some path) false d = (Throw VEXFS_SQLITE_CONSTRAINT_NOT_EMPTY, d)).
Proof.
  intros Hf Hct Hl Hk. split.
  - destruct (remove_directory_run _ _ _ _ _ _ _ _ Hf Hct Hl Hk) as (d' & P & Hrun & C & D & HP & Hparent & I).
    exists d'. split_and!; [exact Hrun|eapply path_gone; [apply Hl|done]| | |done].
    + intros i r Hi Hw Hb%HP. rewrite I, Hi by congruence. simpl. eexists. split; [done|]. unfold tombstoned. by rewrite Hb, Hw, Z.eqb_refl.
    + intros i Hi Hb. rewrite I by done. destruct (inodes d !! i) as [r|]; [|done]. simpl. f_equal. unfold tombstoned.
      destruct (P i) eqn:E; [|done]. by destruct Hb; apply HP.
  - intros Hfull. rewrite (remove_prefix _ _ _ _ _ _ _ _ _ Hl), (bool_decide_eq_true_2 _ Hk), Hfull. done.
Qed.

(** C21: removing a file or symlink takes away one of its names: the path does not
    resolve any more, the inode stays as it is while another name is left and is
    deleted with the last one, and no other inode but the parent changes. *)
Theorem remove_file name path w parts parent n node recursive r d :
  forest d → counted d → located name path w parts parent n node d → n_kind node ≠ KDirectory →
  inodes d !! n_id node = Some r → i_workspace r = ws_id w →
  ∃ d', RemoveFunction (Some name) (Some path) recursive d = (Ok 1, d') ∧
    (∀ x, Resolve w parts d' ≠ Ok x) ∧
    ((∃ p, child d' (ws_id w) p (n_id node)) → inodes d' !! n_id node = Some r) ∧
    (¬ (∃ p, child d' (ws_id w) p (n_id node)) → inodes d' !! n_id node = Some (set_tombstone (clock_seconds d) r)) ∧
    (∀ i, i ≠ n_id node → i ≠ n_id parent → inodes d' !! i = inodes d !! i) ∧ counted d'.
Proof.
  intros Hf Hct Hl Hk Hri Hrw. pose proof (located_workspace _ _ _ _ _ _ _ _ Hl) as Hws. rewrite !(remove_prefix _ _ _ _ _ _ _ _ _ Hl).
  rewrite (bool_decide_eq_false_2 _ Hk). pose proof Hl as [_ _ Hr Hc]. pose proof (find_child_kind _ _ _ _ _ Hc) as Hkn.
  apply find_child_inv in Hc as [Hn _]. simpl. unfold drop_node. rewrite (bool_decide_eq_false_2 _ Hk).
  assert (Hne : n_id node ≠ n_id parent).
  { intros E. apply (fo_parent _ Hf) in Hn. rewrite E in Hkn. congruence. }
  set (d0 := on_dentries (delete (ws_id w, n_id parent, n)) d).
  destruct (removal_run w parent n (TombstoneIfUnreferenced (ws_id w) (n_id node))
    (λ i, (i =? n_id node) && negb (referenced (ws_id w) (n_id node) d0)) d (n_id node) Hct Hws Hn) as (d' & Hrun & D & C & _ & I).
  { intros d1 C1 D1 I1 W1 K1. destruct (tombstone_unreferenced_run (ws_id w) (n_id node) d1 C1) as (d2 & Hrun & Hdel).
    exists d2. split; [done|]. eapply deletes_ext; [|done]. intros i. simpl.
    replace (kind_at d1 (n_id node)) with (Some (n_kind node)) by (unfold kind_at in *; by rewrite I1).
    rewrite bool_decide_eq_false_2 by congruence. simpl. rewrite andb_true_r. unfold referenced. by rewrite D1. }
  assert (Href : referenced (ws_id w) (n_id node) d0 = true ↔ ∃ p, child d' (ws_id w) p (n_id node)).
  { rewrite referenced_iff. unfold child. by rewrite D. }
  exists d'. split_and!; [exact Hrun|by eapply path_gone| | | |done].
  - intros Hex. rewrite I, Hri by done. simpl. unfold tombstoned. by rewrite (proj2 Href Hex), Z.eqb_refl.
  - intros Hno. rewrite I, Hri by done. simpl. unfold tombstoned. rewrite Z.eqb_refl, Hrw, Z.eqb_refl.
    destruct (referenced (ws_id w) (n_id node) d0); [|done]. by destruct Hno; apply Href.
  - intros i Hi Hp. rewrite I by done. destruct (inodes d !! i) as [x|]; [|done]. simpl. unfold tombstoned.
    by destruct (Z.eqb_spec i (n_id node)).
Qed.

(** ** An instance *)

(** The counters of a concrete database are checked by evaluation. *)
Lemma counted_check d :
  map_Forall (λ ws w, w_live_files w = total count_files ws (inodes d) ∧ w_live_bytes w = total count_bytes ws (inodes d)) (workspaces d) →
  map_Forall (λ _ r, 0 <= i_size r) (inodes d) → counted d.
Proof. intros Hw Hs. split; [by intros ws w [? _]%Hw|by intros ws w [_ ?]%Hw|done]. Qed.

Lemma run_calls_forest cs : ∀ d, forest d → forest (run_calls cs d).
Proof. induction cs as [|c cs IH]; intros d Hf; [done|]. apply IH. by apply run_call_forest. Qed.

(** A workspace with the directory [/a], the file [/a/f] and a second name [/g] of it. *)
Definition linked_calls : list call :=
  [CWorkspaceCreate 0 0 (Some (str "w")); CMkdir 0 0 (Some (str "w")) (Some (str "/a"));
   CWrite 0 0 (Some (str "w")) (Some (str "/a/f")) (Some (str "hello"));
   CHardlink (Some (str "w")) (Some (str "/a/f")) (Some (str "/g"))].
Definition linked : Db := run_calls linked_calls (empty_db 5000).

Lemma linked_forest : forest linked.
Proof. apply run_calls_forest, empty_forest. Qed.

Lemma linked_counted : counted linked.
Proof.
  apply counted_check.
  - apply (bool_decide_unpack _). vm_compute. exact I.
  - apply (bool_decide_unpack _). vm_compute. exact I.
Qed.

Definition node_at (i : Z) (d : Db) : Node := default (fresh_node 0 KFile 0) (node_of i <$> inodes d !! i).

Lemma linked_directory : ∃ w, located (str "w") (str "/a") w [str "a"] (node_at 1 linked) (str "a") (node_at 2 linked) linked ∧ ws_id w = 1.
Proof. eexists. split; [split|]; vm_compute; reflexivity. Qed.

Lemma linked_file : ∃ w, located (str "w") (str "/a/f") w [str "a"; str "f"] (node_at 2 linked) (str "f") (node_at 3 linked) linked ∧ ws_id w = 1.
Proof. eexists. split; [split|]; vm_compute; reflexivity. Qed.

Lemma remove_directory_witness :
  ∃ d', RemoveFunction (Some (str "w")) (Some (str "/a")) true linked = (Ok 1, d') ∧ counted d'.
Proof.
  destruct linked_directory as (w & Hl & Hw).
  destruct (proj1 (remove_directory _ _ _ _ _ _ _ linked linked_forest linked_counted Hl ltac:(vm_compute; reflexivity)))
    as (d' & H1 & _ & _ & _ & H2).
  exists d'. split; [exact H1|exact H2].
Defined.

Lemma remove_file_witness :
  ∃ d', RemoveFunction (Some (str "w")) (Some (str "/a/f")) false linked = (Ok 1, d') ∧ counted d'.
Proof.
  destruct linked_file as (w & Hl & Hw).
  destruct (remove_file _ _ w _ _ _ _ false (default demo_file (inodes linked !! 3)) linked linked_forest linked_counted Hl)
    as (d' & H1 & _ & _ & _ & _ & H2); [vm_compute; discriminate|vm_compute; reflexivity|rewrite Hw; vm_compute; reflexivity|].
  exists d'. split; [exact H1|exact H2].
Defined.

(** A recursive removal deletes files that still have a name elsewhere. The file
    [/a/f] has the second name [/g]; removing the name [/a/f] leaves [/g] readable,
    but removing the directory [/a] with its content deletes the file, so that [/g],
    whose entry is still there, is not found any more. *)
Theorem remove_tree_breaks_hard_link :
  let read d := (ReadFunction (Some (str "w")) (Some (str "/g")) d).1 in
  let unlinked := (RemoveFunction (Some (str "w")) (Some (str "/a/f")) false linked).2 in
  let removed := (RemoveFunction (Some (str "w")) (Some (str "/a")) true linked).2 in
  read linked = Ok (str "hello") ∧ read unlinked = Ok (str "hello") ∧
  read removed = Throw SQLITE_NOTFOUND ∧ dentries removed !! (1, 1, str "g") = Some 3.
Proof. vm_compute. done. Qed.
