(* ===== verification/VexfsWriteRead.v ===== *)
(** * Writing a file by path and reading it back *)
From Stdlib Require Import ZArith Lia String.
From stdpp Require Import prelude gmap sorting.
From S2P Require Import Prelude Sha256 Sha256Facts VexfsText VexfsDb VexfsTree VexfsStore VexfsStoreFacts VexfsStoreWrite VexfsQuota VexfsVersion VexfsStaging VexfsHandles VexfsNames VexfsForest VexfsForestOps VexfsForestTop VexfsRemove.

Local Open Scope Z_scope.
Implicit Types d : Db.

(** ** Paths survive *)

(** Entries and inodes stay; an inode keeps its kind, its workspace and its life. *)
Record keeps_nodes (d d' : Db) : Prop := {
  kn_dentries : dentries d ⊆ dentries d';
  kn_inodes : ∀ i r, inodes d !! i = Some r →
    ∃ r', inodes d' !! i = Some r' ∧ i_kind r' = i_kind r ∧ i_deleted r' = i_deleted r ∧ i_workspace r' = i_workspace r;
}.

#[export] Instance keeps_nodes_preorder : PreOrder keeps_nodes.
Proof.
  split; [intros d; split; [done|naive_solver]|]. intros d1 d2 d3 [D1 I1] [D2 I2]. split; [by etrans|].
  intros i r Hr. destruct (I1 i r Hr) as (r2 & Hr2 & ? & ? & ?). destruct (I2 i r2 Hr2) as (r3 & Hr3 & ? & ? & ?).
  exists r3. split_and!; [done|congruence..].
Qed.

Definition same_node (a b : Node) : Prop := n_id a = n_id b ∧ n_kind a = n_kind b.

Lemma find_child_keeps ws p n d d' node : keeps_nodes d d' → FindChild ws p n d = Some node →
  ∃ node', FindChild ws p n d' = Some node' ∧ same_node node' node.
Proof.
  intros [D I] (Hn & r & Hr & Hl & E)%find_child_inv. destruct (I _ _ Hr) as (r' & Hr' & Hk & Hd & _).
  exists (node_of (n_id node) r'). split; [|split; [done|simpl; rewrite Hk; by rewrite E]].
  unfold FindChild. rewrite (lookup_weaken _ _ _ _ Hn D). simpl. rewrite Hr'. simpl. unfold live in *. by rewrite Hd, Hl.
Qed.

Lemma resolve_from_keeps ws parts d d' : keeps_nodes d d' → ∀ a b node, same_node b a →
  resolve_from ws a parts d = Some node → ∃ node', resolve_from ws b parts d' = Some node' ∧ same_node node' node.
Proof.
  intros Hk. induction parts as [|part parts IH]; intros a b node [Hid Hkind]; cbn [resolve_from].
  - intros [= <-]. by exists b.
  - rewrite Hkind, Hid. destruct (negb _); [done|]. destruct (FindChild ws (n_id a) part d) as [c|] eqn:Hc; [|done]. simpl.
    destruct (find_child_keeps _ _ _ _ _ _ Hk Hc) as (c' & -> & Hsame). simpl. by apply IH.
Qed.

Lemma root_node_keeps w d d' root : keeps_nodes d d' → RootNode w d = Ok root → ∃ root', RootNode w d' = Ok root' ∧ same_node root' root.
Proof.
  intros [_ I] (_ & r & Hr & Hl & Hw & ->)%root_node_inv. destruct (I _ _ Hr) as (r' & Hr' & Hk & Hd & Hw').
  exists (node_of (ws_root w) r'). split; [|by split].
  unfold RootNode, live in *. rewrite Hr', Hw', Hd, Hl. by rewrite bool_decide_eq_true_2.
Qed.

Lemma resolve_keeps w parts d d' node : keeps_nodes d d' → Resolve w parts d = Ok node →
  ∃ node', Resolve w parts d' = Ok node' ∧ same_node node' node.
Proof.
  intros Hk. unfold Resolve, TryResolve. destruct (RootNode w d) as [root|] eqn:Hroot; [|done].
  destruct (root_node_keeps _ _ _ _ Hk Hroot) as (root' & -> & Hs).
  destruct (resolve_from (ws_id w) root parts d) as [x|] eqn:Hx; [|done]. intros [= <-].
  destruct (resolve_from_keeps _ _ _ _ Hk _ _ _ Hs Hx) as (x' & -> & ?). eauto.
Qed.

Lemma resolve_from_snoc ws n d : ∀ ps a p, resolve_from ws a ps d = Some p → n_kind p = KDirectory →
  resolve_from ws a (ps ++ [n]) d = FindChild ws (n_id p) n d.
Proof.
  induction ps as [|x ps IH]; intros a p; cbn [resolve_from app].
  - intros [= <-] Hk. rewrite bool_decide_eq_true_2 by done. simpl. by destruct (FindChild _ _ _ _).
  - destruct (negb _); [done|]. destruct (FindChild ws (n_id a) x d) as [c|]; [|done]. simpl. apply IH.
Qed.

Lemma resolve_snoc w ps n d p c : Resolve w ps d = Ok p → n_kind p = KDirectory → FindChild (ws_id w) (n_id p) n d = Some c →
  Resolve w (ps ++ [n]) d = Ok c.
Proof.
  unfold Resolve, TryResolve. destruct (RootNode w d) as [root|]; [|done].
  destruct (resolve_from (ws_id w) root ps d) as [x|] eqn:Hx; [|done]. intros [= <-] Hk Hc.
  by rewrite (resolve_from_snoc _ _ _ _ _ _ Hx Hk), Hc.
Qed.

Lemma resolve_parent_resolve w parts d parent n : ResolveParent w parts d = Ok (parent, n) →
  Resolve w (removelast parts) d = Ok parent ∧ n_kind parent = KDirectory.
Proof.
  unfold ResolveParent. destruct (last parts); [|done]. destruct (Resolve w (removelast parts) d) as [p|]; [|done].
  destruct (bool_decide_reflect (n_kind p = KDirectory)); [|done]. by intros [= <- <-].
Qed.

Lemma resolve_same_workspace w w' parts d : ws_id w' = ws_id w → ws_root w' = ws_root w → Resolve w' parts d = Resolve w parts d.
Proof. destruct w, w'. simpl. by intros -> ->. Qed.

(** ** Workspaces by name *)

Definition names_unique (d : Db) : Prop := ∀ ws ws' row row', workspaces d !! ws = Some row → workspaces d !! ws' = Some row' →
  w_name row = w_name row' → ws = ws'.

Lemma find_workspace_iff name d w : names_unique d → FindWorkspace name d = Ok w ↔
  ∃ row, workspaces d !! ws_id w = Some row ∧ w_name row = name ∧ w_active row = true ∧ w = workspace_of (ws_id w) row.
Proof.
  intros Hu. unfold FindWorkspace.
  assert (Hin : ∀ id row, (id, row) ∈ filter (λ '(_, w), w_name w = name ∧ w_active w = true) (map_to_list (workspaces d)) ↔
    workspaces d !! id = Some row ∧ w_name row = name ∧ w_active row = true).
  { intros id row. rewrite list_elem_of_filter, elem_of_map_to_list. naive_solver. }
  destruct (filter _ _) as [|[id row] l].
  - split; [done|]. intros (row & Hrow & Hn & Ha & _).
    assert (H : (ws_id w, row) ∈ ([] : list (Z * workspace_row))) by (by apply Hin). by apply not_elem_of_nil in H.
  - assert (workspaces d !! id = Some row ∧ w_name row = name ∧ w_active row = true) as (Hrow & Hn & Ha) by (apply Hin; left).
    split.
    + intros [= <-]. simpl. eauto.
    + intros (row' & Hrow' & Hn' & Ha' & E). assert (id = ws_id w) as Hid by (eapply Hu; [done|done|congruence]).
      rewrite E. subst id. simplify_eq. done.
Qed.

Lemma find_workspace_policies name d d' w : same_policies d d' → names_unique d → FindWorkspace name d = Ok w →
  ∃ w', FindWorkspace name d' = Ok w' ∧ ws_id w' = ws_id w ∧ ws_root w' = ws_root w.
Proof.
  intros Hp Hu (row & Hrow & Hn & Ha & E)%find_workspace_iff; [|done].
  destruct (policy_row _ _ _ _ Hp Hrow) as (row' & Hrow' & [= Pn Pa Pr _ _ _]).
  exists (workspace_of (ws_id w) row'). split_and!; [|done|rewrite E; simpl; by rewrite Pr].
  apply find_workspace_iff; [|exists row'; split_and!; [done|congruence|congruence|done]].
  intros a b ra rb Hra Hrb Heq.
  assert (Hold : ∀ i r', workspaces d' !! i = Some r' → ∃ r, workspaces d !! i = Some r ∧ w_name r = w_name r').
  { intros i r' Hr'. specialize (Hp i). rewrite Hr' in Hp. destruct (workspaces d !! i) as [r|]; [|done].
    injection Hp as Hpn _ _ _ _ _. by exists r. }
  destruct (Hold a ra Hra) as (r1 & ? & ?), (Hold b rb Hrb) as (r2 & ? & ?). eapply Hu; [done|done|congruence].
Qed.

(** ** A new entry *)

(** The limits of a workspace and what it holds against them. *)
Definition space (row : workspace_row) := (policy row, w_live_bytes row).
Definition same_space (d d' : Db) : Prop := ∀ ws, space <$> workspaces d' !! ws = space <$> workspaces d !! ws.

Lemma space_row d d' ws row : same_space d d' → workspaces d !! ws = Some row →
  ∃ row', workspaces d' !! ws = Some row' ∧ space row' = space row.
Proof.
  intros Hs Hrow. specialize (Hs ws). rewrite Hrow in Hs. destruct (workspaces d' !! ws) as [row'|]; [|done].
  exists row'. split; [done|]. by apply (inj Some) in Hs.
Qed.

Lemma same_space_policies d d' : same_space d d' → same_policies d d'.
Proof.
  intros Hs ws. specialize (Hs ws). destruct (workspaces d' !! ws), (workspaces d !! ws); try done.
  apply (inj Some) in Hs. apply (f_equal fst) in Hs. by apply (f_equal Some).
Qed.

Lemma alter_space d d' f ws : (∀ row, space (f row) = space row) → workspaces d' = alter f ws (workspaces d) → same_space d d'.
Proof.
  intros Hf Heq i. rewrite Heq, lookup_alter. case_decide; [subst|done].
  destruct (workspaces d !! i) as [row|]; [|done]. simpl. by rewrite Hf.
Qed.

(** Names and inodes may be added; contents, sessions and limits stay. *)
Record grows (d d' : Db) : Prop := {
  gr_nodes : keeps_nodes d d';
  gr_space : same_space d d';
  gr_content : content_of d' = content_of d;
  gr_sessions : sessions_of d' = sessions_of d;
  gr_clock : clock d' = clock d;
}.

#[export] Instance grows_preorder : PreOrder grows.
Proof.
  split; [intros d; by split|]. intros d1 d2 d3 [N1 S1 C1 E1 K1] [N2 S2 C2 E2 K2].
  split; [by etrans| |congruence..]. intros ws. by rewrite S2.
Qed.

Lemma insert_inode_grows r d : counted d → i_size r = 0 →
  let id := next_rowid (inodes d) in
  ∃ d', insert_inode r d = (Ok id, d') ∧ grows d d' ∧ counted d' ∧ inodes d' = <[id := r]> (inodes d) ∧ dentries d' = dentries d.
Proof.
  intros Hct Hs id. pose proof (insert_inode_run r d Hct ltac:(lia)) as Hrun. cbv zeta in Hrun. fold id in Hrun.
  eexists. split; [exact Hrun|]. assert (Hfresh : inodes d !! id = None) by (apply next_rowid_none; lia).
  pose proof (insert_inode_counted r d _ _ Hct ltac:(lia) Hrun) as Hct'. split_and!; [|exact Hct'|by destruct (counts r)|by destruct (counts r)].
  split; [split| |by destruct (counts r)..].
  - by destruct (counts r).
  - intros i x Hx. assert (i ≠ id) by congruence. exists x. split; [|done].
    destruct (counts r); simpl; by rewrite lookup_insert_ne.
  - destruct (counts r); [|by intros ws]. eapply (alter_space d _ (add_live 1 (i_size r))); [|reflexivity].
    intros row. unfold space, policy. simpl. by rewrite Hs, Z.add_0_r.
Qed.

Lemma touch_directory_grows ws inode d : counted d →
  ∃ d', TouchDirectory ws inode d = (Ok (), d') ∧ grows d d' ∧ counted d' ∧ dentries d' = dentries d ∧
    (∀ i, i ≠ inode → inodes d' !! i = inodes d !! i).
Proof.
  intros Hct. unfold TouchDirectory, with_db. destruct (inodes d !! inode) as [r|] eqn:Hr; [|exists d; by split_and!].
  destruct (_ && _); [|exists d; by split_and!]. pose proof (ct_sizes _ Hct _ _ Hr).
  set (new := touch (clock d) (i_size r) (i_version r + 1) r).
  exists (replaced inode r new d). split_and!; [by apply update_inode_run| |by apply replaced_counted|done|].
  - split; [split; [done|]| |done..].
    + intros i x Hx. simpl. destruct (decide (i = inode)) as [->|Hne].
      * rewrite lookup_insert_eq. exists new. split; [done|]. by simplify_eq.
      * rewrite lookup_insert_ne by done. by exists x.
    + eapply (alter_space d _ (add_live _ _)); [|reflexivity]. intros row. unfold space, policy. simpl. do 2 f_equal.
      unfold count_bytes, counts. simpl. lia.
  - intros i Hi. simpl. by rewrite lookup_insert_ne.
Qed.

Lemma add_dentry_grows ws p n i d : counted d → dentries d !! (ws, p, n) = None →
  ∃ d', AddDentry ws p n i d = (Ok (), d') ∧ grows d d' ∧ counted d' ∧ dentries d' = <[(ws, p, n) := i]> (dentries d) ∧
    (∀ j, j ≠ p → inodes d' !! j = inodes d !! j).
Proof.
  intros Hct Hnone. set (d1 := inherit_acl ws p i (dirty_dentry ws p n i (on_dentries (insert (ws, p, n) i) d))).
  assert (Hct1 : counted d1) by by destruct Hct.
  destruct (touch_directory_grows ws p d1 Hct1) as (d' & Hrun & Hg & Hct' & D & I).
  exists d'. split_and!; [|etrans; [|exact Hg]|done|by rewrite D|done].
  - unfold AddDentry. erewrite bind_eval; [erewrite bind_eval by reflexivity; exact Hrun|].
    unfold insert_dentry, with_db. rewrite Hnone. done.
  - split; [split| |done..]; [simpl; by apply insert_subseteq|by intros j r Hr; exists r|by intros w].
Qed.

(** A new inode with its entry, when the file quota has room and the name is free. *)
Lemma create_entry_run uid gid w parent n kind mode d r0 :
  counted d → CheckQuotaForNewInode (ws_id w) kind d = Ok () → inodes d !! n_id parent = Some r0 →
  dentries d !! (ws_id w, n_id parent, n) = None →
  let id := next_rowid (inodes d) in
  ∃ d', create_entry uid gid w parent n kind mode d = (Ok (fresh_node id kind mode), d') ∧ grows d d' ∧ counted d' ∧
    inodes d' !! id = Some (new_inode_row uid gid (ws_id w) kind mode (clock_seconds d)) ∧
    dentries d' = <[(ws_id w, n_id parent, n) := id]> (dentries d).
Proof.
  intros Hct Hq Hp Hnone id. set (row := new_inode_row uid gid (ws_id w) kind mode (clock_seconds d)).
  destruct (insert_inode_grows row d Hct eq_refl) as (d1 & Hrun1 & G1 & C1 & I1 & D1). fold id in Hrun1, I1.
  destruct (add_dentry_grows (ws_id w) (n_id parent) n id d1 C1) as (d2 & Hrun2 & G2 & C2 & D2 & I2); [by rewrite D1|].
  assert (id ≠ n_id parent). { intros E. assert (inodes d !! id = None) by (apply next_rowid_none; lia). congruence. }
  exists d2. split_and!; [|by etrans|done|by rewrite I2, I1, lookup_insert_eq|by rewrite D2, D1].
  unfold create_entry, CreateInode. erewrite bind_eval.
  - erewrite bind_eval by exact Hrun2. done.
  - erewrite bind_eval by (by apply query_ok). exact Hrun1.
Qed.

(** ** The limits *)

(** A file of [old] bytes may become one of [size] bytes. *)
Definition fits (row : workspace_row) (old size : Z) : Prop :=
  (∀ n, w_max_file_bytes row = Some n → 0 <= n → size <= n) ∧
  (∀ n, w_max_bytes row = Some n → 0 <= n → w_live_bytes row - old + size <= n ∧ size <= n).

Lemma check_quota_fits ws inode old size d row :
  workspaces d !! ws = Some row → 0 <= size → fits row old size → (∀ s, live_size ws inode d = Some s → s = old) →
  CheckQuotaForContentSize ws inode size d = Ok ().
Proof.
  intros Hrow Hpos [Hfile Hbytes] Hold. unfold CheckQuotaForContentSize, ReadQuotaPolicy. rewrite Hrow. simpl.
  destruct (Z.ltb_spec size 0); [lia|].
  destruct (Z.leb_spec 0 (default (-1) (w_max_file_bytes row))), (Z.ltb_spec (default (-1) (w_max_file_bytes row)) size); simpl;
    try (destruct (w_max_file_bytes row) as [n|]; simpl in *; [specialize (Hfile n eq_refl); lia|lia]).
  all: destruct (Z.leb_spec 0 (default (-1) (w_max_bytes row))); [|done]; simpl.
  all: destruct (live_size ws inode d) as [s|]; [|done]; rewrite bool_decide_eq_true_2 by eauto; simpl; destruct (_ <=? size); [|done].
  all: rewrite (Hold s eq_refl) in *; destruct (w_max_bytes row) as [n|]; simpl in *; [|lia]; destruct (Hbytes n eq_refl) as [? ?]; [lia|].
  all: destruct (Z.ltb_spec n size), (Z.ltb_spec (n - size) (w_live_bytes row - old)); simpl; done || lia.
Qed.

(** ** Writing by path *)

(** Versions belong to inodes and are numbered up to the current one. *)
Definition versions_numbered (d : Db) : Prop :=
  (∀ i r, inodes d !! i = Some r → 0 <= i_version r) ∧
  (∀ i v x, file_versions d !! (i, v) = Some x → ∃ r, inodes d !! i = Some r ∧ v <= i_version r).

(** Where a write of [size] bytes goes: a file that is there and whose version can be
    found, or a new one for which the quotas have room. *)
Definition target (w : Workspace) (row : workspace_row) (parent : Node) (n : bytes) (size : Z) (d : Db) : Prop :=
  match FindChild (ws_id w) (n_id parent) n d with
  | Some node => n_kind node = KFile ∧ (∃ m, previous_manifest_of node d = Ok m) ∧ fits row (n_size node) size
  | None => dentries d !! (ws_id w, n_id parent, n) = None ∧ (∀ k, w_max_files row = Some k → w_live_files row < k) ∧ fits row 0 size
  end.

Record writable_path (name path : bytes) (w : Workspace) (row : workspace_row) (parts : list bytes) (parent : Node) (n : bytes)
    (size : Z) (d : Db) : Prop := {
  wp_counted : counted d;
  wp_content : content_wf d;
  wp_versions : versions_numbered d;
  wp_names : names_unique d;
  wp_staged : ∀ i, FindActiveMountStaging (ws_id w) i d = None;
  wp_workspace : FindWorkspace name d = Ok w;
  wp_row : workspaces d !! ws_id w = Some row;
  wp_parts : PathParts path = Ok parts;
  wp_parent : ResolveParent w parts d = Ok (parent, n);
  wp_target : target w row parent n size d;
}.

(** The node that [WritePath] stores to. *)
Definition write_node (uid gid : Z) (w : Workspace) (parent : Node) (n : bytes) (child : option Node) : M Node :=
  match child with
  | None => create_entry uid gid w parent n KFile 420
  | Some node => mret node
  end.

Lemma write_node_ready uid gid name path w row parts parent n size d :
  writable_path name path w row parts parent n size d → 0 <= size →
  ∃ node r d1, write_node uid gid w parent n (FindChild (ws_id w) (n_id parent) n d) d = (Ok node, d1) ∧
    grows d d1 ∧ writable_node w node r size d1 ∧ n_kind node = KFile ∧ i_kind r = KFile ∧ live r = true ∧ 0 <= n_version node ∧
    dentries d1 !! (ws_id w, n_id parent, n) = Some (n_id node).
Proof.
  intros [Hct Hwf [Hv0 Hv] Hu Hs Hw Hrow Hp Hpar Ht] Hsize. unfold target in Ht.
  destruct (FindChild (ws_id w) (n_id parent) n d) as [node|] eqn:Hc; simpl.
  - destruct Ht as (Hk & [m Hm] & Hfits). apply find_child_inv in Hc as (Hn & r & Hr & Hl & E).
    assert (Hver : n_version node = i_version r) by (by rewrite E). assert (Hkr : i_kind r = KFile) by (rewrite E in Hk; done).
    exists node, r, d. split_and!; [done|done| |done|done|done|rewrite Hver; by eapply Hv0|done].
    split; [done|done|eauto|done|done|eauto| |].
    + eapply check_quota_fits; [done|done|done|]. intros s. unfold live_size. rewrite Hr. simpl.
      destruct (_ && _); [|done]. intros [= <-]. by rewrite E.
    + destruct (file_versions d !! _) as [x|] eqn:Hx; [|done]. apply Hv in Hx as (r' & Hr' & ?). simplify_eq. lia.
  - destruct Ht as (Hnone & Hfiles & Hfits). apply resolve_parent_inv in Hpar as (_ & _ & Hkp).
    unfold kind_at in Hkp. destruct (inodes d !! n_id parent) as [r0|] eqn:Hr0; [|done].
    assert (Hq : CheckQuotaForNewInode (ws_id w) KFile d = Ok ()).
    { unfold CheckQuotaForNewInode. rewrite bool_decide_eq_false_2, Hrow by done. destruct (w_max_files row) as [k|]; [|done].
      specialize (Hfiles k eq_refl). by destruct (Z.leb_spec k (w_live_files row)); [lia|]. }
    destruct (create_entry_run uid gid w parent n KFile 420 d r0 Hct Hq Hr0 Hnone) as (d1 & Hrun & Hg & Hct1 & Hid & D1).
    set (id := next_rowid (inodes d)) in *. assert (Hfresh : inodes d !! id = None) by (apply next_rowid_none; lia).
    destruct (space_row _ _ _ _ (gr_space _ _ Hg) Hrow) as (row' & Hrow' & [= _ _ _ Pb _ Pf Pl]).
    eexists _, (new_inode_row uid gid (ws_id w) KFile 420 (clock_seconds d)), d1. split_and!; [exact Hrun|exact Hg| |done|done|done|done|by rewrite D1, lookup_insert_eq].
    split; [|done|eauto|exact Hid|done|by exists 0| |].
    + destruct Hwf. split; rewrite (gr_content _ _ Hg); done.
    + eapply check_quota_fits; [exact Hrow'|done| |].
      * unfold fits in *. rewrite Pb, Pf, Pl. exact Hfits.
      * intros s. unfold live_size. simpl. rewrite Hid. simpl. by destruct (_ && _); [intros [= <-]|].
    + rewrite (gr_content _ _ Hg). simpl. destruct (file_versions d !! _) as [x|] eqn:Hx; [|done].
      apply Hv in Hx as (r' & Hr' & ?). congruence.
Qed.

(** [StoreVersion] moves no name and keeps every inode in its place. *)
Lemma published_keeps d d' node r content m : inodes d !! n_id node = Some r → published d d' node r content m → keeps_nodes d d'.
Proof.
  intros Hr Hp. split; [by rewrite (pb_dentries _ _ _ _ _ _ Hp)|]. intros i x Hx. rewrite (pb_inodes _ _ _ _ _ _ Hp).
  destruct (decide (i = n_id node)) as [->|Hne]; [rewrite lookup_insert_eq|rewrite lookup_insert_ne by done; by exists x].
  eexists. split; [done|]. by simplify_eq.
Qed.

Lemma mount_staging_same ws i d d' : sessions_of d' = sessions_of d → clock d' = clock d →
  FindActiveMountStaging ws i d' = FindActiveMountStaging ws i d.
Proof. intros S K. unfold FindActiveMountStaging. by rewrite S, K. Qed.

(** What [ReadFunction] does for a path without unpublished changes. *)
Lemma read_run name path w parts node d : FindWorkspace name d = Ok w → PathParts path = Ok parts → Resolve w parts d = Ok node →
  FindActiveMountStaging (ws_id w) (n_id node) d = None → ReadFunction (Some name) (Some path) d = (ReadNode node d, d).
Proof.
  intros Hw Hp Hr Hs. unfold ReadFunction.
  erewrite bind_eval by reflexivity. erewrite bind_eval by (by apply query_ok). erewrite bind_eval by reflexivity.
  erewrite bind_eval by (unfold lift; rewrite Hp; reflexivity). erewrite bind_eval by (by apply query_ok).
  erewrite bind_eval by reflexivity. rewrite Hs. by destruct (n_kind node).
Qed.

Lemma read_after name path w row parts parent n content d d1 d2 node r m :
  writable_path name path w row parts parent n (zlength content) d → grows d d1 →
  inodes d1 !! n_id node = Some r → i_kind r = KFile → live r = true → 0 <= n_version node →
  dentries d1 !! (ws_id w, n_id parent, n) = Some (n_id node) → published d1 d2 node r content m →
  ReadFunction (Some name) (Some path) d2 = (Ok content, d2).
Proof.
  intros [_ _ _ Hu Hs Hw _ Hp Hpar _] Hg Hr Hk Hl Hv Hn Hpub.
  assert (Hkeep : keeps_nodes d d2) by (etrans; [apply Hg|by eapply published_keeps]).
  assert (Hpol : same_policies d d2).
  { eapply same_policies_trans; [apply same_space_policies, Hg|apply (pb_policies _ _ _ _ _ _ Hpub)]. }
  destruct (find_workspace_policies _ _ _ _ Hpol Hu Hw) as (w' & Hw' & Hid & Hroot).
  pose proof (resolve_parent_inv _ _ _ _ _ Hpar) as (Hparts & _). apply resolve_parent_resolve in Hpar as [Hpar Hkp].
  destruct (resolve_keeps _ _ _ _ _ Hkeep Hpar) as (parent' & Hpar' & Hpid & Hpk).
  set (new := touch (clock d1) (zlength content) (n_version node + 1) r).
  assert (Hc : FindChild (ws_id w) (n_id parent') n d2 = Some (node_of (n_id node) new)).
  { unfold FindChild. rewrite Hpid, (pb_dentries _ _ _ _ _ _ Hpub), Hn. simpl.
    rewrite (pb_inodes _ _ _ _ _ _ Hpub), lookup_insert_eq. simpl. unfold live in *. simpl. by rewrite Hl. }
  erewrite read_run; [|exact Hw'|exact Hp|rewrite (resolve_same_workspace w), Hparts by done; eapply resolve_snoc; [exact Hpar'|congruence|exact Hc]|].
  - unfold ReadNode. simpl. rewrite bool_decide_eq_true_2 by done. simpl.
    destruct (Z.eqb_spec (n_version node + 1) 0); [lia|]. by rewrite (pb_read _ _ _ _ _ _ Hpub).
  - rewrite Hid, (mount_staging_same _ _ d d2); [apply Hs| |].
    + by rewrite (pb_sessions _ _ _ _ _ _ Hpub), (gr_sessions _ _ Hg).
    + by rewrite (pb_clock _ _ _ _ _ _ Hpub), (gr_clock _ _ Hg).
Qed.

(** C7: writing a file by its path succeeds when the guards hold, whether the file is
    there or is new: reading the path gives back the bytes written, and every version
    of every file that could be read before the write still reads the same bytes. *)
Theorem write_then_read uid gid name path w row parts parent n content d :
  writable_path name path w row parts parent n (zlength content) d → zlength content <= kMaxStagedBytes →
  no_collision (pieces C content) →
  ∃ v d', WriteFunction uid gid (Some name) (Some path) (Some content) d = (Ok v, d') ∧
    ReadFunction (Some name) (Some path) d' = (Ok content, d') ∧ counted d' ∧
    (∀ inode version c, ReadVersionContent inode version d = Ok c → ReadVersionContent inode version d' = Ok c).
Proof.
  intros Hwp Hmax Hnc. destruct (write_node_ready uid gid _ _ _ _ _ _ _ _ _ Hwp (zlength_nonneg content))
    as (node & r & d1 & Hrun1 & Hg & Hwn & Hk & Hkr & Hl & Hv & Hn).
  destruct (store_version_run w node r content (str "write file") d1 Hwn Hmax Hnc) as (m & d2 & Hrun2 & Hpub).
  pose proof (read_after _ _ _ _ _ _ _ _ _ _ _ _ _ _ Hwp Hg (wn_inode _ _ _ _ _ Hwn) Hkr Hl Hv Hn Hpub) as Hread.
  exists (n_version node + 1), d2. split_and!; [|exact Hread|apply Hpub|].
  - destruct Hwp as [_ _ _ _ _ Hw _ Hp Hpar _]. unfold WriteFunction.
    erewrite bind_eval by reflexivity. erewrite bind_eval by (by apply query_ok). erewrite bind_eval by reflexivity.
    erewrite bind_eval by (unfold lift; rewrite Hp; reflexivity). erewrite bind_eval by reflexivity.
    erewrite bind_eval by (unfold throw_if; by destruct (Z.ltb_spec kMaxStagedBytes (zlength content)); [lia|]).
    unfold WritePath, Savepoint. erewrite bind_eval by reflexivity. erewrite bind_eval by (by apply query_ok). cbv beta iota.
    erewrite bind_eval by reflexivity. erewrite bind_eval by exact Hrun1. rewrite Hk.
    erewrite bind_eval by reflexivity. rewrite Hrun2. done.
  - intros i v c Hc. eapply read_extends; [apply Hwn|apply Hpub|]. rewrite (read_content_of _ _ d); [done|]. apply Hg.
Qed.

(** ** An instance *)

Ltac by_evaluation := apply (bool_decide_unpack _); vm_compute; exact I.

Lemma linked_content : content_wf linked.
Proof.
  assert (He : map_Forall (λ k id, is_Some (manifests linked !! k.1) ∧ is_Some (chunks linked !! id)) (manifest_chunks linked)) by by_evaluation.
  assert (Hc : map_Forall (λ id (_ : chunk_row), 0 < id) (chunks linked)) by by_evaluation.
  split; [intros m n id H; exact (He (m, n) id H)|exact Hc].
Qed.

Lemma linked_versions : versions_numbered linked.
Proof.
  assert (Hi : map_Forall (λ (_ : Z) r, 0 <= i_version r) (inodes linked)) by by_evaluation.
  assert (Hv : map_Forall (λ k (_ : version_row), is_Some (inodes linked !! k.1) ∧ k.2 <= default 0 (i_version <$> inodes linked !! k.1))
    (file_versions linked)) by by_evaluation.
  split; [exact Hi|]. intros i v x Hx. destruct (Hv (i, v) x Hx) as [[r Hr] Hle]. cbn [fst snd] in Hr, Hle. rewrite Hr in Hle. exists r. split; [exact Hr|exact Hle].
Qed.

Lemma linked_names : names_unique linked.
Proof.
  assert (H : map_Forall (λ ws (_ : workspace_row), ws = 1) (workspaces linked)) by by_evaluation.
  intros ws ws' row row' H1 H2 _. by rewrite (H ws row H1), (H ws' row' H2).
Qed.

Definition linked_row : workspace_row := default demo_workspace (workspaces linked !! 1).

(** Writes to the new file [/a/h] and to the existing one [/g]. *)
Lemma linked_writable path parts parent n :
  PathParts path = Ok parts → ResolveParent (workspace_of 1 linked_row) parts linked = Ok (parent, n) →
  target (workspace_of 1 linked_row) linked_row parent n 2 linked →
  writable_path (str "w") path (workspace_of 1 linked_row) linked_row parts parent n 2 linked.
Proof.
  intros Hp Hpar Ht. split; [apply linked_counted|apply linked_content|apply linked_versions|apply linked_names| | | |done|done|done].
  - intros i. assert (E : mount_sessions linked !! 1 = None) by (vm_compute; reflexivity).
    unfold FindActiveMountStaging. cbn [ws_id workspace_of]. rewrite E. reflexivity.
  - vm_compute. reflexivity.
  - vm_compute. reflexivity.
Qed.

Lemma linked_unlimited old size : fits linked_row old size.
Proof. split; intros n Hn; exfalso; revert Hn; vm_compute; discriminate. Qed.

Lemma write_then_read_witness :
  (∃ d', ReadFunction (Some (str "w")) (Some (str "/a/h")) d' = (Ok (str "hi"), d') ∧
    (WriteFunction 0 0 (Some (str "w")) (Some (str "/a/h")) (Some (str "hi")) linked).2 = d') ∧
  (∃ d', ReadFunction (Some (str "w")) (Some (str "/g")) d' = (Ok (str "hi"), d') ∧
    (WriteFunction 0 0 (Some (str "w")) (Some (str "/g")) (Some (str "hi")) linked).2 = d').
Proof.
  assert (Hnc : no_collision (pieces C (str "hi"))) by (apply small_no_collision; vm_compute; discriminate).
  split.
  - destruct (write_then_read 0 0 (str "w") (str "/a/h") (workspace_of 1 linked_row) linked_row [str "a"; str "h"]
      (node_at 2 linked) (str "h") (str "hi") linked) as (v & d' & Hw & Hr & _); [|vm_compute; discriminate|exact Hnc|].
    + apply linked_writable; [vm_compute; reflexivity..|].
      assert (E : FindChild 1 (n_id (node_at 2 linked)) (str "h") linked = None) by (vm_compute; reflexivity).
      unfold target. cbn [ws_id workspace_of]. rewrite E. split; [vm_compute; reflexivity|]. split; [|apply linked_unlimited].
      intros k Hk. exfalso. revert Hk. vm_compute. discriminate.
    + exists d'. split; [exact Hr|]. rewrite Hw. reflexivity.
  - destruct (write_then_read 0 0 (str "w") (str "/g") (workspace_of 1 linked_row) linked_row [str "g"]
      (node_at 1 linked) (str "g") (str "hi") linked) as (v & d' & Hw & Hr & _); [|vm_compute; discriminate|exact Hnc|].
    + apply linked_writable; [vm_compute; reflexivity..|].
      assert (E : FindChild 1 (n_id (node_at 1 linked)) (str "g") linked = Some (node_at 3 linked)) by (vm_compute; reflexivity).
      unfold target. cbn [ws_id workspace_of]. rewrite E. split; [vm_compute; reflexivity|]. split; [|apply linked_unlimited].
      exists 1. vm_compute. reflexivity.
    + exists d'. split; [exact Hr|]. rewrite Hw. reflexivity.
Defined.
