(* ===== verification/VexfsRename.v ===== *)
(** * Renaming

    A rename to a free name moves one entry: everything below it is found under the
    new path, the old path is gone, and every other path leads where it did. *)
From Stdlib Require Import ZArith Lia String.
From stdpp Require Import prelude gmap.
From S2P Require Import Prelude Sha256 VexfsText VexfsDb VexfsTree VexfsStore VexfsQuota VexfsVersion VexfsStaging VexfsHandles VexfsNames VexfsForest VexfsForestOps VexfsForestTop VexfsRemove VexfsWriteRead.

Local Open Scope Z_scope.
Implicit Types d : Db.

(** ** Paths that do not use an entry *)

Lemma walk_rtc d ws p ns i : walk d ws p ns i → rtc (child d ws) p i.
Proof. induction 1 as [|p n q ns i Hq _ IH]; [done|]. eapply rtc_l; [by exists n|done]. Qed.

(** No step of the path [parts] from [a] uses the entry [k]. *)
Definition avoids (d : Db) (ws a : Z) (parts : list bytes) (k : Z * Z * bytes) : Prop :=
  ∀ pre part post x, parts = pre ++ part :: post → walk d ws a pre x → (ws, x, part) ≠ k.

Lemma avoids_cons d ws a part parts k b : avoids d ws a (part :: parts) k → dentries d !! (ws, a, part) = Some b →
  (ws, a, part) ≠ k ∧ avoids d ws b parts k.
Proof.
  intros Ha Hb. split; [eapply (Ha []); [done|constructor]|].
  intros pre p post x -> Hw. eapply (Ha (part :: pre)); [done|by econstructor].
Qed.

(** The database after the entry [k] of [i] has become [k']. *)
Record moves (k k' : Z * Z * bytes) (i : Z) (d d' : Db) : Prop := {
  mv_dentries : dentries d' = <[k' := i]> (delete k (dentries d));
  mv_inodes : ∀ j r, inodes d !! j = Some r →
    ∃ r', inodes d' !! j = Some r' ∧ i_kind r' = i_kind r ∧ i_deleted r' = i_deleted r ∧ i_workspace r' = i_workspace r;
  mv_free : dentries d !! k' = None;
}.

(** [moves] is [keeps_nodes] once the old entry is taken out. *)
Lemma moves_keeps k k' i d d' : moves k k' i d d' → keeps_nodes (on_dentries (delete k) d) d'.
Proof.
  intros [D I F]. split; [|done]. rewrite D. simpl. apply insert_subseteq. by rewrite lookup_delete_None; right.
Qed.

Lemma resolve_from_avoids ws parts k d : ∀ a node, avoids d ws (n_id a) parts k →
  resolve_from ws a parts d = Some node → resolve_from ws a parts (on_dentries (delete k) d) = Some node.
Proof.
  induction parts as [|part parts IH]; intros a node Ha; cbn [resolve_from]; [done|].
  destruct (negb _); [done|]. destruct (FindChild ws (n_id a) part d) as [c|] eqn:Hc; [|done]. simpl.
  pose proof Hc as (Hn & _)%find_child_inv. destruct (avoids_cons _ _ _ _ _ _ _ Ha Hn) as [Hne Hrest].
  assert (FindChild ws (n_id a) part (on_dentries (delete k) d) = Some c) as ->; [|by apply IH].
  unfold FindChild in *. simpl. by rewrite lookup_delete_ne.
Qed.

Lemma resolve_from_moves ws parts k k' i d d' a b node : moves k k' i d d' → avoids d ws (n_id a) parts k → same_node b a →
  resolve_from ws a parts d = Some node → ∃ node', resolve_from ws b parts d' = Some node' ∧ same_node node' node.
Proof. intros Hm Ha Hs Hr. eapply resolve_from_keeps; [by eapply moves_keeps|done|by apply resolve_from_avoids]. Qed.

Lemma resolve_moves w parts k k' i d d' node : moves k k' i d d' → avoids d (ws_id w) (ws_root w) parts k →
  Resolve w parts d = Ok node → ∃ node', Resolve w parts d' = Ok node' ∧ same_node node' node.
Proof.
  intros Hm Ha. unfold Resolve, TryResolve. destruct (RootNode w d) as [root|] eqn:Hroot; [|done].
  destruct (root_node_keeps w (on_dentries (delete k) d) d' root (moves_keeps _ _ _ _ _ Hm) Hroot) as (root' & -> & Hs).
  apply root_node_inv in Hroot as [Hid _].
  destruct (resolve_from (ws_id w) root parts d) as [x|] eqn:Hx; [|done]. intros [= <-].
  destruct (resolve_from_moves (ws_id w) parts _ _ _ _ _ root root' x Hm) as (x' & -> & ?); [by rewrite Hid|done|done|]. eauto.
Qed.

Lemma resolve_app w ps qs d p x : Resolve w ps d = Ok p → Resolve w (ps ++ qs) d = Ok x ↔ resolve_from (ws_id w) p qs d = Some x.
Proof.
  unfold Resolve, TryResolve. destruct (RootNode w d) as [root|]; [|done].
  assert (Happ : ∀ a, resolve_from (ws_id w) a (ps ++ qs) d =
    match resolve_from (ws_id w) a ps d with Some b => resolve_from (ws_id w) b qs d | None => None end).
  { induction ps as [|y ps IH]; intros a; cbn [resolve_from app]; [done|]. destruct (negb _); [done|].
    destruct (FindChild (ws_id w) (n_id a) y d); [apply IH|done]. }
  rewrite Happ. destruct (resolve_from (ws_id w) root ps d) as [b|]; [|done]. intros [= <-].
  destruct (resolve_from _ _ qs d); split; congruence.
Qed.

(** ** The entry of a path *)

Section Rename.

Context (w : Workspace) (name source : bytes) (sps dps : list bytes) (sp : Node) (sn : bytes) (dp : Node) (dn : bytes) (node : Node) (d : Db).
Context (Hf : forest d) (Hct : counted d) (Hl : located name source w sps sp sn node d).
Context (Hd : ResolveParent w dps d = Ok (dp, dn)) (Hfree : dentries d !! (ws_id w, n_id dp, dn) = None).
Context (Hpre : ¬ sps `prefix_of` dps).

Local Notation from := (ws_id w, n_id sp, sn).
Local Notation to := (ws_id w, n_id dp, dn).

Lemma source_entry : dentries d !! from = Some (n_id node).
Proof. destruct Hl as [_ _ _ Hc]. by apply find_child_inv in Hc as [Hn _]. Qed.

Lemma source_guard : (length sps <? length dps)%nat && bool_decide (take (length sps) dps = sps) = false.
Proof.
  destruct (bool_decide_reflect (take (length sps) dps = sps)) as [E|]; [|apply andb_false_r].
  destruct Hpre. exists (drop (length sps) dps). rewrite <- E at 1. by rewrite take_drop.
Qed.

Lemma source_movable : movable (ws_id w) (n_id sp) sn (n_id dp) d.
Proof. destruct Hl as [Hw _ Hr _]. by apply (rename_movable w name sps dps sp sn dp dn d Hf Hw source_guard). Qed.

(** Only paths that begin with the source path use its entry. *)
Lemma other_path_avoids parts : ¬ sps `prefix_of` parts → avoids d (ws_id w) (ws_root w) parts from.
Proof.
  intros Hno pre part post x -> Hx [= -> ->]. destruct Hl as [(row & Hrow & Hroot)%find_workspace_inv _ Hr _].
  apply resolve_parent_inv in Hr as (Hs & Hws & Hk). rewrite Hroot in *.
  pose proof (walk_unique _ _ _ _ _ _ Hf Hrow Hx Hws Hk) as ->. destruct Hno. exists post.
  by rewrite Hs at 2; rewrite <- (assoc_L (++)).
Qed.

(** Nothing below the source leads to it again. *)
Lemma below_avoids qs : avoids d (ws_id w) (n_id node) qs from.
Proof.
  intros pre part post x _ Hx%walk_rtc [= -> ->]. apply (fo_acyclic _ Hf (ws_id w) (n_id node)).
  eapply tc_rtc_l; [exact Hx|]. apply tc_once. exists sn. apply source_entry.
Qed.

(** ** The steps of the function *)

Lemma move_run : ∃ d1, move_dentry (ws_id w) (n_id sp) sn (n_id dp) dn d = (Ok (), d1) ∧ counted d1 ∧
  moves from to (n_id node) d d1 ∧ inodes d1 = inodes d ∧ workspaces d1 = workspaces d.
Proof.
  unfold move_dentry, with_db. rewrite source_entry. rewrite Hfree. rewrite (bool_decide_eq_false_2 (is_Some None)) by (by intros []).
  rewrite andb_false_r. eexists. split; [reflexivity|]. split_and!; [by destruct Hct| |done|done].
  split; [done|by intros j r Hr; exists r|done].
Qed.

Lemma touched_moves i d1 d2 : moves from to i d d1 → grows d1 d2 → dentries d2 = dentries d1 → moves from to i d d2.
Proof.
  intros [D I F] [[_ I'] _ _ _ _] D'. split; [by rewrite D'| |done]. intros j r Hr.
  destruct (I j r Hr) as (r1 & Hr1 & ? & ? & ?). destruct (I' j r1 Hr1) as (r2 & Hr2 & ? & ? & ?).
  exists r2. split_and!; [done|congruence..].
Qed.

Lemma node_not_parent : n_id node ≠ n_id sp ∧ n_id node ≠ n_id dp.
Proof.
  split; intros E.
  - apply (fo_acyclic _ Hf (ws_id w) (n_id sp)). apply tc_once. exists sn. pose proof source_entry as Hn. by rewrite E in Hn.
  - destruct source_movable as [_ Hm]. apply (Hm (n_id node)); [apply source_entry|]. by rewrite E.
Qed.

Lemma rename_tail message : ∃ d', (move_dentry (ws_id w) (n_id sp) sn (n_id dp) dn ≫= λ _, TouchDirectory (ws_id w) (n_id sp) ≫= λ _,
    (if n_id dp =? n_id sp then mret () else TouchDirectory (ws_id w) (n_id dp)) ≫= λ _, CreateCommit w message ≫= λ _, mret 1) d = (Ok 1, d') ∧
  moves from to (n_id node) d d' ∧ inodes d' !! n_id node = inodes d !! n_id node ∧ counted d'.
Proof.
  destruct node_not_parent as [Hn1 Hn2].
  destruct move_run as (d1 & R1 & C1 & M1 & I1 & W1).
  destruct (touch_directory_grows (ws_id w) (n_id sp) d1 C1) as (d2 & R2 & G2 & C2 & D2 & I2).
  assert (∃ d3, (if n_id dp =? n_id sp then mret () else TouchDirectory (ws_id w) (n_id dp)) d2 = (Ok (), d3) ∧
    grows d2 d3 ∧ counted d3 ∧ dentries d3 = dentries d2 ∧ inodes d3 !! n_id node = inodes d2 !! n_id node) as (d3 & R3 & G3 & C3 & D3 & I3).
  { destruct (n_id dp =? n_id sp); [exists d2; by split_and!|].
    destruct (touch_directory_grows (ws_id w) (n_id dp) d2 C2) as (d3 & ? & ? & ? & ? & I). exists d3. split_and!; [done..|by apply I]. }
  destruct Hl as [(row & Hrow & _)%find_workspace_inv _ _ _].
  assert (G13 : grows d1 d3) by by etrans.
  destruct (space_row d1 d3 (ws_id w) row (gr_space _ _ G13)) as (row' & Hrow' & _); [by rewrite W1|].
  destruct (commit_run w message d3) as (c & d4 & R4 & Hc); [eauto|].
  exists d4. split_and!.
  - erewrite bind_eval by exact R1. erewrite bind_eval by exact R2. erewrite bind_eval by exact R3. by erewrite bind_eval by exact R4.
  - assert (M3 : moves from to (n_id node) d d3) by (eapply touched_moves; [exact M1|exact G13|congruence]).
    destruct M3 as [D I F]. split; [by rewrite (cm_dentries _ _ _ _ Hc)| |done]. by rewrite (cm_inodes _ _ _ _ Hc).
  - by rewrite (cm_inodes _ _ _ _ Hc), I3, I2, I1.
  - by eapply committed_counted.
Qed.

End Rename.

Lemma resolve_snoc_none w ps n d p : Resolve w ps d = Ok p → n_kind p = KDirectory → FindChild (ws_id w) (n_id p) n d = None →
  Resolve w (ps ++ [n]) d = Throw SQLITE_NOTFOUND.
Proof.
  unfold Resolve, TryResolve. destruct (RootNode w d) as [root|]; [|done].
  destruct (resolve_from (ws_id w) root ps d) as [x|] eqn:Hx; [|done]. intros [= <-] Hk Hc.
  by rewrite (resolve_from_snoc _ _ _ _ _ _ Hx Hk), Hc.
Qed.

Lemma located_resolve name path w parts parent n node d : located name path w parts parent n node d → Resolve w parts d = Ok node.
Proof.
  intros [_ _ Hr Hc]. pose proof (resolve_parent_inv _ _ _ _ _ Hr) as (Hs & _). apply resolve_parent_resolve in Hr as [Hr Hk].
  rewrite Hs. by eapply resolve_snoc.
Qed.

(** The checks of a rename to a free name. *)
Lemma rename_prefix name source destination w sps dps sp sn dp dn node replace d :
  located name source w sps sp sn node d → PathParts destination = Ok dps → ResolveParent w dps d = Ok (dp, dn) →
  dentries d !! (ws_id w, n_id dp, dn) = None → ¬ sps `prefix_of` dps →
  RenameFunction (Some name) (Some source) (Some destination) replace d =
  (move_dentry (ws_id w) (n_id sp) sn (n_id dp) dn ≫= λ _, TouchDirectory (ws_id w) (n_id sp) ≫= λ _,
    (if n_id dp =? n_id sp then mret () else TouchDirectory (ws_id w) (n_id dp)) ≫= λ _,
    CreateCommit w (if replace then str "rename replace" else str "move") ≫= λ _, mret 1) d.
Proof.
  intros [Hw Hp Hr Hc] Hdp Hd Hfree Hpre. unfold RenameFunction.
  pose proof (resolve_parent_nonempty _ _ _ _ _ Hr). pose proof (resolve_parent_nonempty _ _ _ _ _ Hd).
  erewrite bind_eval by reflexivity. erewrite bind_eval by (by apply query_ok). erewrite bind_eval by reflexivity.
  erewrite bind_eval by (unfold lift; rewrite Hp; reflexivity). erewrite bind_eval by reflexivity.
  erewrite bind_eval by (unfold lift; rewrite Hdp; reflexivity).
  erewrite bind_eval by (rewrite !bool_decide_eq_false_2 by done; reflexivity).
  rewrite (bool_decide_eq_false_2 (sps = dps)) by (intros ->; by apply Hpre).
  erewrite bind_eval by (rewrite (source_guard sps dps Hpre); reflexivity).
  erewrite bind_eval by (by apply query_ok). cbv beta iota. erewrite bind_eval by reflexivity. rewrite Hc.
  erewrite bind_eval by (by apply query_ok). cbv beta iota. erewrite bind_eval by reflexivity.
  assert (FindChild (ws_id w) (n_id dp) dn d = None) as -> by (unfold FindChild; by rewrite Hfree).
  by erewrite bind_eval by reflexivity.
Qed.

(** C19: renaming to a free name that does not lie below the source succeeds: the
    destination leads to the very inode the source led to, every path below the
    source is found below the destination, the source path is gone, every path that
    does not begin with the source path leads where it did, and the quota counters
    still equal the live totals. *)
Theorem rename_moves name source destination w sps dps sp sn dp dn node replace d :
  forest d → counted d → located name source w sps sp sn node d → PathParts destination = Ok dps →
  ResolveParent w dps d = Ok (dp, dn) → dentries d !! (ws_id w, n_id dp, dn) = None → ¬ sps `prefix_of` dps →
  ∃ d', RenameFunction (Some name) (Some source) (Some destination) replace d = (Ok 1, d') ∧
    Resolve w dps d' = Ok node ∧ Resolve w sps d' = Throw SQLITE_NOTFOUND ∧
    (∀ qs x, Resolve w (sps ++ qs) d = Ok x → ∃ x', Resolve w (dps ++ qs) d' = Ok x' ∧ same_node x' x) ∧
    (∀ parts x, ¬ sps `prefix_of` parts → Resolve w parts d = Ok x → ∃ x', Resolve w parts d' = Ok x' ∧ same_node x' x) ∧
    counted d'.
Proof.
  intros Hf Hct Hl Hdp Hd Hfree Hpre.
  destruct (rename_tail w name source sps dps sp sn dp dn node d Hf Hct Hl Hd Hfree Hpre
    (if replace then str "rename replace" else str "move")) as (d' & Hrun & Hm & Hi & Hct').
  rewrite (rename_prefix _ _ _ _ _ _ _ _ _ _ _ _ _ Hl Hdp Hd Hfree Hpre).
  assert (Hother : ∀ parts x, ¬ sps `prefix_of` parts → Resolve w parts d = Ok x → ∃ x', Resolve w parts d' = Ok x' ∧ same_node x' x).
  { intros parts x Hno. apply (resolve_moves _ _ _ _ _ _ _ _ Hm). by eapply other_path_avoids. }
  pose proof (located_resolve _ _ _ _ _ _ _ _ Hl) as Hs. pose proof Hl as [_ _ Hr Hc].
  pose proof (resolve_parent_inv _ _ _ _ _ Hr) as (Hsps & _). apply resolve_parent_resolve in Hr as [Hr Hrk].
  pose proof (resolve_parent_inv _ _ _ _ _ Hd) as (Hdps & _). apply resolve_parent_resolve in Hd as [Hd Hdk].
  assert (Hnew : Resolve w dps d' = Ok node).
  { destruct (Hother (removelast dps) dp) as (dp' & Hdp' & Hid & Hk); [|done|].
    - intros [l E]. apply Hpre. exists (l ++ [dn]). by rewrite Hdps, E, <- (assoc_L (++)).
    - rewrite Hdps. eapply resolve_snoc; [exact Hdp'|congruence|]. unfold FindChild. rewrite Hid, (mv_dentries _ _ _ _ _ Hm), lookup_insert_eq.
      simpl. rewrite Hi. apply find_child_inv in Hc as (_ & r & -> & Hlive & E). simpl. rewrite Hlive. by f_equal. }
  exists d'. split_and!; [exact Hrun|exact Hnew| | |exact Hother|exact Hct'].
  - destruct (Hother (removelast sps) sp) as (sp' & Hsp' & Hid & Hk); [|done|].
    { intros Hle%prefix_length. rewrite Hsps in Hle at 1. rewrite length_app in Hle. simpl in Hle. lia. }
    rewrite Hsps. eapply resolve_snoc_none; [exact Hsp'|congruence|]. unfold FindChild. rewrite Hid, (mv_dentries _ _ _ _ _ Hm).
    rewrite lookup_insert_ne, lookup_delete_eq; [done|]. intros E. rewrite E in Hfree. apply find_child_inv in Hc as [Hn _]. congruence.
  - intros qs x. rewrite (resolve_app _ _ _ _ _ _ Hs). intros Hq.
    destruct (resolve_from_moves (ws_id w) qs _ _ _ _ _ node node x Hm) as (x' & Hx' & Hsame); [|done|done|].
    + by eapply (below_avoids w name source sps).
    + exists x'. split; [|done]. by apply (resolve_app _ _ _ _ _ _ Hnew).
Qed.

Lemma rename_moves_witness :
  ∃ d', RenameFunction (Some (str "w")) (Some (str "/a")) (Some (str "/b")) false linked = (Ok 1, d') ∧ counted d'.
Proof.
  destruct linked_directory as (w & Hl & Hw).
  assert (Hd : ResolveParent w [str "b"] linked = Ok (node_at 1 linked, str "b")).
  { destruct Hl as [Hfind _ _ _]. assert (E : FindWorkspace (str "w") linked = Ok (workspace_of 1 linked_row)) by (vm_compute; reflexivity).
    rewrite E in Hfind. injection Hfind as <-. vm_compute. reflexivity. }
  destruct (rename_moves (str "w") (str "/a") (str "/b") w [str "a"] [str "b"] (node_at 1 linked) (str "a") (node_at 1 linked) (str "b")
    (node_at 2 linked) false linked linked_forest linked_counted Hl ltac:(vm_compute; reflexivity) Hd)
    as (d' & H1 & _ & _ & _ & _ & H2).
  - rewrite Hw. vm_compute. reflexivity.
  - intros [l E]. discriminate E.
  - exists d'. split; [exact H1|exact H2].
Defined.
