(* ===== verification/VexfsXattr.v ===== *)
(** * Extended attributes

    Setting an attribute and reading it back, on every branch. *)
From Stdlib Require Import ZArith Lia String.
From stdpp Require Import prelude gmap.
From S2P Require Import Prelude Sha256 VexfsText VexfsDb VexfsTree VexfsStore VexfsQuota VexfsVersion VexfsStaging VexfsHandles VexfsNames VexfsMetadata VexfsForestOps VexfsForestTop VexfsRemove VexfsWriteRead.

Local Open Scope Z_scope.
Implicit Types d : Db.

(** What reading attributes depends on. *)
Record attributes_kept (d d' : Db) : Prop := {
  ak_xattrs : xattrs d' = xattrs d;
  ak_homes : ∀ i, i_workspace <$> inodes d' !! i = i_workspace <$> inodes d !! i;
  ak_policies : same_policies d d';
}.

Lemma touch_row_run w i r d : counted d → inodes d !! i = Some r → i_workspace r = ws_id w →
  ∃ d', touch_row (ws_id w) i d = (Ok (), d') ∧ attributes_kept d d'.
Proof.
  intros Hct Hr Hw.
  pose proof (update_inode_run i r (set_changed (clock d) r) d Hct Hr eq_refl (ct_sizes _ Hct i r Hr)) as Hrun.
  assert (Hrow : update_row (ws_id w) i (set_changed (clock d)) d = (Ok true, replaced i r (set_changed (clock d) r) d)).
  { unfold update_row, with_db. rewrite Hr, Hw, Z.eqb_refl. by erewrite bind_eval by exact Hrun. }
  eexists. split; [unfold touch_row, with_db; by erewrite bind_eval by exact Hrow|]. split; [done| |].
  - intros j. simpl. destruct (decide (i = j)) as [<-|]; [by rewrite lookup_insert_eq, Hr|by rewrite lookup_insert_ne].
  - intros v. simpl. rewrite lookup_alter. case_decide as E; [subst v|done]. by destruct (workspaces d !! _).
Qed.

Lemma commit_metadata_run w i message d : is_Some (workspaces d !! ws_id w) →
  ∃ d', CommitMetadataChange w i message d = (Ok (), d') ∧ attributes_kept d d'.
Proof.
  intros Hw. unfold CommitMetadataChange, with_db. destruct (HasPendingContentPublish _ _ d); [by exists d|].
  destruct (commit_run w message d Hw) as (c & d' & Hrun & Hc). exists d'. split; [unfold mbind, M_bind; by rewrite Hrun|].
  split; [apply (cm_xattrs _ _ _ _ Hc)|intros j; by rewrite (cm_inodes _ _ _ _ Hc)|].
  intros v. rewrite (cm_workspaces _ _ _ _ Hc), lookup_alter. case_decide as E; [subst v|done]. by destruct (workspaces d !! _).
Qed.

(** Touching and committing after a change of attributes. *)
Lemma publish_attributes w i message r d : counted d → is_Some (workspaces d !! ws_id w) → inodes d !! i = Some r → i_workspace r = ws_id w →
  ∃ d', (touch_row (ws_id w) i;; CommitMetadataChange w i message;; mret 1) d = (Ok 1, d') ∧ attributes_kept d d'.
Proof.
  intros Hct [row Hrow] Hr Hw. destruct (touch_row_run w i r d Hct Hr Hw) as (d1 & H1 & [X1 I1 P1]).
  destruct (commit_metadata_run w i message d1) as (d2 & H2 & [X2 I2 P2]).
  { specialize (P1 (ws_id w)). rewrite Hrow in P1. by destruct (workspaces d1 !! ws_id w). }
  exists d2. split; [by erewrite bind_eval by exact H1; erewrite bind_eval by exact H2|].
  split; [congruence|intros j; by rewrite I2|intros ws; by rewrite P2].
Qed.

(** What [GetXattrFunction] reads. *)
Lemma get_xattr_eval workspace w j m d : FindWorkspace workspace d = Ok w →
  (GetXattrFunction (Some workspace) (VInteger j) (Some m) d).1 =
  match RequiredPositiveInteger (VInteger j) with
  | Throw e => Throw e
  | Ok i =>
    match xattr_name m with
    | Throw e => Throw e
    | Ok _ =>
      match i_workspace <$> inodes d !! i with
      | Some ws => if ws =? ws_id w then match xattrs d !! (i, m) with Some value => Ok value | None => Throw SQLITE_NOTFOUND end
                   else Throw SQLITE_NOTFOUND
      | None => Throw SQLITE_NOTFOUND
      end
    end
  end.
Proof.
  intros Hw. unfold GetXattrFunction. erewrite bind_eval by done. erewrite bind_eval by (unfold query; by rewrite Hw).
  unfold mbind, M_bind, lift. destruct (RequiredPositiveInteger _) as [i|]; [|done]. simpl. destruct (xattr_name m); [|done].
  unfold query, RequireWorkspaceInode. destruct (inodes d !! i) as [r|]; [|done]. simpl. by destruct (_ =? _).
Qed.

(** The database right after the change of an attribute. *)
Definition changed_xattr (i : Z) (n : bytes) (change : gmap (Z * bytes) bytes → gmap (Z * bytes) bytes) (d : Db) : Db :=
  dirty_xattr i n (on_xattrs change d).

Lemma changed_xattr_kept i n change d : xattrs (changed_xattr i n change d) = change (xattrs d) ∧
  inodes (changed_xattr i n change d) = inodes d ∧ workspaces (changed_xattr i n change d) = workspaces d.
Proof. unfold changed_xattr, dirty_xattr. by destruct (inodes _ !! i). Qed.

Lemma changed_xattr_run w i name change message r d : counted d → is_Some (workspaces d !! ws_id w) → inodes d !! i = Some r →
  i_workspace r = ws_id w → ∃ d', (touch_row (ws_id w) i;; CommitMetadataChange w i message;; mret 1) (changed_xattr i name change d) = (Ok 1, d') ∧
    xattrs d' = change (xattrs d) ∧ (∀ j, i_workspace <$> inodes d' !! j = i_workspace <$> inodes d !! j) ∧ same_policies d d'.
Proof.
  intros Hct Hrow Hr Hw. destruct (changed_xattr_kept i name change d) as (X & I & W).
  destruct (publish_attributes w i message r (changed_xattr i name change d)) as (d' & Hrun & [X' I' P']).
  - destruct Hct as [Hf Hb Hs]. split; rewrite ?W, ?I; done.
  - by rewrite W.
  - by rewrite I.
  - done.
  - exists d'. split_and!; [done|congruence|intros j; by rewrite I', I|]. intros ws. by rewrite P', W.
Qed.

(** C23: what is set can be read. For an inode of the workspace and a name of 1 to 255
    bytes: creating an attribute that is there, replacing or removing one that is not, and
    a value over 64 KiB are refused and change nothing; otherwise the call returns 1, and
    after it that attribute reads as the value that was given, or is not found after a
    removal, while every other attribute of every inode reads as before. *)
Theorem xattr_set_get workspace w i name value policy d :
  FindWorkspace workspace d = Ok w → names_unique d → counted d → RequireWorkspaceInode w i d = Ok () → 0 < i →
  xattr_name name = Ok () → 0 <= policy <= 3 →
  let found := bool_decide (is_Some (xattrs d !! (i, name))) in
  let run := SetXattrFunction (Some workspace) (VInteger i) (Some name) (Some value) policy d in
  let get j m d := (GetXattrFunction (Some workspace) (VInteger j) (Some m) d).1 in
  if (policy =? 1) && found then run = (Throw SQLITE_CONSTRAINT, d)
  else if ((policy =? 2) || (policy =? 3)) && negb found then run = (Throw SQLITE_NOTFOUND, d)
  else if negb (policy =? 3) && (kMaxXattrBytes <? zlength value) then run = (Throw SQLITE_TOOBIG, d)
  else run.1 = Ok 1 ∧ get i name run.2 = (if policy =? 3 then Throw SQLITE_NOTFOUND else Ok value) ∧
    ∀ j m, (j, m) ≠ (i, name) → get j m run.2 = get j m d.
Proof.
  intros Hw Hu Hct Hin Hi Hname Hpol found run get. pose proof Hw as (row & Hrow & _)%find_workspace_inv.
  unfold RequireWorkspaceInode in Hin. destruct (inodes d !! i) as [r|] eqn:Hr; [|done]. destruct (Z.eqb_spec (i_workspace r) (ws_id w)) as [Hws|]; [|done].
  assert (Hpos : RequiredPositiveInteger (VInteger i) = Ok i) by (simpl; by destruct (Z.leb_spec i 0); [lia|]).
  set (change := λ t : gmap (Z * bytes) bytes, if policy =? 3 then delete (i, name) t else <[(i, name) := value]> t).
  assert (Hbody : run = (throw_if ((policy =? 1) && found) SQLITE_CONSTRAINT;; throw_if (((policy =? 2) || (policy =? 3)) && negb found) SQLITE_NOTFOUND;;
    Savepoint (throw_if (negb (policy =? 3) && (kMaxXattrBytes <? zlength value)) SQLITE_TOOBIG;; modify (changed_xattr i name change);;
      touch_row (ws_id w) i;; CommitMetadataChange w i (if policy =? 3 then str "remove xattr" else str "set xattr");; mret 1)) d).
  { subst run. unfold SetXattrFunction. erewrite bind_eval by done. erewrite bind_eval by (unfold query; by rewrite Hw).
    erewrite bind_eval by (unfold lift; by rewrite Hpos). erewrite bind_eval by done. erewrite bind_eval by (unfold lift; by rewrite Hname).
    erewrite bind_eval by (unfold throw_if; by destruct (Z.ltb_spec policy 0), (Z.ltb_spec 3 policy); try lia).
    erewrite bind_eval by (unfold query, RequireWorkspaceInode; by rewrite Hr, Hws, Z.eqb_refl). erewrite bind_eval by done. fold found.
    unfold mbind, M_bind, Savepoint, lift, store_xattr, delete_xattr, throw_if, changed_xattr, change. 
    destruct (policy =? 1), (policy =? 2), (policy =? 3), found; simpl; try done; by destruct (kMaxXattrBytes <? zlength value). }
  rewrite Hbody. clear Hbody run. destruct ((policy =? 1) && found); [done|]. erewrite bind_eval by done.
  destruct (_ && negb found) eqn:Hmiss; [done|]. erewrite bind_eval by done. unfold Savepoint.
  destruct (_ && (kMaxXattrBytes <? _)); [done|]. erewrite bind_eval by done. erewrite bind_eval by done.
  destruct (changed_xattr_run w i name change (if policy =? 3 then str "remove xattr" else str "set xattr") r d Hct ltac:(eauto) Hr Hws)
    as (d' & Hrun & X & I & P).
  rewrite Hrun. destruct (find_workspace_policies workspace d d' w P Hu Hw) as (w' & Hw' & Hid & _). simpl. split; [done|]. subst get. simpl.
  split.
  - rewrite (get_xattr_eval _ _ _ _ _ Hw'), Hpos, Hname, I, Hr, Hid, X. simpl. rewrite Hws, Z.eqb_refl. unfold change.
    destruct (policy =? 3); [by rewrite lookup_delete_eq|by rewrite lookup_insert_eq].
  - intros j m Hne. rewrite (get_xattr_eval _ _ _ _ _ Hw'), (get_xattr_eval _ _ _ _ _ Hw), Hid, X.
    destruct (RequiredPositiveInteger (VInteger j)) as [j'|] eqn:Hj; [|done]. rewrite I.
    assert (j' = j) as -> by (revert Hj; simpl; destruct (j <=? 0); congruence).
    assert (E : change (xattrs d) !! (j, m) = xattrs d !! (j, m)); [|by rewrite E].
    unfold change. destruct (policy =? 3); [by rewrite lookup_delete_ne|by rewrite lookup_insert_ne].
Qed.

(** ** An example *)

Lemma linked_workspace : FindWorkspace (str "w") linked = Ok (workspace_of 1 linked_row).
Proof. vm_compute. reflexivity. Qed.
Lemma linked_inode : RequireWorkspaceInode (workspace_of 1 linked_row) 2 linked = Ok ().
Proof. vm_compute. reflexivity. Qed.
Lemma linked_bare : bool_decide (is_Some (xattrs linked !! (2, str "user.tag"))) = false.
Proof. vm_compute. reflexivity. Qed.

(** Creating an attribute of a directory, and a removal that is refused. *)
Lemma xattr_set_get_witness :
  (let d' := (SetXattrFunction (Some (str "w")) (VInteger 2) (Some (str "user.tag")) (Some (str "red")) 1 linked).2 in
   (GetXattrFunction (Some (str "w")) (VInteger 2) (Some (str "user.tag")) d').1 = Ok (str "red")) ∧
  SetXattrFunction (Some (str "w")) (VInteger 2) (Some (str "user.tag")) (Some (str "red")) 3 linked = (Throw SQLITE_NOTFOUND, linked).
Proof.
  pose proof (λ policy H, xattr_set_get (str "w") (workspace_of 1 linked_row) 2 (str "user.tag") (str "red") policy linked
    linked_workspace linked_names linked_counted linked_inode eq_refl eq_refl H) as H.
  cbv zeta in H. rewrite linked_bare in H. split.
  - destruct (H 1 ltac:(lia)) as (_ & Hget & _). exact Hget.
  - exact (H 3 ltac:(lia)).
Defined.
