(* ===== verification/VexfsPointInTimeFacts.v ===== *)
(** * What a snapshot of the past promises

    A snapshot of an old commit is only taken when every content it refers to is there,
    and a moment stands for the last commit before it. *)
From Stdlib Require Import ZArith Lia String.
From stdpp Require Import prelude gmap sorting.
From S2P Require Import Prelude Sha256 Sha256Facts VexfsText VexfsDb VexfsTree VexfsStore VexfsStoreFacts VexfsVersion VexfsGrepIndex VexfsStaging VexfsHandles VexfsNames VexfsMetadata VexfsHistory VexfsSnapshots VexfsRetention VexfsSessions VexfsService VexfsForestTop VexfsPointInTime.

Local Open Scope Z_scope.
Implicit Types d : Db.

(** ** The hash and the reader agree *)

Lemma hash_loop_read size rows : ∀ total no acc es total' no' es', 
  hash_loop rows size total no es = Ok (total', no', es') →
  ∃ content, read_chunks rows size total no acc es = Ok (total', no', acc ++ content, es') ∧
    zlength content = total' - total ∧ no <= no'.
Proof.
  induction rows as [|[n row] rows IH]; intros total no acc es total' no' es' Hrun; cbn [hash_loop] in Hrun.
  - injection Hrun as <- <- <-. exists []. cbn [read_chunks]. rewrite app_nil_r. split_and!; [done|unfold zlength; simpl; lia|lia].
  - cbv zeta in Hrun. set (piece := Z.min kContentChunkBytes (size - total)) in *.
    destruct (Z.eqb_spec n no) as [->|]; [|done]. destruct (Z.leb_spec piece 0) as [|Hpos]; [done|].
    destruct (Z.eqb_spec (k_size row) piece) as [Hsize|]; [|done]. destruct (Z.eqb_spec (zlength (k_content row)) piece) as [Hlen|]; [|done].
    destruct (IsSha256 (k_checksum row)) eqn:Hsha; [|done]. cbn [negb orb] in Hrun.
    destruct (hashed (Sha256Hex (k_content row))) as [checksum|] eqn:Hhash; [|done].
    destruct (bool_decide_reflect (checksum = k_checksum row)) as [->|]; [|done].
    apply (IH _ _ (acc ++ k_content row)) in Hrun as (content & Hread & Hz & Hno). exists (k_content row ++ content).
    assert (Hintact : chunk_intact row piece = Ok true).
    { unfold chunk_intact. rewrite (proj2 (Z.leb_gt _ _)), Hsize, Hlen, Z.eqb_refl, is_sha256_length by done. cbn [negb orb Nat.eqb].
      rewrite Hhash. by rewrite bool_decide_eq_true_2. }
    split_and!; [|rewrite zlength_app; lia|lia]. cbn [read_chunks]. fold piece. rewrite Hintact, Z.eqb_refl. cbn [negb orb].
    rewrite Hlen, app_assoc. exact Hread.
Qed.

Lemma hash_manifest_read m size count checksum d : HashManifest m size count d = Ok checksum →
  ∃ content es, read_chunks (manifest_rows m (λ _, true) d) size 0 0 [] [] = Ok (size, count, content, es) ∧
    count = chunk_count_of size ∧ 0 <= count ∧ zlength content = size ∧ hashed (ManifestChecksum size kContentChunkBytes es) = Ok checksum.
Proof.
  unfold HashManifest. destruct (hash_loop _ _ _ _ _) as [[[total no] es]|] eqn:Hloop; [|done].
  destruct (Z.eqb_spec total size) as [->|]; [|done]. destruct (Z.eqb_spec no count) as [->|]; [|done].
  destruct (Z.eqb_spec count (chunk_count_of size)) as [E|]; [|done]. cbn [negb orb]. intros Hck.
  apply (hash_loop_read size _ 0 0 []) in Hloop as (content & Hread & Hz & Hno). exists content, es. split_and!; [done|done|done|lia|done].
Qed.

(** ** One row *)

(** A version that is copied is not a copy itself. *)
Definition flat (d : Db) : Prop := ∀ i v row s, file_versions d !! (i, v) = Some row → v_source row = Some s →
  ∃ source, file_versions d !! (i, s) = Some source ∧ v_source source = None.

(** Versions are numbered from 1. *)
Definition numbered (d : Db) : Prop := ∀ i v, is_Some (file_versions d !! (i, v)) → 0 < v.

Lemma flat_canonical d n row : flat d → file_versions d !! (t_inode n, t_version n) = Some row →
  canonical_of d n = Some (default (t_version n) (v_source row)).
Proof.
  intros Hf Hrow. unfold canonical_of. cbn [canonical_version]. rewrite Hrow. simpl. destruct (v_source row) as [s|] eqn:Hs; [|done].
  destruct (Hf _ _ _ _ Hrow Hs) as (source & Hsource & Hnone). cbn [canonical_version]. rewrite Hsource. simpl. by rewrite Hnone.
Qed.

(** The row of a version that passes is what the reader resolves. *)
Lemma requested_storage_resolves n storage d : flat d → canonical_of d n = Some (t_canonical n) →
  requested_storage n d = Some (Ok storage) → ResolveVersionStorage (t_inode n) (t_version n) d = Ok storage ∧ vs_size storage = t_size n ∨
  vs_chunk_count storage < 0.
Proof.
  intros Hf Hc. unfold requested_storage. destruct (file_versions d !! (t_inode n, t_version n)) as [row|] eqn:Hrow; [|done].
  rewrite (flat_canonical d n row Hf Hrow) in Hc. injection Hc as Hc. simpl.
  destruct (file_versions d !! (t_inode n, t_canonical n)) as [canonical|] eqn:Hcan; [|done]. simpl.
  match goal with |- Some (if ?b then _ else _) = _ → _ => destruct b eqn:Hb; [done|] end. intros [= <-]. simpl.
  rewrite !orb_false_iff, !negb_false_iff, !Z.eqb_eq, !bool_decide_eq_true, bool_decide_eq_false, Z.leb_gt, Nat.eqb_eq in Hb.
  destruct Hb as ((((((((Hsize & Hfile) & Hm) & Hpos) & Hlen) & Hck) & Hmck) & Hcs) & Hcount).
  destruct ((v_size row <? 0) || (kMaxStagedBytes <? v_size row)) eqn:Hrange; [right; lia|left]. split; [|lia].
  unfold ResolveVersionStorage. rewrite Hrow, Hrange. apply orb_false_iff in Hrange as [R1 R2]. rewrite R1, R2.
  assert (Hman : match v_source row with None => v_manifest row | Some _ => (k ← v_source row; file_versions d !! (t_inode n, k)) ≫= v_manifest end
    = v_manifest canonical).
  { destruct (v_source row) as [s|]; simpl in *; [by rewrite Hc, Hcan|]. congruence. }
  assert (Hsck : match v_source row with None => v_checksum row | Some _ => default [] (v_checksum <$> (k ← v_source row; file_versions d !! (t_inode n, k))) end
    = v_checksum row).
  { destruct (v_source row) as [s|]; simpl in *; [|done]. by rewrite Hc, Hcan. }
  cbv zeta. rewrite Hman, Hsck. rewrite bool_decide_eq_false_2, (proj2 (Z.leb_gt _ _)), <- Hfile, Z.eqb_refl, Hlen, Hcs, Z.eqb_refl by done.
  rewrite bool_decide_eq_true_2 by done. rewrite bool_decide_eq_true_2 by done. rewrite Hcount, Z.eqb_refl. cbn [negb orb Nat.eqb].
  by rewrite Hc.
Qed.

(** ** All rows *)

Lemma requested_versions_cover p n nodes : ∀ seen, (p, n) ∈ nodes → t_kind n ≠ KDirectory → (t_inode n, t_version n) ∉ seen →
  ∃ p' n', (p', n') ∈ nodes ∧ n' ∈ requested_versions nodes seen ∧ t_inode n' = t_inode n ∧ t_version n' = t_version n.
Proof.
  induction nodes as [|[q m] nodes IH]; intros seen Hin Hk Hseen; [by apply not_elem_of_nil in Hin|]. cbn [requested_versions].
  destruct (decide ((t_inode m, t_version m) = (t_inode n, t_version n) ∧ t_kind m ≠ KDirectory)) as [[[= Hi Hv] Hm]|Hne].
  - exists q, m. rewrite Hi, Hv, !bool_decide_eq_false_2 by done. cbn [orb]. split_and!; [left|left|done|done].
  - assert (Hin' : (p, n) ∈ nodes) by (apply elem_of_cons in Hin as [[= -> ->]|]; [by destruct Hne|done]).
    destruct (bool_decide (t_kind m = KDirectory) || bool_decide ((t_inode m, t_version m) ∈ seen)) eqn:Hskip.
    + destruct (IH seen Hin' Hk Hseen) as (p'' & n'' & ? & ? & ? & ?). exists p'', n''. split_and!; [by right|done..].
    + apply orb_false_iff in Hskip as [Hm%bool_decide_eq_false _].
      destruct (IH ({[ (t_inode m, t_version m) ]} ∪ seen) Hin' Hk) as (p'' & n'' & ? & ? & ? & ?).
      { intros [E%elem_of_singleton|E]%elem_of_union; [|done]. by destruct Hne. }
      exists p'', n''. split_and!; [by right|by right|done..].
Qed.

Lemma requested_versions_in n nodes : ∀ seen, n ∈ requested_versions nodes seen → ∃ p, (p, n) ∈ nodes.
Proof.
  induction nodes as [|[q m] nodes IH]; intros seen; [by intros ?%not_elem_of_nil|]. cbn [requested_versions].
  assert (Hstep : ∀ seen, n ∈ requested_versions nodes seen → ∃ p, (p, n) ∈ (q, m) :: nodes).
  { intros s [p Hp]%IH. exists p. by right. }
  case_match; [apply Hstep|]. intros [->|Hn]%elem_of_cons; [exists q; left|by eapply Hstep].
Qed.

Lemma collect_manifests_ok rows : ∀ found result, collect_manifests rows found = Ok result →
  (∀ m s, found !! m = Some s → result !! m = Some s) ∧ ∀ r, r ∈ rows → ∃ storage s, r = Ok storage ∧ result !! vs_manifest storage = Some s ∧
    vs_size s = vs_size storage ∧ vs_chunk_count s = vs_chunk_count storage ∧ vs_checksum s = vs_checksum storage.
Proof.
  induction rows as [|[storage|e] rows IH]; intros found result Hrun; cbn [collect_manifests] in Hrun; [|..|done].
  { injection Hrun as <-. split; [done|]. by intros r ?%not_elem_of_nil. }
  destruct (found !! vs_manifest storage) as [s|] eqn:Hs.
  - destruct (Z.eqb_spec (vs_size s) (vs_size storage)); [|done]. destruct (Z.eqb_spec (vs_chunk_count s) (vs_chunk_count storage)); [|done].
    destruct (bool_decide_reflect (vs_checksum s = vs_checksum storage)); [|done]. apply IH in Hrun as [Hkeep Hrows]. split; [done|].
    intros r [->|Hr]%elem_of_cons; [|by apply Hrows]. exists storage, s. split_and!; [done|by apply Hkeep|done..].
  - apply IH in Hrun as [Hkeep Hrows]. split.
    + intros m s Hm. apply Hkeep. rewrite lookup_insert_ne; [done|congruence].
    + intros r [->|Hr]%elem_of_cons; [|by apply Hrows]. exists storage, storage. split_and!; [done|apply Hkeep, lookup_insert_eq|done..].
Qed.

Lemma check_manifests_ok l d : check_manifests l d = Ok () → ∀ m s, (m, s) ∈ l →
  HashManifest m (vs_size s) (vs_chunk_count s) d = Ok (vs_checksum s).
Proof.
  induction l as [|[m s] l IH]; cbn [check_manifests]; intros Hrun m' s' Hin; [by apply not_elem_of_nil in Hin|].
  destruct (HashManifest m _ _ d) as [ck|] eqn:Hh; [|done]. destruct (bool_decide_reflect (ck = vs_checksum s)) as [->|]; [|done].
  apply elem_of_cons in Hin as [[= -> ->]|Hin]; [done|by apply IH].
Qed.

Lemma omap_shorter {A B} (f : A → option B) l : (length (omap f l) ≤ length l)%nat.
Proof. induction l as [|a l IH]; csimpl; [done|]. destruct (f a); csimpl; lia. Qed.
Lemma omap_all {A B} (f : A → option B) l : length (omap f l) = length l → ∀ x, x ∈ l → ∃ y, f x = Some y ∧ y ∈ omap f l.
Proof.
  induction l as [|a l IH]; intros Hl x Hx; [by apply not_elem_of_nil in Hx|]. csimpl in *. pose proof (omap_shorter f l) as Hle.
  destruct (f a) as [b|] eqn:Ha; csimpl in *; [|lia].
  apply elem_of_cons in Hx as [->|Hx]; [exists b; split; [done|left]|]. destruct (IH ltac:(lia) x Hx) as (y & Hy & Hin). exists y. split; [done|by right].
Qed.

(** ** The tree *)

(** A node of a tree is the row of its inode, and its content is resolved. *)
Lemma tree_node_row w c d t p n : TreeAtCommit w c d = Ok t → t !! p = Some n →
  (∃ r, nodes_at (ws_id w) c d !! t_inode n = Some r ∧ t_kind n = i_kind r ∧ t_size n = i_size r ∧ t_version n = i_version r) ∧
  (has_content n = true → canonical_of d n = Some (t_canonical n)).
Proof.
  unfold TreeAtCommit. destruct (ValidateHistoryCommit w c d); [|done]. cbv zeta. case_bool_decide; [done|].
  destruct (walk_tree _ _ _) as [found|]; [|done]. set (tree := list_to_map _ : SnapshotTree).
  destruct (ResolveSnapshotCanonicalVersions tree d) as [t1|] eqn:Hres; [|done]. intros [= <-]. rewrite lookup_fmap.
  destruct (t1 !! p) as [n1|] eqn:Hn1; [|done]. intros [= <-]. 
  assert (∃ n0, tree !! p = Some n0 ∧ t_inode n1 = t_inode n0 ∧ t_kind n1 = t_kind n0 ∧ t_size n1 = t_size n0 ∧ t_version n1 = t_version n0 ∧
    (has_content n1 = true → canonical_of d n1 = Some (t_canonical n1))) as (n0 & Hn0 & Hi & Hk & Hs & Hv & Hc).
  { unfold ResolveSnapshotCanonicalVersions in Hres. cbv zeta in Hres. case_bool_decide as Hnone.
    - injection Hres as <-. exists n1. split_and!; try done. intros Hcont.
      assert (Hin : (p, n1) ∈ filter (λ '(_, n), has_content n = true) (map_to_list tree)).
      { apply list_elem_of_filter. split; [done|]. by apply elem_of_map_to_list. }
      rewrite Hnone in Hin. by apply not_elem_of_nil in Hin.
    - destruct (forallb _ _) eqn:Hall; [|done]. injection Hres as <-. rewrite lookup_fmap in Hn1.
      destruct (tree !! p) as [n0|] eqn:Hn0; [|done]. injection Hn1 as <-. exists n0. split_and!; try done.
      intros Hcont. change (has_content n0 = true) in Hcont. rewrite forallb_forall in Hall.
      specialize (Hall (p, n0)). rewrite bool_decide_eq_true in Hall. destruct Hall as [v Hv].
      { apply list_elem_of_In, list_elem_of_filter. split; [done|]. by apply elem_of_map_to_list. }
      change (canonical_of d n0 = Some (if has_content n0 then default 0 (canonical_of d n0) else t_version n0)). by rewrite Hcont, Hv. }
  split; [|done]. apply elem_of_list_to_map_2, list_elem_of_omap in Hn0 as ([q i] & _ & Hif).
  destruct (nodes_at (ws_id w) c d !! i) as [r|] eqn:Hr; [|done]. injection Hif as _ <-. exists r. simpl in *. by rewrite Hi, Hk, Hs, Hv.
Qed.

Lemma elem_of_entries_map {A} (t : gmap bytes A) p n : (p, n) ∈ entries t ↔ t !! p = Some n.
Proof. unfold entries. by rewrite merge_sort_Permutation, elem_of_map_to_list. Qed.

(** What the validation has seen. *)
Lemma validated_target w c d : flat d → numbered d → ValidateHistoricalSnapshotTarget w c d = Ok () → ∃ t, TreeAtCommit w c d = Ok t ∧
  ∀ p n, t !! p = Some n → t_kind n ≠ KDirectory →
    ∃ content, ReadVersionContent (t_inode n) (t_version n) d = Ok content ∧ zlength content = t_size n.
Proof.
  intros Hflat Hnum. unfold ValidateHistoricalSnapshotTarget. destruct (TreeAtCommit w c d) as [t|] eqn:Ht; [|done].
  destruct (ReadQuotaPolicy _ d); [|done]. destruct (CurrentQuotaStats w d); [|done]. destruct (SnapshotQuotaStats t); [|done].
  destruct (CheckQuotaForSnapshotRestore _ _ _); [|done]. cbv zeta. intros Hrun. exists t. split; [done|]. intros p n Hn Hk.
  destruct (requested_versions_cover p n (entries t) ∅) as (p' & n' & Hin & Hreq & Hi & Hv); [by apply elem_of_entries_map|done|set_solver|].
  apply elem_of_entries_map in Hin. destruct (tree_node_row _ _ _ _ _ _ Ht Hn) as [(r & Hr & _ & Hs & _) _].
  destruct (tree_node_row _ _ _ _ _ _ Ht Hin) as [(r' & Hr' & Hk' & Hs' & Hv') Hcan]. rewrite Hi, Hr in Hr'. injection Hr' as <-.
  assert (Hdir : t_kind n' ≠ KDirectory).
  { destruct (tree_node_row _ _ _ _ _ _ Ht Hn) as [(r0 & Hr0 & Hk0 & _) _]. rewrite Hr in Hr0. injection Hr0 as <-. congruence. }
  rewrite <- Hi, <- Hv, Hs, <- Hs'. clear p n Hn Hk Hi Hv Hs Hr Hs' Hk' Hv'.
  rewrite bool_decide_eq_false_2 in Hrun by (intros E; rewrite E in Hreq; by apply not_elem_of_nil in Hreq).
  destruct (collect_manifests _ ∅) as [found|] eqn:Hcol; [|done]. destruct (Nat.eqb_spec (length (omap (λ n, requested_storage n d)
    (requested_versions (entries t) ∅))) (length (requested_versions (entries t) ∅))) as [Hlen|]; [|done]. cbn [negb] in Hrun.
  destruct (omap_all _ _ Hlen n' Hreq) as (row & Hrow & Hrowin).
  assert (Hcont' : has_content n' = true).
  { unfold has_content. rewrite bool_decide_eq_false_2 by done. apply Z.ltb_lt, (Hnum (t_inode n')). unfold requested_storage in Hrow.
    destruct (file_versions d !! (t_inode n', t_version n')) as [x|]; [by exists x|done]. }
  destruct (proj2 (collect_manifests_ok _ _ _ Hcol) row Hrowin) as (storage & s & -> & Hfound & E1 & E2 & E3).
  pose proof (check_manifests_ok _ _ Hrun (vs_manifest storage) s) as Hhash.
  rewrite merge_sort_Permutation, elem_of_map_to_list, E1, E2, E3 in Hhash. specialize (Hhash Hfound).
  apply hash_manifest_read in Hhash as (content & es & Hread & Hcount & Hpos & Hz & Hck).
  destruct (requested_storage_resolves n' storage d Hflat (Hcan Hcont') Hrow) as [[Hres Hsize]|]; [|lia]. exists content.
  split; [|congruence]. unfold ReadVersionContent. rewrite Hres.
  assert (Hmax : vs_size storage <= kMaxStagedBytes).
  { unfold ResolveVersionStorage in Hres. destruct (file_versions d !! _) as [v|]; [|done]. cbv zeta in Hres.
    destruct (_ || _) eqn:Hb in Hres; [done|]. injection Hres as <-. rewrite !orb_false_iff, !Z.ltb_ge in Hb. simpl. lia. }
  rewrite (proj2 (Z.ltb_ge _ _) Hmax), Hread, !Z.eqb_refl, Hcount, Z.eqb_refl. cbn [negb orb]. rewrite Hck.
  by rewrite bool_decide_eq_true_2.
Qed.

(** ** Naming the commit *)

Lemma insert_snapshot_ok ws name t c d d' : insert_snapshot ws name t c d = (Ok (), d') →
  ∃ id p, find_snapshot_row ws name d' = Some (id, p) ∧ p_commit p = c ∧ d' = on_snapshots (insert id p) d.
Proof.
  unfold insert_snapshot, with_db. intros Hrun. apply bind_ok in Hrun as (? & ? & [Hnone ->]%throw_if_ok & Hrun%modify_ok). subst d'.
  set (id := next_rowid (snapshots d)). set (p := mkSnapshotRow ws name t c (clock_seconds d)). exists id, p. split_and!; [|done|done].
  apply bool_decide_eq_false in Hnone. unfold find_snapshot_row. simpl. 
  set (P := λ '(_, q), p_workspace q = ws ∧ p_name q = name) in *.
  destruct (filter P (map_to_list (<[id := p]> (snapshots d)))) as [|[i q] l] eqn:E.
  - assert (Hin : (id, p) ∈ filter P (map_to_list (<[id := p]> (snapshots d)))).
    { apply list_elem_of_filter. split; [done|]. apply elem_of_map_to_list, lookup_insert_eq. }
    rewrite E in Hin. by apply not_elem_of_nil in Hin.
  - assert (Hin : (i, q) ∈ filter P (map_to_list (<[id := p]> (snapshots d)))) by (rewrite E; left). simpl. f_equal.
    apply list_elem_of_filter in Hin as [HP [[<- <-]|[_ Hq]]%elem_of_map_to_list%lookup_insert_Some]; [done|]. destruct Hnone.
    unfold find_snapshot_row. fold P. assert (Hin : (i, q) ∈ filter P (map_to_list (snapshots d))).
    { apply list_elem_of_filter. split; [done|]. by apply elem_of_map_to_list. }
    destruct (filter P (map_to_list (snapshots d))); [by apply not_elem_of_nil in Hin|]. simpl. eauto.
Qed.

Lemma insert_snapshot_found w name t c d d' : InsertSnapshot w name t c d = (Ok (), d') →
  (∃ info, FindSnapshot w name d' = Ok info ∧ si_commit info = c) ∧ tree_of d' = tree_of d ∧ content_of d' = content_of d ∧
  TreeAtCommit w c d' = TreeAtCommit w c d.
Proof.
  unfold InsertSnapshot. intros Hrun. apply bind_ok in Hrun as (ty & ? & [_ ->]%lift_ok & Hrun).
  apply bind_ok in Hrun as ([] & ? & [Hval ->]%query_ok & Hrun). apply insert_snapshot_ok in Hrun as (id & p & Hfind & Hp & ->).
  split; [|done]. unfold FindSnapshot. rewrite Hfind, Hp.
  change (ValidateHistoryCommit w c (on_snapshots (insert id p) d)) with (ValidateHistoryCommit w c d). rewrite Hval. eexists. split; [done|]. done.
Qed.

(** C18: a snapshot of an old commit can be trusted. When [snapshot_create_at_commit]
    returns, it returns the commit that was asked for and the name stands for that
    commit; the tree of the commit reads, the same as before the call, and every file
    and symlink in it has its content: all of its chunks are there, with the checksums
    of the manifest, and as many bytes as the tree says. (No stored version copies a
    copy, and versions are numbered from 1, as the functions that store them do.) *)
Theorem historical_snapshot_readable workspace name commit snapshot_type d c d' : flat d → numbered d →
  SnapshotCreateAtCommitFunction (Some workspace) (Some name) (VInteger commit) snapshot_type d = (Ok c, d') →
  c = commit ∧ ∃ w t, FindWorkspace workspace d = Ok w ∧ (∃ info, FindSnapshot w name d' = Ok info ∧ si_commit info = commit) ∧
    TreeAtCommit w commit d = Ok t ∧ TreeAtCommit w commit d' = Ok t ∧
    ∀ p n, t !! p = Some n → t_kind n ≠ KDirectory →
      ∃ content, ReadVersionContent (t_inode n) (t_version n) d' = Ok content ∧ zlength content = t_size n.
Proof.
  intros Hflat Hnum Hrun. unfold SnapshotCreateAtCommitFunction in Hrun.
  apply bind_ok in Hrun as (? & ? & [[= <-] ->]%lift_ok & Hrun). apply bind_ok in Hrun as (w & ? & [Hw ->]%query_ok & Hrun).
  apply bind_ok in Hrun as (? & ? & [[= <-] ->]%lift_ok & Hrun). apply bind_ok in Hrun as (c0 & ? & [Hc0 ->]%lift_ok & Hrun).
  simpl in Hc0. destruct (commit <=? 0); [done|]. injection Hc0 as <-.
  apply bind_ok in Hrun as (ty & ? & [_ ->]%lift_ok & Hrun). apply bind_ok in Hrun as (? & ? & [_ ->]%lift_ok & Hrun).
  apply (proj1 (savepoint_ok _ _ _ _)) in Hrun. apply bind_ok in Hrun as (? & ? & [= <- <-] & Hrun).
  apply bind_ok in Hrun as ([] & ? & [Hval ->]%query_ok & Hrun). apply bind_ok in Hrun as ([] & d1 & Hins & [-> ->]%ret_ok).
  apply insert_snapshot_found in Hins as (Hfind & _ & Hcontent & Htree). destruct (validated_target w commit d Hflat Hnum Hval) as (t & Ht & Hread).
  split; [done|]. exists w, t. split_and!; [done|done|done|congruence|]. intros p n Hn Hc. destruct (Hread p n Hn Hc) as (content & Hcnt & Hz). exists content.
  split; [|done]. rewrite (read_content_of _ _ d) by done. done.
Qed.

(** ** Moments *)

#[export] Instance commit_le_total : Total commit_le.
Proof. intros x y. unfold commit_le. rewrite !orb_true_iff, !andb_true_iff, !Z.ltb_lt, !Z.eqb_eq, !Z.leb_le. lia. Qed.
#[export] Instance commit_le_trans : Transitive commit_le.
Proof. intros x y z. unfold commit_le. rewrite !orb_true_iff, !andb_true_iff, !Z.ltb_lt, !Z.eqb_eq, !Z.leb_le. lia. Qed.

(** A moment stands for the last commit before it. For a time with a zone that SQLite
    can read, [ResolveCommitAtTime] finds the commit of the workspace that was made last
    among those not after the time and not before the start of its history, the one with
    the larger number when two were made at the same time; and it finds none only when
    there is none. *)
Theorem commit_at_time_is_last julian w requested_at until d : HasExplicitRfc3339Timezone requested_at = true → julian requested_at = Some until →
  match ResolveCommitAtTime julian w requested_at d with
  | Ok (id, created) => ∃ c, commits d !! id = Some c ∧ c_created c = created ∧ restorable w until d (id, c) ∧
      ∀ id' c', commits d !! id' = Some c' → restorable w until d (id', c') → c_created c' < created ∨ c_created c' = created ∧ id' <= id
  | Throw e => e = SQLITE_NOTFOUND ∧ ∀ id c, commits d !! id = Some c → ¬ restorable w until d (id, c)
  end.
Proof.
  intros Hzone Hj. unfold ResolveCommitAtTime. rewrite Hzone, Hj. cbn [negb].
  pose proof (merge_sort_Permutation commit_le (filter (restorable w until d) (map_to_list (commits d)))) as Hperm.
  pose proof (StronglySorted_merge_sort commit_le (filter (restorable w until d) (map_to_list (commits d)))) as Hsorted.
  assert (Hin : ∀ id c, (id, c) ∈ merge_sort commit_le (filter (restorable w until d) (map_to_list (commits d))) ↔
    restorable w until d (id, c) ∧ commits d !! id = Some c).
  { intros id c. by rewrite Hperm, list_elem_of_filter, elem_of_map_to_list. }
  destruct (merge_sort _ _) as [|[id c] l].
  - split; [done|]. intros id c Hc Hr. assert (H : (id, c) ∈ []) by (by apply Hin). by apply not_elem_of_nil in H.
  - destruct (proj1 (Hin id c) ltac:(left)) as [Hr Hc]. exists c. split_and!; [done|done|done|]. intros id' c' Hc' Hr'.
    assert (H : (id', c') ∈ (id, c) :: l) by (by apply Hin). apply elem_of_cons in H as [[= -> ->]|H]; [right; lia|].
    inversion Hsorted as [|? ? _ Hall]; subst. rewrite Forall_forall in Hall. specialize (Hall _ H). unfold commit_le in Hall.
    rewrite orb_true_iff, andb_true_iff, Z.ltb_lt, Z.eqb_eq, Z.leb_le in Hall. simpl in Hall. lia.
Qed.

(** ** An example *)

Definition past_calls : list call :=
  [ CWorkspaceCreate 0 0 (Some (str "w")); CWrite 0 0 (Some (str "w")) (Some (str "/f")) (Some (str "one")); CTick 9000;
    CWrite 0 0 (Some (str "w")) (Some (str "/f")) (Some (str "three")) ].
Definition past_db : Db := run_calls past_calls (empty_db 5000).
Definition past_snapshot : M Z := SnapshotCreateAtCommitFunction (Some (str "w")) (Some (str "s")) (VInteger 2) None.
Definition past_named : Db := (past_snapshot past_db).2.
Definition past_workspace : Workspace := mkWorkspace 1 1 3.

Lemma originals_flat d : forallb (λ x, bool_decide (v_source x.2 = None)) (map_to_list (file_versions d)) = true → flat d.
Proof.
  intros Hall i v row s Hrow Hs. rewrite forallb_forall in Hall. specialize (Hall (i, v, row)). simpl in Hall.
  rewrite bool_decide_eq_true in Hall. rewrite Hall in Hs; [done|]. by apply list_elem_of_In, elem_of_map_to_list.
Qed.
Lemma past_flat : flat past_db.
Proof. apply originals_flat. vm_compute. reflexivity. Qed.
Lemma past_result : (past_snapshot past_db).1 = Ok 2.
Proof. vm_compute. reflexivity. Qed.

Lemma all_numbered d : forallb (λ x, 0 <? x.1.2) (map_to_list (file_versions d)) = true → numbered d.
Proof.
  intros Hall i v [row Hrow%elem_of_map_to_list]. rewrite forallb_forall in Hall. specialize (Hall (i, v, row)). simpl in Hall.
  apply Z.ltb_lt, Hall. by apply list_elem_of_In.
Qed.
Lemma past_numbered : numbered past_db.
Proof. apply all_numbered. vm_compute. reflexivity. Qed.

Lemma historical_snapshot_readable_witness : ∃ w t, FindWorkspace (str "w") past_db = Ok w ∧ TreeAtCommit w 2 past_named = Ok t.
Proof.
  destruct (historical_snapshot_readable (str "w") (str "s") 2 None past_db 2 past_named past_flat past_numbered
    (run_state past_snapshot past_db (Ok 2) past_result)) as (_ & w & t & Hw & _ & _ & Ht & _).
  exists w, t. split; [exact Hw|exact Ht].
Defined.

(** Between the two writes the first one counts. *)
Lemma past_moment : ResolveCommitAtTime (λ _, Some 7000) past_workspace (str "1970-01-01T00:00:07Z") past_db = Ok (2, 5000).
Proof. vm_compute. reflexivity. Qed.
Lemma commit_at_time_is_last_witness : ∃ c, commits past_db !! 2 = Some c ∧ c_created c = 5000 ∧ restorable past_workspace 7000 past_db (2, c).
Proof.
  pose proof (commit_at_time_is_last (λ _, Some 7000) past_workspace (str "1970-01-01T00:00:07Z") 7000 past_db eq_refl eq_refl) as H.
  rewrite past_moment in H. destruct H as (c & Hc & Ht & Hr & _). exists c. split; [exact Hc|]. split; [exact Ht|exact Hr].
Defined.
