(* ===== verification/VexfsCompare.v ===== *)
(** * Comparing two versions

    [CompareVersionsFunction] of [src/vexdb_sqlite/src/agent_files/vexfs_sqlite.cpp]
    walks the chunks of two versions of a file side by side and never has more than a
    chunk of each in memory. Its answer is that of comparing the contents. *)
From Stdlib Require Import ZArith Lia String.
From stdpp Require Import prelude gmap sorting.
From S2P Require Import Prelude Sha256 VexfsText VexfsDb VexfsTree VexfsStore VexfsStoreFacts VexfsGrepIndex VexfsStaging VexfsHandles VexfsNames VexfsMetadata VexfsHistory VexfsSnapshots VexfsRetention VexfsSessions VexfsService VexfsForestTop.

Local Open Scope Z_scope.
Implicit Types d : Db.

(** ** Side by side *)

(** The rows the two statements deliver in each round. *)
Fixpoint rounds {A : Type} (from to : list A) : list (option A * option A) :=
  match from with
  | [] => (λ y, (None, Some y)) <$> to
  | x :: from => (Some x, head to) :: rounds from (tail to)
  end.

(** What the loop has gathered of one version. *)
Record Side := mkSide { sd_entries : list ManifestChunkChecksum; sd_chunks : Z; sd_bytes : Z }.

(** One chunk of one version; nothing when its rows have ended. *)
Definition next_chunk (row : option (Z * chunk_row)) (chunk_no : Z) (s : Side) : sql (bytes * Side) :=
  match row with
  | None => Ok ([], s)
  | Some (n, row) =>
    let content := k_content row in
    if negb (n =? chunk_no) || negb (k_size row =? zlength content) || bool_decide (content = []) ||
       (kContentChunkBytes <? zlength content) then Throw SQLITE_CORRUPT
    else
      match hashed (Sha256Hex content) with
      | Throw e => Throw e
      | Ok checksum =>
        if bool_decide (checksum = k_checksum row)
        then Ok (content, mkSide (sd_entries s ++ [mkChunkChecksum (zlength content) (k_checksum row)]) (sd_chunks s + 1) (sd_bytes s + zlength content))
        else Throw SQLITE_CORRUPT
      end
  end.

Fixpoint compare_loop (rows : list (option (Z * chunk_row) * option (Z * chunk_row))) (chunk_no : Z) (from to : Side) (changed binary : bool)
    : sql (Side * Side * bool * bool) :=
  match rows with
  | [] => Ok (from, to, changed, binary)
  | (from_row, to_row) :: rows =>
    match next_chunk from_row chunk_no from with
    | Throw e => Throw e
    | Ok (from_chunk, from) =>
      match next_chunk to_row chunk_no to with
      | Throw e => Throw e
      | Ok (to_chunk, to) =>
        compare_loop rows (chunk_no + 1) from to (changed || negb (bool_decide (from_chunk = to_chunk)))
          (binary || bool_decide (0 ∈ from_chunk) || bool_decide (0 ∈ to_chunk))
      end
    end
  end.

Definition root_matches (storage : VersionStorage) (s : Side) : sql bool :=
  match hashed (ManifestChecksum (vs_size storage) kContentChunkBytes (sd_entries s)) with
  | Throw e => Throw e
  | Ok checksum => Ok (bool_decide (checksum = vs_checksum storage))
  end.

(** What is printed of a comparison. *)
Record VersionComparison := mkVersionComparison {
  vc_path : bytes;
  vc_from : Z;
  vc_to : Z;
  vc_changed : bool;
  vc_binary : bool;
  vc_from_size : Z;
  vc_to_size : Z;
}.

Definition compare_versions (path : bytes) (inode from_version to_version : Z) (d : Db) : sql VersionComparison :=
  match ResolveVersionStorage inode from_version d, ResolveVersionStorage inode to_version d with
  | Throw e, _ => Throw e
  | _, Throw e => Throw e
  | Ok from, Ok to =>
    match compare_loop (rounds (manifest_rows (vs_manifest from) (λ _, true) d) (manifest_rows (vs_manifest to) (λ _, true) d))
            0 (mkSide [] 0 0) (mkSide [] 0 0) (negb (vs_size from =? vs_size to)) false with
    | Throw e => Throw e
    | Ok (f, t, changed, binary) =>
      if negb (sd_bytes f =? vs_size from) || negb (sd_bytes t =? vs_size to) ||
         negb (sd_chunks f =? vs_chunk_count from) || negb (sd_chunks t =? vs_chunk_count to) then Throw SQLITE_CORRUPT
      else
        match root_matches from f with
        | Throw e => Throw e
        | Ok false => Throw SQLITE_CORRUPT
        | Ok true =>
          match root_matches to t with
          | Throw e => Throw e
          | Ok false => Throw SQLITE_CORRUPT
          | Ok true => Ok (mkVersionComparison path from_version to_version changed binary (vs_size from) (vs_size to))
          end
        end
    end
  end.

Definition CompareVersionsFunction (workspace path : option bytes) (from_version to_version : sqlite_value) : M VersionComparison :=
  path ← lift (RequiredText path);
  name ← lift (RequiredText workspace);
  w ← query (FindWorkspace name);
  parts ← lift (PathParts path);
  node ← query (Resolve w parts);
  throw_if (negb (bool_decide (n_kind node = KFile))) SQLITE_MISMATCH;;
  from_version ← lift (RequiredPositiveInteger from_version);
  to_version ← lift (RequiredPositiveInteger to_version);
  query (compare_versions path (n_id node) from_version to_version).

(** ** Rows that read as a content *)

(** The rows of a manifest from chunk [no] on, where [offset] bytes of [size] lie before
    them, with the content and the checksums they hold. *)
Inductive holds (size : Z) : list (Z * chunk_row) → Z → Z → bytes → list ManifestChunkChecksum → Prop :=
| holds_end no : holds size [] size no [] []
| holds_row row rows offset no content es :
    chunk_intact row (Z.min kContentChunkBytes (size - offset)) = Ok true →
    holds size rows (offset + Z.min kContentChunkBytes (size - offset)) (no + 1) content es →
    holds size ((no, row) :: rows) offset no (k_content row ++ content) (mkChunkChecksum (zlength (k_content row)) (k_checksum row) :: es).

Lemma read_chunks_holds size rows : ∀ offset no acc es no' content es', 
  read_chunks rows size offset no acc es = Ok (size, no', content, es') →
  ∃ c es1, content = acc ++ c ∧ es' = es ++ es1 ∧ no' = no + Z.of_nat (length rows) ∧ holds size rows offset no c es1.
Proof.
  induction rows as [|[n row] rows IH]; intros offset no acc es no' content es' Hrun; cbn [read_chunks] in Hrun.
  - injection Hrun as -> -> -> ->. exists [], []. rewrite !app_nil_r. split_and!; [done|done|simpl; lia|constructor].
  - cbv zeta in Hrun. destruct (chunk_intact row _) as [[]|] eqn:Hintact; [..|done]; destruct (Z.eqb_spec n no) as [->|]; try done.
    cbn [negb orb] in Hrun. apply IH in Hrun as (c & es1 & -> & -> & -> & Hrows).
    exists (k_content row ++ c), (mkChunkChecksum (zlength (k_content row)) (k_checksum row) :: es1).
    rewrite <- !app_assoc. split_and!; [done|done|simpl length; lia|by constructor].
Qed.

(** An intact chunk passes the checks of the comparison. *)
Lemma intact_next row size no s : chunk_intact row size = Ok true → size <= kContentChunkBytes →
  zlength (k_content row) = size ∧ 0 < size ∧
  next_chunk (Some (no, row)) no s =
    Ok (k_content row, mkSide (sd_entries s ++ [mkChunkChecksum (zlength (k_content row)) (k_checksum row)]) (sd_chunks s + 1) (sd_bytes s + size)).
Proof.
  unfold chunk_intact. destruct (Z.leb_spec size 0) as [|Hpos]; [done|]. destruct (Z.eqb_spec (k_size row) size) as [Hsize|]; [|done].
  destruct (Z.eqb_spec (zlength (k_content row)) size) as [Hlen|]; [|done]. destruct (length (k_checksum row) =? 64)%nat; [|done].
  cbn [negb orb]. intros Hhash Hmax. split_and!; [done|done|]. unfold next_chunk. cbv zeta.
  rewrite Z.eqb_refl, Hsize, Hlen, Z.eqb_refl, (proj2 (Z.ltb_ge _ _) Hmax), bool_decide_eq_false_2 by (intros E; rewrite E in Hlen; unfold zlength in Hlen; simpl in Hlen; lia).
  cbn [negb orb]. destruct (hashed _) as [ck|]; [|done]. injection Hhash as Hck. rewrite Hck. reflexivity.
Qed.

Lemma holds_size size rows offset no content es : holds size rows offset no content es → zlength content = size - offset.
Proof.
  induction 1 as [|row rows offset no content es Hintact _ IH]; [unfold zlength; simpl; lia|].
  destruct (intact_next row _ no (mkSide [] 0 0) Hintact (Z.le_min_l _ _)) as (Hlen & _ & _). rewrite zlength_app. lia.
Qed.
Lemma holds_bound size rows offset no content es : holds size rows offset no content es → offset <= size.
Proof. intros H. apply holds_size in H. pose proof (zlength_nonneg content). lia. Qed.

(** ** The loop is the comparison *)

Lemma bool_decide_app_in (x : Z) (l k : bytes) : bool_decide (x ∈ l ++ k) = bool_decide (x ∈ l) || bool_decide (x ∈ k).
Proof. rewrite (bool_decide_ext _ (x ∈ l ∨ x ∈ k)) by apply elem_of_app. by rewrite bool_decide_or. Qed.

Definition after (s : Side) (es : list ManifestChunkChecksum) (rows : list (Z * chunk_row)) (bytes : Z) : Side :=
  mkSide (sd_entries s ++ es) (sd_chunks s + Z.of_nat (length rows)) (sd_bytes s + bytes).
Lemma after_nil s : after s [] [] 0 = s.
Proof. unfold after. destruct s as [es n b]. simpl. rewrite app_nil_r. f_equal; lia. Qed.
Lemma after_row s e es x rows size bytes : after (mkSide (sd_entries s ++ [e]) (sd_chunks s + 1) (sd_bytes s + size)) es rows bytes =
  after s (e :: es) (x :: rows) (size + bytes).
Proof. unfold after. cbn [sd_entries sd_chunks sd_bytes length]. rewrite <- app_assoc. f_equal; lia. Qed.

(** The rows of the longer version alone. *)
Lemma compare_tail size rows offset no content es : holds size rows offset no content es → ∀ f t changed binary,
  changed = true ∨ rows = [] →
  compare_loop ((λ y, (None, Some y)) <$> rows) no f t changed binary =
    Ok (f, after t es rows (zlength content), changed, binary || bool_decide (0 ∈ content)).
Proof.
  induction 1 as [|row rows offset no content es Hintact Hrows IH]; intros f t changed binary Hch.
  - cbn [fmap list_fmap compare_loop]. change (zlength []) with 0. by rewrite after_nil, bool_decide_eq_false_2, orb_false_r by apply not_elem_of_nil.
  - destruct (intact_next row _ no t Hintact (Z.le_min_l _ _)) as (Hlen & Hpos & Hnext). destruct Hch as [->|]; [|done].
    cbn [fmap list_fmap compare_loop]. change (next_chunk None no f) with (Ok (E := SqlError) ([] : bytes, f)). rewrite Hnext. cbn [orb].
    rewrite IH by by left. rewrite (bool_decide_eq_false_2 (0 ∈ [])) by apply not_elem_of_nil.
    rewrite (after_row _ _ _ (no, row)), <- Hlen, <- zlength_app, bool_decide_app_in, orb_false_r, orb_assoc. done.
Qed.

(** Same sizes so far, or known to differ. *)
Lemma compare_loop_holds size1 rows1 offset1 no c1 es1 : holds size1 rows1 offset1 no c1 es1 →
  ∀ size2 rows2 offset2 c2 es2 f t changed binary, holds size2 rows2 offset2 no c2 es2 →
  changed = true ∨ size1 = size2 ∧ offset1 = offset2 →
  compare_loop (rounds rows1 rows2) no f t changed binary =
    Ok (after f es1 rows1 (zlength c1), after t es2 rows2 (zlength c2), changed || negb (bool_decide (c1 = c2)),
        binary || bool_decide (0 ∈ c1) || bool_decide (0 ∈ c2)).
Proof.
  induction 1 as [no|row1 rows1 offset1 no c1 es1 Hintact1 Hrows1 IH]; intros size2 rows2 offset2 c2 es2 f t changed binary Hrows2 Hch.
  - cbn [rounds]. change (zlength []) with 0. rewrite after_nil, (bool_decide_eq_false_2 (0 ∈ [])), orb_false_r by apply not_elem_of_nil.
    assert (Hend : changed = true ∨ rows2 = []).
    { destruct Hch as [|[-> ->]]; [by left|right]. inversion Hrows2 as [|row rows ? ? c es Hintact]; subst; [done|].
      destruct (intact_next row _ no t Hintact (Z.le_min_l _ _)) as (_ & ? & _). lia. }
    rewrite (compare_tail _ _ _ _ _ _ Hrows2) by done. do 3 f_equal. destruct Hend as [->| ->]; [done|].
    inversion Hrows2; subst. by rewrite bool_decide_eq_true_2, orb_false_r.
  - destruct (intact_next row1 _ no f Hintact1 (Z.le_min_l _ _)) as (Hlen1 & Hpos1 & Hnext1). cbn [rounds compare_loop]. rewrite Hnext1.
    pose proof (holds_bound _ _ _ _ _ _ Hrows1) as Hb1.
    destruct Hrows2 as [no|row2 rows2 offset2 no c2 es2 Hintact2 Hrows2]; cbn [head tail].
    + change (next_chunk None no t) with (Ok (E := SqlError) ([] : bytes, t)). cbv iota beta.
      assert (Hct : changed = true) by (destruct Hch as [|[-> ->]]; [done|lia]). subst changed. cbn [orb].
      rewrite (IH size2 [] size2 [] [] _ _ _ _ (holds_end size2 (no + 1))) by by left. change (zlength []) with 0. rewrite !after_nil.
      rewrite (after_row _ _ _ (no, row1)), <- Hlen1, <- zlength_app, bool_decide_app_in.
      by rewrite (bool_decide_eq_false_2 (0 ∈ [])), !orb_false_r, orb_assoc by apply not_elem_of_nil.
    + destruct (intact_next row2 _ no t Hintact2 (Z.le_min_l _ _)) as (Hlen2 & Hpos2 & Hnext2). rewrite Hnext2.
      rewrite (IH size2 rows2 _ c2 es2 _ _ _ _ Hrows2).
      2: { destruct Hch as [->|[-> ->]]; [by left|right; done]. }
      rewrite (after_row _ _ _ (no, row1)), (after_row _ _ _ (no, row2)), <- Hlen1, <- Hlen2, <- !zlength_app, !bool_decide_app_in.
      f_equal. f_equal; [f_equal|].
      * destruct Hch as [->|[-> ->]]; [done|]. destruct changed; [done|]. cbn [orb]. rewrite <- negb_andb, <- bool_decide_and. f_equal.
        apply bool_decide_ext. split; [by intros [-> ->]|]. apply app_inj_1. unfold zlength in *. lia.
      * destruct binary, (bool_decide (0 ∈ k_content row1)), (bool_decide (0 ∈ k_content row2)), (bool_decide (0 ∈ c1)), (bool_decide (0 ∈ c2)); reflexivity.
Qed.

(** What a reader knows of the rows of a version. *)
Lemma read_version_holds inode version d content : ReadVersionContent inode version d = Ok content →
  ∃ storage es, ResolveVersionStorage inode version d = Ok storage ∧ zlength content = vs_size storage ∧
    holds (vs_size storage) (manifest_rows (vs_manifest storage) (λ _, true) d) 0 0 content es ∧
    Z.of_nat (length (manifest_rows (vs_manifest storage) (λ _, true) d)) = vs_chunk_count storage ∧
    hashed (ManifestChecksum (vs_size storage) kContentChunkBytes es) = Ok (vs_checksum storage).
Proof.
  unfold ReadVersionContent. destruct (ResolveVersionStorage inode version d) as [storage|]; [|done]. case_match; [done|].
  destruct (read_chunks _ _ _ _ _ _) as [[[[offset no] c] es]|] eqn:Hread; [|done].
  destruct (Z.eqb_spec offset (vs_size storage)) as [->|]; [|done]. destruct (Z.eqb_spec no (vs_chunk_count storage)) as [->|]; [|done].
  case_match; [done|]. destruct (hashed _) as [ck|] eqn:Hck; [|done]. destruct (bool_decide_reflect (ck = vs_checksum storage)) as [->|]; [|done].
  intros [= ->]. apply read_chunks_holds in Hread as (c & es1 & -> & -> & Hcount & Hrows). exists storage, es1.
  split_and!; [done| |done|lia|done]. pose proof (holds_size _ _ _ _ _ _ Hrows). simpl. lia.
Qed.

Lemma compare_versions_contents path inode v1 v2 d a b : ReadVersionContent inode v1 d = Ok a → ReadVersionContent inode v2 d = Ok b →
  compare_versions path inode v1 v2 d =
    Ok (mkVersionComparison path v1 v2 (bool_decide (a ≠ b)) (bool_decide (0 ∈ a ∨ 0 ∈ b)) (zlength a) (zlength b)).
Proof.
  intros Ha Hb. apply read_version_holds in Ha as (s1 & es1 & Hs1 & Hz1 & Hr1 & Hn1 & Hck1).
  apply read_version_holds in Hb as (s2 & es2 & Hs2 & Hz2 & Hr2 & Hn2 & Hck2). unfold compare_versions. rewrite Hs1, Hs2.
  rewrite (compare_loop_holds _ _ _ _ _ _ Hr1 _ _ _ _ _ _ _ _ _ Hr2).
  2: { destruct (Z.eqb_spec (vs_size s1) (vs_size s2)); [by right|by left]. }
  unfold after, root_matches. cbn [sd_entries sd_chunks sd_bytes app Z.add]. rewrite Hz1, Hz2, Hn1, Hn2, !Z.eqb_refl. cbn [negb orb].
  rewrite Hck1, Hck2, !bool_decide_eq_true_2 by done. do 2 f_equal; [|by rewrite bool_decide_or].
  rewrite bool_decide_not. destruct (Z.eqb_spec (vs_size s1) (vs_size s2)) as [E|E]; [done|]. cbn [negb orb].
  rewrite bool_decide_eq_false_2; [done|]. intros ->. congruence.
Qed.

(** C17: [compare_versions] gives the answer of comparing the contents. When
    [read_version] reads both versions of a file, the comparison returns, says that they
    differ exactly when the contents differ, calls them binary exactly when one of the
    contents has a zero byte, and has their sizes; it changes nothing. *)
Theorem compare_versions_by_content workspace path from to d a b :
  ReadVersionFunction workspace (Some path) (VInteger from) d = (Ok a, d) →
  ReadVersionFunction workspace (Some path) (VInteger to) d = (Ok b, d) →
  CompareVersionsFunction workspace (Some path) (VInteger from) (VInteger to) d =
    (Ok (mkVersionComparison path from to (bool_decide (a ≠ b)) (bool_decide (0 ∈ a ∨ 0 ∈ b)) (zlength a) (zlength b)), d).
Proof.
  intros Ha Hb. unfold ReadVersionFunction in *.
  apply bind_ok in Ha as (name & ? & [Hname ->]%lift_ok & Ha). apply bind_ok in Ha as (w & ? & [Hw ->]%query_ok & Ha).
  apply bind_ok in Ha as (? & ? & [[= <-] ->]%lift_ok & Ha). apply bind_ok in Ha as (parts & ? & [Hparts ->]%lift_ok & Ha).
  apply bind_ok in Ha as (node & ? & [Hnode ->]%query_ok & Ha). apply bind_ok in Ha as (v1 & ? & [Hv1 ->]%lift_ok & [Ha _]%query_ok).
  unfold mbind, M_bind, lift, query in Hb. rewrite Hname, Hw in Hb. cbn [RequiredText] in Hb. rewrite Hparts, Hnode in Hb.
  destruct (RequiredPositiveInteger (VInteger to)) as [v2|] eqn:Hv2; [|done]. injection Hb as Hb.
  unfold CompareVersionsFunction, mbind, M_bind, lift, query, throw_if. simpl RequiredText. rewrite Hname, Hw, Hparts, Hnode.
  unfold ReadNodeVersion in Ha, Hb. destruct (bool_decide (n_kind node = KFile)); [|done]. cbn [negb] in *.
  unfold mret, M_ret. rewrite Hv1, Hv2. cbn [RequiredPositiveInteger] in Hv1, Hv2.
  destruct (from <=? 0) eqn:E1; [done|]. injection Hv1 as <-. destruct (to <=? 0) eqn:E2; [done|]. injection Hv2 as <-.
  rewrite E1 in Ha. rewrite E2 in Hb. by rewrite (compare_versions_contents _ _ _ _ _ a b).
Qed.

Definition compared_calls : list call :=
  [ CWorkspaceCreate 0 0 (Some (str "w")); CWrite 0 0 (Some (str "w")) (Some (str "/f")) (Some (str "one"));
    CWrite 0 0 (Some (str "w")) (Some (str "/f")) (Some [7; 0; 7]) ].
Definition compared_db : Db := run_calls compared_calls (empty_db 5000).


Lemma compared_first : ReadVersionFunction (Some (str "w")) (Some (str "/f")) (VInteger 1) compared_db = (Ok (str "one"), compared_db).
Proof. vm_compute. reflexivity. Qed.
Lemma compared_second : ReadVersionFunction (Some (str "w")) (Some (str "/f")) (VInteger 2) compared_db = (Ok [7; 0; 7], compared_db).
Proof. vm_compute. reflexivity. Qed.

(** The second write changed the file and made it binary. *)
Lemma compare_versions_by_content_witness :
  CompareVersionsFunction (Some (str "w")) (Some (str "/f")) (VInteger 1) (VInteger 2) compared_db =
    (Ok (mkVersionComparison (str "/f") 1 2 true true 3 3), compared_db).
Proof. exact (compare_versions_by_content (Some (str "w")) (str "/f") 1 2 compared_db (str "one") [7; 0; 7] compared_first compared_second). Defined.
