(* ===== verification/VexfsCheckFacts.v ===== *)
(** * What a clean check means

    A deep check without an issue leaves no version that cannot be read and no inode
    without a path. The quick check always answers. Removing a directory with what is in
    it leaves entries behind that the check then reports. *)
From Stdlib Require Import ZArith Lia String.
From stdpp Require Import prelude gmap sorting.
From S2P Require Import Prelude Sha256 Sha256Facts VexfsText VexfsDb VexfsTree VexfsStore VexfsStoreFacts VexfsGrepIndex VexfsStaging VexfsHandles VexfsNames VexfsMetadata VexfsHistory VexfsSnapshots VexfsPointInTime VexfsRetention VexfsSessions VexfsFrame VexfsService VexfsQuota VexfsVersion VexfsForest VexfsForestOps VexfsForestTop VexfsRemove VexfsWriteRead VexfsRename VexfsPointInTimeFacts VexfsCheck.

Local Open Scope Z_scope.
Implicit Types d : Db.

(** ** Issues *)

Lemma issue_if_nil b code object : issue_if b code object = [] ↔ b = false.
Proof. by destruct b. Qed.
Lemma bind_nil {A B} (f : A → list B) l : (l ≫= f) = [] ↔ ∀ x, x ∈ l → f x = [].
Proof.
  induction l as [|a l IH]; [split; [intros _ x ?%not_elem_of_nil|]; done|]. rewrite bind_cons. split.
  - intros [Ha Hl]%app_nil x [->|Hx]%elem_of_cons; [done|by apply IH].
  - intros H. rewrite (H a) by left. apply IH. intros x Hx. apply H. by right.
Qed.

(** ** The search from the root *)

Lemma push_new_spec children : ∀ seen pending,
  let '(seen', pending') := push_new children seen pending in
  seen' = list_to_set children ∪ seen ∧ (length pending' + size seen = length pending + size seen')%nat.
Proof.
  induction children as [|c children IH]; intros seen pending; cbn [push_new]; [split; [set_solver|lia]|].
  case_bool_decide as Hc.
  - specialize (IH seen pending). destruct (push_new children seen pending) as [s p]. destruct IH as [-> Hlen]. split; [set_solver|done].
  - specialize (IH ({[ c ]} ∪ seen) (c :: pending)). destruct (push_new _ _ _) as [s p]. destruct IH as [-> Hlen].
    rewrite size_union, size_singleton in Hlen by set_solver. simpl length in Hlen. split; [set_solver|lia].
Qed.

Section Search.

Context (nodes : gmap Z inode_row) (rows : list (Z * bytes * Z)).

Lemma elem_of_check_children p i : i ∈ check_children nodes rows p ↔ ∃ n, (p, n, i) ∈ rows ∧ valid_directory p nodes = true ∧ valid_node i nodes = true.
Proof.
  unfold check_children. rewrite list_elem_of_omap. split.
  - intros ([[q n] j] & Hin & Hif). destruct (Z.eqb_spec q p) as [->|]; [|done]. destruct (valid_directory p nodes) eqn:E1; [|done].
    destruct (valid_node j nodes) eqn:E2; [|done]. injection Hif as <-. by exists n.
  - intros (n & Hin & H1 & H2). exists (p, n, i). split; [done|]. by rewrite Z.eqb_refl, H1, H2.
Qed.

Lemma valid_node_dom i : valid_node i nodes = true → i ∈ dom nodes.
Proof. unfold valid_node. destruct (nodes !! i) eqn:E; [|done]. intros _. by eapply elem_of_dom_2. Qed.

(** Every inode is put on the stack once. *)
Lemma reach_loop_ends fuel : ∀ seen pending, seen ⊆ dom nodes → (length pending + size nodes < fuel + size seen)%nat →
  is_Some (reach_loop fuel nodes rows seen pending).
Proof.
  induction fuel as [|fuel IH]; intros seen pending Hsub Hfuel.
  - apply subseteq_size in Hsub. rewrite size_dom in Hsub. simpl in Hfuel. lia.
  - destruct pending as [|p pending]; [eauto|]. cbn [reach_loop]. pose proof (push_new_spec (check_children nodes rows p) seen pending) as H.
    destruct (push_new _ _ _) as [seen' pending']. destruct H as [-> Hlen]. apply IH.
    + apply union_least; [|done]. intros i (n & _ & _ & Hi)%elem_of_list_to_set%elem_of_check_children. by apply valid_node_dom.
    + simpl in Hfuel. lia.
Qed.

Lemma reach_loop_inv (P : Z → Prop) : (∀ p i, P p → i ∈ check_children nodes rows p → P i) → ∀ fuel seen pending found,
  reach_loop fuel nodes rows seen pending = Some found → (∀ i, i ∈ seen → P i) → (∀ i, i ∈ pending → P i) → ∀ i, i ∈ found → P i.
Proof.
  intros Hstep. induction fuel as [|fuel IH]; intros seen pending found Hrun Hs Hp; destruct pending as [|p pending]; cbn [reach_loop] in Hrun.
  1, 3: by injection Hrun as <-.
  - done.
  - assert (Hpush : ∀ cs s q, (∀ c, c ∈ cs → P c) → (∀ i, i ∈ s → P i) → (∀ i, i ∈ q → P i) →
      let '(s', q') := push_new cs s q in (∀ i, i ∈ s' → P i) ∧ ∀ i, i ∈ q' → P i).
    { induction cs as [|c cs IHcs]; intros s q Hcs Hs' Hq'; cbn [push_new]; [done|].
      case_bool_decide; apply IHcs; try done; try (intros i Hi; apply Hcs; by right).
      - intros i [->%elem_of_singleton|Hi]%elem_of_union; [apply Hcs; left|by apply Hs'].
      - intros i [->|Hi]%elem_of_cons; [apply Hcs; left|by apply Hq']. }
    specialize (Hpush (check_children nodes rows p) seen pending). destruct (push_new _ _ _) as [s' q'].
    destruct Hpush as [H1 H2]; [intros c Hc; eapply Hstep; [apply Hp; left|done]|done|intros i Hi; apply Hp; by right|]. by eapply IH.
Qed.

End Search.

Lemma reachable_nodes_ends w nodes rows : is_Some (reachable_nodes w nodes rows).
Proof.
  unfold reachable_nodes. destruct (valid_node (ws_root w) nodes) eqn:E; [|eauto]. apply reach_loop_ends.
  - intros i ->%elem_of_singleton. by apply valid_node_dom.
  - rewrite size_singleton. simpl. lia.
Qed.

(** ** Paths *)

Section Paths.

Context (w : Workspace) (d : Db).

Abbreviation nodes := (inodes_of (ws_id w) d).

Lemma lookup_inodes_of i r : nodes !! i = Some r ↔ inodes d !! i = Some r ∧ i_workspace r = ws_id w.
Proof. unfold inodes_of. by rewrite map_lookup_filter_Some. Qed.

Lemma elem_of_workspace_entries p n i : (p, n, i) ∈ entries_of_workspace (ws_id w) d ↔ dentries d !! (ws_id w, p, n) = Some i.
Proof.
  unfold entries_of_workspace. rewrite list_elem_of_omap. split.
  - intros ([[[v q] m] j] & Hin%elem_of_map_to_list & Hif). destruct (Z.eqb_spec v (ws_id w)) as [->|]; [|done]. by injection Hif as <- <- <-.
  - intros Hin. exists (ws_id w, p, n, i). split; [by apply elem_of_map_to_list|]. simpl. by rewrite Z.eqb_refl.
Qed.

Definition has_path (i : Z) : Prop := ∃ parts r, nodes !! i = Some r ∧ live r = true ∧ Resolve w parts d = Ok (node_of i r).

Lemma reachable_has_path found : reachable_nodes w nodes (entries_of_workspace (ws_id w) d) = Some found → ∀ i, i ∈ found → has_path i.
Proof.
  unfold reachable_nodes. destruct (valid_node (ws_root w) nodes) eqn:E; [|intros [= <-] i; set_solver]. intros Hrun.
  assert (Hroot : has_path (ws_root w)).
  { unfold valid_node in E. destruct (nodes !! ws_root w) as [r|] eqn:Hr; [|done]. exists [], r. split_and!; [done|done|].
    apply lookup_inodes_of in Hr as [Hr Hw]. unfold Resolve, TryResolve, RootNode. rewrite Hr, E, bool_decide_eq_true_2 by done. done. }
  eapply reach_loop_inv; [|exact Hrun|by intros i ->%elem_of_singleton|by intros i ->%list_elem_of_singleton].
  intros p i (parts & r & Hr & Hl & Hres) (n & Hin%elem_of_workspace_entries & Hd & Hi)%elem_of_check_children.
  unfold valid_directory in Hd. rewrite Hr, Hl in Hd. simpl in Hd. apply bool_decide_eq_true in Hd.
  unfold valid_node in Hi. destruct (nodes !! i) as [s|] eqn:Hs; [|done]. exists (parts ++ [n]), s. split_and!; [done|done|].
  apply (resolve_app w parts [n] d _ _ Hres). cbn [resolve_from]. simpl. rewrite bool_decide_eq_true_2 by done. cbn [negb].
  unfold FindChild. simpl n_id. rewrite Hin. simpl. apply lookup_inodes_of in Hs as [Hs _]. rewrite Hs. simpl. by rewrite Hi.
Qed.

End Paths.

(** ** Versions *)

(** The [CHECK] of the table of versions: a manifest or a source, and not both. *)
Definition sound_rows (d : Db) : Prop := ∀ k v, file_versions d !! k = Some v → v_source v = None ↔ is_Some (v_manifest v).

Lemma check_versions_nil deep parent_of versions rows d : check_versions deep parent_of versions rows d = Ok [] →
  ∀ x, x ∈ rows → check_version deep parent_of versions x d = Ok [].
Proof.
  induction rows as [|y rows IH]; intros Hrun x Hx; [by apply not_elem_of_nil in Hx|]. cbn [check_versions] in Hrun.
  destruct (check_version deep parent_of versions y d) as [found|] eqn:E; [|done]. destruct (check_versions deep parent_of versions rows d) as [rest|]; [|done].
  injection Hrun as [-> ->]%app_nil. apply elem_of_cons in Hx as [->|Hx]; [done|by apply IH].
Qed.

(** What the columns of a version without an issue say. *)
Lemma check_version_columns deep parent_of versions i n v d : check_version deep parent_of versions (i, n, v) d = Ok [] →
  0 <= v_size v <= kMaxStagedBytes ∧ IsSha256 (v_checksum v) = true.
Proof.
  unfold check_version. cbv zeta. set (columns := _ ++ _ ++ _). intros Hrun. assert (Hc : columns = []).
  { destruct (_ =? 0).
    - destruct (manifest_mismatch v d); [injection Hrun as Hrun; by destruct columns|]. destruct (deep && _); [|by injection Hrun].
      destruct (check_content _ v d); [|done]. by injection Hrun as [? _]%app_nil.
    - by injection Hrun as [? _]%app_nil. }
  unfold columns in Hc. apply app_nil in Hc as [H1%issue_if_nil [H2%issue_if_nil _]%app_nil].
  apply orb_false_iff in H1 as [H1%Z.ltb_ge H1'%Z.ltb_ge]. apply negb_false_iff in H2. done.
Qed.

(** A version with a manifest of its own is hashed; a copy names a version of its kind. *)
Lemma check_version_source parent_of versions i n v d : check_version true parent_of versions (i, n, v) d = Ok [] →
  if int64 (v_source v) =? 0
  then manifest_mismatch v d = false ∧
    HashManifest (int64 (v_manifest v)) (v_size v) (default (-1) (m_chunk_count <$> (m ← v_manifest v; manifests d !! m))) d = Ok (v_checksum v)
  else ∃ s, versions !! (i, int64 (v_source v)) = Some s ∧ int64 (v_source s) = 0 ∧ v_size s = v_size v ∧ v_checksum s = v_checksum v.
Proof.
  intros Hrun. pose proof (check_version_columns _ _ _ _ _ _ _ Hrun) as [_ Hsha]. revert Hrun. unfold check_version. cbv zeta. rewrite Hsha.
  destruct (int64 (v_source v) =? 0) eqn:E.
  - destruct (manifest_mismatch v d); [by intros [= []%app_nil]|]. cbn [andb]. unfold check_content.
    destruct (HashManifest _ _ _ d) as [actual|e]; [|by destruct e; try done; intros [= [_ ?]%app_nil]].
    intros [= [_ H%issue_if_nil]%app_nil]. apply negb_false_iff, bool_decide_eq_true in H as ->. done.
  - intros [= [_ [_ H]%app_nil]%app_nil]. destruct (versions !! (i, int64 (v_source v))) as [s|] eqn:Es; [|done]. exists s.
    destruct (Z.eqb_spec (int64 (v_source s)) 0); [|done]. cbn [negb] in H. apply issue_if_nil, orb_false_iff in H as [H1 H2].
    apply negb_false_iff in H1, H2. apply Z.eqb_eq in H1. apply bool_decide_eq_true in H2. done.
Qed.

(** A version with a manifest of its own reads. *)
Lemma own_manifest_storage i n v d : file_versions d !! (i, n) = Some v → v_source v = None →
  0 <= v_size v <= kMaxStagedBytes → IsSha256 (v_checksum v) = true → manifest_mismatch v d = false →
  ∃ m row, v_manifest v = Some m ∧ manifests d !! m = Some row ∧ 0 < m ∧ m_file_size row = v_size v ∧ m_chunk_size row = kContentChunkBytes ∧
    m_chunk_count row = chunk_count_of (v_size v) ∧ m_checksum row = v_checksum v.
Proof.
  intros Hv Hs Hsize Hsha. unfold manifest_mismatch. cbv zeta. rewrite !orb_false_iff, !negb_false_iff, bool_decide_eq_true.
  intros ((((((Hm & Hfile) & Hcs) & Hcount) & _) & _) & Hck).
  destruct (v_manifest v) as [m|]; [|done]. simpl in *. destruct (manifests d !! m) as [row|] eqn:Hrow; simpl in *; [|by rewrite <- Hck in Hsha].
  rewrite (proj2 (Z.ltb_ge _ _)) in Hcount by lia. rewrite Z.eqb_eq in Hfile, Hcs, Hcount. apply Z.leb_gt in Hm.
  exists m, row. split_and!; done.
Qed.

Lemma hash_manifest_reads i n d storage : ResolveVersionStorage i n d = Ok storage → vs_size storage <= kMaxStagedBytes →
  HashManifest (vs_manifest storage) (vs_size storage) (vs_chunk_count storage) d = Ok (vs_checksum storage) →
  ∃ content, ReadVersionContent i n d = Ok content ∧ zlength content = vs_size storage.
Proof.
  intros Hres Hmax Hhash. apply hash_manifest_read in Hhash as (content & es & Hread & Hcount & _ & Hz & Hck). exists content. split; [|done].
  unfold ReadVersionContent. rewrite Hres, (proj2 (Z.ltb_ge _ _) Hmax), Hread, !Z.eqb_refl, Hcount, Z.eqb_refl. cbn [negb orb]. rewrite Hck.
  by rewrite bool_decide_eq_true_2.
Qed.

(** The manifest of [s] serves the version [v], a copy of it or itself. *)
Lemma storage_resolves i n v s m row d : file_versions d !! (i, n) = Some v →
  match v_source v with None => s = v | Some k => file_versions d !! (i, k) = Some s end →
  v_manifest s = Some m → manifests d !! m = Some row → 0 < m → m_file_size row = v_size v → m_chunk_size row = kContentChunkBytes →
  m_chunk_count row = chunk_count_of (v_size v) → m_checksum row = v_checksum v → v_checksum s = v_checksum v →
  0 <= v_size v <= kMaxStagedBytes → length (v_checksum v) = 64%nat →
  ResolveVersionStorage i n d = Ok (mkVersionStorage m (v_size v) (default n (v_source v)) (chunk_count_of (v_size v)) (v_checksum v)).
Proof.
  intros Hv Hs Hm Hrow Hpos Hfile Hcs Hcount Hck Hsck Hsize Hlen. unfold ResolveVersionStorage. rewrite Hv. cbv zeta.
  assert (E1 : match v_source v with None => v_manifest v | Some _ => (k ← v_source v; file_versions d !! (i, k)) ≫= v_manifest end = Some m).
  { destruct (v_source v) as [k|]; simpl; [by rewrite Hs|congruence]. }
  assert (E2 : match v_source v with None => v_checksum v | Some _ => default [] (v_checksum <$> (k ← v_source v; file_versions d !! (i, k))) end = v_checksum v).
  { destruct (v_source v) as [k|]; simpl; [by rewrite Hs|done]. }
  rewrite E1, E2. simpl. rewrite Hrow. simpl. rewrite Hfile, Hcs, Hcount, Hck, Hlen, !Z.eqb_refl, (proj2 (Z.leb_gt _ _) Hpos), (proj2 (Z.ltb_ge _ _)) by lia.
  rewrite (proj2 (Z.ltb_ge _ _)) by lia. rewrite !(bool_decide_eq_true_2 (v_checksum v = v_checksum v)) by done. cbn [negb orb Nat.eqb].
  by rewrite Z.eqb_refl.
Qed.

Lemma lookup_versions_in ws i n v d : versions_in ws d !! (i, n) = Some v → file_versions d !! (i, n) = Some v.
Proof. unfold versions_in. by intros [? _]%map_lookup_filter_Some. Qed.

Lemma clean_version_reads ws parent_of i n v d : sound_rows d →
  (∀ x, x ∈ map_to_list (versions_in ws d) → check_version true parent_of (versions_in ws d) x d = Ok []) → versions_in ws d !! (i, n) = Some v →
  ∃ content, ReadVersionContent i n d = Ok content ∧ zlength content = v_size v.
Proof.
  intros Hsound Hall Hv. assert (Hcheck : ∀ k u, versions_in ws d !! (i, k) = Some u → check_version true parent_of (versions_in ws d) (i, k, u) d = Ok []).
  { intros k u Hu. apply Hall. by apply elem_of_map_to_list. }
  pose proof (check_version_columns _ _ _ _ _ _ _ (Hcheck _ _ Hv)) as [Hsize Hsha]. pose proof (is_sha256_length _ Hsha) as Hlen.
  assert (Hown : ∀ k u, versions_in ws d !! (i, k) = Some u → int64 (v_source u) = 0 → v_source u = None ∧ ∃ m row, v_manifest u = Some m ∧ manifests d !! m = Some row ∧
    0 < m ∧ m_file_size row = v_size u ∧ m_chunk_size row = kContentChunkBytes ∧ m_chunk_count row = chunk_count_of (v_size u) ∧ m_checksum row = v_checksum u ∧
    HashManifest m (v_size u) (chunk_count_of (v_size u)) d = Ok (v_checksum u)).
  { intros k u Hu Hz. pose proof (check_version_source _ _ _ _ _ _ (Hcheck _ _ Hu)) as H. rewrite Hz in H. cbn [Z.eqb] in H. destruct H as [Hmis Hhash].
    pose proof (check_version_columns _ _ _ _ _ _ _ (Hcheck _ _ Hu)) as [Hsz Hsh]. apply lookup_versions_in in Hu.
    assert (Hnone : v_source u = None).
    { apply (Hsound _ _ Hu). unfold manifest_mismatch in Hmis. cbv zeta in Hmis. rewrite !orb_false_iff in Hmis. destruct (v_manifest u); [eauto|].
      destruct Hmis as [((((([=] & _) & _) & _) & _) & _) _]. }
    split; [done|]. destruct (own_manifest_storage _ _ _ _ Hu Hnone Hsz Hsh Hmis) as (m & row & Hm & Hrow & ? & ? & ? & Hcount & ?).
    exists m, row. split_and!; try done. rewrite Hm in Hhash. simpl in Hhash. rewrite Hrow in Hhash. simpl in Hhash. by rewrite Hcount in Hhash. }
  destruct (Z.eqb_spec (int64 (v_source v)) 0) as [Hz|Hz].
  - destruct (Hown _ _ Hv Hz) as (Hnone & m & row & Hm & Hrow & ? & ? & ? & ? & ? & Hhash). apply lookup_versions_in in Hv.
    assert (Hres := storage_resolves i n v v m row d Hv). rewrite Hnone in Hres. specialize (Hres eq_refl Hm Hrow).
    by apply (hash_manifest_reads i n d _ (Hres ltac:(done) ltac:(done) ltac:(done) ltac:(done) ltac:(done) ltac:(done) Hsize Hlen)); [simpl; lia|].
  - pose proof (check_version_source _ _ _ _ _ _ (Hcheck _ _ Hv)) as H. rewrite (proj2 (Z.eqb_neq _ _) Hz) in H. destruct H as (s & Hs & Hsz & Es & Ec).
    destruct (Hown _ _ Hs Hsz) as (Hnone & m & row & Hm & Hrow & ? & ? & ? & ? & ? & Hhash). apply lookup_versions_in in Hv, Hs. rewrite Es, Ec in *.
    assert (Hres := storage_resolves i n v s m row d Hv). destruct (v_source v) as [k|]; [|done]. specialize (Hres Hs Hm Hrow).
    by apply (hash_manifest_reads i n d _ (Hres ltac:(done) ltac:(done) ltac:(done) ltac:(done) ltac:(done) ltac:(done) Hsize Hlen)); [simpl; lia|].
Qed.

(** A file without an issue has the size of its current version. *)
Lemma check_current_reads ws i r d : check_current ws (versions_in ws d) (i, r) d = [] → live r = true → i_kind r ≠ KDirectory → i_version r ≠ 0 →
  ∃ v, versions_in ws d !! (i, i_version r) = Some v ∧ v_size v = i_size r.
Proof.
  unfold check_current. intros Hrun Hl Hk Hv. rewrite Hl, (bool_decide_eq_false_2 _ Hk), (proj2 (Z.eqb_neq _ _) Hv) in Hrun. cbn [negb orb andb] in Hrun.
  destruct (versions_in ws d !! (i, i_version r)) as [v|]; [|done]. exists v. split; [done|]. destruct (i_version r <=? 0); [done|].
  apply issue_if_nil, negb_false_iff, Z.eqb_eq in Hrun. done.
Qed.

Lemma check_workspace_clean quick name w d report : check_workspace quick name true w d = Ok report → cr_issues report = [] →
  ∃ reachable, reachable_nodes w (inodes_of (ws_id w) d) (entries_of_workspace (ws_id w) d) = Some reachable ∧
    check_reachable (inodes_of (ws_id w) d) reachable = [] ∧
    (∀ x, x ∈ map_to_list (versions_in (ws_id w) d) → check_version true (commits_of (ws_id w) d) (versions_in (ws_id w) d) x d = Ok []) ∧
    ∀ x, x ∈ map_to_list (inodes_of (ws_id w) d) → check_current (ws_id w) (versions_in (ws_id w) d) x d = [].
Proof.
  unfold check_workspace. cbv zeta. destruct (reachable_nodes _ _ _) as [reachable|]; [|done].
  destruct (check_versions _ _ _ _ _) as [issues|] eqn:Hver; [|done]. intros [= <-]. cbn [cr_issues]. intros Hnil.
  apply app_nil in Hnil as [_ [_ [_ [_ [_ [_ [Hreach [_ [-> [_ [Hcur _]%app_nil]%app_nil]%app_nil]%app_nil]%app_nil]%app_nil]%app_nil]%app_nil]%app_nil]%app_nil].
  exists reachable. split_and!; [done|done|by apply check_versions_nil|by apply bind_nil].
Qed.

(** C14: a clean deep check means that nothing is lost. When [check] of a workspace with
    [deep] reports no issue, every version of its files and symlinks reads, with the size
    of its row; every live inode has a path that resolves to it; and a live file that was
    published reads at its own size. (The table of versions keeps its [CHECK]: a manifest
    or a source, not both.) *)
Theorem clean_check_means_intact quick workspace d report d' w : sound_rows d →
  CheckFunction quick (Some workspace) (VInteger 1) d = (Ok report, d') → total_issues report = 0 → FindWorkspace workspace d = Ok w →
  d' = d ∧
  (∀ i n v, versions_in (ws_id w) d !! (i, n) = Some v → ∃ content, ReadVersionContent i n d = Ok content ∧ zlength content = v_size v) ∧
  ∀ i r, inodes d !! i = Some r → i_workspace r = ws_id w → live r = true →
    (∃ parts, Resolve w parts d = Ok (node_of i r)) ∧
    (i_kind r ≠ KDirectory → i_version r ≠ 0 → ∃ content, ReadVersionContent i (i_version r) d = Ok content ∧ zlength content = i_size r).
Proof.
  intros Hsound Hrun Htotal Hw. unfold CheckFunction in Hrun. apply bind_ok in Hrun as (? & ? & [[= <-] ->]%lift_ok & Hrun).
  apply bind_ok in Hrun as (? & ? & [[= <-] ->]%lift_ok & Hrun). apply bind_ok in Hrun as (? & ? & [Hw' ->]%query_ok & [Hrun ->]%query_ok).
  rewrite Hw in Hw'. injection Hw' as <-.
  assert (Hnil : cr_issues report = []) by (unfold total_issues in Htotal; destruct (cr_issues report); [done|simpl in Htotal; lia]).
  destruct (check_workspace_clean _ _ _ _ _ Hrun Hnil) as (reachable & Hfound & Hreach & Hver & Hcur).
  pose proof (clean_version_reads (ws_id w) (commits_of (ws_id w) d)) as Hread. split_and!; [done|by eauto|]. intros i r Hi Hiw Hl.
  assert (Hin : inodes_of (ws_id w) d !! i = Some r) by (by apply lookup_inodes_of). split.
  - assert (Hir : i ∈ reachable).
    { unfold check_reachable in Hreach. rewrite bind_nil in Hreach. specialize (Hreach (i, r) ltac:(by apply elem_of_map_to_list)). simpl in Hreach.
      rewrite Hl in Hreach. apply issue_if_nil, bool_decide_eq_false in Hreach. by destruct (decide (i ∈ reachable)). }
    destruct (reachable_has_path w d reachable Hfound i Hir) as (parts & r' & Hr' & _ & Hres). rewrite Hin in Hr'. injection Hr' as <-. by exists parts.
  - intros Hk Hv. destruct (check_current_reads (ws_id w) i r d) as (v & Hlook & <-); [apply Hcur; by apply elem_of_map_to_list|done..|]. by eapply Hread.
Qed.

(** ** Examples *)

Definition checked_calls : list call :=
  [ CWorkspaceCreate 0 0 (Some (str "w")); CMkdir 0 0 (Some (str "w")) (Some (str "/a"));
    CWrite 0 0 (Some (str "w")) (Some (str "/a/f")) (Some (str "one"));
    CWrite 0 0 (Some (str "w")) (Some (str "/a/f")) (Some (str "two"));
    CRestore (Some (str "w")) (Some (str "/a/f")) (VInteger 1) (VInteger 2) ].
Definition checked_db : Db := run_calls checked_calls (empty_db 5000).
Definition fine : list bytes * bool := ([str "ok"], false).
Definition deep_check : M CheckReport := CheckFunction fine (Some (str "w")) (VInteger 1).
Definition checked_workspace : Workspace := mkWorkspace 1 1 5.

Lemma sound_rows_check d :
  forallb (λ x, bool_decide (v_source x.2 = None ↔ is_Some (v_manifest x.2))) (map_to_list (file_versions d)) = true → sound_rows d.
Proof.
  intros Hall k v Hv. rewrite forallb_forall in Hall. specialize (Hall (k, v)). rewrite bool_decide_eq_true in Hall. apply Hall.
  by apply list_elem_of_In, elem_of_map_to_list.
Qed.

(** Three versions, the last a copy of the first, and a clean check. *)
Lemma checked_sound : sound_rows checked_db.
Proof. apply sound_rows_check. vm_compute. reflexivity. Qed.
Definition checked_report : CheckReport := match (deep_check checked_db).1 with Ok report => report | Throw _ => mkCheckReport [] 0 0 0 0 0 0 0 0 0 0 0 end.
Lemma checked_clean : (deep_check checked_db).1 = Ok checked_report ∧ total_issues checked_report = 0 ∧ cr_versions checked_report = 3.
Proof. vm_compute. done. Qed.
Lemma checked_found : FindWorkspace (str "w") checked_db = Ok checked_workspace.
Proof. vm_compute. reflexivity. Qed.
Lemma checked_copy : is_Some (versions_in 1 checked_db !! (3, 3)).
Proof. vm_compute. eauto. Qed.

Lemma clean_check_means_intact_witness : ∃ content, ReadVersionContent 3 3 checked_db = Ok content.
Proof.
  destruct (clean_check_means_intact fine (str "w") checked_db checked_report (deep_check checked_db).2 checked_workspace checked_sound
    (run_state deep_check checked_db (Ok checked_report) (proj1 checked_clean)) (proj1 (proj2 checked_clean)) checked_found) as (_ & Hread & _).
  destruct checked_copy as [v Hv]. destruct (Hread 3 3 v Hv) as (content & Hc & _). exists content. exact Hc.
Defined.

(** ** The check answers *)

Lemma quick_versions_return parent_of versions rows d : ∃ issues, check_versions false parent_of versions rows d = Ok issues.
Proof.
  induction rows as [|x rows [rest IH]]; [by exists []|]. cbn [check_versions].
  assert (∃ issues, check_version false parent_of versions x d = Ok issues) as [issues ->]; [|rewrite IH; eauto].
  destruct x as [[i n] v]. unfold check_version. cbv zeta. repeat case_match; simpl in *; eauto; done.
Qed.

(** The search from the root ends on any tables, also on entries that run in a circle, so
    a quick check of a workspace that exists returns. *)
Lemma quick_check_returns quick workspace d w : FindWorkspace workspace d = Ok w →
  ∃ report, CheckFunction quick (Some workspace) (VInteger 0) d = (Ok report, d).
Proof.
  intros Hw. unfold CheckFunction, mbind, M_bind, lift, query. cbn [RequiredText]. change (deep_arg (VInteger 0)) with (Ok (E := SqlError) false).
  cbv iota beta. rewrite Hw. unfold check_workspace. cbv zeta. destruct (reachable_nodes_ends w (inodes_of (ws_id w) d) (entries_of_workspace (ws_id w) d)) as [found ->].
  destruct (quick_versions_return (commits_of (ws_id w) d) (versions_in (ws_id w) d) (map_to_list (versions_in (ws_id w) d)) d) as [issues ->]. eauto.
Qed.

(** ** Removing a tree *)

#[export] Instance policies_frame : Frame same_policies.
Proof.
  split; [split; [done|intros d1 d2 d3; apply same_policies_trans]|]. intros d d' [_ _ _ _ _ W _] ws. specialize (W ws).
  destruct (workspaces d' !! ws), (workspaces d !! ws); try done. apply (inj Some) in W. injection W as ?????????.
  unfold policy. simpl. congruence.
Qed.

Section Policies.

Ltac policies := repeat (cbv zeta; frames_step ltac:(done)).

Lemma policies_update_inode id old new : frames same_policies (update_inode id old new).
Proof. unfold update_inode. policies; auto using frames_count_live. Qed.
#[local] Hint Resolve policies_update_inode : frame.
Lemma policies_commit w message : frames same_policies (CreateCommit w message).
Proof.
  unfold CreateCommit, CreateCommitInTransaction, FlushHistoryChanges. policies.
  apply frames_modify. intros ?. by eapply (alter_policies _ _ (set_head _)).
Qed.
Lemma policies_tombstone_rows ws ids : frames same_policies (tombstone_rows ws ids).
Proof. induction ids as [|id ids IH]; cbn [tombstone_rows]; policies. Qed.
Lemma policies_touch ws inode : frames same_policies (TouchDirectory ws inode).
Proof. unfold TouchDirectory. policies. Qed.
Lemma policies_delete_dentry ws p n : frames same_policies (delete_dentry ws p n).
Proof. unfold delete_dentry. policies. Qed.
#[local] Hint Resolve policies_commit policies_tombstone_rows policies_touch policies_delete_dentry frames_remove_deleted : frame.

(** A removal keeps the workspaces with their names. *)
Lemma policies_remove workspace path recursive : frames same_policies (RemoveFunction workspace path recursive).
Proof. unfold RemoveFunction, drop_node, TombstoneTree, TombstoneIfUnreferenced. policies. Qed.

End Policies.

(** Taking away the entry of a directory leaves what is below it. *)
Lemma below_unlinked d d' ws parent n i : forest d → dentries d' = delete (ws, parent, n) (dentries d) → dentries d !! (ws, parent, n) = Some i →
  ∀ p, rtc (child d ws) i p → rtc (child d' ws) i p ∧ p ≠ parent.
Proof.
  intros Hf D Hn. assert (Hnot : ∀ p, rtc (child d ws) i p → p ≠ parent).
  { intros p Hp ->. apply (fo_acyclic _ Hf ws parent). eapply tc_rtc_r; [apply tc_once; by exists n|done]. }
  intros p Hp. split; [|by apply Hnot]. refine (rtc_ind_r (λ p, rtc (child d' ws) i p) i _ _ p Hp); [done|].
  intros x y Hx [m Hm] IH. eapply rtc_r; [exact IH|].
  exists m. rewrite D, lookup_delete_ne; [done|]. intros [= <- <-]. by eapply Hnot.
Qed.

(** An entry with a deleted parent and a deleted inode. *)
Lemma dead_entry_reported quick name deep w d report p m i : check_workspace quick name deep w d = Ok report →
  dentries d !! (ws_id w, p, m) = Some i → valid_directory p (inodes_of (ws_id w) d) = false → valid_node i (inodes_of (ws_id w) d) = false →
  mkIssue VEXFS_DENTRY_PARENT_INVALID (ODentry p m) ∈ cr_issues report ∧ mkIssue VEXFS_DENTRY_CHILD_INVALID (ODentry p m) ∈ cr_issues report.
Proof.
  unfold check_workspace. cbv zeta. intros Hrun Hin Hp Hi.
  destruct (reachable_nodes _ _ _); [|done]. destruct (check_versions _ _ _ _ _); [|done]. injection Hrun as <-. cbn [cr_issues].
  enough (H : ∀ x, x ∈ check_entry w (inodes_of (ws_id w) d) (p, m, i) → x ∈ entries_of_workspace (ws_id w) d ≫= check_entry w (inodes_of (ws_id w) d)).
  { unfold check_entry in H. rewrite Hp, Hi in H. cbn [negb issue_if] in H.
    split; do 4 (apply elem_of_app; right); apply elem_of_app; left; apply H; set_solver. }
  intros x Hx. apply list_elem_of_bind. exists (p, m, i). split; [done|by apply elem_of_workspace_entries].
Qed.

(** C40: removing a directory with what is in it leaves entries behind that the check
    reports. [remove] with [recursive] deletes the entry of the directory and marks the
    inodes below it as deleted; every entry of a directory below it stays in the table.
    A quick check of the workspace then returns, and whenever a check, quick or deep,
    returns, it reports two issues for each of these entries: its directory has been
    deleted and so has its inode. (Names of workspaces are unique.) *)
Theorem removed_tree_fails_check quick name path w parts parent n node d :
  forest d → counted d → names_unique d → located name path w parts parent n node d → n_kind node = KDirectory →
  ∃ d', RemoveFunction (Some name) (Some path) true d = (Ok 1, d') ∧
    (∃ report, CheckFunction quick (Some name) (VInteger 0) d' = (Ok report, d')) ∧
    ∀ deep report d'', CheckFunction quick (Some name) deep d' = (Ok report, d'') →
      ∀ p m i, rtc (child d (ws_id w)) (n_id node) p → dentries d !! (ws_id w, p, m) = Some i →
        dentries d' !! (ws_id w, p, m) = Some i ∧
        mkIssue VEXFS_DENTRY_PARENT_INVALID (ODentry p m) ∈ cr_issues report ∧
        mkIssue VEXFS_DENTRY_CHILD_INVALID (ODentry p m) ∈ cr_issues report.
Proof.
  intros Hf Hct Hu Hl Hk. destruct (remove_directory_run _ _ _ _ _ _ _ _ Hf Hct Hl Hk) as (d' & P & Hrun & _ & D & HP & Hparent & I).
  pose proof Hl as [Hw _ _ Hc]. apply find_child_inv in Hc as [Hn _].
  assert (Hsame : same_policies d d') by (pose proof (policies_remove (Some name) (Some path) true d) as H; by rewrite Hrun in H).
  destruct (find_workspace_policies name d d' w Hsame Hu Hw) as (w' & Hw' & Hid & _).
  exists d'. split; [done|]. split; [by eapply quick_check_returns|]. intros deep report d'' Hcheck p m i Hp Hm.
  assert (Hdead : ∀ j, rtc (child d (ws_id w)) (n_id node) j → valid_node j (inodes_of (ws_id w) d') = false).
  { intros j [Hj Hne]%(below_unlinked d d' (ws_id w) (n_id parent) n); [|done..]. unfold valid_node.
    destruct (inodes_of (ws_id w) d' !! j) as [r|] eqn:Hr; [|done]. apply map_lookup_filter_Some in Hr as [Hr Hrw]. rewrite I in Hr by done.
    destruct (inodes d !! j) as [r0|]; [|done]. injection Hr as <-. unfold tombstoned in *. rewrite (proj2 (HP j) Hj) in *. simpl in *.
    destruct (Z.eqb_spec (i_workspace r0) (ws_id w)); done. }
  destruct (below_unlinked d d' (ws_id w) (n_id parent) n (n_id node) Hf D Hn p Hp) as [_ Hne].
  assert (Hm' : dentries d' !! (ws_id w, p, m) = Some i) by (rewrite D, lookup_delete_ne; congruence). split; [done|].
  unfold CheckFunction in Hcheck. apply bind_ok in Hcheck as (? & ? & [[= <-] ->]%lift_ok & Hcheck).
  apply bind_ok in Hcheck as (? & ? & [_ ->]%lift_ok & Hcheck). apply bind_ok in Hcheck as (? & ? & [Hw'' ->]%query_ok & [Hcheck _]%query_ok).
  rewrite Hw' in Hw''. injection Hw'' as <-. rewrite <- Hid in Hm', Hdead.
  eapply dead_entry_reported; [exact Hcheck|done| |].
  - specialize (Hdead p ltac:(by rewrite Hid)). unfold valid_node in Hdead. unfold valid_directory.
    destruct (inodes_of _ d' !! p) as [r|]; [|done]. by rewrite Hdead.
  - apply Hdead. rewrite Hid. eapply rtc_r; [done|]. by exists m.
Qed.

(** The file [/a/f] of the removed directory [/a]. *)
Lemma removed_tree_fails_check_witness :
  ∃ d' report, RemoveFunction (Some (str "w")) (Some (str "/a")) true linked = (Ok 1, d') ∧
    CheckFunction fine (Some (str "w")) (VInteger 0) d' = (Ok report, d') ∧
    mkIssue VEXFS_DENTRY_CHILD_INVALID (ODentry 2 (str "f")) ∈ cr_issues report.
Proof.
  destruct linked_directory as (w & Hl & Hw).
  destruct (removed_tree_fails_check fine _ _ _ _ _ _ _ linked linked_forest linked_counted linked_names Hl ltac:(vm_compute; reflexivity))
    as (d' & Hrun & (report & Hquick) & Hall).
  exists d', report. split; [exact Hrun|]. split; [exact Hquick|].
  assert (Hin : dentries linked !! (ws_id w, 2, str "f") = Some 3) by (rewrite Hw; vm_compute; reflexivity).
  exact (proj2 (proj2 (Hall (VInteger 0) report d' Hquick 2 (str "f") 3 (rtc_refl _ _) Hin))).
Defined.
