(* ===== verification/VexfsTrack.v ===== *)
(** * The history tracks the tree

    The triggers mark every changed row, and a commit writes the marked rows into the
    history tables. So at any time a row that is not marked is the latest state the
    history has of it. *)
From Stdlib Require Import ZArith Lia String.
From stdpp Require Import prelude gmap.
From S2P Require Import Prelude Sha256 VexfsText VexfsDb VexfsTree VexfsStore VexfsGrepIndex VexfsStaging VexfsHandles VexfsNames VexfsFrame VexfsHistory.

Local Open Scope Z_scope.
Implicit Types d : Db.

(** ** The latest row of a key *)

Section Latest.

Context {K A : Type} `{Countable K}.
Implicit Types (t : gmap (K * Z) A).

Definition latest_at t (b : Z) (k : K) (c : Z) (a : A) : Prop :=
  c <= b ∧ t !! (k, c) = Some a ∧ ∀ c', c < c' → c' <= b → t !! (k, c') = None.

Lemma latest_rows_fold t b k :
  match map_fold (keep_later b) ∅ t !! k with
  | Some (c, a) => latest_at t b k c a
  | None => ∀ c, c <= b → t !! (k, c) = None
  end.
Proof.
  apply (map_fold_weak_ind (λ m t, match m !! k with
    | Some (c, a) => latest_at t b k c a
    | None => ∀ c, c <= b → t !! (k, c) = None
    end)); [rewrite lookup_empty; intros; by rewrite lookup_empty|].
  intros [k' c'] a' t' m Hfresh IH. unfold keep_later. simpl.
  assert (Hother : k' ≠ k ∨ b < c' → match m !! k with
    | Some (c, a) => latest_at (<[(k', c') := a']> t') b k c a
    | None => ∀ c, c <= b → <[(k', c') := a']> t' !! (k, c) = None
    end).
  { intros Hne. destruct (m !! k) as [[c a]|].
    - destruct IH as (Hc & Ha & Hl). split_and!; [done| |].
      + rewrite lookup_insert_ne; [done|]. intros [= -> ->]. congruence.
      + intros c1 ??. rewrite lookup_insert_ne; [by apply Hl|]. intros [= -> ->]. destruct Hne; [done|lia].
    - intros c Hc. rewrite lookup_insert_ne; [by apply IH|]. intros [= -> ->]. destruct Hne; [done|lia]. }
  destruct (Z.leb_spec c' b) as [Hb|Hb]; [|apply Hother; by right].
  destruct (decide (k' = k)) as [->|Hk].
  - destruct (m !! k) as [[c a]|] eqn:Em.
    + destruct IH as (Hc & Ha & Hl). destruct (Z.ltb_spec c c') as [Hlt|Hge].
      * rewrite lookup_insert_eq. split_and!; [done|apply lookup_insert_eq|].
        intros c1 ??. rewrite lookup_insert_ne by (intros [= ->]; lia). apply Hl; lia.
      * rewrite Em. split_and!; [done| |].
        -- rewrite lookup_insert_ne; [done|]. intros [= ->]. congruence.
        -- intros c1 ??. destruct (decide (c1 = c')) as [->|]; [|rewrite lookup_insert_ne by congruence; by apply Hl].
           assert (c' ≠ c) by (intros ->; congruence). lia.
    + rewrite lookup_insert_eq. split_and!; [done|apply lookup_insert_eq|].
      intros c1 ??. rewrite lookup_insert_ne by (intros [= ->]; lia). by apply IH.
  - assert (Hsame : ∀ x : Z * A, <[k' := x]> m !! k = m !! k) by (intros; by rewrite lookup_insert_ne).
    destruct (m !! k') as [[c a]|]; [destruct (c <? c')|]; rewrite ?Hsame; apply Hother; by left.
Qed.

Lemma latest_rows_Some t b k a : latest_rows t b !! k = Some a ↔ ∃ c, latest_at t b k c a.
Proof.
  unfold latest_rows. rewrite lookup_fmap. pose proof (latest_rows_fold t b k) as Hf.
  destruct (map_fold _ _ t !! k) as [[c a']|]; simpl.
  - split; [intros [= <-]; eauto|]. intros (c1 & Hc1 & Ha1 & Hl1). destruct Hf as (Hc & Ha & Hl).
    destruct (Z.lt_total c c1) as [Hlt|[->|Hlt]]; [|congruence|].
    + rewrite Hl in Ha1 by done. done.
    + rewrite Hl1 in Ha by done. done.
  - split; [done|]. intros (c1 & Hc1 & Ha1 & _). rewrite Hf in Ha1 by done. done.
Qed.

(** The rows up to a bound decide what is seen there. *)
Lemma latest_rows_ext t t' b k : (∀ c, c <= b → t' !! (k, c) = t !! (k, c)) → latest_rows t' b !! k = latest_rows t b !! k.
Proof.
  intros Ht. apply option_eq. intros a. rewrite !latest_rows_Some.
  split; intros (c & Hc & Ha & Hl); exists c; (split_and!; [done|by rewrite <- Ha, Ht|]); intros c1 ??;
    [rewrite <- Ht by lia|rewrite Ht by lia]; by apply Hl.
Qed.

(** What a new commit writes comes before what was there. *)
Lemma latest_rows_step t t' b k (new : option A) :
  (∀ c, c <= b → t' !! (k, c) = t !! (k, c)) → t' !! (k, b + 1) = new →
  latest_rows t' (b + 1) !! k = match new with Some a => Some a | None => latest_rows t b !! k end.
Proof.
  intros Ht Hnew. destruct new as [a|].
  - apply latest_rows_Some. exists (b + 1). split_and!; [lia|done|]. intros; lia.
  - apply option_eq. intros a. rewrite !latest_rows_Some. split; intros (c & Hc & Ha & Hl).
    + assert (c ≠ b + 1) by congruence. exists c. split_and!; [lia|rewrite <- Ht by lia; done|].
      intros c1 ??. rewrite <- Ht by lia. apply Hl; lia.
    + exists c. split_and!; [lia|rewrite Ht by lia; done|]. intros c1 ??.
      destruct (decide (c1 = b + 1)) as [->|]; [done|]. rewrite Ht by lia. apply Hl; lia.
Qed.

End Latest.

(** ** The invariant *)

Definition last_commit (d : Db) : Z := next_rowid (commits d) - 1.

Definition inode_in (ws i : Z) (d : Db) : option inode_row := r ← inodes d !! i; if i_workspace r =? ws then Some r else None.
Definition xattr_in (ws i : Z) (n : bytes) (d : Db) : option bytes := inode_in ws i d ≫= λ _, xattrs d !! (i, n).

(** A state that is not a deletion. *)
Definition final {A} (row : option (A * bool)) : option A := match row with Some (a, false) => Some a | _ => None end.

(** A commit that a state of the workspace may carry. *)
Definition commit_of (ws c : Z) (d : Db) : Prop := ∃ row h, workspaces d !! ws = Some row ∧ w_head_commit row = Some h ∧ c <= h.

(** The inodes in [X] are files that have not been published yet. *)
Record settled (X : gset Z) (d : Db) : Prop := {
  sd_files : ∀ i r, inodes d !! i = Some r → i_kind r = KFile → 0 <= i_version r ∧ (i ∉ X → 0 < i_version r);
  sd_inodes : ∀ ws i, (ws, i) ∉ dirty_inodes d → latest_rows (inode_states d) (last_commit d) !! (ws, i) = inode_in ws i d;
  sd_dentries : ∀ k, dirty_dentries d !! k = None → final (latest_rows (dentry_states d) (last_commit d) !! k) = dentries d !! k;
  sd_xattrs : ∀ ws i n, (ws, i, n) ∉ dirty_xattrs d → final (latest_rows (xattr_states d) (last_commit d) !! (ws, i, n)) = xattr_in ws i n d;
  sd_acl : ∀ k, k ∉ dirty_acl d → final (latest_rows (acl_states d) (last_commit d) !! k) = acl_entries d !! k;
  sd_dirty_inode : ∀ ws i, (ws, i) ∈ dirty_inodes d → is_Some (inode_in ws i d);
  sd_dirty_xattr : ∀ ws i n, (ws, i, n) ∈ dirty_xattrs d → is_Some (inode_in ws i d);
  sd_owner : ∀ i n, is_Some (xattrs d !! (i, n)) → is_Some (inodes d !! i);
  sd_head : ∀ ws row h, workspaces d !! ws = Some row → w_head_commit row = Some h →
    ∃ c f, commits d !! h = Some c ∧ c_workspace c = ws ∧ w_history_floor row = Some f ∧ 0 < f <= h;
  sd_floor : ∀ ws row, workspaces d !! ws = Some row → is_Some (w_history_floor row) → is_Some (w_head_commit row);
  sd_inode_states : ∀ ws i c, is_Some (inode_states d !! (ws, i, c)) → commit_of ws c d;
  sd_dentry_states : ∀ ws p n c, is_Some (dentry_states d !! (ws, p, n, c)) → commit_of ws c d;
  sd_xattr_states : ∀ ws i n c, is_Some (xattr_states d !! (ws, i, n, c)) → commit_of ws c d;
  sd_acl_states : ∀ ws i p e c, is_Some (acl_states d !! (ws, i, p, e, c)) → commit_of ws c d;
}.

(** Everything of a workspace has been committed. *)
Record clean (ws : Z) (d : Db) : Prop := {
  cl_inodes : ∀ i, (ws, i) ∉ dirty_inodes d;
  cl_dentries : ∀ p n, dirty_dentries d !! (ws, p, n) = None;
  cl_xattrs : ∀ i n, (ws, i, n) ∉ dirty_xattrs d;
  cl_acl : ∀ i p e, (ws, i, p, e) ∉ dirty_acl d;
}.

Lemma head_le X d ws row h : settled X d → workspaces d !! ws = Some row → w_head_commit row = Some h → h <= last_commit d.
Proof.
  intros Hs Hrow Hh. destruct (sd_head _ _ Hs _ _ _ Hrow Hh) as (c & f & Hc & _).
  apply next_rowid_fresh in Hc. unfold last_commit. lia.
Qed.

Lemma commit_of_le X d ws c : settled X d → commit_of ws c d → c <= last_commit d.
Proof. intros Hs (row & h & Hrow & Hh & Hc). pose proof (head_le _ _ _ _ _ Hs Hrow Hh). lia. Qed.

Lemma inode_in_eq d d' ws i : inodes d' = inodes d → inode_in ws i d' = inode_in ws i d.
Proof. unfold inode_in. by intros ->. Qed.

(** ** Steps beside the tree *)

Definition settled_rel (X : gset Z) (d d' : Db) : Prop := settled X d → settled X d'.

Lemma commit_of_aside d d' ws c : aside d d' → commit_of ws c d → commit_of ws c d'.
Proof.
  intros Ha (row & h & Hrow & Hh & Hc). destruct (aside_row _ _ _ _ Ha Hrow) as (row' & Hrow' & E).
  exists row', h. split_and!; [done| |done]. injection E as _ _ _ Eh _ _ _ _ _. congruence.
Qed.

Lemma settled_aside X d d' : aside d d' → settled X d → settled X d'.
Proof.
  intros Ha []. pose proof Ha as [I D XA A H W V].
  assert (Hin : ∀ ws i, inode_in ws i d' = inode_in ws i d) by (intros; by apply inode_in_eq).
  split; unfold last_commit, xattr_in in *; rewrite ?H, ?I, ?D, ?XA, ?A; intros; rewrite ?Hin; eauto using commit_of_aside.
  all: specialize (W ws); rewrite H0 in W; destruct (workspaces d !! ws) as [row0|] eqn:Hrow0; [|done].
  all: apply (inj Some) in W; injection W as _ _ _ Eh Ef _ _ _ _.
  - rewrite Ef. by apply (sd_head0 ws row0); [|congruence].
  - rewrite Eh. apply (sd_floor0 ws row0); [done|congruence].
Qed.

#[export] Instance settled_frame X : Frame (settled_rel X).
Proof.
  split; [split|intros d d' Ha Hs; by eapply settled_aside].
  - intros d. exact id.
  - intros d1 d2 d3 H1 H2 H. by apply H2, H1.
Qed.

(** ** Steps of the tree *)

(** Writing an inode row, old or new. *)
Definition put_inode (id : Z) (r : inode_row) (d : Db) : Db := dirty_inode (i_workspace r) id (on_inodes (insert id r) d).

Lemma inode_in_put id r d ws i :
  inode_in ws i (put_inode id r d) = if decide (i = id) then (if i_workspace r =? ws then Some r else None) else inode_in ws i d.
Proof.
  unfold inode_in, put_inode. simpl. case_decide as E; [subst; by rewrite lookup_insert_eq|by rewrite lookup_insert_ne].
Qed.

Lemma settled_put X X' id r d :
  (∀ old, inodes d !! id = Some old → i_workspace old = i_workspace r) →
  (i_kind r = KFile → 0 <= i_version r ∧ (id ∉ X' → 0 < i_version r)) → (∀ i, i ≠ id → i ∉ X' → i ∉ X) →
  settled X d → settled X' (put_inode id r d).
Proof.
  intros Hws Hv HX [].
  assert (Hin : ∀ ws i, ws ≠ i_workspace r ∨ i ≠ id → inode_in ws i (put_inode id r d) = inode_in ws i d).
  { intros ws i Hne. rewrite inode_in_put. case_decide as E; [subst|done]. destruct Hne as [Hne|]; [|done].
    rewrite (proj2 (Z.eqb_neq _ _)) by done. unfold inode_in. destruct (inodes d !! id) as [old|]; [|done]. simpl.
    rewrite (Hws old eq_refl). by rewrite (proj2 (Z.eqb_neq _ _)) by done. }
  assert (Hsome : ∀ ws i, is_Some (inode_in ws i d) → is_Some (inode_in ws i (put_inode id r d))).
  { intros ws i. rewrite inode_in_put. case_decide as E; [subst|done]. unfold inode_in. destruct (inodes d !! id) as [old|]; [|by intros []].
    simpl. rewrite (Hws old eq_refl). by case_match; [|intros []]. }
  split; try done.
  - intros i x. simpl. intros [[<- <-]|[Hne Hx]]%lookup_insert_Some Hk; [by apply Hv|].
    destruct (sd_files0 i x Hx Hk) as [? Hpos]. split; [done|]. intros Hi. apply Hpos. by apply HX.
  - intros ws i Hd. simpl in Hd. rewrite Hin; [apply sd_inodes0; set_solver|].
    destruct (decide (i = id)) as [->|]; [left|by right]. intros ->. set_solver.
  - intros ws i n Hd. simpl in Hd. etrans; [by apply sd_xattrs0|]. unfold xattr_in.
    destruct (decide (ws = i_workspace r ∧ i = id)) as [[-> ->]|Hne].
    + rewrite inode_in_put, decide_True, Z.eqb_refl by done. simpl. unfold inode_in.
      destruct (inodes d !! id) as [old|] eqn:Hold; simpl.
      * by rewrite (Hws old eq_refl), Z.eqb_refl.
      * destruct (xattrs d !! (id, n)) as [v|] eqn:Hv'; [|done]. destruct (sd_owner0 id n) as [? ?]; [by rewrite Hv'|congruence].
    + rewrite Hin; [done|]. destruct (decide (i = id)); [left; naive_solver|by right].
  - intros ws i [[= -> ->]%elem_of_singleton|Hd]%elem_of_union; [|by apply Hsome, sd_dirty_inode0].
    rewrite inode_in_put, decide_True, Z.eqb_refl by done. eauto.
  - intros ws i n Hd. by apply Hsome, (sd_dirty_xattr0 _ _ n).
  - intros i n Hn. simpl. destruct (decide (i = id)) as [->|]; [rewrite lookup_insert_eq; eauto|].
    rewrite lookup_insert_ne by done. by apply (sd_owner0 i n).
Qed.

Lemma settled_update X X' id old new d :
  inodes d !! id = Some old → i_workspace new = i_workspace old →
  (i_kind new = KFile → 0 <= i_version new ∧ (id ∉ X' → 0 < i_version new)) → (∀ i, i ≠ id → i ∉ X' → i ∉ X) →
  settled X d → settled X' (update_inode id old new d).2.
Proof.
  intros Hid Hws Hv HX Hs. unfold update_inode.
  assert (H1 : settled X' (put_inode id new d)) by (eapply settled_put; [|done..]; intros; congruence).
  change (settled X' ((count_live (i_workspace old) (- count_files old) (- count_bytes old) ≫= λ _,
    count_live (i_workspace new) (count_files new) (count_bytes new)) (put_inode id new d)).2).
  revert H1. apply (frames_bind (R := settled_rel X')); intros; apply frames_count_live.
Qed.

(** Changing entries that are then marked. *)
Lemma settled_entries X d f g :
  let d' := on_dirty_dentries g (on_dentries f d) in
  (∀ k, dirty_dentries d' !! k = None → dirty_dentries d !! k = None ∧ dentries d' !! k = dentries d !! k) →
  settled_rel X d d'.
Proof.
  intros d' Hd []. split; try done. intros k [Hk ->]%Hd. by apply sd_dentries0.
Qed.

Lemma settled_acl X d f g :
  let d' := on_dirty_acl g (on_acl_entries f d) in
  (∀ k, k ∉ dirty_acl d' → k ∉ dirty_acl d ∧ acl_entries d' !! k = acl_entries d !! k) →
  settled_rel X d d'.
Proof.
  intros d' Hd []. split; try done. intros k [Hk ->]%Hd. by apply sd_acl0.
Qed.

Abbreviation steady X := (frames (settled_rel X)).

Ltac steady_at := apply frames_with_db_at; intros d; destruct (inodes d !! _) as [r|] eqn:Hr; [|done].

(** An update that leaves kind, version and workspace of a row. *)
Lemma steady_update X id r new d : inodes d !! id = Some r → i_workspace new = i_workspace r → i_kind new = i_kind r →
  (i_kind r = KFile → i_version new = i_version r) → settled_rel X d (update_inode id r new d).2.
Proof.
  intros Hr Hw Hk Hv Hs. eapply (settled_update X); [done|done| |done|done]. rewrite Hk. intros E. rewrite (Hv E).
  by apply (sd_files _ _ Hs id r).
Qed.

Section Steady.

Context {X : gset Z}.

Lemma steady_touch ws inode : steady X (TouchDirectory ws inode).
Proof.
  unfold TouchDirectory. steady_at. case_match eqn:E; [|done]. apply steady_update; try done. intros Hk. rewrite Hk in E.
  by rewrite andb_false_r in E.
Qed.
Lemma steady_update_owner ws inode uid gid : steady X (update_owner ws inode uid gid).
Proof. unfold update_owner. steady_at. case_match; [|done]. by apply steady_update. Qed.
Lemma steady_tombstone_rows ws ids : steady X (tombstone_rows ws ids).
Proof.
  induction ids as [|id ids IH]; cbn [tombstone_rows]; [apply frames_ret|]. apply frames_bind; [|done].
  steady_at. case_match; [|done]. by apply steady_update.
Qed.

Lemma steady_insert_dentry w p n i : steady X (insert_dentry w p n i).
Proof.
  unfold insert_dentry. apply frames_with_db_at. intros d. destruct (bool_decide _); [done|].
  apply (settled_entries X d (insert (w, p, n) i) (insert (w, p, n) i)).
  intros k. simpl. intros [Hk Hne]%lookup_insert_None. split; [done|]. by rewrite lookup_insert_ne.
Qed.
Lemma steady_delete_dentry w p n : steady X (delete_dentry w p n).
Proof.
  unfold delete_dentry. apply frames_with_db_at. intros d. destruct (dentries d !! (w, p, n)) as [i|]; [|done].
  apply (settled_entries X d (delete (w, p, n)) (insert (w, p, n) i)).
  intros k. simpl. intros [Hk Hne]%lookup_insert_None. split; [done|]. by rewrite lookup_delete_ne.
Qed.
Lemma steady_move_dentry w p n p' n' : steady X (move_dentry w p n p' n').
Proof.
  unfold move_dentry. apply frames_with_db_at. intros d. destruct (dentries d !! (w, p, n)) as [i|]; [|done].
  destruct (_ && _); [done|].
  apply (settled_entries X d (λ t, <[(w, p', n') := i]> (delete (w, p, n) t)) (λ t, <[(w, p', n') := i]> (<[(w, p, n) := i]> t))).
  intros k. simpl. intros [Hk Hne']%lookup_insert_None. apply lookup_insert_None in Hk as [Hk Hne].
  split; [done|]. by rewrite lookup_insert_ne, lookup_delete_ne.
Qed.

Lemma steady_inherit_acl ws parent inode : steady X (modify (inherit_acl ws parent inode)).
Proof.
  apply frames_modify. intros d. unfold inherit_acl. apply settled_acl. intros k. simpl. set (new := omap _ _). intros Hk.
  apply not_elem_of_union in Hk as [Hnew Hk]. split; [done|]. rewrite elem_of_list_to_set in Hnew.
  rewrite lookup_union, (not_elem_of_list_to_map_1 new k Hnew). by destruct (acl_entries d !! k).
Qed.
Lemma steady_insert_acl k permissions inherit : steady X (insert_acl k permissions inherit).
Proof.
  unfold insert_acl. apply frames_with_db_at. intros d. destruct (bool_decide _); [done|].
  apply (settled_acl X d (insert k (permissions, inherit)) (λ s, {[ k ]} ∪ s)). intros k'. simpl. intros Hk. split; [set_solver|]. rewrite lookup_insert_ne; [done|]. set_solver.
Qed.

End Steady.
#[export] Hint Resolve steady_touch steady_update_owner steady_tombstone_rows steady_insert_dentry steady_delete_dentry
  steady_move_dentry steady_inherit_acl steady_insert_acl : frame.
Ltac steady := repeat (cbv zeta; frames_step ltac:(solve [auto with frame | apply frame_aside; by split])).

(** ** Commits *)

Section FoldInsert.

Context {B K A : Type} `{Countable K} (step : B → gmap K A → gmap K A) (f : B → option (K * A)).
Context (Hstep : ∀ x t, step x t = match f x with Some (k, a) => <[k := a]> t | None => t end).

Lemma foldr_insert_none l t k : (∀ x a, x ∈ l → f x ≠ Some (k, a)) → foldr step t l !! k = t !! k.
Proof.
  induction l as [|x l IH]; intros Hl; [done|]. simpl. rewrite Hstep. destruct (f x) as [[k' a]|] eqn:E.
  - rewrite lookup_insert_ne; [apply IH; set_solver|]. intros ->. eapply Hl; [left|done].
  - apply IH. set_solver.
Qed.

Lemma foldr_insert_some l t k a x : x ∈ l → f x = Some (k, a) → (∀ y b, y ∈ l → f y = Some (k, b) → b = a) →
  foldr step t l !! k = Some a.
Proof.
  induction l as [|y l IH]; intros Hx Hf Hu; [by apply not_elem_of_nil in Hx|]. simpl. rewrite Hstep.
  destruct (f y) as [[k' b]|] eqn:E.
  - destruct (decide (k' = k)) as [->|Hne].
    + rewrite lookup_insert_eq. f_equal. eapply Hu; [left|done].
    + rewrite lookup_insert_ne by done. apply elem_of_cons in Hx as [->|Hx]; [congruence|].
      apply IH; [done|done|]. intros z c Hz. apply Hu. by right.
  - apply elem_of_cons in Hx as [->|Hx]; [congruence|]. apply IH; [done|done|]. intros z c Hz. apply Hu. by right.
Qed.

End FoldInsert.

(** What the flush writes at the commit [c] when no file is waiting to be published. *)
Section Flush.

Context (ws c : Z) (d : Db) (Hpending : ∀ w i, pending d w i = false).

Lemma flushed_inodes w i c' : inode_states (flush_inodes ws c d d) !! (w, i, c') =
  if decide (w = ws ∧ c' = c ∧ (w, i) ∈ dirty_inodes d ∧ is_Some (inode_in w i d)) then inode_in w i d else inode_states d !! (w, i, c').
Proof.
  unfold flush_inodes. simpl. unfold set_fold. simpl.
  set (f := λ '(w, i), match inodes d !! i with
    | Some r => if (w =? ws) && (i_workspace r =? w) && negb (pending d w i) then Some ((w, i, c), r) else None
    | None => None end).
  assert (Hf : ∀ w i k r, f (w, i) = Some (k, r) ↔ k = (w, i, c) ∧ w = ws ∧ inode_in w i d = Some r).
  { intros w' i' k r. unfold f, inode_in. destruct (inodes d !! i') as [x|]; simpl; [|naive_solver]. rewrite Hpending, andb_true_r.
    destruct (Z.eqb_spec w' ws), (Z.eqb_spec (i_workspace x) w'); simpl; naive_solver. }
  case_decide as Hc.
  - destruct Hc as (-> & -> & Hd & r & Hr). rewrite Hr. eapply (foldr_insert_some _ f).
    + intros [w' i'] t. unfold f. destruct (inodes d !! i') as [x|]; [|done]. by case_match.
    + by apply elem_of_elements.
    + by apply Hf.
    + intros [w' i'] b _ ([= <- <-] & _ & ?)%Hf. congruence.
  - apply (foldr_insert_none _ f).
    + intros [w' i'] t. unfold f. destruct (inodes d !! i') as [x|]; [|done]. by case_match.
    + intros [w' i'] r Hd%elem_of_elements ([= <- <- ->] & -> & Hr)%Hf. apply Hc. rewrite Hr. split_and!; [done..|eauto].
Qed.

Lemma flushed_dentries w p n c' : dentry_states (flush_dentries ws c d d) !! (w, p, n, c') =
  match dirty_dentries d !! (w, p, n) with
  | Some i => if decide (w = ws ∧ c' = c)
    then Some (default i (dentries d !! (w, p, n)), bool_decide (dentries d !! (w, p, n) = None)) else dentry_states d !! (w, p, n, c')
  | None => dentry_states d !! (w, p, n, c')
  end.
Proof.
  unfold flush_dentries. simpl. rewrite map_fold_foldr.
  set (f := λ '((w, p, n), i), if (w =? ws) && negb (pending d w (default i (dentries d !! (w, p, n))))
    then Some ((w, p, n, c), (default i (dentries d !! (w, p, n)), bool_decide (dentries d !! (w, p, n) = None))) else None).
  set (step := uncurry _).
  assert (Hs : ∀ x t, step x t = match f x with Some (k, a) => <[k := a]> t | None => t end).
  { intros [[[w' p'] n'] i'] t. unfold step, f. simpl. by case_match. }
  assert (Hf : ∀ w p n i k a, f (w, p, n, i) = Some (k, a) ↔ k = (w, p, n, c) ∧ w = ws ∧
    a = (default i (dentries d !! (w, p, n)), bool_decide (dentries d !! (w, p, n) = None))).
  { intros w' p' n' i' k a. unfold f. rewrite Hpending, andb_true_r. destruct (Z.eqb_spec w' ws); naive_solver. }
  destruct (dirty_dentries d !! (w, p, n)) as [i|] eqn:Hi; [case_decide as Hc|].
  - destruct Hc as [-> ->]. eapply (foldr_insert_some _ f Hs); [by apply elem_of_map_to_list|by apply Hf|].
    intros [[[w' p'] n'] i'] b Hb%elem_of_map_to_list ([= <- <- <-] & _ & ->)%Hf. congruence.
  - apply (foldr_insert_none _ f Hs). intros [[[w' p'] n'] i'] a _ ([= <- <- <- ->] & -> & _)%Hf. naive_solver.
  - apply (foldr_insert_none _ f Hs). intros [[[w' p'] n'] i'] a Ha%elem_of_map_to_list ([= <- <- <- ->] & _ & _)%Hf. congruence.
Qed.

Lemma flushed_xattrs w i n c' : xattr_states (flush_xattrs ws c d d) !! (w, i, n, c') =
  if decide (w = ws ∧ c' = c ∧ (w, i, n) ∈ dirty_xattrs d)
  then Some (default [] (xattrs d !! (i, n)), bool_decide (xattrs d !! (i, n) = None)) else xattr_states d !! (w, i, n, c').
Proof.
  unfold flush_xattrs. simpl. unfold set_fold. simpl.
  set (f := λ '(w, i, n), if (w =? ws) && negb (pending d w i)
    then Some ((w, i, n, c), (default [] (xattrs d !! (i, n)), bool_decide (xattrs d !! (i, n) = None))) else None).
  assert (Hf : ∀ w i n k a, f (w, i, n) = Some (k, a) ↔ k = (w, i, n, c) ∧ w = ws ∧
    a = (default [] (xattrs d !! (i, n)), bool_decide (xattrs d !! (i, n) = None))).
  { intros w' i' n' k a. unfold f. rewrite Hpending, andb_true_r. destruct (Z.eqb_spec w' ws); naive_solver. }
  case_decide as Hc.
  - destruct Hc as (-> & -> & Hd). eapply (foldr_insert_some _ f); [|by apply elem_of_elements|by apply Hf|].
    + intros [[w' i'] n'] t. unfold f. by case_match.
    + intros [[w' i'] n'] b _ ([= <- <- <-] & _ & ->)%Hf. done.
  - apply (foldr_insert_none _ f).
    + intros [[w' i'] n'] t. unfold f. by case_match.
    + intros [[w' i'] n'] a Hd%elem_of_elements ([= <- <- <- ->] & -> & _)%Hf. naive_solver.
Qed.

Lemma flushed_acl w i p e c' : acl_states (flush_acl ws c d d) !! (w, i, p, e, c') =
  if decide (w = ws ∧ c' = c ∧ (w, i, p, e) ∈ dirty_acl d)
  then Some (default ([], 0) (acl_entries d !! (w, i, p, e)), bool_decide (acl_entries d !! (w, i, p, e) = None))
  else acl_states d !! (w, i, p, e, c').
Proof.
  unfold flush_acl. simpl. unfold set_fold. simpl.
  set (f := λ '(w, i, p, e), if (w =? ws) && negb (pending d w i)
    then Some ((w, i, p, e, c), (default ([], 0) (acl_entries d !! (w, i, p, e)), bool_decide (acl_entries d !! (w, i, p, e) = None))) else None).
  assert (Hf : ∀ w i p e k a, f (w, i, p, e) = Some (k, a) ↔ k = (w, i, p, e, c) ∧ w = ws ∧
    a = (default ([], 0) (acl_entries d !! (w, i, p, e)), bool_decide (acl_entries d !! (w, i, p, e) = None))).
  { intros w' i' p' e' k a. unfold f. rewrite Hpending, andb_true_r. destruct (Z.eqb_spec w' ws); naive_solver. }
  case_decide as Hc.
  - destruct Hc as (-> & -> & Hd). eapply (foldr_insert_some _ f); [|by apply elem_of_elements|by apply Hf|].
    + intros [[[w' i'] p'] e'] t. unfold f. by case_match.
    + intros [[[w' i'] p'] e'] b _ ([= <- <- <- <-] & _ & ->)%Hf. done.
  - apply (foldr_insert_none _ f).
    + intros [[[w' i'] p'] e'] t. unfold f. by case_match.
    + intros [[[w' i'] p'] e'] a Hd%elem_of_elements ([= <- <- <- <- ->] & -> & _)%Hf. naive_solver.
Qed.

End Flush.

Lemma next_rowid_insert {A} (t : gmap Z A) x : next_rowid (<[next_rowid t := x]> t) = next_rowid t + 1.
Proof.
  unfold next_rowid at 1. rewrite map_fold_insert_L; [|intros; lia|apply next_rowid_none; lia].
  pose proof (next_rowid_pos t). unfold next_rowid in *. lia.
Qed.

Lemma no_pending d : settled ∅ d → ∀ w i, pending d w i = false.
Proof.
  intros Hs w i. unfold pending. destruct (inodes d !! i) as [r|] eqn:Hr; [|done].
  destruct (bool_decide_reflect (i_kind r = KFile)) as [Hk|]; [|by rewrite andb_false_r].
  destruct (sd_files _ _ Hs i r Hr Hk) as [_ Hv]. specialize (Hv ltac:(set_solver)).
  destruct (Z.eqb_spec (i_version r) 0); [lia|]. apply andb_false_r.
Qed.

Lemma no_kept d : settled ∅ d → ∀ w i, keep_dirty_inode d w i = false.
Proof.
  intros Hs w i. unfold keep_dirty_inode. destruct (inodes d !! i) as [r|] eqn:Hr; [|done].
  destruct (bool_decide_reflect (i_kind r = KFile)) as [Hk|]; [|by rewrite andb_false_r].
  destruct (sd_files _ _ Hs i r Hr Hk) as [_ Hv]. specialize (Hv ltac:(set_solver)).
  destruct (Z.ltb_spec 0 (i_version r)); [|lia]. apply andb_false_r.
Qed.

(** The database after a commit. *)
Definition after_commit (w : Workspace) (c : Z) (row : commit_row) (d : Db) : Db :=
  let d := on_commits (insert c row) d in
  on_workspaces (alter (set_head c) (ws_id w))
    ((clear_dirty (ws_id w) d ∘ flush_acl (ws_id w) c d ∘ flush_xattrs (ws_id w) c d ∘
      flush_dentries (ws_id w) c d ∘ flush_inodes (ws_id w) c d) d).

Section Commit.

Context (w : Workspace) (d : Db) (row : commit_row).
Context (Hs : settled ∅ d) (Hrow : is_Some (workspaces d !! ws_id w)) (Hws : c_workspace row = ws_id w).
Local Notation c := (next_rowid (commits d)).
Local Notation d' := (after_commit w c row d).

Lemma after_last : last_commit d' = last_commit d + 1.
Proof. unfold last_commit. simpl. rewrite next_rowid_insert. lia. Qed.

Lemma after_dirty :
  (∀ v i, (v, i) ∈ dirty_inodes d' ↔ (v, i) ∈ dirty_inodes d ∧ v ≠ ws_id w) ∧
  (∀ v p n, dirty_dentries d' !! (v, p, n) = if decide (v = ws_id w) then None else dirty_dentries d !! (v, p, n)) ∧
  (∀ v i n, (v, i, n) ∈ dirty_xattrs d' ↔ (v, i, n) ∈ dirty_xattrs d ∧ v ≠ ws_id w) ∧
  (∀ v i p e, (v, i, p, e) ∈ dirty_acl d' ↔ (v, i, p, e) ∈ dirty_acl d ∧ v ≠ ws_id w).
Proof.
  assert (Hp : ∀ v i, pending_live (on_commits (insert c row) d) v i = false).
  { intros v i. unfold pending_live. change (pending d v i && match inodes d !! i with Some r => live r | None => false end = false).
    by rewrite no_pending. }
  assert (Hk : ∀ v i, keep_dirty_inode (on_commits (insert c row) d) v i = false) by (intros; by apply (no_kept d)).
  split_and!.
  - intros v i. simpl. rewrite elem_of_filter, Hk, orb_false_r. destruct (Z.eqb_spec v (ws_id w)); naive_solver.
  - intros v p n. simpl. rewrite map_lookup_filter. case_decide as E; [subst v|].
    + destruct (dirty_dentries d !! _) as [i|]; [|done]. simpl. rewrite Hp, Z.eqb_refl. by rewrite option_guard_False.
    + destruct (dirty_dentries d !! _) as [i|]; [|done]. simpl. rewrite Hp, (proj2 (Z.eqb_neq _ _) E). by rewrite option_guard_True.
  - intros v i n. simpl. rewrite elem_of_filter, Hp, orb_false_r. destruct (Z.eqb_spec v (ws_id w)); naive_solver.
  - intros v i p e. simpl. rewrite elem_of_filter, Hp, orb_false_r. destruct (Z.eqb_spec v (ws_id w)); naive_solver.
Qed.

Lemma after_clean : clean (ws_id w) d'.
Proof.
  destruct after_dirty as (D1 & D2 & D3 & D4). split.
  - intros i. rewrite D1. naive_solver.
  - intros p n. by rewrite D2, decide_True.
  - intros i n. rewrite D3. naive_solver.
  - intros i p e. rewrite D4. naive_solver.
Qed.

Lemma after_commit_of v b : commit_of v b d → commit_of v b d'.
Proof.
  intros (r & h & Hr & Hh & Hb). unfold commit_of. simpl. destruct (decide (ws_id w = v)) as [<-|].
  - pose proof (head_le _ _ _ _ _ Hs Hr Hh). rewrite lookup_alter_eq, Hr. exists (set_head c r), c. simpl. unfold last_commit in *.
    split_and!; [done|done|lia].
  - rewrite lookup_alter_ne by done. by exists r, h.
Qed.
Lemma after_commit_now : commit_of (ws_id w) c d'.
Proof. destruct Hrow as [r Hr]. exists (set_head c r), c. simpl. rewrite lookup_alter_eq, Hr. split_and!; [done|done|lia]. Qed.

(** What the history has of a key after the commit: the row written now, or what it
    had. *)
Lemma after_latest {K A} `{Countable K} (t t' : gmap (K * Z) A) k (new : option A) :
  (∀ b, t' !! (k, b) = if decide (b = c) then new else t !! (k, b)) →
  latest_rows t' (last_commit d') !! k = match new with Some a => Some a | None => latest_rows t (last_commit d) !! k end.
Proof.
  intros Ht. rewrite after_last. apply latest_rows_step.
  - intros b Hb. rewrite Ht, decide_False; [done|]. unfold last_commit in Hb. lia.
  - rewrite Ht, decide_True; [done|]. unfold last_commit. lia.
Qed.

Lemma no_state_now {A} (o : option A) v : (is_Some o → commit_of v c d) → o = None.
Proof. intros Ho. apply eq_None_not_Some. intros Hx%Ho%(commit_of_le _ _ _ _ Hs). unfold last_commit in Hx. lia. Qed.

Lemma final_flushed {A} (x : A) (o : option A) : final (Some (default x o, bool_decide (o = None))) = o.
Proof. by destruct o. Qed.

Lemma after_inodes v i : (v, i) ∉ dirty_inodes d' → latest_rows (inode_states d') (last_commit d') !! (v, i) = inode_in v i d'.
Proof.
  intros Hd. destruct after_dirty as (D1 & _). rewrite D1 in Hd. change (inode_in v i d') with (inode_in v i d).
  rewrite (after_latest (inode_states d) (inode_states d') (v, i)
    (if decide (v = ws_id w ∧ (v, i) ∈ dirty_inodes d) then inode_in v i d else None)).
  - case_decide as E; [|apply (sd_inodes _ _ Hs); tauto]. destruct E as [_ E].
    destruct (sd_dirty_inode _ _ Hs v i E) as [r Hr]. by rewrite Hr.
  - intros b. change (inode_states (flush_inodes (ws_id w) c (on_commits (insert c row) d) (on_commits (insert c row) d)) !! (v, i, b) = 
      if decide (b = c) then if decide (v = ws_id w ∧ (v, i) ∈ dirty_inodes d) then inode_in v i d else None else inode_states d !! (v, i, b)).
    rewrite flushed_inodes by (by apply (no_pending d)). simpl. change (inode_in v i (on_commits _ d)) with (inode_in v i d).
    destruct (decide (b = c)) as [->|Hb]; [|by rewrite decide_False by naive_solver].
    destruct (decide (v = ws_id w ∧ (v, i) ∈ dirty_inodes d)) as [[Ev Ed]|E].
    + rewrite decide_True; [done|]. split_and!; [done|done|done|by apply (sd_dirty_inode _ _ Hs)].
    + rewrite decide_False by tauto. apply (no_state_now _ v), (sd_inode_states _ _ Hs).
Qed.

Lemma after_dentries k : dirty_dentries d' !! k = None → final (latest_rows (dentry_states d') (last_commit d') !! k) = dentries d' !! k.
Proof.
  destruct k as [[v p] n]. intros Hd. destruct after_dirty as (_ & D2 & _). rewrite D2 in Hd. change (dentries d') with (dentries d).
  set (now := i ← dirty_dentries d !! (v, p, n); if decide (v = ws_id w)
    then Some (default i (dentries d !! (v, p, n)), bool_decide (dentries d !! (v, p, n) = None)) else None).
  rewrite (after_latest (dentry_states d) (dentry_states d') (v, p, n) now).
  - subst now. destruct (dirty_dentries d !! (v, p, n)) as [i|] eqn:Hi; simpl.
    + case_decide as E; [apply final_flushed|]. congruence.
    + by apply (sd_dentries _ _ Hs).
  - intros b. change (dentry_states (flush_dentries (ws_id w) c (on_commits (insert c row) d) (on_commits (insert c row) d)) !! (v, p, n, b) = 
      if decide (b = c) then now else dentry_states d !! (v, p, n, b)).
    rewrite flushed_dentries by (by apply (no_pending d)). simpl. subst now.
    assert (Hnone : b = c → dentry_states d !! (v, p, n, b) = None).
    { intros ->. apply (no_state_now _ v), (sd_dentry_states _ _ Hs). }
    destruct (dirty_dentries d !! (v, p, n)) as [i|]; simpl; repeat case_decide; naive_solver.
Qed.

Lemma after_xattrs v i n : (v, i, n) ∉ dirty_xattrs d' →
  final (latest_rows (xattr_states d') (last_commit d') !! (v, i, n)) = xattr_in v i n d'.
Proof.
  intros Hd. destruct after_dirty as (_ & _ & D3 & _). rewrite D3 in Hd. change (xattr_in v i n d') with (xattr_in v i n d).
  set (now := if decide (v = ws_id w ∧ (v, i, n) ∈ dirty_xattrs d)
    then Some (default [] (xattrs d !! (i, n)), bool_decide (xattrs d !! (i, n) = None)) else None).
  rewrite (after_latest (xattr_states d) (xattr_states d') (v, i, n) now).
  - subst now. case_decide as E; [|apply (sd_xattrs _ _ Hs); tauto]. rewrite final_flushed. destruct E as [_ E].
    unfold xattr_in. by destruct (sd_dirty_xattr _ _ Hs v i n E) as [r ->].
  - intros b. change (xattr_states (flush_xattrs (ws_id w) c (on_commits (insert c row) d) (on_commits (insert c row) d)) !! (v, i, n, b) = 
      if decide (b = c) then now else xattr_states d !! (v, i, n, b)).
    rewrite flushed_xattrs by (by apply (no_pending d)). simpl. subst now.
    assert (Hnone : b = c → xattr_states d !! (v, i, n, b) = None).
    { intros ->. apply (no_state_now _ v), (sd_xattr_states _ _ Hs). }
    repeat case_decide; naive_solver.
Qed.

Lemma after_acl k : k ∉ dirty_acl d' → final (latest_rows (acl_states d') (last_commit d') !! k) = acl_entries d' !! k.
Proof.
  destruct k as [[[v i] p] e]. intros Hd. destruct after_dirty as (_ & _ & _ & D4). rewrite D4 in Hd. change (acl_entries d') with (acl_entries d).
  set (now := if decide (v = ws_id w ∧ (v, i, p, e) ∈ dirty_acl d)
    then Some (default ([], 0) (acl_entries d !! (v, i, p, e)), bool_decide (acl_entries d !! (v, i, p, e) = None)) else None).
  rewrite (after_latest (acl_states d) (acl_states d') (v, i, p, e) now).
  - subst now. case_decide as E; [apply final_flushed|]. apply (sd_acl _ _ Hs). tauto.
  - intros b. change (acl_states (flush_acl (ws_id w) c (on_commits (insert c row) d) (on_commits (insert c row) d)) !! (v, i, p, e, b) = 
      if decide (b = c) then now else acl_states d !! (v, i, p, e, b)).
    rewrite flushed_acl by (by apply (no_pending d)). simpl. subst now.
    assert (Hnone : b = c → acl_states d !! (v, i, p, e, b) = None).
    { intros ->. apply (no_state_now _ v), (sd_acl_states _ _ Hs). }
    repeat case_decide; naive_solver.
Qed.

(** A state of [d'] is a state of [d] or was written now. *)
Lemma after_states {A} (o o' : option A) v b (P : Prop) `{!Decision P} (x : option A) :
  (o' = if decide P then x else o) → (P → v = ws_id w ∧ b = c) → (is_Some o → commit_of v b d) → is_Some o' → commit_of v b d'.
Proof.
  intros -> HP Ho. case_decide as E; [|intros Hx; by apply after_commit_of, Ho]. destruct (HP E) as [-> ->]. intros _. apply after_commit_now.
Qed.

Lemma after_settled : settled ∅ d'.
Proof.
  destruct after_dirty as (D1 & _ & D3 & _).
  assert (Hnp : ∀ v i, pending (on_commits (insert c row) d) v i = false) by (by apply (no_pending d)).
  split.
  - exact (sd_files _ _ Hs).
  - apply after_inodes.
  - apply after_dentries.
  - apply after_xattrs.
  - apply after_acl.
  - intros v i [Hv _]%D1. by apply (sd_dirty_inode _ _ Hs).
  - intros v i n [Hv _]%D3. by apply (sd_dirty_xattr _ _ Hs v i n).
  - exact (sd_owner _ _ Hs).
  - intros v r h. simpl. destruct (decide (ws_id w = v)) as [<-|].
    + rewrite lookup_alter_eq. destruct (workspaces d !! ws_id w) as [r0|] eqn:Hr0; [|done]. intros [= <-] [= <-].
      exists row. pose proof (next_rowid_pos (commits d)). simpl. rewrite lookup_insert_eq.
      destruct (w_history_floor r0) as [f|] eqn:Hfl; simpl.
      * destruct (sd_floor _ _ Hs _ _ Hr0) as [h Hh]; [by rewrite Hfl|]. pose proof (head_le _ _ _ _ _ Hs Hr0 Hh).
        destruct (sd_head _ _ Hs _ _ _ Hr0 Hh) as (c0 & f' & _ & _ & Hf' & Hpos). exists f. unfold last_commit in *.
        split_and!; [done|done|done| |]; simplify_eq; lia.
      * exists c. split_and!; [done|done|done|lia|lia].
    + rewrite lookup_alter_ne by done. intros Hr Hh. destruct (sd_head _ _ Hs _ _ _ Hr Hh) as (c0 & f & Hc & ? & ? & ?).
      exists c0, f. split; [|done]. rewrite lookup_insert_ne; [done|]. apply next_rowid_fresh in Hc. lia.
  - intros v r. simpl. destruct (decide (ws_id w = v)) as [<-|].
    + rewrite lookup_alter_eq. destruct (workspaces d !! ws_id w) as [r0|]; [|done]. intros [= <-] _. simpl. eauto.
    + rewrite lookup_alter_ne by done. apply (sd_floor _ _ Hs).
  - intros v i b. eapply after_states; [by apply flushed_inodes|naive_solver|apply (sd_inode_states _ _ Hs)].
  - intros v p n b. pose proof (flushed_dentries (ws_id w) c _ Hnp v p n b) as E. simpl in E.
    destruct (dirty_dentries d !! (v, p, n)) as [i|] eqn:Hi.
    + eapply after_states; [exact E|done|apply (sd_dentry_states _ _ Hs)].
    + intros Hx. apply after_commit_of, (sd_dentry_states _ _ Hs v p n). by rewrite <- E.
  - intros v i n b. eapply after_states; [exact (flushed_xattrs (ws_id w) c _ Hnp v i n b)|naive_solver|apply (sd_xattr_states _ _ Hs)].
  - intros v i p e b. eapply after_states; [exact (flushed_acl (ws_id w) c _ Hnp v i p e b)|naive_solver|apply (sd_acl_states _ _ Hs)].
Qed.

End Commit.

Lemma commit_eval w message d row : workspaces d !! ws_id w = Some row →
  ∃ crow, c_workspace crow = ws_id w ∧
    CreateCommitInTransaction w message d = (Ok (next_rowid (commits d)), after_commit w (next_rowid (commits d)) crow d).
Proof.
  intros Hrow. unfold CreateCommitInTransaction, with_db. rewrite Hrow. eexists. split; [|reflexivity]. done.
Qed.

(** A commit keeps the invariant and leaves nothing of its workspace marked. *)
Lemma commit_settles w message d row : settled ∅ d → workspaces d !! ws_id w = Some row →
  ∃ c d', CreateCommit w message d = (Ok c, d') ∧ settled ∅ d' ∧ clean (ws_id w) d'.
Proof.
  intros Hs Hrow. destruct (commit_eval w message d row Hrow) as (crow & Hws & Hrun).
  eexists _, _. split; [unfold CreateCommit, Savepoint; by rewrite Hrun|]. split; [apply after_settled|apply after_clean]; by eauto.
Qed.

Lemma steady_commit_in_transaction w message : steady ∅ (CreateCommitInTransaction w message).
Proof.
  intros d Hs. destruct (workspaces d !! ws_id w) as [row|] eqn:Hrow.
  - destruct (commit_eval w message d row Hrow) as (crow & Hws & Hrun). rewrite Hrun. by apply after_settled; eauto.
  - unfold CreateCommitInTransaction, with_db. by rewrite Hrow.
Qed.
#[export] Hint Resolve steady_commit_in_transaction : frame.
Lemma steady_commit w message : steady ∅ (CreateCommit w message).
Proof. unfold CreateCommit. steady. Qed.
#[export] Hint Resolve steady_commit : frame.
