(* ===== verification/VexfsTrackOps.v ===== *)
(** * Every function keeps the history on track

    The invariant of [VexfsTrack] through the SQL functions. Only [handle_create] leaves a
    file behind that has no version yet; all other functions lead from a database
    without such files to one without such files, whether they return or throw. *)
From Stdlib Require Import ZArith Lia String.
From stdpp Require Import prelude gmap.
From S2P Require Import Prelude Sha256 VexfsText VexfsDb VexfsTree VexfsStore VexfsGrepIndex VexfsStaging VexfsHandles VexfsNames VexfsMetadata VexfsHistory VexfsSnapshots VexfsRetention VexfsSessions VexfsFrame VexfsService VexfsTrack.

Local Open Scope Z_scope.
Implicit Types d : Db.

Lemma settled_weaken X Y d : X ⊆ Y → settled X d → settled Y d.
Proof.
  intros HXY Hs. pose proof (sd_files _ _ Hs) as Hf. destruct Hs. split; try done.
  intros i r Hr Hk. destruct (Hf i r Hr Hk) as [? Hpos]. split; [done|]. intros Hi. apply Hpos. set_solver.
Qed.

(** ** New inodes *)

Lemma settled_insert_inode X X' r d : (i_kind r = KFile → 0 <= i_version r ∧ (next_rowid (inodes d) ∉ X' → 0 < i_version r)) →
  X ⊆ X' → settled X d → settled X' (insert_inode r d).2.
Proof.
  intros Hv HX Hs. unfold insert_inode, with_db. set (id := next_rowid (inodes d)) in *.
  assert (H1 : settled X' (put_inode id r d)).
  { eapply settled_put; [|done| |exact Hs]; [|set_solver]. intros old Hold. apply next_rowid_fresh in Hold. subst id. lia. }
  change (settled X' (((if counts r then count_live (i_workspace r) 1 (i_size r) else mret ()) ≫= λ _, mret id) (put_inode id r d)).2).
  revert H1. apply (frames_bind (R := settled_rel X')); [destruct (counts r); auto with frame|intros; apply frames_ret].
Qed.

Lemma steady_create_inode X uid gid ws kind mode : kind ≠ KFile → steady X (CreateInode uid gid ws kind mode).
Proof.
  intros Hk. unfold CreateInode. apply frames_bind; [auto with frame|]. intros []. apply frames_with_db_at.
  intros d Hs. by eapply (settled_insert_inode X).
Qed.

(** A new file waits for its first version. *)
Lemma create_inode_waits uid gid ws mode d id d' : settled ∅ d → CreateInode uid gid ws KFile mode d = (Ok id, d') →
  settled {[ id ]} d' ∧ id = next_rowid (inodes d).
Proof.
  intros Hs Hrun. unfold CreateInode in Hrun. apply bind_ok in Hrun as (? & ? & [_ ->]%query_ok & Hrun). unfold with_db in Hrun.
  set (r := new_inode_row uid gid ws KFile mode (clock_seconds d)) in *.
  assert (Hid : id = next_rowid (inodes d)).
  { unfold insert_inode in Hrun. unfold with_db in Hrun. do 3 apply bind_ok in Hrun as (? & ? & _ & Hrun). by apply ret_ok in Hrun as [-> _]. }
  split; [|done]. pose proof (settled_insert_inode ∅ {[ id ]} r d) as H. rewrite Hrun in H. apply H; [|set_solver|done].
  intros _. split; [done|]. set_solver.
Qed.

Lemma steady_add_dentry X ws parent name inode : steady X (AddDentry ws parent name inode).
Proof. unfold AddDentry. steady. Qed.
#[export] Hint Resolve steady_add_dentry : frame.

Lemma steady_create_entry X uid gid w parent name kind mode : kind ≠ KFile → steady X (create_entry uid gid w parent name kind mode).
Proof. intros Hk. unfold create_entry. apply frames_bind; [by apply steady_create_inode|]. intros. steady. Qed.

Lemma create_entry_waits uid gid w parent name mode d node d' : settled ∅ d →
  create_entry uid gid w parent name KFile mode d = (Ok node, d') → settled {[ n_id node ]} d'.
Proof.
  intros Hs Hrun. unfold create_entry in Hrun. apply bind_ok in Hrun as (id & d1 & H1 & H2). apply bind_ok in H2 as ([] & d2 & H2 & H3).
  apply ret_ok in H3 as [-> ->]. apply create_inode_waits in H1 as [H1 _]; [|done].
  pose proof (steady_add_dentry {[ id ]} (ws_id w) (n_id parent) name id d1 H1) as H. by rewrite H2 in H.
Qed.

(** ** Publishing *)

(** The compare-and-set gives the file its next version. *)
Lemma advance_settles X inode old size d : X ⊆ {[ inode ]} → settled X d →
  match advance_inode inode old size (old + 1) d with
  | (Ok _, d') => settled ∅ d'
  | (Throw _, d') => settled X d'
  end.
Proof.
  intros HX Hs. unfold advance_inode, with_db. destruct (inodes d !! inode) as [r|] eqn:Hr; [|done].
  destruct (Z.eqb_spec (i_version r) old) as [<-|]; [|done].
  assert (H : settled ∅ (update_inode inode r (touch (clock d) size (i_version r + 1) r) d).2).
  { eapply (settled_update X); [done|done| |set_solver|done]. simpl. intros Hk.
    destruct (sd_files _ _ Hs inode r Hr Hk) as [? _]. split; lia. }
  destruct (update_inode _ _ _ d) as [[] d']; [done|]. eapply settled_weaken; [|exact H]. set_solver.
Qed.

Lemma steady_advance inode old size : steady ∅ (advance_inode inode old size (old + 1)).
Proof.
  intros d Hs. pose proof (advance_settles ∅ inode old size d ltac:(set_solver) Hs) as H. by destruct (advance_inode _ _ _ _ d) as [[] ?].
Qed.
#[export] Hint Resolve steady_advance : frame.

Section Publish.

Context (w : Workspace) (node : Node) (size : Z) (commit : M Z) (store : M (Z * bytes)).
Context (Hcommit : steady ∅ commit) (Hstore : steady ∅ store).

Lemma steady_publish_version : steady ∅ (publish_version w node size commit store).
Proof. unfold publish_version. steady. Qed.

Lemma publish_settles X d m d' : X ⊆ {[ n_id node ]} → settled X d →
  publish_version w node size commit store d = (Ok m, d') → settled ∅ d'.
Proof.
  intros HX Hs Hrun. unfold publish_version in Hrun. cbv zeta in Hrun. apply bind_ok in Hrun as ([] & d1 & H1 & H2).
  pose proof (advance_settles X (n_id node) (n_version node) size d HX Hs) as Ha. rewrite H1 in Ha.
  enough (Hrest : steady ∅ (commit ≫= λ commit_id, store ≫= λ '(manifest, checksum),
    insert_version (n_id node) (n_version node + 1) commit_id (Some manifest) size checksum None ≫= λ _,
    UpdateGrepIndexFromVersion (ws_id w) (n_id node) (n_version node + 1) ≫= λ _, mret manifest)).
  { specialize (Hrest d1 Ha). by rewrite H2 in Hrest. }
  steady.
Qed.

End Publish.
#[export] Hint Resolve steady_publish_version : frame.

Lemma steady_store_version w node content message : steady ∅ (StoreVersion w node content message).
Proof. unfold StoreVersion. steady. Qed.
Lemma store_version_settles w node content message d v d' : settled {[ n_id node ]} d →
  StoreVersion w node content message d = (Ok v, d') → settled ∅ d'.
Proof.
  intros Hs Hrun. unfold StoreVersion in Hrun. apply (proj1 (savepoint_ok _ _ _ _)) in Hrun.
  apply bind_ok in Hrun as (? & ? & [= <- <-] & Hrun). apply bind_ok in Hrun as (? & ? & [_ ->]%query_ok & Hrun).
  apply bind_ok in Hrun as (? & ? & [_ ->]%query_ok & Hrun). apply bind_ok in Hrun as (? & ? & Hrun & [-> ->]%ret_ok).
  eapply (publish_settles w node); [..|exact Hrun]; [auto with frame|auto with frame|done|done].
Qed.
Lemma steady_restore_version w node source message : steady ∅ (StoreVersionFromVersion w node source message).
Proof. unfold StoreVersionFromVersion. steady. Qed.
#[export] Hint Resolve steady_store_version steady_restore_version : frame.

Lemma steady_publish_in_transaction handle generation owned : steady ∅ (PublishHandleInTransaction handle generation owned).
Proof.
  unfold PublishHandleInTransaction, StoreVersionFromStaging, StoreManifestFromStaging, insert_manifest, finalize_manifest.
  steady; apply steady_publish_version; steady.
Qed.
#[export] Hint Resolve steady_publish_in_transaction : frame.
Lemma steady_publish handle generation : steady ∅ (PublishHandle handle generation).
Proof. unfold PublishHandle. steady. Qed.
#[export] Hint Resolve steady_publish : frame.

(** ** Removing and renaming *)

Lemma steady_tombstone_tree X ws inode : steady X (TombstoneTree ws inode).
Proof. unfold TombstoneTree. steady. Qed.
Lemma steady_tombstone_unreferenced X ws inode : steady X (TombstoneIfUnreferenced ws inode).
Proof.
  unfold TombstoneIfUnreferenced. apply frames_bind; [|auto with frame]. steady_at. case_match; [|done].
  unfold Savepoint. pose proof (steady_update X inode r (set_tombstone (clock_seconds d) r) d Hr eq_refl eq_refl (λ _, eq_refl)) as Hq.
  by destruct (update_inode _ _ _ d) as [[] ?].
Qed.
#[export] Hint Resolve steady_tombstone_tree steady_tombstone_unreferenced : frame.
Lemma steady_drop_node X ws node : steady X (drop_node ws node).
Proof. unfold drop_node. steady. Qed.
#[export] Hint Resolve steady_drop_node : frame.
Lemma steady_remove workspace path recursive : steady ∅ (RemoveFunction workspace path recursive).
Proof. unfold RemoveFunction. steady. Qed.
Lemma steady_rename workspace source destination replace : steady ∅ (RenameFunction workspace source destination replace).
Proof. unfold RenameFunction. steady. Qed.

(** ** Creating and writing *)

(** What a savepoint does counts only when it returns. *)
Lemma steady_savepoint {A} (m : M A) :
  (∀ d a d', settled ∅ d → m d = (Ok a, d') → settled ∅ d') → steady ∅ (Savepoint m).
Proof. intros Hm d Hs. unfold Savepoint. destruct (m d) as [[a|e] d'] eqn:E; [by eapply Hm|done]. Qed.

Lemma steady_mkdir_loop uid gid w parts : ∀ current changed, steady ∅ (mkdir_loop uid gid w current parts changed).
Proof.
  induction parts as [|part parts IH]; intros; cbn [mkdir_loop]; [apply frames_ret|]. apply frames_bind; [auto with frame|].
  intros [child|]; apply frames_bind; [auto with frame|done|by apply steady_create_entry|done].
Qed.
#[export] Hint Resolve steady_mkdir_loop : frame.
Lemma steady_mkdir uid gid workspace path : steady ∅ (MkdirFunction uid gid workspace path).
Proof. unfold MkdirFunction. steady. Qed.

Lemma steady_new_path X w parts : steady X (new_path w parts).
Proof. unfold new_path. steady. Qed.
#[export] Hint Resolve steady_new_path : frame.

Lemma frames_after {A} (R : relation Db) (m : M A) d a d' : frames R m → m d = (Ok a, d') → R d d'.
Proof. intros Hm Hrun. specialize (Hm d). by rewrite Hrun in Hm. Qed.

Lemma steady_create uid gid workspace path kind mode : steady ∅ (CreateFunction uid gid workspace path kind mode).
Proof.
  unfold CreateFunction. do 7 (apply frames_bind; [auto with frame|intros ?]). destruct (create_kind _) as [k|]; [|auto with frame].
  apply steady_savepoint. intros d i d' Hs Hrun. apply bind_ok in Hrun as (? & ? & [= <- <-] & Hrun).
  apply bind_ok in Hrun as ([parent name] & d1 & H1 & Hrun). apply (frames_after (settled_rel ∅)) in H1; [|auto with frame].
  apply bind_ok in Hrun as (node & d2 & H2 & Hrun). apply bind_ok in Hrun as ([] & d3 & H3 & [-> ->]%ret_ok).
  destruct (decide (k = KFile)) as [->|Hk].
  - apply create_entry_waits in H2; [|by apply H1]. apply bind_ok in H3 as (v & ? & H3 & [_ ->]%ret_ok). by eapply store_version_settles.
  - apply (frames_after (settled_rel ∅)) in H2; [|by apply steady_create_entry]. 
    apply (frames_after (settled_rel ∅)) in H3; [by apply H3, H2, H1|]. destruct k; [done|..]; steady.
Qed.

Lemma steady_symlink uid gid workspace path target : steady ∅ (SymlinkFunction uid gid workspace path target).
Proof.
  unfold SymlinkFunction. do 9 (apply frames_bind; [auto with frame|intros ?]). apply frames_savepoint.
  apply frames_bind; [auto with frame|intros _]. apply frames_bind; [auto with frame|]. intros [parent name].
  apply frames_bind; [by apply steady_create_entry|]. intros. steady.
Qed.
Lemma steady_hardlink workspace source destination : steady ∅ (HardlinkFunction workspace source destination).
Proof. unfold HardlinkFunction. steady. Qed.

Lemma steady_write_path uid gid w parts content message : steady ∅ (WritePath uid gid w parts content message).
Proof.
  unfold WritePath. apply steady_savepoint. intros d v d' Hs Hrun. apply bind_ok in Hrun as (? & ? & [= <- <-] & Hrun).
  apply bind_ok in Hrun as ([parent name] & ? & [_ ->]%query_ok & Hrun). apply bind_ok in Hrun as (child & ? & [_ ->]%query_ok & Hrun).
  apply bind_ok in Hrun as (node & d1 & H1 & Hrun). apply bind_ok in Hrun as (? & ? & [_ ->]%throw_if_ok & Hrun).
  eapply store_version_settles; [|done]. destruct child as [child|].
  - apply ret_ok in H1 as [-> ->]. by eapply settled_weaken; [apply empty_subseteq|].
  - by eapply create_entry_waits.
Qed.
#[export] Hint Resolve steady_write_path : frame.
Lemma steady_write uid gid workspace path content : steady ∅ (WriteFunction uid gid workspace path content).
Proof. unfold WriteFunction. steady. Qed.
Lemma steady_append workspace inode content : steady ∅ (AppendFunction workspace inode content).
Proof. unfold AppendFunction. steady. Qed.
Lemma steady_restore_function workspace path target expected : steady ∅ (RestoreVersionFunction workspace path target expected).
Proof. unfold RestoreVersionFunction. steady. Qed.

(** ** Handles *)

Lemma steady_open_node uid gid w parts create : steady ∅ (open_node uid gid w parts create).
Proof. unfold open_node. steady. Qed.
#[export] Hint Resolve steady_open_node : frame.
Lemma steady_handle_open uid gid handle_id workspace path flags request session :
  steady ∅ (HandleOpenFunction uid gid handle_id workspace path flags request session).
Proof. unfold HandleOpenFunction. steady. Qed.

Lemma steady_replayed request operation fingerprint work : steady ∅ work → steady ∅ (replayed request operation fingerprint work).
Proof. intros. unfold replayed. steady. Qed.
Ltac steady_function := repeat first [progress steady | apply steady_replayed].

Lemma handle_functions_steady :
  (∀ h o c q, steady ∅ (HandleStageWriteFunction h o c q)) ∧ (∀ h c q, steady ∅ (HandleAppendFunction h c q)) ∧
  (∀ h s q, steady ∅ (HandleTruncateFunction h s q)) ∧ (∀ h g u q, steady ∅ (HandlePublishFunction h g u q)) ∧
  (∀ h g u, steady ∅ (HandlePublishCloseFunction h g u)) ∧ (∀ h b q, steady ∅ (HandleCloseFunction h b q)).
Proof.
  unfold HandleStageWriteFunction, HandleAppendFunction, HandleTruncateFunction, HandlePublishFunction,
    HandlePublishCloseFunction, HandleCloseFunction.
  split_and!; intros; steady_function.
Qed.

(** ** Workspaces and snapshots *)

(** Workspace rows that change in nothing the history depends on, or are new. *)
Lemma settled_workspaces X d f :
  let d' := on_workspaces f d in
  (∀ ws, match workspaces d' !! ws with
    | Some row' =>
      match workspaces d !! ws with
      | Some row => w_head_commit row' = w_head_commit row ∧ w_history_floor row' = w_history_floor row
      | None => w_head_commit row' = None ∧ w_history_floor row' = None
      end
    | None => workspaces d !! ws = None
    end) → settled_rel X d d'.
Proof.
  intros d' Hf Hs.
  assert (Hc : ∀ ws c, commit_of ws c d → commit_of ws c d').
  { intros ws c (row & h & Hrow & Hh & Hc). specialize (Hf ws). rewrite Hrow in Hf. destruct (workspaces d' !! ws) as [row'|] eqn:E; [|done].
    destruct Hf as [Eh _]. exists row', h. by rewrite Eh. }
  pose proof (sd_head _ _ Hs) as Hhead. pose proof (sd_floor _ _ Hs) as Hfloor. destruct Hs. split; try done; eauto.
  - intros ws row h Hrow Hh. specialize (Hf ws). rewrite Hrow in Hf. destruct (workspaces d !! ws) as [row0|] eqn:E.
    + destruct Hf as [Eh Ef]. rewrite Ef. by apply (Hhead ws row0); [|congruence].
    + destruct Hf. congruence.
  - intros ws row Hrow Hfl. specialize (Hf ws). rewrite Hrow in Hf. destruct (workspaces d !! ws) as [row0|] eqn:E.
    + destruct Hf as [Eh Ef]. rewrite Eh. apply (Hfloor ws row0); [done|congruence].
    + destruct Hf as [_ Ef]. rewrite Ef in Hfl. by destruct Hfl.
Qed.

Lemma steady_insert_workspace X name : steady X (insert_workspace name).
Proof.
  unfold insert_workspace. apply frames_with_db_at. intros d. destruct (existsb _ _); [done|].
  apply (settled_workspaces X d (insert _ _)). intros ws. simpl. destruct (decide (next_rowid (workspaces d) = ws)) as [<-|].
  - rewrite lookup_insert_eq. by rewrite next_rowid_none by done.
  - rewrite lookup_insert_ne by done. by destruct (workspaces d !! ws).
Qed.
Lemma steady_set_root X root ws : steady X (modify (on_workspaces (alter (set_root root) ws))).
Proof.
  apply frames_modify. intros d. apply settled_workspaces. intros v. simpl. rewrite lookup_alter. case_decide; subst;
    by destruct (workspaces d !! v).
Qed.
#[export] Hint Resolve steady_insert_workspace steady_set_root : frame.
Lemma steady_workspace_create uid gid workspace : steady ∅ (WorkspaceCreateFunction uid gid workspace).
Proof.
  unfold WorkspaceCreateFunction. do 2 (apply frames_bind; [auto with frame|intros ?]). apply frames_with_db. intros d.
  destruct (FindWorkspace _ d); [auto with frame|]. apply frames_bind; [auto with frame|intros ws].
  apply frames_bind; [by apply steady_create_inode|intros root]. apply frames_bind; [auto with frame|intros ?]. steady.
Qed.

(** ** The functions beside the names *)

Lemma settled_xattr X f i n r d : inodes d !! i = Some r → (∀ k, k ≠ (i, n) → f (xattrs d) !! k = xattrs d !! k) →
  settled_rel X d (on_dirty_xattrs (λ s, {[ (i_workspace r, i, n) ]} ∪ s) (on_xattrs f d)).
Proof.
  intros Hr Hf Hs. pose proof (sd_xattrs _ _ Hs) as Hx. pose proof (sd_dirty_xattr _ _ Hs) as Hdx. pose proof (sd_owner _ _ Hs) as Ho.
  destruct Hs. split; try done.
  - intros ws j m. simpl. intros [Hne%not_elem_of_singleton Hd]%not_elem_of_union. etrans; [by apply Hx|]. unfold xattr_in. simpl.
    change (inode_in ws j (on_dirty_xattrs _ _)) with (inode_in ws j d). destruct (decide ((j, m) = (i, n))) as [[= -> ->]|Hk]; [|by rewrite Hf].
    unfold inode_in. rewrite Hr. simpl. rewrite (proj2 (Z.eqb_neq _ _)); [done|]. congruence.
  - intros ws j m. simpl. intros [[= -> -> ->]%elem_of_singleton|Hd]%elem_of_union; [|by apply (Hdx ws j m)].
    unfold inode_in. simpl. rewrite Hr. simpl. rewrite Z.eqb_refl. eauto.
  - intros j m. simpl. destruct (decide ((j, m) = (i, n))) as [[= -> ->]|Hk]; [rewrite Hr; eauto|]. rewrite Hf by done. apply Ho.
Qed.

#[export] Instance settled_service : ServiceFrame (settled_rel ∅).
Proof.
  split; try solve [intros; auto with frame].
  - intros id r new d Hr [= Hw Hk Hv]. by apply steady_update.
  - intros f k d Hf. apply (settled_acl ∅ d f). intros k'. simpl. intros Hk. split; [set_solver|]. apply Hf. set_solver.
  - intros. by apply settled_xattr.
  - intros f ws d Hf. apply settled_workspaces. intros v. simpl. rewrite lookup_alter. case_decide as E; [subst v|by destruct (workspaces d !! v)].
    destruct (workspaces d !! ws) as [row|]; [|done]. simpl. by injection (Hf row).
  - by intros f d [].
Qed.

(** A new database. *)
Lemma empty_settled d : tree_of d = mkTreeTables ∅ ∅ ∅ ∅ ∅ → history_of d = mkHistoryTables ∅ ∅ ∅ ∅ ∅ ∅ ∅ ∅ ∅ ∅ → settled ∅ d.
Proof.
  destruct d as [t h ? ? ? ? ? ?]. simpl. intros -> ->. 
  split; unfold commit_of, xattr_in, inode_in; simpl; intros; try done; try set_solver; select (is_Some _) (fun H => by destruct H).
Qed.
