(* ===== verification/VexfsAppend.v ===== *)
(** * The history only grows

    No SQL function changes what an earlier commit recorded: a commit adds rows under
    its own number, and versions of contents are never rewritten. So the tree of a
    commit can be read again after any sequence of calls, and it is the same tree. *)
From Stdlib Require Import ZArith Lia String.
From stdpp Require Import prelude gmap.
From S2P Require Import Prelude Sha256 VexfsText VexfsDb VexfsTree VexfsStore VexfsGrepIndex VexfsStaging VexfsHandles VexfsNames VexfsMetadata VexfsHistory VexfsSnapshots VexfsRestore VexfsRetention VexfsSessions VexfsFrame VexfsService VexfsForest VexfsForestOps VexfsForestTop VexfsTrack.

Local Open Scope Z_scope.
Implicit Types d : Db.

(** ** The relation *)

Definition same_upto {K A} `{Countable K} (b : Z) (t t' : gmap (K * Z) A) : Prop := ∀ k c, c <= b → t' !! (k, c) = t !! (k, c).

Record grows (d d' : Db) : Prop := {
  gr_commits : commits d ⊆ commits d';
  gr_inodes : same_upto (last_commit d) (inode_states d) (inode_states d');
  gr_dentries : same_upto (last_commit d) (dentry_states d) (dentry_states d');
  gr_xattrs : same_upto (last_commit d) (xattr_states d) (xattr_states d');
  gr_acl : same_upto (last_commit d) (acl_states d) (acl_states d');
  gr_floor : ∀ ws row f, workspaces d !! ws = Some row → w_history_floor row = Some f →
    ∃ row', workspaces d' !! ws = Some row' ∧ w_history_floor row' = Some f;
  gr_versions : file_versions d ⊆ file_versions d';
}.

Lemma next_rowid_mono {A} (t t' : gmap Z A) : t ⊆ t' → next_rowid t <= next_rowid t'.
Proof.
  unfold next_rowid at 1. induction t as [|i x t Hi IH] using map_ind; intros Ht; [rewrite map_fold_empty; pose proof (next_rowid_pos t'); lia|].
  rewrite map_fold_insert_L by (intros; lia || done).
  assert (Hx : t' !! i = Some x) by (eapply lookup_weaken; [apply lookup_insert_eq|done]).
  apply next_rowid_fresh in Hx. specialize (IH ltac:(etrans; [by apply insert_subseteq|done])). lia.
Qed.

Lemma same_upto_trans {K A} `{Countable K} (b b' : Z) (t1 t2 t3 : gmap (K * Z) A) :
  b <= b' → same_upto b t1 t2 → same_upto b' t2 t3 → same_upto b t1 t3.
Proof. intros Hb H1 H2 k c Hc. rewrite H2 by lia. by apply H1. Qed.

#[export] Instance grows_preorder : PreOrder grows.
Proof.
  split; [by intros d; split; eauto|]. intros d1 d2 d3 [C1 I1 D1 X1 A1 F1 V1] [C2 I2 D2 X2 A2 F2 V2].
  assert (Hl : last_commit d1 <= last_commit d2) by (unfold last_commit; pose proof (next_rowid_mono _ _ C1); lia).
  split; [by etrans|by eapply same_upto_trans..| |by etrans].
  intros ws row f Hrow Hf. destruct (F1 ws row f Hrow Hf) as (row' & Hrow' & Hf'). by eapply F2.
Qed.

#[export] Instance grows_frame : Frame grows.
Proof.
  split; [apply _|]. intros d d' Ha. pose proof Ha as [_ _ _ _ H _ V].
  split; unfold same_upto; rewrite ?H; try done. intros ws row f Hrow Hf.
  destruct (aside_row _ _ _ _ Ha Hrow) as (row' & Hrow' & E). exists row'. split; [done|]. injection E as _ _ _ _ Ef _ _ _ _. congruence.
Qed.

(** Steps that leave history and contents alone. *)
Lemma grows_beside d d' : commits d' = commits d → inode_states d' = inode_states d → dentry_states d' = dentry_states d →
  xattr_states d' = xattr_states d → acl_states d' = acl_states d → file_versions d' = file_versions d →
  (∀ ws row f, workspaces d !! ws = Some row → w_history_floor row = Some f →
    ∃ row', workspaces d' !! ws = Some row' ∧ w_history_floor row' = Some f) → grows d d'.
Proof. intros E1 E2 E3 E4 E5 E6 Hw. by split; unfold same_upto; rewrite ?E1, ?E2, ?E3, ?E4, ?E5, ?E6. Qed.

Ltac beside := apply grows_beside; [done..|by eauto].
Ltac growing := repeat (cbv zeta; frames_step ltac:(beside)).

(** ** Rows of the tree *)

Lemma grows_update_inode id old new : frames grows (update_inode id old new).
Proof. unfold update_inode. growing. Qed.
Lemma grows_insert_inode r : frames grows (insert_inode r).
Proof. unfold insert_inode. growing. Qed.
Lemma grows_insert_dentry w p n i : frames grows (insert_dentry w p n i).
Proof. unfold insert_dentry. growing. Qed.
Lemma grows_delete_dentry w p n : frames grows (delete_dentry w p n).
Proof. unfold delete_dentry. growing. Qed.
Lemma grows_move_dentry w p n p' n' : frames grows (move_dentry w p n p' n').
Proof. unfold move_dentry. growing. Qed.
Lemma grows_insert_acl k permissions inherit : frames grows (insert_acl k permissions inherit).
Proof. unfold insert_acl. growing. Qed.
#[local] Hint Resolve grows_update_inode grows_insert_inode grows_insert_dentry grows_delete_dentry grows_move_dentry grows_insert_acl : frame.
Lemma grows_touch ws inode : frames grows (TouchDirectory ws inode).
Proof. unfold TouchDirectory. growing. Qed.
Lemma grows_update_owner ws inode uid gid : frames grows (update_owner ws inode uid gid).
Proof. unfold update_owner. growing. Qed.
Lemma grows_advance inode old size version : frames grows (advance_inode inode old size version).
Proof. unfold advance_inode. growing. Qed.
Lemma grows_tombstone_rows ws ids : frames grows (tombstone_rows ws ids).
Proof. induction ids as [|id ids IH]; cbn [tombstone_rows]; growing. Qed.
#[local] Hint Resolve grows_touch grows_update_owner grows_advance grows_tombstone_rows : frame.
Lemma grows_drop_node ws node : frames grows (drop_node ws node).
Proof. unfold drop_node, TombstoneTree, TombstoneIfUnreferenced. growing. Qed.
Lemma grows_create_inode uid gid ws kind mode : frames grows (CreateInode uid gid ws kind mode).
Proof. unfold CreateInode. growing. Qed.
Lemma grows_add_dentry ws parent name inode : frames grows (AddDentry ws parent name inode).
Proof. unfold AddDentry. growing. Qed.
#[local] Hint Resolve grows_drop_node grows_create_inode grows_add_dentry : frame.

(** ** Commits *)

(** Folding rows of one commit into a table leaves the rows of other commits. *)
Lemma fold_other {B K A} `{Countable K} (c : Z) (step : B → gmap (K * Z) A → gmap (K * Z) A) (l : list B) t k (b : Z) :
  (∀ x t, step x t = t ∨ ∃ k a, step x t = <[(k, c) := a]> t) → b ≠ c → foldr step t l !! (k, b) = t !! (k, b).
Proof.
  intros Hs Hb. induction l as [|x l IH]; [done|]. simpl. destruct (Hs x (foldr step t l)) as [->|(k' & a & ->)]; [done|].
  rewrite lookup_insert_ne; [done|]. by intros [= _ <-].
Qed.

Ltac fold_step := intros; unfold uncurry; cbv zeta; repeat case_match; subst; solve [by left | right; eexists _, _; reflexivity].

Lemma flush_other ws c d d1 :
  (∀ k b, b ≠ c → inode_states (flush_inodes ws c d d1) !! (k, b) = inode_states d1 !! (k, b)) ∧
  (∀ k b, b ≠ c → dentry_states (flush_dentries ws c d d1) !! (k, b) = dentry_states d1 !! (k, b)) ∧
  (∀ k b, b ≠ c → xattr_states (flush_xattrs ws c d d1) !! (k, b) = xattr_states d1 !! (k, b)) ∧
  (∀ k b, b ≠ c → acl_states (flush_acl ws c d d1) !! (k, b) = acl_states d1 !! (k, b)).
Proof.
  split_and!; intros k b Hb; simpl; unfold set_fold; rewrite ?map_fold_foldr; apply (fold_other c); try done; fold_step.
Qed.

Lemma grows_commit_in_transaction w message : frames grows (CreateCommitInTransaction w message).
Proof.
  intros d. destruct (workspaces d !! ws_id w) as [row|] eqn:Hrow.
  - destruct (commit_eval w message d row Hrow) as (crow & _ & ->). set (c := next_rowid (commits d)). simpl.
    destruct (flush_other (ws_id w) c (on_commits (insert c crow) d) (on_commits (insert c crow) d)) as (F1 & F2 & F3 & F4).
    assert (Hc : ∀ b, b <= last_commit d → b ≠ c) by (unfold last_commit; lia).
    split; simpl.
    + apply insert_subseteq, next_rowid_none. lia.
    + intros k b Hb. by apply F1, Hc.
    + intros k b Hb. by apply F2, Hc.
    + intros k b Hb. by apply F3, Hc.
    + intros k b Hb. by apply F4, Hc.
    + intros ws r f Hr Hf. rewrite lookup_alter. case_decide; subst; rewrite Hr; [|eauto]. eexists. split; [done|]. simpl. by rewrite Hf.
    + done.
  - unfold CreateCommitInTransaction, with_db. by rewrite Hrow.
Qed.
#[local] Hint Resolve grows_commit_in_transaction : frame.
Lemma grows_commit w message : frames grows (CreateCommit w message).
Proof. unfold CreateCommit. growing. Qed.
#[local] Hint Resolve grows_commit : frame.

(** ** Publishing *)

Lemma grows_publish_version w node size commit store :
  frames grows commit → frames grows store → frames grows (publish_version w node size commit store).
Proof. intros. unfold publish_version. growing. Qed.
#[local] Hint Resolve grows_publish_version : frame.
Lemma grows_store_version w node content message : frames grows (StoreVersion w node content message).
Proof. unfold StoreVersion. growing. Qed.
Lemma grows_restore_version w node source message : frames grows (StoreVersionFromVersion w node source message).
Proof. unfold StoreVersionFromVersion. growing. Qed.
Lemma grows_publish_in_transaction handle generation owned : frames grows (PublishHandleInTransaction handle generation owned).
Proof.
  unfold PublishHandleInTransaction, StoreVersionFromStaging, StoreManifestFromStaging, insert_manifest, finalize_manifest.
  growing; apply grows_publish_version; growing.
Qed.
#[local] Hint Resolve grows_store_version grows_restore_version grows_publish_in_transaction : frame.

(** ** The functions *)

Lemma grows_new_path w parts : frames grows (new_path w parts).
Proof. unfold new_path. growing. Qed.
Lemma grows_create_entry uid gid w parent name kind mode : frames grows (create_entry uid gid w parent name kind mode).
Proof. unfold create_entry. growing. Qed.
#[local] Hint Resolve grows_new_path grows_create_entry : frame.
Lemma grows_mkdir_loop uid gid w parts : ∀ current changed, frames grows (mkdir_loop uid gid w current parts changed).
Proof. induction parts; intros; cbn [mkdir_loop]; growing. Qed.
Lemma grows_write_path uid gid w parts content message : frames grows (WritePath uid gid w parts content message).
Proof. unfold WritePath. growing. Qed.
#[local] Hint Resolve grows_mkdir_loop grows_write_path : frame.
Lemma grows_replayed request operation fingerprint work : frames grows work → frames grows (replayed request operation fingerprint work).
Proof. intros. unfold replayed. growing. Qed.
Lemma grows_insert_workspace name : frames grows (insert_workspace name).
Proof.
  unfold insert_workspace. apply frames_with_db_at. intros d. destruct (existsb _ _); [done|].
  apply grows_beside; try done. intros ws row f Hrow Hf. simpl. rewrite lookup_insert_ne; [eauto|].
  intros <-. by rewrite next_rowid_none in Hrow.
Qed.
Lemma grows_set_root root ws : frames grows (modify (on_workspaces (alter (set_root root) ws))).
Proof.
  apply frames_modify. intros d. apply grows_beside; try done. intros v row f Hrow Hf. simpl. rewrite lookup_alter.
  case_decide; subst; rewrite Hrow; eauto.
Qed.
#[local] Hint Resolve grows_insert_workspace grows_set_root : frame.

Ltac growing_function := repeat first [progress growing | apply grows_replayed | apply grows_set_root].

#[export] Instance grows_service : ServiceFrame grows.
Proof.
  split; try solve [intros; auto with frame | intros; beside]; [intros; apply grows_update_inode|].
  intros f ws d Hf. apply grows_beside; try done. intros v row h Hrow Hh. simpl. rewrite lookup_alter. case_decide; subst; rewrite Hrow; [|eauto].
  exists (f row). split; [done|]. injection (Hf row). congruence.
Qed.

Lemma run_call_grows c d : grows d (run_call c d).
Proof.
  assert (Hrun : ∀ A (m : M A), frames grows m → grows d (m d).2) by (intros A m Hm; apply Hm).
  destruct c; cbn [run_call]; try apply Hrun.
  1-18: unfold WorkspaceCreateFunction, MkdirFunction, CreateFunction, SymlinkFunction, HardlinkFunction, WriteFunction, AppendFunction,
    RestoreVersionFunction, RenameFunction, RemoveFunction, HandleCreateFunction, HandleOpenFunction, open_node,
    HandleStageWriteFunction, HandleAppendFunction, HandleTruncateFunction, HandlePublishFunction, PublishHandle,
    HandlePublishCloseFunction, HandleCloseFunction; growing_function.
  - apply frames_enable_index.
  - apply frames_disable_index.
  - apply run_service_frames.
  - beside.
Qed.

(** ** Snapshots *)

Lemma grows_for_each {A} (l : list A) (f : A → M ()) : (∀ x, frames grows (f x)) → frames grows (for_each l f).
Proof. intros Hf. induction l; cbn [for_each]; growing; apply Hf. Qed.
Lemma grows_dirty_xattr i n d : grows d (dirty_xattr i n d).
Proof. unfold dirty_xattr. destruct (inodes d !! i); [beside|done]. Qed.
#[local] Hint Resolve grows_dirty_xattr : frame.

Ltac growing_tree := repeat first
  [ apply grows_for_each; intros | progress (cbv zeta; frames_step ltac:(first [apply grows_dirty_xattr | beside]))
  | match goal with |- frames _ (let '_ := ?x in _) => destruct x end ].

Lemma grows_restore_tree w commit : frames grows (RestoreWorkspaceTree w commit).
Proof.
  unfold RestoreWorkspaceTree, clear_acl, clear_xattrs, clear_dentries, restore_inodes, restore_dentries, restore_xattrs, restore_acl,
    delete_acl, delete_xattr, restore_inode, insert_xattr. growing_tree.
Qed.
Lemma grows_restore workspace name expected safety : frames grows (SnapshotRestoreFunction workspace name expected safety).
Proof.
  unfold SnapshotRestoreFunction, insert_snapshot, PrepareRestoredVersionAliases, StoreRestoredVersionAliases.
  growing_tree; try apply grows_restore_tree; growing_tree.
Qed.

(** A call, or a restore of a snapshot. *)
Inductive request :=
| RCall (c : call)
| RSnapshotRestore (workspace name : option bytes) (expected : sqlite_value) (safety : option bytes).

Definition run_request (r : request) (d : Db) : Db :=
  match r with
  | RCall c => run_call c d
  | RSnapshotRestore w n e s => (SnapshotRestoreFunction w n e s d).2
  end.
Definition run_requests (rs : list request) (d : Db) : Db := foldl (λ d r, run_request r d) d rs.

Abbreviation RSnapshotCreate w n e m t := (RCall (CService (SSnapshotCreate w n e m t))).

Lemma run_request_grows r d : grows d (run_request r d).
Proof. destruct r; cbn [run_request]; [apply run_call_grows|apply grows_restore]. Qed.
Lemma run_requests_grows rs : ∀ d, grows d (run_requests rs d).
Proof. induction rs as [|r rs IH]; intros d; [done|]. etrans; [apply run_request_grows|apply IH]. Qed.

(** ** Reading an old commit *)

Lemma latest_rows_same {K A} `{Countable K} (t t' : gmap (K * Z) A) (b c : Z) :
  same_upto b t t' → c <= b → latest_rows t' c = latest_rows t c.
Proof. intros Ht Hc. apply map_eq. intros k. apply latest_rows_ext. intros c' Hc'. apply Ht. lia. Qed.

Lemma canonical_version_mono t t' inode fuel : t ⊆ t' → ∀ version v,
  canonical_version fuel inode version t = Some v → canonical_version fuel inode version t' = Some v.
Proof.
  intros Ht. induction fuel as [|fuel IH]; intros version v; cbn [canonical_version];
    destruct (t !! (inode, version)) as [row|] eqn:Hrow; [| done| |done];
    rewrite (lookup_weaken _ _ _ _ Hrow Ht); simpl; destruct (v_source row); try done. apply IH.
Qed.

Lemma resolve_canonical_grows d d' tree t : grows d d' →
  ResolveSnapshotCanonicalVersions tree d = Ok t → ResolveSnapshotCanonicalVersions tree d' = Ok t.
Proof.
  intros Hg. unfold ResolveSnapshotCanonicalVersions. cbv zeta. case_bool_decide as Hnone; [done|].
  destruct (forallb _ _) eqn:Hall; [|done]. intros [= <-]. rewrite forallb_forall in Hall.
  assert (Hsome : ∀ k n, tree !! k = Some n → has_content n = true → ∃ v,
    canonical_of d n = Some v ∧
    canonical_of d' n = Some v).
  { intros k n Hn Hc. specialize (Hall (k, n)). simpl in Hall. rewrite bool_decide_eq_true in Hall. destruct Hall as [v Hv].
    - apply list_elem_of_In, list_elem_of_filter. split; [done|by apply elem_of_map_to_list].
    - exists v. split; [done|]. revert Hv. apply canonical_version_mono, (gr_versions _ _ Hg). }
  rewrite (proj2 (forallb_forall _ _)).
  - f_equal. apply map_fmap_ext. intros k n Hn. destruct (has_content n) eqn:Hc; [|done].
    by destruct (Hsome k n Hn Hc) as (v & -> & ->).
  - intros [k n] [Hc Hn%elem_of_map_to_list]%list_elem_of_In%list_elem_of_filter. rewrite bool_decide_eq_true.
    destruct (Hsome k n Hn Hc) as (v & _ & ->). eauto.
Qed.

Lemma validate_grows w c d d' : grows d d' → ValidateHistoryCommit w c d = Ok () →
  ValidateHistoryCommit w c d' = Ok () ∧ c <= last_commit d.
Proof.
  intros Hg. unfold ValidateHistoryCommit. destruct (workspaces d !! ws_id w) as [row|] eqn:Hrow; [|done].
  destruct (commits d !! c) as [crow|] eqn:Hc; [|done]. rewrite (lookup_weaken _ _ _ _ Hc (gr_commits _ _ Hg)).
  destruct (negb _) eqn:Hw; [done|]. destruct (w_history_floor row) as [f|] eqn:Hf; simpl; [|done].
  destruct (gr_floor _ _ Hg _ _ _ Hrow Hf) as (row' & -> & ->). simpl. apply next_rowid_fresh in Hc. intros H. split; [done|].
  unfold last_commit. lia.
Qed.

Lemma tree_at_commit_grows w c d d' t : grows d d' → TreeAtCommit w c d = Ok t → TreeAtCommit w c d' = Ok t.
Proof.
  intros Hg. unfold TreeAtCommit. destruct (ValidateHistoryCommit w c d) as [[]|] eqn:Hv; [|done].
  destruct (validate_grows _ _ _ _ Hg Hv) as [-> Hc].
  assert (nodes_at (ws_id w) c d' = nodes_at (ws_id w) c d) as ->.
  { unfold nodes_at. by rewrite (latest_rows_same _ _ _ _ (gr_inodes _ _ Hg) Hc). }
  assert (entries_at (ws_id w) c d' = entries_at (ws_id w) c d) as ->.
  { unfold entries_at. by rewrite (latest_rows_same _ _ _ _ (gr_dentries _ _ Hg) Hc). }
  cbv zeta. case_bool_decide; [done|]. destruct (walk_tree _ _ _) as [found|]; [|done].
  destruct (ResolveSnapshotCanonicalVersions _ d) as [tree|] eqn:Hr; [|done].
  rewrite (resolve_canonical_grows _ _ _ _ Hg Hr). intros [= <-]. f_equal. apply map_fmap_ext. intros k n _.
  unfold acl_at, xattrs_at. by rewrite (latest_rows_same _ _ _ _ (gr_acl _ _ Hg) Hc), (latest_rows_same _ _ _ _ (gr_xattrs _ _ Hg) Hc).
Qed.
