(* ===== verification/VexfsTidy.v ===== *)
(** * Names and homes

    Two more invariants of the tree: every name is a component that [PathParts]
    accepts, and an entry leads to an inode of its own workspace. *)
From Stdlib Require Import ZArith Lia String.
From stdpp Require Import prelude gmap.
From S2P Require Import Prelude Sha256 VexfsText VexfsTextFacts VexfsDb VexfsTree VexfsStore VexfsGrepIndex VexfsStaging VexfsHandles VexfsNames VexfsMetadata VexfsHistory VexfsSnapshots VexfsRetention VexfsSessions VexfsFrame VexfsService VexfsForest VexfsForestOps VexfsForestTop.

Local Open Scope Z_scope.
Implicit Types d : Db.

Definition home (d : Db) (i : Z) : option Z := i_workspace <$> inodes d !! i.

Record tidy (d : Db) : Prop := {
  td_home : ∀ ws p n i, dentries d !! (ws, p, n) = Some i → home d i = Some ws;
  td_name : ∀ ws p n i, dentries d !! (ws, p, n) = Some i → valid_part n;
  td_root : ∀ ws row i, workspaces d !! ws = Some row → w_root_inode row = Some i → home d i = Some ws;
}.

(** Inodes never change their workspace. *)
Definition homes (d d' : Db) : Prop := ∀ i ws, home d i = Some ws → home d' i = Some ws.
Definition tidy_rel (d d' : Db) : Prop := tidy d → tidy d' ∧ homes d d'.

#[export] Instance tidy_rel_preorder : PreOrder tidy_rel.
Proof.
  split; [intros d Ht; by split; [|intros i ws]|]. intros d1 d2 d3 H1 H2 Ht. destruct (H1 Ht) as [T1 K1]. destruct (H2 T1) as [T2 K2]. split; [done|].
  by intros i ws ?%K1%K2.
Qed.

(** Steps that leave entries and roots, and the workspaces of inodes. *)
Lemma tidy_keep d d' : dentries d' = dentries d → (∀ i, home d' i = home d i) →
  (∀ ws, w_root_inode <$> workspaces d' !! ws = w_root_inode <$> workspaces d !! ws) → tidy_rel d d'.
Proof.
  intros D H R [Hh Hn Hr]. split; [|intros i ws; by rewrite H]. split; rewrite ?D.
  - intros. rewrite H. by eapply Hh.
  - done.
  - intros ws row i Hrow Hi. specialize (R ws). rewrite Hrow in R. destruct (workspaces d !! ws) as [row0|] eqn:E; [|done].
    injection R as R. rewrite H. eapply Hr; [done|congruence].
Qed.

#[export] Instance tidy_frame : Frame tidy_rel.
Proof.
  split; [apply _|]. intros d d' [I D _ _ _ W _]. apply tidy_keep; [done|intros i; unfold home; by rewrite I|].
  intros ws. specialize (W ws). destruct (workspaces d' !! ws), (workspaces d !! ws); try done.
  apply (inj Some) in W. simpl. by injection W as _ _ -> _ _ _ _ _ _.
Qed.

Abbreviation tidying := (frames tidy_rel).
Ltac tidying := repeat (cbv zeta; frames_step ltac:(by apply tidy_keep)).

(** ** Rows *)

Lemma tidy_update_inode id old new d :
  inodes d !! id = Some old → i_workspace new = i_workspace old → tidy_rel d (update_inode id old new d).2.
Proof.
  intros Hid Hw. unfold update_inode. set (d1 := dirty_inode (i_workspace new) id (on_inodes (insert id new) d)). trans d1.
  - apply tidy_keep; [done| |done]. intros i. unfold home. simpl. destruct (decide (id = i)) as [<-|].
    + rewrite lookup_insert_eq, Hid. simpl. by rewrite Hw.
    + by rewrite lookup_insert_ne.
  - change (tidy_rel d1 ((count_live (i_workspace old) (- count_files old) (- count_bytes old) ≫= λ _,
      count_live (i_workspace new) (count_files new) (count_bytes new)) d1).2).
    apply frames_bind; intros; apply frames_count_live.
Qed.

Ltac tidying_at := apply frames_with_db_at; intros d; destruct (inodes d !! _) as [r|] eqn:Hr; [|done].

Lemma tidy_touch ws inode : tidying (TouchDirectory ws inode).
Proof. unfold TouchDirectory. tidying_at. case_match; [|done]. by apply tidy_update_inode. Qed.
Lemma tidy_advance inode old size version : tidying (advance_inode inode old size version).
Proof. unfold advance_inode. tidying_at. case_match; [|done]. by apply tidy_update_inode. Qed.
Lemma tidy_update_owner ws inode uid gid : tidying (update_owner ws inode uid gid).
Proof. unfold update_owner. tidying_at. case_match; [|done]. by apply tidy_update_inode. Qed.
Lemma tidy_tombstone_rows ws ids : tidying (tombstone_rows ws ids).
Proof.
  induction ids as [|id ids IH]; cbn [tombstone_rows]; [apply frames_ret|]. apply frames_bind; [|done].
  tidying_at. case_match; [|done]. by apply tidy_update_inode.
Qed.
#[export] Hint Resolve tidy_touch tidy_advance tidy_update_owner tidy_tombstone_rows : frame.
Lemma tidy_tombstone_unreferenced ws inode : tidying (TombstoneIfUnreferenced ws inode).
Proof.
  unfold TombstoneIfUnreferenced. apply frames_bind; [|auto with frame]. tidying_at. case_match; [|done].
  unfold Savepoint. pose proof (tidy_update_inode inode r (set_tombstone (clock_seconds d) r) d Hr eq_refl) as Hq.
  by destruct (update_inode _ _ _ d) as [[] ?].
Qed.
#[export] Hint Resolve tidy_tombstone_unreferenced : frame.
Lemma tidy_drop_node ws node : tidying (drop_node ws node).
Proof. unfold drop_node, TombstoneTree. tidying. Qed.
#[export] Hint Resolve tidy_drop_node : frame.

Lemma tidy_delete_dentry w p n : tidying (delete_dentry w p n).
Proof.
  unfold delete_dentry. apply frames_with_db_at. intros d. destruct (dentries d !! _) as [i|]; [|done].
  intros [Hh Hn Hr]. split; [|by intros x y]. split; [..|done]; simpl; intros ws p' n' i' [_ H]%lookup_delete_Some; [by eapply Hh|by eapply Hn].
Qed.
Lemma tidy_move_dentry w p n p' n' : valid_part n' → tidying (move_dentry w p n p' n').
Proof.
  intros Hv. unfold move_dentry. apply frames_with_db_at. intros d. destruct (dentries d !! _) as [i|] eqn:Hi; [|done].
  destruct (_ && _); [done|]. intros [Hh Hn Hr]. split; [|by intros x y].
  split; [..|done]; simpl; intros ws q m j [[[= <- <- <-] <-]|[_ [_ H]%lookup_delete_Some]]%lookup_insert_Some;
    [by eapply Hh|by eapply Hh|done|by eapply Hn].
Qed.
Lemma tidy_insert_dentry w p n i d : valid_part n → home d i = Some w → tidy_rel d (insert_dentry w p n i d).2.
Proof.
  intros Hv Hi. unfold insert_dentry, with_db. destruct (dentries d !! (w, p, n)); [done|]. intros [Hh Hn Hr]. split; [|by intros x y].
  split; [..|done]; simpl; intros ws q m j [[[= <- <- <-] <-]|[_ H]]%lookup_insert_Some; [done|by eapply Hh|done|by eapply Hn].
Qed.
#[export] Hint Resolve tidy_delete_dentry tidy_move_dentry : frame.

Lemma tidy_insert_inode r d : tidy d → let run := insert_inode r d in
  (tidy run.2 ∧ homes d run.2) ∧ match run.1 with Ok id => home run.2 id = Some (i_workspace r) | Throw _ => True end.
Proof.
  intros Ht. unfold insert_inode, with_db. cbv zeta. set (id := next_rowid (inodes d)).
  set (rest := modify (dirty_inode (i_workspace r) id) ≫= λ _,
    (if counts r then count_live (i_workspace r) 1 (i_size r) else mret ()) ≫= λ _, mret id).
  set (d1 := on_inodes (insert id r) d). erewrite bind_eval by reflexivity. fold d1. fold rest.
  assert (Hnone : inodes d !! id = None) by (apply next_rowid_none; lia).
  assert (Hold : homes d d1).
  { intros i ws. unfold home. simpl. destruct (decide (id = i)) as [<-|]; [by rewrite Hnone|by rewrite lookup_insert_ne]. }
  assert (H1 : tidy d1). { destruct Ht as [Hh Hn Hr]. split; [|done|]; intros; eapply Hold; eauto. }
  assert (Hrest : tidying rest) by (unfold rest; tidying). destruct (Hrest d1 H1) as [H2 Hhome].
  split; [split; [done|]; by intros i ws ?%Hold%Hhome|]. destruct (rest d1) as [[x|] d2] eqn:E; [|done]. simpl in *.
  assert (x = id) as ->. { do 2 apply bind_ok in E as (? & ? & _ & E). by apply ret_ok in E as [-> _]. }
  apply Hhome. unfold home. simpl. by rewrite lookup_insert_eq.
Qed.

(** ** Creating entries *)

Lemma tidy_commit_in_transaction w message : tidying (CreateCommitInTransaction w message).
Proof.
  unfold CreateCommitInTransaction, FlushHistoryChanges. tidying. apply frames_modify. intros d'.
  apply tidy_keep; [done|done|]. intros ws. simpl. rewrite lookup_alter. case_decide; subst; [|done]. by destruct (workspaces d' !! _).
Qed.
#[export] Hint Resolve tidy_commit_in_transaction : frame.
Lemma tidy_commit w message : tidying (CreateCommit w message).
Proof. unfold CreateCommit. tidying. Qed.
#[export] Hint Resolve tidy_commit : frame.

(** [makes ws m]: the inode that [m] returns is one of the workspace [ws]. *)
Definition makes (ws : Z) (m : M Z) : Prop := tidying m ∧ ∀ d id d', tidy d → m d = (Ok id, d') → home d' id = Some ws.

Lemma create_inode_makes uid gid ws kind mode : makes ws (CreateInode uid gid ws kind mode).
Proof.
  unfold CreateInode. split.
  - apply frames_bind; [auto with frame|intros _]. apply frames_with_db_at. intros d Ht. by apply tidy_insert_inode.
  - intros d id d' Ht Hrun. apply bind_ok in Hrun as (? & ? & [_ ->]%query_ok & Hrun). unfold with_db in Hrun.
    pose proof (tidy_insert_inode (new_inode_row uid gid ws kind mode (clock_seconds d)) d Ht) as [_ H]. by rewrite Hrun in H.
Qed.

Lemma tidy_add_dentry ws parent name inode d : valid_part name → home d inode = Some ws →
  tidy_rel d (AddDentry ws parent name inode d).2.
Proof.
  intros Hv Hi. unfold AddDentry, mbind, M_bind. pose proof (tidy_insert_dentry ws parent name inode d Hv Hi) as H1.
  destruct (insert_dentry ws parent name inode d) as [[]  d1]; [|done]. simpl in *. etrans; [done|].
  change (tidy_rel d1 ((modify (inherit_acl ws parent inode) ≫= λ _, TouchDirectory ws parent) d1).2).
  revert d1 H1. enough (H : tidying (modify (inherit_acl ws parent inode) ≫= λ _, TouchDirectory ws parent)) by (intros; apply H).
  tidying.
Qed.

Lemma tidy_entry {A} ws parent name (m : M Z) (f : Z → M ()) (k : Z → M A) : valid_part name → makes ws m → (∀ i, tidying (f i)) →
  (∀ i, tidying (k i)) → tidying (id ← m; f id;; AddDentry ws parent name id;; k id).
Proof.
  intros Hv [Hm Hhome] Hf Hk d Ht. pose proof (Hm d Ht) as [Ht1 _]. pose proof (λ id d', Hhome d id d' Ht) as Hid. revert Ht.
  match goal with |- _ → tidy (?m d).2 ∧ _ => change (tidy_rel d (m d).2) end. apply frames_bind_at; [apply Hm|].
  intros id d1 E. apply frames_bind_at; [apply Hf|]. intros [] d2 E2. apply frames_bind_at; [|intros; apply Hk].
  apply tidy_add_dentry; [done|]. pose proof (Hf id d1) as H. rewrite E2 in H. rewrite E in Ht1. apply H; [done|]. by apply Hid.
Qed.

Lemma tidy_create_entry uid gid w parent name kind mode : valid_part name → tidying (create_entry uid gid w parent name kind mode).
Proof.
  intros Hv d. pose proof (tidy_entry (ws_id w) (n_id parent) name (CreateInode uid gid (ws_id w) kind mode) (λ _, mret ())
    (λ id, mret (fresh_node id kind mode)) Hv (create_inode_makes _ _ _ _ _) (λ _, frames_ret _) (λ _, frames_ret _) d) as H.
  revert H. unfold create_entry, mbind, M_bind. by destruct (CreateInode _ _ _ _ _ d) as [[] ?].
Qed.
#[export] Hint Resolve tidy_create_entry : frame.

(** ** The functions *)

(** What a query or a conversion returned may be used in the rest. *)
Lemma frames_query_bind {A B} (R : relation Db) `{!Frame R} (f : Db → sql A) (k : A → M B) :
  (∀ d a, f d = Ok a → R d (k a d).2) → frames R (query f ≫= k).
Proof. intros Hk d. unfold mbind, M_bind, query. destruct (f d) as [a|] eqn:E; [by apply Hk|done]. Qed.
Lemma frames_lift_bind {A B} (R : relation Db) `{!Frame R} (r : sql A) (k : A → M B) :
  (∀ a, r = Ok a → frames R (k a)) → frames R (lift r ≫= k).
Proof. intros Hk d. unfold mbind, M_bind, lift. destruct r as [a|]; [by apply Hk|done]. Qed.

Lemma resolve_parent_name w parts d parent name : Forall valid_part parts → ResolveParent w parts d = Ok (parent, name) → valid_part name.
Proof.
  intros Hv. unfold ResolveParent. destruct (last parts) as [n|] eqn:Hl; [|done]. destruct (Resolve _ _ d); [|done].
  destruct (negb _); [done|]. intros [= _ <-]. rewrite Forall_forall in Hv. apply Hv. by apply last_Some_elem_of in Hl.
Qed.

Lemma new_path_inv w parts d parent name d' : new_path w parts d = (Ok (parent, name), d') →
  ResolveParent w parts d = Ok (parent, name) ∧ d' = d.
Proof.
  intros Hrun. unfold new_path in Hrun. apply bind_ok in Hrun as ([p n] & ? & [Hr ->]%query_ok & Hrun).
  apply bind_ok in Hrun as (? & ? & [_ ->]%query_ok & Hrun). apply bind_ok in Hrun as (? & ? & [_ ->]%throw_if_ok & [-> ->]%ret_ok).
  done.
Qed.

(** The continuation of a path that must be new. *)
Lemma tidy_new_path {A} w parts (k : Node * bytes → M A) : Forall valid_part parts →
  (∀ parent name, valid_part name → tidying (k (parent, name))) → tidying ('(parent, name) ← new_path w parts; k (parent, name)).
Proof.
  intros Hv Hk d. unfold mbind, M_bind. assert (Hn : tidying (new_path w parts)) by (unfold new_path; tidying). specialize (Hn d).
  destruct (new_path w parts d) as [[[parent name]|] d'] eqn:E; [|done]. apply new_path_inv in E as [Hr ->].
  eapply Hk, resolve_parent_name; [done|exact Hr].
Qed.

Lemma tidy_publish_version w node size commit store :
  tidying commit → tidying store → tidying (publish_version w node size commit store).
Proof. intros. unfold publish_version. tidying. Qed.
#[export] Hint Resolve tidy_publish_version : frame.
Lemma tidy_store_version w node content message : tidying (StoreVersion w node content message).
Proof. unfold StoreVersion. tidying. Qed.
Lemma tidy_restore_version w node source message : tidying (StoreVersionFromVersion w node source message).
Proof. unfold StoreVersionFromVersion. tidying. Qed.
Lemma tidy_publish_in_transaction handle generation owned : tidying (PublishHandleInTransaction handle generation owned).
Proof.
  unfold PublishHandleInTransaction, StoreVersionFromStaging, StoreManifestFromStaging, insert_manifest, finalize_manifest.
  tidying; apply tidy_publish_version; tidying.
Qed.
#[export] Hint Resolve tidy_store_version tidy_restore_version tidy_publish_in_transaction : frame.

(** The arguments of a function, with its paths split into valid parts. *)
Ltac tidying_bind := apply frames_lift_bind; [apply _|intros ? ?].
Ltac tidying_args := repeat first
  [ tidying_bind | apply frames_bind; [solve [auto with frame]|intros ?]
  | progress cbv zeta
  | match goal with H : PathParts _ = Ok _ |- _ => apply path_parts_valid in H end ].

Ltac cached := match goal with |- frames _ (match ?x with _ => _ end) => destruct x end; try solve [auto with frame].

Lemma tidy_rename workspace source destination replace : tidying (RenameFunction workspace source destination replace).
Proof.
  unfold RenameFunction. tidying_bind. apply frames_bind; [auto with frame|intros w]. tidying_bind. tidying_bind. tidying_bind.
  apply frames_lift_bind; [apply _|intros parts Hparts%path_parts_valid]. apply frames_bind; [auto with frame|intros _].
  destruct (bool_decide _); [auto with frame|]. apply frames_bind; [auto with frame|intros _].
  apply frames_bind; [auto with frame|intros [sp sn]]. apply frames_bind; [auto with frame|]. intros [src|]; [|auto with frame].
  apply frames_query_bind; [apply _|]. intros d [dp dn] Hr%resolve_parent_name; [|done].
  apply (frames_bind (R := tidy_rel)); [auto with frame|]. intros existing. apply frames_bind; [tidying|intros _].
  apply frames_bind; [by apply tidy_move_dentry|intros _]. tidying.
Qed.

Lemma tidy_remove workspace path recursive : tidying (RemoveFunction workspace path recursive).
Proof. unfold RemoveFunction. tidying. Qed.

Lemma tidy_mkdir_loop uid gid w parts : Forall valid_part parts → ∀ current changed, tidying (mkdir_loop uid gid w current parts changed).
Proof. induction 1; intros; cbn [mkdir_loop]; tidying. Qed.
#[export] Hint Resolve tidy_mkdir_loop : frame.
Lemma tidy_mkdir uid gid workspace path : tidying (MkdirFunction uid gid workspace path).
Proof. unfold MkdirFunction. tidying_args. tidying. Qed.

Lemma tidy_create uid gid workspace path kind mode : tidying (CreateFunction uid gid workspace path kind mode).
Proof.
  unfold CreateFunction. tidying_args. destruct (create_kind _) as [k|]; [|auto with frame]. apply frames_savepoint.
  apply frames_bind; [auto with frame|intros _].
  apply (tidy_new_path _ _ (λ '(parent, name), _ ≫= _)); [done|]. intros. tidying.
Qed.
Lemma tidy_symlink uid gid workspace path target : tidying (SymlinkFunction uid gid workspace path target).
Proof.
  unfold SymlinkFunction. tidying_args. apply frames_savepoint. apply frames_bind; [auto with frame|intros _].
  apply (tidy_new_path _ _ (λ '(parent, name), _ ≫= _)); [done|]. intros. tidying.
Qed.

Lemma tidy_write_path uid gid w parts content message : Forall valid_part parts → tidying (WritePath uid gid w parts content message).
Proof.
  intros Hv. unfold WritePath. apply frames_savepoint. apply frames_bind; [auto with frame|intros _].
  apply frames_query_bind; [apply _|]. intros d [parent name] Hr%resolve_parent_name; [|done]. revert d.
  change (tidying (child ← query (λ d, Ok (FindChild (ws_id w) (n_id parent) name d));
    node ← (match child with None => create_entry uid gid w parent name KFile 420 | Some node => mret node end);
    throw_if (negb (bool_decide (n_kind node = KFile))) SQLITE_MISMATCH;; StoreVersion w node content message)).
  tidying.
Qed.
#[export] Hint Resolve tidy_write_path : frame.
Lemma tidy_write uid gid workspace path content : tidying (WriteFunction uid gid workspace path content).
Proof. unfold WriteFunction. tidying_args. tidying. Qed.
Lemma tidy_append workspace inode content : tidying (AppendFunction workspace inode content).
Proof. unfold AppendFunction. tidying. Qed.
Lemma tidy_restore_function workspace path target expected : tidying (RestoreVersionFunction workspace path target expected).
Proof. unfold RestoreVersionFunction. tidying. Qed.
Lemma tidy_handle_open uid gid handle_id workspace path flags request session :
  tidying (HandleOpenFunction uid gid handle_id workspace path flags request session).
Proof. unfold HandleOpenFunction, open_node. tidying_args. cached; tidying_args; tidying. Qed.

Lemma tidy_handle_create uid gid handle_id workspace path mode owner request session :
  tidying (HandleCreateFunction uid gid handle_id workspace path mode owner request session).
Proof.
  unfold HandleCreateFunction. tidying_args. cached; tidying_args; apply frames_savepoint; (apply frames_bind; [auto with frame|intros _]);
    apply (tidy_new_path _ _ (λ '(parent, name), _ ≫= _)); (done || intros); 
    apply (tidy_entry _ _ _ _ (λ inode, if owner is Some _ then update_owner _ inode _ _ else mret ()));
    first [done | apply create_inode_makes | intros; tidying].
Qed.

(** The source of a hard link is found through an entry of the workspace. *)
Lemma resolve_home w parts d node : tidy d → Resolve w parts d = Ok node → home d (n_id node) = Some (ws_id w).
Proof.
  intros Ht Hr. destruct parts as [|n parts _] using rev_ind.
  - unfold Resolve, TryResolve in Hr. destruct (RootNode w d) as [root|] eqn:Hroot; [|done]. injection Hr as <-.
    apply root_node_inv in Hroot as (-> & r & Hr & _ & Hw & _). unfold home. rewrite Hr. simpl. by rewrite Hw.
  - apply resolve_walk in Hr as [(q & _ & Hq)%walk_snoc_inv _]. by eapply td_home.
Qed.

Lemma tidy_hardlink workspace source destination : tidying (HardlinkFunction workspace source destination).
Proof.
  unfold HardlinkFunction. tidying_bind. apply frames_bind; [auto with frame|intros w]. tidying_bind. tidying_bind. tidying_bind.
  apply frames_lift_bind; [apply _|intros parts Hparts%path_parts_valid]. apply frames_bind; [auto with frame|intros _].
  apply frames_savepoint. apply frames_bind; [auto with frame|intros _]. apply frames_query_bind; [apply _|]. intros d node Hnode.
  intros Ht. pose proof (resolve_home _ _ _ _ Ht Hnode) as Hhome. revert Ht.
  match goal with |- _ → tidy (?m d).2 ∧ _ => change (tidy_rel d (m d).2) end. apply frames_bind_at; [apply frames_throw_if|].
  intros _ ? [_ ->]%throw_if_ok. apply frames_bind_at; [revert d Hnode Hhome; enough (Hq : tidying (new_path w parts)) by done; unfold new_path; tidying|].
  intros [parent name] ? [Hr%resolve_parent_name ->]%new_path_inv; [|done]. apply frames_bind_at; [by apply tidy_add_dentry|].
  intros _ d' _. revert d'. enough (Hq : tidying (CreateCommit w (str "create hard link") ≫= λ _, mret (n_id node))) by done. tidying.
Qed.

Lemma tidy_insert_workspace name : tidying (insert_workspace name).
Proof.
  unfold insert_workspace. apply frames_with_db_at. intros d. destruct (existsb _ _); [done|].
  intros [Hh Hn Hr]. split; [|by intros x y]. split; [done|done|]. simpl. intros ws row i [[<- <-]|[_ Hrow]]%lookup_insert_Some Hi; [done|].
  by eapply Hr.
Qed.
Lemma tidy_set_root root ws d : home d root = Some ws → tidy_rel d (on_workspaces (alter (set_root root) ws) d).
Proof.
  intros Hroot [Hh Hn Hr]. split; [|by intros x y]. split; [done|done|]. simpl. intros v row i Hrow Hi.
  apply lookup_alter_Some in Hrow as [(<- & row0 & _ & ->)|[_ Hrow]]; [by injection Hi as <-|by eapply Hr].
Qed.
Lemma tidy_workspace_create uid gid workspace : tidying (WorkspaceCreateFunction uid gid workspace).
Proof.
  unfold WorkspaceCreateFunction. do 2 (apply frames_bind; [auto with frame|intros ?]). apply frames_with_db. intros d0.
  destruct (FindWorkspace _ d0); [auto with frame|]. apply frames_bind; [apply tidy_insert_workspace|intros ws].
  destruct (create_inode_makes uid gid ws KDirectory 493) as [Hm Hhome]. intros d Ht. pose proof (λ id d', Hhome d id d' Ht) as Hid. revert Ht.
  match goal with |- _ → tidy (?m d).2 ∧ _ => change (tidy_rel d (m d).2) end. apply frames_bind_at; [apply Hm|].
  intros root d1 E%Hid. apply frames_bind_at; [by apply tidy_set_root|]. intros _ d2 _. revert d2.
  match goal with |- ∀ d2, tidy_rel d2 (?m d2).2 => change (tidying m) end. unfold insert_acl. tidying.
Qed.

Lemma tidy_replayed request operation fingerprint work : tidying work → tidying (replayed request operation fingerprint work).
Proof. intros. unfold replayed. tidying. Qed.
Ltac tidying_function := repeat first [progress tidying | apply tidy_replayed].

#[export] Instance tidy_service : ServiceFrame tidy_rel.
Proof.
  split; try solve [intros; auto with frame | intros; by apply tidy_keep].
  - intros id r new d Hr [= Hw _ _]. by apply tidy_update_inode.
  - intros f ws d Hf. apply tidy_keep; [done|done|]. intros v. simpl. rewrite lookup_alter. case_decide; subst; [|done].
    destruct (workspaces d !! v) as [row|]; [|done]. simpl. f_equal. by injection (Hf row).
Qed.

Lemma run_call_tidy c d : tidy_rel d (run_call c d).
Proof.
  assert (Hrun : ∀ A (m : M A), tidying m → tidy_rel d (m d).2) by (intros A m Hm; apply Hm).
  destruct c; cbn [run_call]; try apply Hrun.
  1-12: eauto using tidy_workspace_create, tidy_mkdir, tidy_create, tidy_symlink, tidy_hardlink, tidy_write, tidy_append,
    tidy_restore_function, tidy_rename, tidy_remove, tidy_handle_create, tidy_handle_open.
  1-6: unfold HandleStageWriteFunction, HandleAppendFunction, HandleTruncateFunction, HandlePublishFunction, PublishHandle,
    HandlePublishCloseFunction, HandleCloseFunction; tidying_function.
  - apply frames_enable_index.
  - apply frames_disable_index.
  - apply run_service_frames.
  - by apply tidy_keep.
Qed.

Lemma empty_tidy now : tidy (empty_db now).
Proof. by split. Qed.
