(* ===== verification/VexfsOrder.v ===== *)
(** * The order of paths

    Paths, names and principals are ordered byte by byte ([COLLATE BINARY] and
    [std::string]). *)
From Stdlib Require Import ZArith Lia String.
From stdpp Require Import prelude gmap sorting.
From S2P Require Import Prelude Sha256 VexfsText VexfsDb VexfsTree VexfsHistory.

Local Open Scope Z_scope.

Lemma bytes_ltb_irrefl x : bytes_ltb x x = false.
Proof. induction x as [|a x IH]; [done|]. simpl. by rewrite Z.ltb_irrefl, Z.eqb_refl, IH. Qed.

Lemma bytes_ltb_cons a x b y : bytes_ltb (a :: x) (b :: y) = true ↔ a < b ∨ a = b ∧ bytes_ltb x y = true.
Proof. simpl. rewrite orb_true_iff, andb_true_iff, Z.ltb_lt, Z.eqb_eq. done. Qed.

Lemma bytes_ltb_trans x : ∀ y z, bytes_ltb x y = true → bytes_ltb y z = true → bytes_ltb x z = true.
Proof.
  induction x as [|a x IH]; intros [|b y] [|c z]; try done. rewrite !bytes_ltb_cons.
  intros [Hab|[-> Hxy]] [Hbc|[-> Hyz]]; [left; lia|by left|by left|right; split; [done|by eapply IH]].
Qed.

Lemma bytes_ltb_total x : ∀ y, bytes_ltb x y = true ∨ x = y ∨ bytes_ltb y x = true.
Proof.
  induction x as [|a x IH]; intros [|b y]; [by right; left|by left|by right; right|]. rewrite !bytes_ltb_cons.
  destruct (Z.lt_total a b) as [?|[->|?]]; [by left; left| |by right; right; left].
  destruct (IH y) as [?|[->|?]]; [by left; right|by right; left|by right; right; right].
Qed.

Lemma bytes_ltb_asym x y : bytes_ltb x y = true → bytes_ltb y x = false.
Proof.
  intros Hxy. apply not_true_iff_false. intros Hyx. pose proof (bytes_ltb_trans _ _ _ Hxy Hyx) as H. by rewrite bytes_ltb_irrefl in H.
Qed.

Lemma bytes_le_iff x y : bytes_le x y ↔ bytes_ltb x y = true ∨ x = y.
Proof.
  unfold bytes_le. destruct (bytes_ltb_total x y) as [H|[->|H]].
  - rewrite (bytes_ltb_asym _ _ H). tauto.
  - rewrite bytes_ltb_irrefl. tauto.
  - rewrite H. split; [done|]. intros [Hx| ->]; [|by rewrite bytes_ltb_irrefl in H]. by rewrite (bytes_ltb_asym _ _ Hx) in H.
Qed.

#[export] Instance bytes_le_total : Total bytes_le.
Proof. intros x y. rewrite !bytes_le_iff. destruct (bytes_ltb_total x y) as [?|[->|?]]; tauto. Qed.
#[export] Instance bytes_le_trans : Transitive bytes_le.
Proof. intros x y z. rewrite !bytes_le_iff. intros [H1| ->] [H2| ->]; try tauto. left. by eapply bytes_ltb_trans. Qed.
#[export] Instance bytes_le_antisymm : AntiSymm (=) bytes_le.
Proof.
  intros x y. rewrite !bytes_le_iff. intros [H1| ->] [H2|H2]; try done. by rewrite (bytes_ltb_asym _ _ H1) in H2.
Qed.

(** ** Entries of a map *)

#[export] Instance key_le_total {A} : Total (@key_le A).
Proof. intros x y. apply (total bytes_le). Qed.
#[export] Instance key_le_trans {A} : Transitive (@key_le A).
Proof. intros x y z. apply (transitivity (R := bytes_le)). Qed.

Lemma elem_of_map_entries {A} (t : gmap bytes A) k a : (k, a) ∈ entries t ↔ t !! k = Some a.
Proof. unfold entries. rewrite merge_sort_Permutation. apply elem_of_map_to_list. Qed.

Lemma entries_sorted {A} (t : gmap bytes A) : StronglySorted (λ x y, bytes_ltb x.1 y.1 = true) (entries t).
Proof.
  assert (Hnd : NoDup (entries t).*1). { unfold entries. rewrite merge_sort_Permutation. apply NoDup_fst_map_to_list. }
  pose proof (StronglySorted_merge_sort key_le (map_to_list t)) as Hs. fold (entries t) in Hs. revert Hnd.
  induction Hs as [|x l _ IH Hx]; intros Hnd; [constructor|]. apply NoDup_cons in Hnd as [Hnot Hnd]. constructor; [by apply IH|].
  rewrite Forall_forall in *. intros y Hy. destruct (proj1 (bytes_le_iff x.1 y.1) (Hx y Hy)) as [?|E]; [done|].
  destruct Hnot. rewrite E. by apply list_elem_of_fmap_2.
Qed.

(** ** Access control lists *)

Lemma acl_le_iff x y : acl_le x y ↔ bytes_ltb (a_principal x) (a_principal y) = true ∨
  a_principal x = a_principal y ∧ effect_rank (a_effect x) <= effect_rank (a_effect y).
Proof. unfold acl_le. rewrite orb_true_iff, andb_true_iff, bool_decide_eq_true, Z.leb_le. done. Qed.

#[export] Instance acl_le_total : Total acl_le.
Proof.
  intros x y. rewrite !acl_le_iff. destruct (bytes_ltb_total (a_principal x) (a_principal y)) as [?|[E|?]]; [tauto| |tauto].
  destruct (Z.le_gt_cases (effect_rank (a_effect x)) (effect_rank (a_effect y))); [left|right]; right; (split; [done|lia]).
Qed.
#[export] Instance acl_le_trans : Transitive acl_le.
Proof.
  intros x y z. rewrite !acl_le_iff. intros [H1|[E1 H1]] [H2|[E2 H2]].
  - left. by eapply bytes_ltb_trans.
  - left. by rewrite <- E2.
  - left. by rewrite E1.
  - right. split; [congruence|lia].
Qed.

(** The order of the rows does not matter when no two have principal and effect in
    common. *)
Lemma acl_list_perm rows rows' : NoDup (rows.*1) → rows ≡ₚ rows' → acl_list rows = acl_list rows'.
Proof.
  intros Hnd Hperm. unfold acl_list. set (f := λ '(p, e, (permissions, inherit)), mkAclEntry p e permissions inherit).
  apply (StronglySorted_unique_strong acl_le); [|apply StronglySorted_merge_sort; apply _..|].
  - intros x y. rewrite !merge_sort_Permutation, !list_elem_of_fmap. intros ([[p e] [a i]] & -> & Hx) ([[q g] [b j]] & -> & Hy).
    rewrite <- Hperm in Hy. rewrite !acl_le_iff. simpl. intros H1 H2.
    assert (p = q ∧ e = g) as [<- <-].
    { assert (p = q) as <-.
      { destruct H1 as [H1|[? _]]; [|done]. destruct H2 as [H2|[? _]]; [|done]. by rewrite (bytes_ltb_asym _ _ H1) in H2. }
      split; [done|]. rewrite bytes_ltb_irrefl in H1, H2. destruct H1 as [|[_ H1]], H2 as [|[_ H2]]; try done. destruct e, g; simpl in *; done || lia. }
    assert ((p, e, (a, i)) = (p, e, (b, j))) as E; [|by injection E as <- <-].
    apply (elem_of_list_to_map (M := gmap (bytes * AclEffect))) in Hx, Hy; [|done..]. rewrite Hx in Hy. by injection Hy as <- <-.
  - rewrite !merge_sort_Permutation. by rewrite Hperm.
Qed.
