(* ===== verification/VexfsTreeWalk.v ===== *)
(** * What the two walks of a tree find

    The queue of [TreeAtCommit] and the recursive query of [CurrentTree] both find
    every path from the root that leads through live inodes, once. *)
From Stdlib Require Import ZArith Lia String.
From stdpp Require Import prelude gmap sorting.
From S2P Require Import Prelude Sha256 VexfsText VexfsTextFacts VexfsDb VexfsTree VexfsStore VexfsNames VexfsHistory.

Local Open Scope Z_scope.

(** ** Paths *)

Lemma canonical_app ns ms : ns ≠ [] → CanonicalPath (ns ++ ms) = CanonicalPath ns ++ printed ms.
Proof.
  destruct ns as [|n ns]; [done|]. intros _. change ((n :: ns) ++ ms) with (n :: (ns ++ ms)). rewrite !canonical_cons, bind_app.
  simpl. by rewrite (assoc_L app).
Qed.

Lemma canonical_snoc ns n : Forall valid_part ns → CanonicalPath (ns ++ [n]) = child_path (CanonicalPath ns) n.
Proof.
  intros Hv. unfold child_path. destruct ns as [|m ns]; [simpl (_ ++ _); rewrite canonical_cons, bool_decide_eq_true_2 by done; simpl; by rewrite app_nil_r|].
  rewrite canonical_app by done. rewrite bool_decide_eq_false_2.
  - simpl. by rewrite app_nil_r.
  - rewrite canonical_cons. intros [= E]. apply Forall_cons in Hv as [Hm _]. apply (vp_nonempty _ Hm). by destruct m.
Qed.

Lemma canonical_inj ns ms : Forall valid_part ns → Forall valid_part ms → CanonicalPath ns = CanonicalPath ms → ns = ms.
Proof.
  intros Hn Hm E. apply path_parts_canonical in Hn, Hm. congruence.
Qed.

(** ** Lists *)

Lemma nodup_omap {A B} (f : A → option B) l : (∀ x x' y, f x = Some y → f x' = Some y → x = x') → NoDup l → NoDup (omap f l).
Proof.
  intros Hf. induction 1 as [|x l Hx _ IH]; [constructor|]. simpl. destruct (f x) as [y|] eqn:E; [|done]. constructor; [|done].
  intros (x' & Hx' & Hy)%list_elem_of_omap. by rewrite (Hf x x' y E Hy) in Hx.
Qed.

Lemma injective_length {A B} (R : A → B → Prop) (l : list A) : ∀ r : list B, NoDup l → (∀ x, x ∈ l → ∃ y, y ∈ r ∧ R x y) →
  (∀ x x' y, x ∈ l → x' ∈ l → R x y → R x' y → x = x') → (length l ≤ length r)%nat.
Proof.
  induction l as [|x l IH]; intros r Hnd Hr Hinj; [simpl; lia|]. apply NoDup_cons in Hnd as [Hx Hnd].
  destruct (Hr x ltac:(left)) as (y & Hy & HR). apply list_elem_of_split in Hy as (r1 & r2 & ->).
  rewrite length_app. simpl. enough (length l ≤ length (r1 ++ r2))%nat by (rewrite length_app in *; lia).
  apply IH; [done| |].
  - intros x' Hx'. destruct (Hr x' ltac:(by right)) as (y' & Hy' & HR'). exists y'. split; [|done].
    assert (y' ≠ y). { intros ->. rewrite (Hinj x x' y) in Hx; [done|left|by right|done|done]. } set_solver.
  - intros x1 x2 y' H1 H2. apply Hinj; by right.
Qed.

(** ** Reachable inodes *)

Section Walk.

Context (root : Z) (nodes : gmap Z inode_row) (rows : list (Z * bytes * Z)).

Inductive reach : list bytes → Z → Prop :=
| reach_root : is_Some (nodes !! root) → reach [] root
| reach_step ns p n i : reach ns p → (p, n, i) ∈ rows → is_Some (nodes !! i) → reach (ns ++ [n]) i.

Lemma reach_nil i : reach [] i → i = root.
Proof. inversion 1 as [|ns]; [done|]. by destruct ns. Qed.
Lemma reach_snoc ns n i : reach (ns ++ [n]) i → ∃ p, reach ns p ∧ (p, n, i) ∈ rows ∧ is_Some (nodes !! i).
Proof.
  inversion 1 as [H1 H2|? ? ? ? ? ? ? E]; [by destruct ns|]. apply app_inj_tail in E as [<- <-]. eauto.
Qed.
Lemma reach_live ns i : reach ns i → is_Some (nodes !! i).
Proof. by destruct 1. Qed.

(** What makes the entries a forest. *)
Record proper_rows : Prop := {
  pr_nodup : NoDup rows;
  pr_functional : ∀ p n i i', (p, n, i) ∈ rows → (p, n, i') ∈ rows → i = i';
  pr_parent : ∀ p n i r, (p, n, i) ∈ rows → nodes !! p = Some r → i_kind r = KDirectory;
  pr_unique : ∀ p n p' n' i r, (p, n, i) ∈ rows → (p', n', i) ∈ rows → nodes !! i = Some r → i_kind r = KDirectory → (p, n) = (p', n');
  pr_root : ∀ p n, (p, n, root) ∉ rows;
  pr_names : ∀ p n i, (p, n, i) ∈ rows → valid_part n;
}.

Context (Hp : proper_rows).

Lemma reach_valid ns i : reach ns i → Forall valid_part ns.
Proof. induction 1; [constructor|]. apply Forall_app_2; [done|]. constructor; [by eapply pr_names|constructor]. Qed.

Lemma reach_functional ns i j : reach ns i → reach ns j → i = j.
Proof.
  revert i j. induction ns as [|n ns IH] using rev_ind; intros i j Hi Hj; [by rewrite (reach_nil _ Hi), (reach_nil _ Hj)|].
  apply reach_snoc in Hi as (p & Hpi & Hi & _), Hj as (q & Hqj & Hj & _). rewrite (IH p q Hpi Hqj) in Hi. by eapply pr_functional.
Qed.

Lemma reach_unique ns ms i r : nodes !! i = Some r → i_kind r = KDirectory → reach ns i → reach ms i → ns = ms.
Proof.
  revert ms i r. induction ns as [|n ns IH] using rev_ind; intros ms i r Hr Hk Hn Hm; destruct ms as [|m ms _] using rev_ind; [done|..].
  - apply reach_nil in Hn as ->. apply reach_snoc in Hm as (p & _ & H & _). by apply (pr_root Hp) in H.
  - apply reach_nil in Hm as ->. apply reach_snoc in Hn as (p & _ & H & _). by apply (pr_root Hp) in H.
  - apply reach_snoc in Hn as (p & Hn & Hpn & _), Hm as (q & Hm & Hqm & _).
    injection (pr_unique Hp _ _ _ _ _ _ Hpn Hqm Hr Hk) as <- <-. destruct (reach_live _ _ Hn) as [rp Hrp].
    f_equal. eapply IH; [exact Hrp|by eapply (pr_parent Hp)|done|done].
Qed.

(** A path with the inode it leads to. *)
Definition found (x : bytes * Z) : Prop := ∃ ns, x.1 = CanonicalPath ns ∧ reach ns x.2.

Lemma found_path ns ms i j : reach ns i → reach ms j → CanonicalPath ns = CanonicalPath ms → ns = ms ∧ i = j.
Proof.
  intros Hi Hj E. apply canonical_inj in E as <-; [|by eapply reach_valid..]. split; [done|]. by eapply reach_functional.
Qed.

(** There are not more paths than entries, and the root. *)
Lemma found_length l : NoDup l → (∀ x, x ∈ l → found x) → (length l ≤ S (length rows))%nat.
Proof.
  intros Hnd Hl. change (S (length rows)) with (S (length rows)). rewrite <- (length_fmap Some rows).
  change (S (length (Some <$> rows))) with (length (None :: (Some <$> rows))).
  apply (injective_length (λ x y, match y with
    | None => x = (CanonicalPath [], root)
    | Some (p, n, i) => ∃ ns, reach ns p ∧ x = (CanonicalPath (ns ++ [n]), i) ∧ reach (ns ++ [n]) i end)); [done| |].
  - intros [path i] (ns & E & Hr)%Hl. simpl in E, Hr. subst path. destruct ns as [|n ns _] using rev_ind.
    + apply reach_nil in Hr as ->. exists None. split; [left|done].
    + pose proof Hr as (p & Hp' & Hrow & _)%reach_snoc. exists (Some (p, n, i)). split; [|eauto]. right. by apply list_elem_of_fmap_2.
  - intros x x' [[[p n] i]|] _ _; [|congruence]. intros (ns & H1 & -> & H1') (ms & H2 & -> & H2').
    destruct (reach_live _ _ H1) as [r Hr]. apply reach_snoc in H1' as (q & Hq & Hrow & _).
    assert (Hk : i_kind r = KDirectory).
    { apply reach_snoc in H2' as (q' & Hq' & Hrow' & _). rewrite (reach_functional _ _ _ Hq' H2) in Hrow'. by eapply (pr_parent Hp). }
    by rewrite (reach_unique ns ms p r Hr Hk H1 H2).
Qed.

(** ** The queue *)

Definition key (q : PendingNode) : bytes * Z := (pn_path q, pn_inode q).

Record walking (pending : list PendingNode) (visited : gset Z) (acc : list (bytes * Z)) : Prop := {
  wk_acc : ∀ x, x ∈ acc → found x;
  wk_pending : ∀ q, q ∈ pending → ∃ ns, reach ns (pn_inode q) ∧ pn_path q = CanonicalPath ns ∧ pn_depth q = Z.of_nat (length ns);
  wk_visited : ∀ i, i ∈ visited → ∃ path, (path, i) ∈ acc;
  wk_nodup : NoDup (acc ++ (key <$> pending));
  wk_root : (CanonicalPath [], root) ∈ acc ++ (key <$> pending);
  wk_closed : ∀ ns p n i, reach ns p → (CanonicalPath ns, p) ∈ acc → (p, n, i) ∈ rows → is_Some (nodes !! i) →
    (CanonicalPath (ns ++ [n]), i) ∈ acc ++ (key <$> pending);
  wk_parents : ∀ ns p n i, reach ns p → reach (ns ++ [n]) i → (CanonicalPath (ns ++ [n]), i) ∈ acc ++ (key <$> pending) →
    (CanonicalPath ns, p) ∈ acc;
}.

(** When the queue is empty everything has been found. *)
Lemma walking_done visited acc : walking [] visited acc → ∀ x, x ∈ acc ↔ found x.
Proof.
  intros [Ha _ _ _ Hr Hc _] [path i]. split; [apply Ha|]. intros (ns & E & Hn). simpl in E, Hn. subst path.
  rewrite fmap_nil, app_nil_r in Hr. induction Hn as [|ns p n i Hn IH Hrow Hi]; [done|]. specialize (Hc ns p n i Hn IH Hrow Hi).
  by rewrite fmap_nil, app_nil_r in Hc.
Qed.

(** The entries that are queued for a directory. *)
Definition queued (current : PendingNode) : list PendingNode :=
  (λ '(n, i), mkPendingNode i (child_path (pn_path current) n) (pn_depth current + 1)) <$>
    filter (λ '(_, i), bool_decide (is_Some (nodes !! i)) = true) (children_of (pn_inode current) rows).

Lemma elem_of_children_of p n i : (n, i) ∈ children_of p rows ↔ (p, n, i) ∈ rows.
Proof.
  unfold children_of. rewrite merge_sort_Permutation, list_elem_of_omap. split.
  - intros ([[q m] j] & Hin & Hif). destruct (Z.eqb_spec q p) as [->|]; [|done]. by injection Hif as <- <-.
  - intros Hin. exists (p, n, i). by rewrite Z.eqb_refl.
Qed.

Lemma children_of_nodup p : NoDup (children_of p rows).
Proof.
  unfold children_of. rewrite merge_sort_Permutation. apply nodup_omap; [|apply (pr_nodup Hp)].
  intros [[q n] i] [[q' n'] i'] [m j] H1 H2. destruct (Z.eqb_spec q p), (Z.eqb_spec q' p); simplify_eq; done.
Qed.

Section Step.

Context (current : PendingNode) (ns : list bytes).
Context (Hn : reach ns (pn_inode current)) (Hpath : pn_path current = CanonicalPath ns).

Lemma elem_of_queued x : x ∈ key <$> queued current ↔
  ∃ n i, x = (CanonicalPath (ns ++ [n]), i) ∧ (pn_inode current, n, i) ∈ rows ∧ is_Some (nodes !! i).
Proof.
  unfold queued. rewrite <- list_fmap_compose, list_elem_of_fmap. split.
  - intros ([n i] & -> & [Hi Hc]%list_elem_of_filter). exists n, i. rewrite bool_decide_eq_true in Hi. apply elem_of_children_of in Hc.
    split; [|done]. unfold key. simpl. rewrite Hpath, canonical_snoc by (by eapply reach_valid). done.
  - intros (n & i & -> & Hrow & Hi). exists (n, i). split.
    + unfold key. simpl. rewrite Hpath, canonical_snoc by (by eapply reach_valid). done.
    + apply list_elem_of_filter. split; [by apply bool_decide_eq_true|by apply elem_of_children_of].
Qed.

Lemma queued_nodup : NoDup (key <$> queued current).
Proof.
  unfold queued. rewrite <- list_fmap_compose. apply (NoDup_fmap_2_strong _ _); [|apply NoDup_filter, children_of_nodup].
  intros [n i] [n' i'] [Hi Hc%elem_of_children_of]%list_elem_of_filter [Hi' Hc'%elem_of_children_of]%list_elem_of_filter.
  rewrite bool_decide_eq_true in Hi, Hi'. unfold key. simpl. rewrite Hpath, <- !canonical_snoc by (by eapply reach_valid).
  intros [= E ->]. apply found_path with (i := i') (j := i') in E as [[_ ->]%app_inj_tail _]; [done|by eapply reach_step..].
Qed.

(** Taking one node from the queue. *)
Lemma walking_step pending visited acc visited' : walking (current :: pending) visited acc →
  (∀ i, i ∈ visited' → i ∈ visited ∨ i = pn_inode current) → walking (pending ++ queued current) visited' (key current :: acc).
Proof.
  intros [Ha Hq Hv Hnd Hr Hc Hpar] Hv'.
  assert (Hkey : key current = (CanonicalPath ns, pn_inode current)) by (unfold key; by rewrite Hpath).
  assert (Hperm : key current :: acc ++ (key <$> pending) ≡ₚ acc ++ (key <$> current :: pending)).
  { rewrite fmap_cons. apply Permutation_middle. }
  assert (Hall : ∀ x, x ∈ (key current :: acc) ++ (key <$> pending ++ queued current) ↔
    x ∈ acc ++ (key <$> current :: pending) ∨ x ∈ key <$> queued current).
  { intros x. rewrite fmap_app, (assoc_L app), elem_of_app. by rewrite <- Hperm. }
  assert (Hnew : key current ∉ acc). { rewrite fmap_cons in Hnd. apply NoDup_app in Hnd as (_ & Hd & _). intros Hin. apply (Hd _ Hin). left. }
  split.
  - intros x [->|Hx]%elem_of_cons; [|by apply Ha]. exists ns. by rewrite Hkey.
  - intros q [Hin|Hin]%elem_of_app; [apply Hq; by right|]. unfold queued in Hin.
    apply list_elem_of_fmap in Hin as ([n i] & -> & [Hi Hch%elem_of_children_of]%list_elem_of_filter). rewrite bool_decide_eq_true in Hi.
    exists (ns ++ [n]). simpl. split_and!; [by eapply reach_step|by rewrite canonical_snoc, Hpath by (by eapply reach_valid)|].
    destruct (Hq current ltac:(left)) as (ms & Hm & E & ->). rewrite Hpath in E.
    destruct (found_path ns ms _ _ Hn Hm E) as [-> _]. rewrite length_app. simpl. lia.
  - intros i [Hi| ->]%Hv'; [|exists (pn_path current); left]. destruct (Hv i Hi) as [path Hin]. exists path. by right.
  - rewrite fmap_app, (assoc_L app). apply NoDup_app. split_and!; [by rewrite <- app_comm_cons, Hperm| |apply queued_nodup].
    intros x Hx (n & i & -> & Hrow & Hi)%elem_of_queued. rewrite <- app_comm_cons, Hperm in Hx. apply Hnew. rewrite Hkey.
    by apply (Hpar ns _ n i); [|eapply reach_step|].
  - apply Hall. by left.
  - intros ms p n i Hm Hin Hrow Hi. apply Hall. apply elem_of_cons in Hin as [Hin|Hin]; [right|left; by eapply Hc].
    rewrite Hkey in Hin. injection Hin as E ->. destruct (found_path ms ns _ _ Hm Hn E) as [-> _]. apply elem_of_queued. eauto.
  - intros ms p n i Hm Hmn [Hin|Hin]%Hall; [right; by eapply Hpar|]. apply elem_of_queued in Hin as (n' & i' & [= E ->] & Hrow & Hi).
    apply found_path with (i := i') (j := i') in E as [[-> ->]%app_inj_tail _]; [|done|by eapply reach_step].
    rewrite Hkey, (reach_functional _ _ _ Hm Hn). left.
Qed.

End Step.

Lemma queued_nil current : children_of (pn_inode current) rows = [] → queued current = [].
Proof. unfold queued. by intros ->. Qed.

(** The loop ends, without an error, with what can be reached. *)
Lemma tree_loop_finds fuel : ∀ pending visited acc, (∀ ns i, reach ns i → (length ns < 1024)%nat) →
  walking pending visited acc → (S (S (length rows)) ≤ fuel + length acc)%nat →
  ∃ l, tree_loop fuel nodes rows pending visited acc = Some (Ok l) ∧ ∀ x, x ∈ l ↔ found x.
Proof.
  intros pending visited acc Hshallow. revert pending visited acc.
  induction fuel as [|fuel IH]; intros pending visited acc Hw Hfuel; destruct pending as [|current pending].
  1, 3: exists acc; split; [done|by eapply walking_done].
  - exfalso. pose proof (found_length _ (wk_nodup _ _ _ Hw)) as Hl. rewrite length_app, fmap_cons in Hl. simpl in Hl.
    enough (∀ x, x ∈ acc ++ key current :: (key <$> pending) → found x) by (specialize (Hl ltac:(done)); lia). intros x [Hx|Hx]%elem_of_app; [by apply (wk_acc _ _ _ Hw)|].
    rewrite <- fmap_cons in Hx. apply list_elem_of_fmap in Hx as (q & -> & Hq). destruct (wk_pending _ _ _ Hw q Hq) as (ns & Hn & E & _). by exists ns.
  - destruct (wk_pending _ _ _ Hw current ltac:(left)) as (ns & Hn & Hpath & Hdepth). destruct (reach_live _ _ Hn) as [r Hr].
    cbn [tree_loop]. rewrite Hr. set (directory := bool_decide (i_kind r = KDirectory)).
    assert (Hvisited : directory && bool_decide (pn_inode current ∈ visited) = false).
    { subst directory. case_bool_decide as Hk; [|done]. case_bool_decide as Hin; [|done]. exfalso.
      destruct (wk_visited _ _ _ Hw _ Hin) as [path Hacc]. destruct (wk_acc _ _ _ Hw _ Hacc) as (ms & E & Hm). simpl in E, Hm. subst path.
      rewrite <- (reach_unique ns ms _ r Hr Hk Hn Hm), <- Hpath in Hacc. pose proof (wk_nodup _ _ _ Hw) as Hnd. rewrite fmap_cons in Hnd.
      apply NoDup_app in Hnd as (_ & Hd & _). apply (Hd _ Hacc). left. }
    rewrite Hvisited. change ((pn_path current, pn_inode current) :: acc) with (key current :: acc).
    assert (Hnext : ∀ visited', (∀ i, i ∈ visited' → i ∈ visited ∨ i = pn_inode current) →
      ∃ l, tree_loop fuel nodes rows (pending ++ queued current) visited' (key current :: acc) = Some (Ok l) ∧ ∀ x, x ∈ l ↔ found x).
    { intros visited' Hv. apply IH; [by eapply walking_step|simpl; lia]. }
    assert (Hskip : queued current = [] → ∀ visited', (∀ i, i ∈ visited' → i ∈ visited ∨ i = pn_inode current) →
      ∃ l, tree_loop fuel nodes rows pending visited' (key current :: acc) = Some (Ok l) ∧ ∀ x, x ∈ l ↔ found x).
    { intros Hq visited' Hv. rewrite <- (app_nil_r pending), <- Hq. by apply Hnext. }
    destruct directory eqn:Hdir; cbn [negb].
    + destruct (children_of (pn_inode current) rows) as [|child children] eqn:Hch.
      { apply Hskip; [by apply queued_nil|]. set_solver. }
      rewrite Hdepth, (proj2 (Z.leb_gt _ _)) by (specialize (Hshallow _ _ Hn); lia). rewrite <- Hdepth, <- Hch.
      apply Hnext. set_solver.
    + apply Hskip; [|by left]. apply queued_nil. destruct (children_of (pn_inode current) rows) as [|[n i] children] eqn:Hch; [done|].
      assert (Hin : (n, i) ∈ children_of (pn_inode current) rows) by (rewrite Hch; left). apply elem_of_children_of in Hin.
      subst directory. apply bool_decide_eq_false in Hdir. by destruct Hdir; eapply (pr_parent Hp).
Qed.

Lemma walk_tree_finds : is_Some (nodes !! root) → (∀ ns i, reach ns i → (length ns < 1024)%nat) →
  ∃ l, walk_tree root nodes rows = Ok l ∧ ∀ x, x ∈ l ↔ found x.
Proof.
  intros Hroot Hshallow. unfold walk_tree. edestruct (tree_loop_finds (S (S (length rows))) [mkPendingNode root [slash] 0] ∅ [])
    as (l & -> & Hl); [done| |simpl; lia|by exists l].
  split.
  - by intros x ?%not_elem_of_nil.
  - intros q ->%list_elem_of_singleton. exists []. split_and!; [by constructor|done|done].
  - set_solver.
  - apply NoDup_singleton.
  - left.
  - by intros ns p n i _ ?%not_elem_of_nil.
  - intros ns p n i Hn Hni Hin. simpl in Hin. apply list_elem_of_singleton in Hin. injection Hin as E ->.
    change [slash] with (CanonicalPath []) in E. apply found_path with (i := root) (j := root) in E as [E _]; [by destruct ns|done|by constructor].
Qed.

End Walk.
