(* ===== verification/VexfsFind.v ===== *)
(** * What a search by name lists

    The recursive query of [FindFunction] ends and finds every path below the one it is
    asked for, once; a page of it holds the first of them in the order of the paths. *)
From Stdlib Require Import ZArith Lia String.
From stdpp Require Import prelude gmap sorting.
From S2P Require Import Prelude Sha256 VexfsText VexfsTextFacts VexfsDb VexfsTree VexfsStore VexfsStaging VexfsHandles VexfsNames VexfsMetadata VexfsHistory VexfsSnapshots VexfsRetention VexfsSessions VexfsService VexfsForest VexfsForestOps VexfsForestTop VexfsRename VexfsTidy VexfsOrder VexfsTreeWalk VexfsReports.

Local Open Scope Z_scope.
Implicit Types d : Db.

(** ** Sorted lists and pages *)

Definition path_lt (x y : FoundEntry) : Prop := bytes_ltb (fe_path x) (fe_path y) = true.

#[export] Instance entry_le_total : Total entry_le.
Proof. intros x y. apply (total bytes_le). Qed.
#[export] Instance entry_le_trans : Transitive entry_le.
Proof. intros x y z. apply (transitivity (R := bytes_le)). Qed.

(** Entries with different paths are in strict order once they are sorted. *)
Lemma sorted_strictly l : NoDup (fe_path <$> l) → StronglySorted path_lt (merge_sort entry_le l).
Proof.
  intros Hnd. pose proof (StronglySorted_merge_sort entry_le l) as Hs.
  rewrite <- (merge_sort_Permutation entry_le l) in Hnd. revert Hnd.
  induction Hs as [|x k _ IH Hx]; intros Hnd; [constructor|]. rewrite fmap_cons in Hnd. apply NoDup_cons in Hnd as [Hnot Hnd].
  constructor; [by apply IH|]. rewrite Forall_forall in *. intros y Hy. destruct (proj1 (bytes_le_iff _ _) (Hx y Hy)) as [?|E]; [done|].
  destruct Hnot. rewrite E. by apply list_elem_of_fmap_2.
Qed.

Lemma strongly_sorted_filter {A} (R : relation A) (P : A → Prop) `{!∀ x, Decision (P x)} l : StronglySorted R l → StronglySorted R (filter P l).
Proof.
  induction 1 as [|x l _ IH Hx]; [constructor|]. rewrite filter_cons. case_decide; [|done]. constructor; [done|].
  rewrite Forall_forall in *. intros y [_ Hy]%list_elem_of_filter. by apply Hx.
Qed.
Lemma strongly_sorted_take {A} (R : relation A) n l : StronglySorted R l → StronglySorted R (take n l).
Proof.
  intros Hs. revert n. induction Hs as [|x l _ IH Hx]; intros [|n]; simpl; constructor; [done|].
  rewrite Forall_forall in *. intros y Hy. apply Hx. rewrite <- (take_drop n l). apply elem_of_app. by left.
Qed.

(** The loop takes the matching rows until there is one too many. *)
Lemma find_loop_take q rows : ∀ matches, Z.of_nat (length matches) <= fq_limit q →
  find_loop q rows matches = take (S (Z.to_nat (fq_limit q))) (matches ++ filter (λ e, name_matches q e = true) rows).
Proof.
  induction rows as [|e rows IH]; intros matches Hlen; cbn [find_loop].
  - rewrite filter_nil, app_nil_r, take_ge; [done|lia].
  - rewrite filter_cons. destruct (name_matches q e) eqn:E; cbn [negb]; [|rewrite decide_False by done; by apply IH].
    rewrite decide_True by done. rewrite length_app. simpl length. destruct (Z.ltb_spec (fq_limit q) (Z.of_nat (length matches + 1))).
    + replace (matches ++ e :: filter (λ e, name_matches q e = true) rows) with ((matches ++ [e]) ++ filter (λ e, name_matches q e = true) rows) by (by rewrite <- app_assoc).
      rewrite take_app_le, take_ge by (rewrite length_app; simpl; lia). done.
    + rewrite IH by (rewrite length_app; simpl; lia). by rewrite <- app_assoc.
Qed.

(** The first [n] of a sorted list are those up to the last of them. *)
Lemma elem_of_take_sorted l n c : StronglySorted path_lt l → last (take n l) = Some c → ∀ e,
  e ∈ take n l ↔ e ∈ l ∧ bytes_le (fe_path e) (fe_path c).
Proof.
  intros Hs Hc e. apply last_Some in Hc as [pre Hpre]. rewrite <- (take_drop n l) in Hs at 1. rewrite Hpre in *. 
  assert (Hl : l = pre ++ [c] ++ drop n l) by (rewrite (app_assoc pre), <- Hpre; by rewrite take_drop).
  assert (Hafter : ∀ y, y ∈ drop n l → path_lt c y).
  { intros y Hy. clear Hl Hpre. induction pre as [|x pre IH]; simpl in Hs; inversion Hs as [|? ? Hs' Hx]; subst; [|by apply IH].
    rewrite Forall_forall in Hx. by apply Hx. }
  assert (Hbefore : ∀ x, x ∈ pre → path_lt x c).
  { intros x Hx. clear Hl Hpre Hafter. induction pre as [|y pre IH]; [by apply not_elem_of_nil in Hx|].
    simpl in Hs. inversion Hs as [|? ? Hs' Hy]; subst. apply elem_of_cons in Hx as [->|Hx]; [|by apply IH].
    rewrite Forall_forall in Hy. apply Hy. set_solver. }
  split.
  - intros He. split; [rewrite Hl; set_solver|]. apply bytes_le_iff. apply elem_of_app in He as [He|He%list_elem_of_singleton]; [left; by apply Hbefore|by right; subst].
  - rewrite Hl at 1. intros [He Hle]. rewrite !elem_of_app in He. destruct He as [He|[He|He]]; [set_solver..|].
    apply Hafter in He. unfold path_lt in He. unfold bytes_le in Hle. congruence.
Qed.

(** ** Steps of a search *)

Lemma resolve_from_snoc_iff ws d qs n : ∀ a x, resolve_from ws a (qs ++ [n]) d = Some x ↔
  ∃ p, resolve_from ws a qs d = Some p ∧ n_kind p = KDirectory ∧ FindChild ws (n_id p) n d = Some x.
Proof.
  induction qs as [|m qs IH]; intros a x; cbn [app resolve_from].
  - destruct (bool_decide_reflect (n_kind a = KDirectory)) as [Hk|Hk]; cbn [negb].
    + destruct (FindChild ws (n_id a) n d) eqn:E; simpl; [|naive_solver]. split; [intros [= ->]; by exists a|].
      by intros (p & [= <-] & _ & H); congruence.
    + split; [done|]. by intros (p & [= <-] & Hp & _).
  - destruct (negb _); [naive_solver|]. destruct (FindChild ws (n_id a) m d); simpl; [apply IH|naive_solver].
Qed.

Section Search.

Context (d : Db) (w : Workspace) (ps : list bytes) (root : Node).
Context (Hforest : forest d) (Htidy : tidy d) (Hroot : Resolve w ps d = Ok root) (Hps : Forall valid_part ps).

Abbreviation ws := (ws_id w).
Abbreviation below := (resolve_from ws root).

Lemma below_row qs x : below qs d = Some x → ∃ r, inodes d !! n_id x = Some r ∧ x = node_of (n_id x) r ∧ i_workspace r = ws ∧ live r = true.
Proof.
  intros Hx. destruct qs as [|n qs _] using rev_ind.
  - injection Hx as <-. pose proof (resolve_home _ _ _ _ Htidy Hroot) as Hh. unfold home in Hh.
    destruct (inodes d !! n_id root) as [r|] eqn:Hr; [|done]. injection Hh as Hw. exists r. clear Hforest Htidy.
    assert (root = node_of (n_id root) r ∧ live r = true) as [? ?]; [|by split_and!].
    destruct ps as [|n ps' _] using rev_ind.
    + unfold Resolve, TryResolve in Hroot. destruct (RootNode w d) as [x|] eqn:E; [|done]. injection Hroot as <-.
      apply root_node_inv in E as (Hid & r' & Hr' & Hl & _ & Hx). rewrite Hid, Hr' in Hr. injection Hr as <-. by rewrite Hid.
    + unfold Resolve, TryResolve in Hroot. destruct (RootNode w d) as [x|] eqn:E; [|done].
      destruct (resolve_from ws x (ps' ++ [n]) d) as [y|] eqn:Ey; [|done]. injection Hroot as <-.
      apply resolve_from_snoc_iff in Ey as (p & _ & _ & (_ & r' & Hr' & Hl & Hy)%find_child_inv). rewrite Hr' in Hr. injection Hr as <-. done.
  - apply resolve_from_snoc_iff in Hx as (p & _ & _ & (Hn & r & Hr & Hl & Hx)%find_child_inv). exists r. split_and!; [done|done| |done].
    pose proof (td_home _ Htidy _ _ _ _ Hn) as Hh. unfold home in Hh. rewrite Hr in Hh. by injection Hh.
Qed.

Lemma below_valid qs x : below qs d = Some x → Forall valid_part (ps ++ qs).
Proof.
  revert x. induction qs as [|n qs IH] using rev_ind; intros x Hx; [by rewrite app_nil_r|].
  apply resolve_from_snoc_iff in Hx as (p & Hp & _ & (Hn & _)%find_child_inv). rewrite app_assoc. apply Forall_app_2; [by eapply IH|].
  constructor; [by eapply td_name|constructor].
Qed.

(** The entry of a node at a path. *)
Definition entry_at (parts : list bytes) (x : Node) : FoundEntry :=
  mkFoundEntry (CanonicalPath parts) (default [slash] (last parts)) (n_id x) (n_kind x) (n_size x) (n_version x) (n_updated x).

Lemma entry_at_row parts x r : x = node_of (n_id x) r → entry_at parts x = found_entry (CanonicalPath parts) (default [slash] (last parts)) (n_id x) r.
Proof. intros ->. done. Qed.

(** The directories [k] steps below. *)
Definition dir_at (k : nat) (x : bytes * Z) : Prop :=
  ∃ qs node, length qs = k ∧ x = (CanonicalPath (ps ++ qs), n_id node) ∧ below qs d = Some node ∧ n_kind node = KDirectory.

Lemma elem_of_found_children qs node e : below qs d = Some node → n_kind node = KDirectory →
  e ∈ find_children ws (CanonicalPath (ps ++ qs), n_id node) d ↔ ∃ n x, below (qs ++ [n]) d = Some x ∧ e = entry_at (ps ++ qs ++ [n]) x.
Proof.
  intros Hnode Hk. pose proof (below_valid _ _ Hnode) as Hv. unfold find_children. rewrite list_elem_of_omap. split.
  - intros ([[[v p] n] i] & Hin%elem_of_map_to_list & Hif). simpl in Hif. destruct (Z.eqb_spec v ws) as [->|]; [|done].
    destruct (Z.eqb_spec p (n_id node)) as [->|]; [|done]. simpl in Hif. destruct (inodes d !! i) as [r|] eqn:Hr; [|done]. simpl in Hif.
    destruct ((i_workspace r =? ws) && live r) eqn:E; [|done]. injection Hif as <-. apply andb_true_iff in E as [_ Hl].
    exists n, (node_of i r). split.
    + apply resolve_from_snoc_iff. exists node. split_and!; [done|done|]. unfold FindChild. rewrite Hin. simpl. rewrite Hr. simpl. by rewrite Hl.
    + rewrite (entry_at_row _ _ r) by done. by rewrite app_assoc, last_snoc, canonical_snoc.
  - intros (n & x & Hx & ->). pose proof (below_row _ _ Hx) as (r & Hr & Hxr & Hw & Hl). apply resolve_from_snoc_iff in Hx as (p & Hp & _ & (Hn & _)%find_child_inv).
    rewrite Hnode in Hp. injection Hp as <-. exists (ws, n_id node, n, n_id x). split; [by apply elem_of_map_to_list|].
    simpl. rewrite !Z.eqb_refl. simpl. rewrite Hr. simpl. rewrite Hw, Z.eqb_refl, Hl. simpl.
    rewrite (entry_at_row _ _ r) by done. by rewrite app_assoc, last_snoc, canonical_snoc.
Qed.

Lemma elem_of_subdirectories qs node y : below qs d = Some node → n_kind node = KDirectory →
  y ∈ find_directories ws (CanonicalPath (ps ++ qs), n_id node) d ↔
  ∃ n x, below (qs ++ [n]) d = Some x ∧ n_kind x = KDirectory ∧ y = (CanonicalPath (ps ++ qs ++ [n]), n_id x).
Proof.
  intros Hnode Hk. unfold find_directories. rewrite list_elem_of_omap. split.
  - intros (e & (n & x & Hx & ->)%elem_of_found_children & Hif); [|done|done]. simpl in Hif. destruct (bool_decide_reflect (n_kind x = KDirectory)); [|done].
    injection Hif as <-. by exists n, x.
  - intros (n & x & Hx & Hkx & ->). exists (entry_at (ps ++ qs ++ [n]) x). split; [apply elem_of_found_children; eauto|]. simpl. by rewrite bool_decide_eq_true_2.
Qed.

(** Paths tell entries apart. *)
Lemma below_path qs qs' x x' : below qs d = Some x → below qs' d = Some x' → CanonicalPath (ps ++ qs) = CanonicalPath (ps ++ qs') → qs = qs' ∧ x = x'.
Proof.
  intros Hx Hx' E. apply canonical_inj in E; [|by eapply below_valid..]. apply app_inv_head in E as ->. split; [done|congruence].
Qed.

Lemma children_nodup x : NoDup (find_children ws x d).
Proof.
  unfold find_children. apply nodup_omap; [|apply NoDup_map_to_list].
  intros [[[v p] n] i] [[[v' p'] n'] i'] e H1 H2.
  destruct (Z.eqb_spec v ws), (Z.eqb_spec p x.2); simpl in H1; try done. destruct (Z.eqb_spec v' ws), (Z.eqb_spec p' x.2); simpl in H2; try done.
  destruct (inodes d !! i) as [r|]; [|done]. destruct (inodes d !! i') as [r'|]; [|done]. simpl in *.
  destruct (_ && live r); [|done]. destruct (_ && live r'); [|done]. injection H1 as <-. injection H2 as E1 E2 E3 _ _ _ _. congruence.
Qed.

Lemma subdirectories_nodup qs node : below qs d = Some node → n_kind node = KDirectory →
  NoDup (find_directories ws (CanonicalPath (ps ++ qs), n_id node) d).
Proof.
  intros Hnode Hk. unfold find_directories.
  assert (Hin : ∀ e, e ∈ find_children ws (CanonicalPath (ps ++ qs), n_id node) d → ∃ qs' x, below qs' d = Some x ∧ e = entry_at (ps ++ qs') x).
  { intros e (n & x & Hx & ->)%elem_of_found_children; [|done|done]. eauto. }
  pose proof (children_nodup (CanonicalPath (ps ++ qs), n_id node)) as Hnd. revert Hnd Hin. generalize (find_children ws (CanonicalPath (ps ++ qs), n_id node) d).
  induction 1 as [|e l Hne _ IH]; intros Hin; [constructor|]. csimpl. assert (Hl : NoDup (omap (λ e, if bool_decide (fe_kind e = KDirectory) then Some (fe_path e, fe_inode e) else None) l)) by (apply IH; set_solver).
  case_bool_decide as Hd; [|done]. constructor; [|done]. intros (e' & He' & Hif)%list_elem_of_omap. case_bool_decide; [|done]. injection Hif as E _.
  destruct (Hin e ltac:(left)) as (q1 & x1 & H1 & ->), (Hin e' ltac:(by right)) as (q2 & x2 & H2 & ->). simpl in E.
  destruct (below_path q2 q1 x2 x1 H2 H1 E) as [-> ->]. done.
Qed.

(** ** The recursive query *)

Lemma below_steps qs x : below qs d = Some x → nsteps (child d ws) (length qs) (n_id root) (n_id x).
Proof.
  intros Hx. assert (Hw : walk d ws (n_id root) qs (n_id x)).
  { eapply resolve_from_walk; [|exact Hx]. by apply resolve_walk in Hroot as [_ ?]. }
  clear Hx. induction Hw as [|p n q ns i Hn _ IH]; [constructor|]. econstructor; [by exists n|done].
Qed.
Lemma dir_depth k x : dir_at k x → (k ≤ size (dentries d))%nat.
Proof. intros (qs & node & <- & _ & Hn & _). eapply chain_short; [done|]. by apply below_steps. Qed.

Lemma directory_rows_depth fuel : ∀ k level, (S (size (dentries d)) < k + fuel)%nat → (∀ x, x ∈ level ↔ dir_at k x) → NoDup level →
  ∃ dirs, directory_rows fuel ws level d = Some dirs ∧ NoDup dirs ∧ ∀ x, x ∈ dirs ↔ ∃ j, (k ≤ j)%nat ∧ dir_at j x.
Proof.
  induction fuel as [|fuel IH]; intros k level Hfuel Hl Hnd.
  - assert (level = []) as ->.
    { destruct level as [|x level]; [done|]. pose proof (dir_depth k x (proj1 (Hl x) ltac:(left))). lia. }
    exists []. split_and!; [done|constructor|]. intros x. split; [by intros ?%not_elem_of_nil|]. intros (j & Hj & Hx%dir_depth). lia.
  - set (next := dir ← level; find_directories ws dir d).
    assert (Hnext : ∀ x, x ∈ next ↔ dir_at (S k) x).
    { intros y. unfold next. rewrite list_elem_of_bind. split.
      - intros (x & Hy & (qs & node & Hk & -> & Hn & Hd)%Hl). apply elem_of_subdirectories in Hy as (n & z & Hz & Hkz & ->); [|done|done].
        exists (qs ++ [n]), z. rewrite length_app. simpl. split_and!; [lia|done|done|done].
      - intros (qs & z & Hk & -> & Hz & Hkz). destruct qs as [|n qs _] using rev_ind; [done|]. rewrite length_app in Hk. simpl in Hk.
        pose proof Hz as (p & Hp & Hkp & _)%resolve_from_snoc_iff. exists (CanonicalPath (ps ++ qs), n_id p). split.
        + apply elem_of_subdirectories; [done|done|]. by exists n, z.
        + apply Hl. exists qs, p. split_and!; [lia|done..]. }
    destruct (IH (S k) next) as (rest & Hrest & Hrnd & Hrin); [lia|done| |].
    { unfold next. apply NoDup_bind; [| |done].
      - intros x1 x2 y (q1 & n1 & _ & -> & H1 & K1)%Hl (q2 & n2 & _ & -> & H2 & K2)%Hl.
        intros (m1 & z1 & Z1 & _ & ->)%elem_of_subdirectories (m2 & z2 & Z2 & _ & E)%elem_of_subdirectories; [|done..].
        injection E as E _. destruct (below_path _ _ _ _ Z1 Z2 E) as [[-> _]%app_inj_tail _]. congruence.
      - intros x (qs & node & _ & -> & Hn & Hk)%Hl. by apply subdirectories_nodup. }
    assert (Hrows : directory_rows (S fuel) ws level d = Some (level ++ rest)).
    { destruct level as [|x0 level0] eqn:El; [|cbn [directory_rows]; fold next; by rewrite Hrest].
      unfold next in Hrest. destruct fuel; injection Hrest as <-; done. }
    exists (level ++ rest). split_and!; [done| |].
    + apply NoDup_app. split_and!; [done| |done]. intros x (q1 & n1 & E1 & -> & H1 & _)%Hl (j & Hj & (q2 & n2 & E2 & E & H2 & _))%Hrin.
      injection E as E _. destruct (below_path _ _ _ _ H1 H2 E) as [-> _]. lia.
    + intros x. rewrite elem_of_app, Hl, Hrin. split.
      * intros [Hx|(j & Hj & Hx)]; [exists k|exists j]; (split; [lia|done]).
      * intros (j & Hj & Hx). destruct (decide (j = k)) as [->|]; [by left|right; exists j; split; [lia|done]].
Qed.

(** The rows of the search: every path below the root of it, once. *)
Lemma find_tree_rows : ∃ tree, find_tree ws (n_id root) (CanonicalPath ps) (default [slash] (last ps)) d = Some tree ∧
  NoDup (fe_path <$> tree) ∧ ∀ e, e ∈ tree ↔ ∃ qs x, below qs d = Some x ∧ e = entry_at (ps ++ qs) x.
Proof.
  destruct (below_row [] root eq_refl) as (r & Hr & Hx & Hw & Hl). unfold find_tree. rewrite Hr, Hw, Z.eqb_refl.
  set (start := if bool_decide (i_kind r = KDirectory) then [(CanonicalPath ps, n_id root)] else []).
  assert (Hstart : ∀ x, x ∈ start ↔ dir_at 0 x).
  { assert (Hk : n_kind root = i_kind r) by (by rewrite Hx). intros x. unfold start, dir_at. rewrite <- Hk. case_bool_decide as Hd.
    - rewrite list_elem_of_singleton. split.
      + intros ->. exists [], root. by rewrite app_nil_r.
      + intros ([|] & node & [=] & -> & [= <-] & _). by rewrite app_nil_r.
    - split; [by intros ?%not_elem_of_nil|]. by intros ([|] & node & [=] & _ & [= <-] & ?). }
  destruct (directory_rows_depth (S (S (size (dentries d)))) 0 start) as (dirs & -> & Hnd & Hdirs); [lia|done|unfold start; case_bool_decide; repeat constructor; apply not_elem_of_nil|].
  simpl. eexists. split; [done|].
  assert (Hin : ∀ e, e ∈ found_entry (CanonicalPath ps) (default [slash] (last ps)) (n_id root) r :: (dir ← dirs; find_children ws dir d) ↔
    ∃ qs x, below qs d = Some x ∧ e = entry_at (ps ++ qs) x).
  { intros e. rewrite elem_of_cons, list_elem_of_bind. split.
    - intros [->|(dir & He & (j & _ & (qs & node & _ & -> & Hn & Hk))%Hdirs)].
      + exists [], root. split; [done|]. rewrite app_nil_r. by rewrite (entry_at_row _ _ r).
      + apply elem_of_found_children in He as (n & x & Hn' & ->); [|done|done]. by exists (qs ++ [n]), x.
    - intros (qs & x & Hqs & ->). destruct qs as [|n qs _] using rev_ind.
      + injection Hqs as <-. left. rewrite app_nil_r. by rewrite (entry_at_row _ _ r).
      + right. pose proof Hqs as (p & Hp & Hk & _)%resolve_from_snoc_iff. exists (CanonicalPath (ps ++ qs), n_id p). split.
        * apply elem_of_found_children; [done|done|]. by exists n, x.
        * apply Hdirs. exists (length qs). split; [lia|]. by exists qs, p. }
  split; [|exact Hin]. apply NoDup_fmap_2_strong.
  { intros e e' (q1 & x1 & H1 & ->)%Hin (q2 & x2 & H2 & ->)%Hin E. simpl in E. by destruct (below_path _ _ _ _ H1 H2 E) as [-> ->]. }
  apply NoDup_cons. split.
  - intros (dir & He & (j & _ & (qs & node & _ & -> & Hn & Hk))%Hdirs)%list_elem_of_bind. apply elem_of_found_children in He as (n & x & Hn' & E); [|done|done].
    apply (f_equal fe_path) in E. simpl in E. rewrite <- (app_nil_r ps) in E at 1. destruct (below_path [] _ root x eq_refl Hn' E) as [E' _]. by destruct qs.
  - apply NoDup_bind; [|intros; apply children_nodup|done]. 
    intros x1 x2 e (j1 & _ & (q1 & n1 & _ & -> & H1 & K1))%Hdirs (j2 & _ & (q2 & n2 & _ & -> & H2 & K2))%Hdirs.
    intros (m1 & z1 & Z1 & ->)%elem_of_found_children (m2 & z2 & Z2 & E)%elem_of_found_children; [|done..].
    apply (f_equal fe_path) in E. simpl in E. destruct (below_path _ _ _ _ Z1 Z2 E) as [[-> _]%app_inj_tail _]. congruence.
Qed.

End Search.

(** ** Pages *)

(** The entry [e] belongs to the result of the query [q] below the path [ps]. *)
Definition listed (w : Workspace) (ps : list bytes) (q : FindQuery) (d : Db) (e : FoundEntry) : Prop :=
  (∃ qs x, Resolve w (ps ++ qs) d = Ok x ∧ e = entry_at (ps ++ qs) x) ∧ selected q e = true ∧ name_matches q e = true.

(** A page: the first entries in the order of the paths, as many as fit. *)
Record page_of (w : Workspace) (ps : list bytes) (q : FindQuery) (d : Db) (page : FindPage) : Prop := {
  pg_sorted : StronglySorted path_lt (fp_entries page);
  pg_length : Z.of_nat (length (fp_entries page)) <= fq_limit q;
  pg_next : ∀ c, fp_next page = Some c → fe_path <$> last (fp_entries page) = Some c ∧ Z.of_nat (length (fp_entries page)) = fq_limit q;
  pg_entries : ∀ e, e ∈ fp_entries page ↔ listed w ps q d e ∧ ∀ c, fp_next page = Some c → bytes_le (fe_path e) c;
}.

Lemma last_is_Some_length {A} (l : list A) : (0 < length l)%nat → ∃ x, last l = Some x.
Proof. destruct l as [|x l _] using rev_ind; [simpl; lia|]. intros _. exists x. by rewrite last_snoc. Qed.

Lemma find_page_lists w ps root q d : forest d → tidy d → Resolve w ps d = Ok root → Forall valid_part ps → 0 < fq_limit q →
  ∃ page, find_page w ps root q d = Ok page ∧ page_of w ps q d page.
Proof.
  intros Hf Ht Hroot Hps Hlim. destruct (find_tree_rows d w ps root Hf Ht Hroot Hps) as (tree & Htree & Hnd & Hin).
  unfold find_page. cbv zeta. rewrite Htree. eexists. split; [done|].
  rewrite find_loop_take by (simpl; lia). cbn [app].
  set (l := filter (λ e, name_matches q e = true) (merge_sort entry_le (filter (λ e, selected q e = true) tree))).
  assert (Hs : StronglySorted path_lt l).
  { apply strongly_sorted_filter, sorted_strictly. clear -Hnd. induction tree as [|e tree IH]; [constructor|]. rewrite fmap_cons in Hnd.
    apply NoDup_cons in Hnd as [He Hnd]. rewrite filter_cons. case_decide; [|by apply IH]. rewrite fmap_cons. constructor; [|by apply IH].
    intros (x & E & [_ Hx]%list_elem_of_filter)%list_elem_of_fmap. apply He. rewrite E. by apply list_elem_of_fmap_2. }
  assert (Hl : ∀ e, e ∈ l ↔ listed w ps q d e).
  { intros e. unfold l, listed. rewrite list_elem_of_filter, merge_sort_Permutation, list_elem_of_filter, Hin.
    assert (Hr : (∃ qs x, resolve_from (ws_id w) root qs d = Some x ∧ e = entry_at (ps ++ qs) x) ↔ ∃ qs x, Resolve w (ps ++ qs) d = Ok x ∧ e = entry_at (ps ++ qs) x).
    { split; intros (qs & x & Hx & ->); exists qs, x; (split; [|done]); by apply (resolve_app w ps qs d root x Hroot). }
    rewrite Hr. tauto. }
  set (n := Z.to_nat (fq_limit q)). rewrite length_take.
  destruct (Z.ltb_spec (fq_limit q) (Z.of_nat (S n `min` length l))) as [Hmore|Hall]; cbv iota.
  - rewrite take_take. replace (n `min` S n)%nat with n by lia. destruct (last_is_Some_length (take n l)) as [c Hc]; [rewrite length_take; lia|].
    rewrite Hc. split; cbn [fp_entries fp_next].
    + by apply strongly_sorted_take.
    + rewrite length_take. lia.
    + intros c' [= <-]. rewrite Hc, length_take. split; [done|lia].
    + intros e. pose proof (elem_of_take_sorted l n c Hs Hc e) as Hiff. rewrite Hiff, Hl. split; intros [He Hle]; (split; [done|]).
      * by intros c' [= <-].
      * by apply Hle.
  - rewrite take_ge by lia. split; cbn [fp_entries fp_next]; [done|lia|done|]. intros e. rewrite Hl. naive_solver.
Qed.

Lemma find_query_limit pattern kind min_size max_size modified_after modified_before cursor limit q :
  find_query pattern kind min_size max_size modified_after modified_before cursor limit = Ok q → 0 < fq_limit q.
Proof.
  unfold find_query. intros H. do 8 (apply result_bind_Ok in H as (? & ? & H)).
  match goal with H : RequiredPositiveInteger limit = Ok ?n |- _ => assert (Hpos : 0 < n)
    by (unfold RequiredPositiveInteger in H; destruct limit; try done; destruct (Z.leb_spec z 0); [done|by injection H as <-]) end.
  do 7 (case_match; [done|]). case_match; [by injection H as <-|]. apply result_bind_Ok in H as (? & ? & H). case_match; [by injection H as <-|done].
Qed.

Lemma run_calls_tidy cs : ∀ d, tidy d → tidy (run_calls cs d).
Proof. induction cs as [|c cs IH]; intros d Hd; [done|]. apply IH. by apply run_call_tidy. Qed.
Lemma calls_forest cs : ∀ d, forest d → forest (run_calls cs d).
Proof. induction cs as [|c cs IH]; intros d Hd; [done|]. apply IH. by apply run_call_forest. Qed.

(** C15: [find] lists the tree. In any database that calls have made, a search with valid
    arguments below an existing path returns, whatever the depth of the tree, and its page
    is right: the entries are in strict order of their paths, at most [limit] of them, and
    they are exactly the paths that resolve below the given one and pass the filters and
    the pattern, up to the cursor when there is one; the cursor is the last path of a full
    page, so the search that starts there lists the rest. *)
Theorem find_lists_tree cs now workspace path pattern kind min_size max_size modified_after modified_before cursor limit w ps root q :
  let d := run_calls cs (empty_db now) in
  FindWorkspace workspace d = Ok w → PathParts path = Ok ps → Resolve w ps d = Ok root →
  find_query pattern kind min_size max_size modified_after modified_before cursor limit = Ok q →
  ∃ page, FindFunction (Some workspace) (Some path) pattern kind min_size max_size modified_after modified_before cursor limit d = (Ok page, d) ∧
    page_of w ps q d page.
Proof.
  intros d Hw Hp Hr Hq. destruct (find_page_lists w ps root q d) as (page & Hpage & Hspec).
  - apply calls_forest, empty_forest.
  - apply run_calls_tidy, empty_tidy.
  - done.
  - by eapply path_parts_valid.
  - by eapply find_query_limit.
  - exists page. split; [|done]. unfold FindFunction, mbind, M_bind, lift, query. cbn [RequiredText]. by rewrite Hw, Hp, Hr, Hq, Hpage.
Qed.

Definition found_calls : list call :=
  [ CWorkspaceCreate 0 0 (Some (str "w")); CMkdir 0 0 (Some (str "w")) (Some (str "/a/b"));
    CWrite 0 0 (Some (str "w")) (Some (str "/a/b/x.txt")) (Some (str "one"));
    CWrite 0 0 (Some (str "w")) (Some (str "/a/y.txt")) (Some (str "two"));
    CWrite 0 0 (Some (str "w")) (Some (str "/z.txt")) (Some (str "three")) ].
Definition found_db : Db := run_calls found_calls (empty_db 5000).
Definition found_workspace : Workspace := match FindWorkspace (str "w") found_db with Ok w => w | Throw _ => mkWorkspace 0 0 0 end.
Definition found_root : Node := match Resolve found_workspace [str "a"] found_db with Ok node => node | Throw _ => fresh_node 0 KFile 0 end.
Definition text_query (cursor : bytes) : FindQuery := mkFindQuery (str "*.txt") (Some KFile) (-1) (-1) (-1) (-1) cursor 1.

Definition text_search (cursor : option (option bytes)) : M FindPage :=
  FindFunction (Some (str "w")) (Some (str "/a")) (Some (Some (str "*.txt"))) (Some (Some (str "file"))) VNull VNull VNull VNull cursor (VInteger 1).
Definition shown (r : sql FindPage) : sql (list bytes * option bytes) :=
  match r with Ok page => Ok (fe_path <$> fp_entries page, fp_next page) | Throw e => Throw e end.

(** The text files below [/a], one to a page. *)
Lemma text_pages : shown (text_search None found_db).1 = Ok ([str "/a/b/x.txt"], Some (str "/a/b/x.txt")) ∧
  shown (text_search (Some (Some (str "/a/b/x.txt"))) found_db).1 = Ok ([str "/a/y.txt"], None).
Proof. vm_compute. done. Qed.

Lemma found_resolves : FindWorkspace (str "w") found_db = Ok found_workspace ∧ Resolve found_workspace [str "a"] found_db = Ok found_root ∧ n_kind found_root = KDirectory.
Proof. vm_compute. done. Qed.

Lemma find_lists_tree_witness : ∃ page, text_search None found_db = (Ok page, found_db) ∧ page_of found_workspace [str "a"] (text_query []) found_db page.
Proof.
  exact (find_lists_tree found_calls 5000 (str "w") (str "/a") (Some (Some (str "*.txt"))) (Some (Some (str "file"))) VNull VNull VNull VNull None (VInteger 1)
    found_workspace [str "a"] found_root (text_query []) (proj1 found_resolves) eq_refl (proj1 (proj2 found_resolves)) eq_refl).
Defined.
