(* ===== verification/VexfsGrep.v ===== *)
(** * Searching contents

    [GrepFunction] of [src/vexdb_sqlite/src/agent_files/vexfs_sqlite.cpp]: the files below
    a path, read and searched line by line. The rows come from a walk of the tree or, when
    the content index is available and the pattern has three characters, from the index.
    What the index matches is SQLite's [fts5] and a parameter; every file it names is
    searched like the others. Rows that the code reads in any order are in the order of
    the model's maps. *)
From Stdlib Require Import ZArith Lia String.
From stdpp Require Import prelude gmap sorting.
From S2P Require Import Prelude Sha256 VexfsText VexfsTextFacts VexfsDb VexfsTree VexfsStore VexfsGrepIndex VexfsStaging VexfsHandles VexfsNames VexfsMetadata VexfsHistory VexfsSnapshots VexfsRetention VexfsSessions VexfsService VexfsForest VexfsForestOps VexfsForestTop VexfsRename VexfsTidy VexfsTreeWalk VexfsReports VexfsFind.

Local Open Scope Z_scope.
Implicit Types d : Db.

Definition kMaxGrepResults : Z := 10 * 1024.
Definition kMaxGrepPatternBytes : Z := 4 * 1024.

(** ** The rows *)

(** A file to search: its path, inode, version, size and checksum. *)
Record GrepFile := mkGrepFile { gf_path : bytes; gf_inode : Z; gf_version : Z; gf_size : Z; gf_checksum : bytes }.

Definition grep_file (path : bytes) (i : Z) (d : Db) : option GrepFile :=
  r ← inodes d !! i;
  v ← file_versions d !! (i, i_version r);
  if live r && bool_decide (i_kind r = KFile) then Some (mkGrepFile path i (i_version r) (i_size r) (v_checksum v)) else None.

Definition is_directory (i : Z) (d : Db) : bool :=
  match inodes d !! i with Some r => bool_decide (i_kind r = KDirectory) | None => false end.

(** The recursive query [tree], a level at a time; [None] when the fuel runs out. *)
Fixpoint scan_rows (fuel : nat) (ws : Z) (level : list (bytes * Z)) (d : Db) : option (list (bytes * Z)) :=
  match level, fuel with
  | [], _ => Some []
  | _, O => None
  | _, S fuel =>
    rest ← scan_rows fuel ws (row ← filter (λ row, is_directory row.2 d = true) level; below ws row d) d;
    Some (level ++ rest)
  end.

Definition scan_files (ws root : Z) (root_path : bytes) (d : Db) : option (list GrepFile) :=
  match inodes d !! root with
  | Some r =>
    if (i_workspace r =? ws) && live r then
      match scan_rows (S (S (size (dentries d)))) ws [(root_path, root)] d with
      | None => None
      | Some rows => Some (omap (λ '(path, i), grep_file path i d) rows)
      end
    else Some []
  | None => Some []
  end.

(** The rows [ancestors]: the file, the directory the path starts in, and the path. *)
Definition entries_to (ws i : Z) (d : Db) : list (Z * bytes) :=
  omap (λ '((w, p, n), j), if (w =? ws) && (j =? i) then Some (p, n) else None) (map_to_list (dentries d)).
Fixpoint ancestor_rows (fuel : nat) (ws root : Z) (level : list (Z * Z * bytes)) (d : Db) : list (Z * Z * bytes) :=
  match fuel with
  | O => level
  | S fuel =>
    level ++ ancestor_rows fuel ws root
      ('(i, parent, path) ← filter (λ x, x.1.2 ≠ root) level; (λ '(p, n), (i, p, n ++ slash :: path)) <$> entries_to ws parent d) d
  end.

(** [substr(path,1,length(root_path)+1)=root_path||'/'] counts characters; as a slash ends
    a character this is a prefix of bytes. *)
Definition path_below (root_path path : bytes) : bool :=
  bool_decide (root_path = [slash]) || bool_decide (path = root_path) || bool_decide (root_path ++ [slash] `prefix_of` path).

Definition indexed_rows (ws root : Z) (root_path : bytes) (candidates : list Z) (d : Db) : list GrepFile :=
  let start := i ← candidates; (λ '(p, n), (i, p, n)) <$> entries_to ws i d in
  omap (λ '(i, parent, path), if (parent =? root) && path_below root_path (slash :: path) then grep_file (slash :: path) i d else None)
    (ancestor_rows 1023 ws root start d).

(** ** The lines *)

Fixpoint until_newline (l : bytes) : bytes * option bytes :=
  match l with
  | [] => ([], None)
  | c :: l => if c =? 10 then ([], Some l) else let '(line, rest) := until_newline l in (c :: line, rest)
  end.

Record GrepMatch := mkGrepMatch { gm_path : bytes; gm_line : Z; gm_text : bytes }.

(** What is searched for. *)
Record GrepQuery := mkGrepQuery { gq_pattern : bytes; gq_ignore_case : bool; gq_files_only : bool; gq_limit : Z }.

(** The lines of one file; true when the limit has been reached. *)
Fixpoint grep_lines (fuel : nat) (q : GrepQuery) (path rest : bytes) (line_number : Z) (matches : list GrepMatch) : list GrepMatch * bool :=
  match rest, fuel with
  | [], _ | _, O => (matches, false)
  | _, S fuel =>
    let '(line, next) := until_newline rest in
    let found := LineContains line (gq_pattern q) (gq_ignore_case q) in
    let matches := if found then matches ++ [mkGrepMatch path line_number line] else matches in
    if found && (Z.of_nat (length matches) =? gq_limit q) then (matches, true)
    else if found && gq_files_only q then (matches, false)
    else match next with None => (matches, false) | Some rest => grep_lines fuel q path rest (line_number + 1) matches end
  end.

Record GrepReport := mkGrepReport {
  gp_matches : list GrepMatch;
  gp_files_scanned : Z;
  gp_bytes_scanned : Z;
  gp_binary_files_skipped : Z;
  gp_index_used : bool;
  gp_truncated : bool;
}.

Fixpoint grep_files (q : GrepQuery) (files : list GrepFile) (report : GrepReport) (d : Db) : sql GrepReport :=
  match files with
  | [] => Ok report
  | f :: files =>
    if (gf_size f <? 0) || (kMaxStagedBytes <? gf_size f) then Throw SQLITE_CORRUPT
    else
      match ReadVersionContent (gf_inode f) (gf_version f) d with
      | Throw e => Throw e
      | Ok content =>
        if negb (zlength content =? gf_size f) || negb (IsSha256 (gf_checksum f)) then Throw SQLITE_CORRUPT
        else
          let scanned := gp_files_scanned report + 1 in
          let bytes := gp_bytes_scanned report + gf_size f in
          if negb (IsUtf8Text content) then
            grep_files q files (mkGrepReport (gp_matches report) scanned bytes (gp_binary_files_skipped report + 1) (gp_index_used report) false) d
          else
            let '(matches, truncated) := grep_lines (length content) q (gf_path f) content 1 (gp_matches report) in
            let report := mkGrepReport matches scanned bytes (gp_binary_files_skipped report) (gp_index_used report) truncated in
            if truncated then Ok report else grep_files q files report d
      end
  end.

(** ** The function *)

(** Characters of a pattern that is text: bytes that do not continue one. *)
Definition pattern_characters (pattern : bytes) : nat :=
  if IsUtf8Text pattern then length (filter (λ c, negb (Z.land c 0xc0 =? 0x80) = true) pattern) else 0.

Definition quoted (pattern : bytes) : bytes :=
  34 :: (pattern ≫= λ c, if c =? 34 then [34; 34] else [c]) ++ [34].

Definition grep_query (pattern : option bytes) (flags limit : sqlite_value) : sql GrepQuery :=
  result_bind (RequiredText pattern) (λ text,
  result_bind (RequiredNonnegativeInteger flags) (λ bits,
  result_bind (RequiredPositiveInteger limit) (λ count,
  if bool_decide (text = []) || (kMaxGrepPatternBytes <? zlength text) then Throw SQLITE_RANGE
  else if negb (Z.land bits (Z.lnot 3) =? 0) then Throw SQLITE_RANGE
  else if kMaxGrepResults <? count then Throw SQLITE_RANGE
  else Ok (mkGrepQuery text (negb (Z.land bits 1 =? 0)) (negb (Z.land bits 2 =? 0)) count)))).

Definition index_used (q : GrepQuery) (d : Db) : bool :=
  match grep_index d with kAvailable => (3 <=? pattern_characters (gq_pattern q))%nat | _ => false end.

Section Grep.

(** The rows of the index that a query matches. *)
Context (fts_match : bytes → gmap Z fts_row → list Z).

Definition grep_rows (w : Workspace) (parts : list bytes) (root : Node) (q : GrepQuery) (d : Db) : option (list GrepFile) :=
  if index_used q d
  then Some (indexed_rows (ws_id w) (ws_root w) (CanonicalPath parts) (fts_match (quoted (gq_pattern q)) (content_fts d)) d)
  else scan_files (ws_id w) (n_id root) (CanonicalPath parts) d.

Definition GrepFunction (workspace path pattern : option bytes) (flags limit : sqlite_value) : M GrepReport :=
  name ← lift (RequiredText workspace);
  w ← query (FindWorkspace name);
  path ← lift (RequiredText path);
  parts ← lift (PathParts path);
  root ← query (Resolve w parts);
  q ← lift (grep_query pattern flags limit);
  query (λ d,
    match grep_rows w parts root q d with
    | None => Throw SQLITE_ERROR
    | Some files => grep_files q files (mkGrepReport [] 0 0 0 (index_used q d) false) d
    end).

End Grep.

(** ** The files of a walk *)

Section Scan.

Context (d : Db) (w : Workspace) (ps : list bytes) (root : Node).
Context (Hforest : forest d) (Htidy : tidy d) (Hroot : Resolve w ps d = Ok root) (Hps : Forall valid_part ps).

Definition node_at_depth (k : nat) (x : bytes * Z) : Prop :=
  ∃ qs node, length qs = k ∧ x = (CanonicalPath (ps ++ qs), n_id node) ∧ resolve_from (ws_id w) root qs d = Some node.

Lemma elem_of_below_row x y : y ∈ below (ws_id w) x d ↔
  ∃ n, dentries d !! (ws_id w, x.2, n) = Some y.2 ∧ is_live y.2 d = true ∧ y.1 = child_path x.1 n.
Proof.
  unfold below. rewrite list_elem_of_omap. split.
  - intros ([[[v p] n] i] & Hin%elem_of_map_to_list & Hif). destruct (Z.eqb_spec v (ws_id w)) as [->|]; [|done].
    destruct (Z.eqb_spec p x.2) as [->|]; [|done]. destruct (is_live i d) eqn:E; [|done]. injection Hif as <-. by exists n.
  - intros (n & Hin%elem_of_map_to_list & Hl & Hy). eexists. split; [exact Hin|]. simpl. rewrite !Z.eqb_refl, Hl. simpl. destruct y. simpl in *. congruence.
Qed.

(** A level of the walk leads to the next. *)
Lemma next_depth k y : (∃ x, y ∈ below (ws_id w) x d ∧ is_directory x.2 d = true ∧ node_at_depth k x) ↔ node_at_depth (S k) y.
Proof.
  split.
  - intros (x & (n & Hn & Hl & Hy)%elem_of_below_row & Hd & (qs & node & Hk & -> & Hq)). simpl in *.
    destruct (below_row d w ps root Htidy Hroot Hps qs node Hq) as (r & Hr & Hx & _ & _). unfold is_directory in Hd. rewrite Hr in Hd. apply bool_decide_eq_true in Hd.
    unfold is_live in Hl. destruct (inodes d !! y.2) as [s|] eqn:Hs; [|done]. exists (qs ++ [n]), (node_of y.2 s). rewrite length_app. simpl.
    split_and!; [lia| |].
    + destruct y as [path i]. simpl in *. f_equal. rewrite app_assoc, canonical_snoc by (by eapply below_valid). done.
    + apply resolve_from_snoc_iff. exists node. split_and!; [done|by rewrite Hx|]. unfold FindChild. rewrite Hn. simpl. rewrite Hs. simpl. by rewrite Hl.
  - intros (qs & node & Hk & -> & Hq). destruct qs as [|n qs _] using rev_ind; [done|]. rewrite length_app in Hk. simpl in Hk.
    pose proof Hq as (p & Hp & Hkp & (Hn & r & Hr & Hl & _)%find_child_inv)%resolve_from_snoc_iff.
    destruct (below_row d w ps root Htidy Hroot Hps qs p Hp) as (s & Hs & Hxs & _ & _).
    exists (CanonicalPath (ps ++ qs), n_id p). split_and!.
    + apply elem_of_below_row. exists n. simpl. split_and!; [done|by unfold is_live; rewrite Hr|]. rewrite app_assoc, canonical_snoc by (by eapply below_valid). done.
    + unfold is_directory. simpl. rewrite Hs. rewrite Hxs in Hkp. simpl in Hkp. by apply bool_decide_eq_true.
    + exists qs, p. split_and!; [lia|done|done].
Qed.

Lemma scan_rows_depth fuel : ∀ k level, (S (size (dentries d)) < k + fuel)%nat → (∀ x, x ∈ level ↔ node_at_depth k x) →
  ∃ rows, scan_rows fuel (ws_id w) level d = Some rows ∧ ∀ x, x ∈ rows ↔ ∃ j, (k ≤ j)%nat ∧ node_at_depth j x.
Proof.
  assert (Hdepth : ∀ k x, node_at_depth k x → (k ≤ size (dentries d))%nat).
  { intros k x (qs & node & <- & _ & Hq). eapply chain_short; [done|]. by eapply below_steps. }
  induction fuel as [|fuel IH]; intros k level Hfuel Hl.
  - assert (level = []) as ->.
    { destruct level as [|x level]; [done|]. pose proof (Hdepth k x (proj1 (Hl x) ltac:(left))). lia. }
    exists []. split; [done|]. intros x. split; [by intros ?%not_elem_of_nil|]. intros (j & Hj & Hx%Hdepth). lia.
  - set (next := row ← filter (λ row, is_directory row.2 d = true) level; below (ws_id w) row d).
    destruct (IH (S k) next) as (rest & Hrest & Hin); [lia| |].
    { intros y. rewrite <- next_depth. unfold next. rewrite list_elem_of_bind. setoid_rewrite list_elem_of_filter. setoid_rewrite Hl. naive_solver. }
    assert (Hrows : scan_rows (S fuel) (ws_id w) level d = Some (level ++ rest)).
    { destruct level as [|x0 level0] eqn:El; [|cbn [scan_rows]; fold next; by rewrite Hrest]. unfold next in Hrest. destruct fuel; injection Hrest as <-; done. }
    exists (level ++ rest). split; [done|]. intros x. rewrite elem_of_app, Hl, Hin. split.
    + intros [Hx|(j & Hj & Hx)]; [exists k|exists j]; (split; [lia|done]).
    + intros (j & Hj & Hx). destruct (decide (j = k)) as [->|]; [by left|right; exists j; split; [lia|done]].
Qed.

(** The files are those whose paths resolve below the one that is searched. *)
Lemma scan_files_found : ∃ files, scan_files (ws_id w) (n_id root) (CanonicalPath ps) d = Some files ∧
  ∀ f, f ∈ files ↔ ∃ qs x v, Resolve w (ps ++ qs) d = Ok x ∧ n_kind x = KFile ∧ file_versions d !! (n_id x, n_version x) = Some v ∧
    f = mkGrepFile (CanonicalPath (ps ++ qs)) (n_id x) (n_version x) (n_size x) (v_checksum v).
Proof.
  destruct (below_row d w ps root Htidy Hroot Hps [] root eq_refl) as (r & Hr & Hx & Hw & Hl). unfold scan_files. rewrite Hr, Hw, Z.eqb_refl, Hl. cbn [andb].
  destruct (scan_rows_depth (S (S (size (dentries d)))) 0 [(CanonicalPath ps, n_id root)]) as (rows & -> & Hin); [lia| |].
  { intros x. rewrite list_elem_of_singleton. split.
    - intros ->. exists [], root. by rewrite app_nil_r.
    - intros ([|] & node & [=] & -> & [= <-]). by rewrite app_nil_r. }
  simpl. eexists. split; [done|]. intros f. rewrite list_elem_of_omap. split.
  - intros ([path i] & (j & _ & (qs & x & _ & [= -> ->] & Hq))%Hin & Hf).
    destruct (below_row d w ps root Htidy Hroot Hps qs x Hq) as (s & Hs & Hxs & _ & Hls). unfold grep_file in Hf. rewrite Hs in Hf. simpl in Hf.
    destruct (file_versions d !! (n_id x, i_version s)) as [v|] eqn:Hv; [|done]. simpl in Hf. rewrite Hls in Hf. simpl in Hf.
    destruct (bool_decide_reflect (i_kind s = KFile)) as [Hk|]; [|done]. injection Hf as <-. exists qs, x, v.
    split_and!; [by apply (resolve_app w ps qs d root x Hroot)|by rewrite Hxs|by rewrite Hxs|by rewrite Hxs].
  - intros (qs & x & v & Hres & Hk & Hv & ->). apply (resolve_app w ps qs d root x Hroot) in Hres. exists (CanonicalPath (ps ++ qs), n_id x). split.
    + apply Hin. exists (length qs). split; [lia|]. by exists qs, x.
    + destruct (below_row d w ps root Htidy Hroot Hps qs x Hres) as (s & Hs & Hxs & _ & Hls). unfold grep_file. rewrite Hs. simpl.
      rewrite Hxs in Hk, Hv |- *. simpl in *. rewrite Hv. simpl. by rewrite Hls, bool_decide_eq_true_2.
Qed.

End Scan.

(** ** The lines of a content *)

(** The pieces between newlines; what follows the last newline is a line unless empty. *)
Fixpoint lines_of (content : bytes) : list bytes :=
  match content with
  | [] => []
  | c :: content =>
    if c =? 10 then [] :: lines_of content
    else match lines_of content with [] => [[c]] | line :: lines => (c :: line) :: lines end
  end.

Lemma lines_of_step content line next : content ≠ [] → until_newline content = (line, next) →
  lines_of content = line :: match next with None => [] | Some rest => lines_of rest end.
Proof.
  revert line next. induction content as [|c content IH]; intros line next Hne Hrun; [done|]. cbn [until_newline lines_of] in *.
  destruct (c =? 10); [by injection Hrun as <- <-|]. destruct (until_newline content) as [l r] eqn:E. injection Hrun as <- <-.
  destruct content as [|c' content]; [by injection E as <- <-|]. by rewrite (IH l r).
Qed.

Lemma until_newline_shorter content line rest : until_newline content = (line, Some rest) → (length rest < length content)%nat.
Proof.
  revert line. induction content as [|c content IH]; intros line Hrun; [done|]. cbn [until_newline] in Hrun.
  destruct (c =? 10); [injection Hrun as _ <-; simpl; lia|]. destruct (until_newline content) as [l r] eqn:E. injection Hrun as _ ->.
  specialize (IH l eq_refl). simpl. lia.
Qed.

(** The lines that match, from line [n] on. *)
Fixpoint hits (q : GrepQuery) (path : bytes) (n : Z) (lines : list bytes) : list GrepMatch :=
  match lines with
  | [] => []
  | line :: lines =>
    (if LineContains line (gq_pattern q) (gq_ignore_case q) then [mkGrepMatch path n line] else []) ++ hits q path (n + 1) lines
  end.

Lemma elem_of_hits q path lines m : ∀ n, m ∈ hits q path n lines ↔
  ∃ k line, lines !! k = Some line ∧ LineContains line (gq_pattern q) (gq_ignore_case q) = true ∧ m = mkGrepMatch path (n + Z.of_nat k) line.
Proof.
  induction lines as [|line lines IH]; intros n; cbn [hits]; [split; [by intros ?%not_elem_of_nil|by intros ([|] & ? & [=] & _)]|].
  rewrite elem_of_app, IH. split.
  - intros [Hm|(k & l & Hk & Hc & ->)].
    + destruct (LineContains line _ _) eqn:E; [|by apply not_elem_of_nil in Hm]. apply list_elem_of_singleton in Hm as ->.
      exists 0%nat, line. split_and!; [done|done|]. f_equal. lia.
    + exists (S k), l. split_and!; [done|done|]. f_equal. lia.
  - intros ([|k] & l & Hk & Hc & ->); simpl in Hk.
    + injection Hk as ->. left. rewrite Hc. apply list_elem_of_singleton. f_equal. lia.
    + right. exists k, l. split_and!; [done|done|]. f_equal. lia.
Qed.

(** The loop adds the first matching lines: all of them, unless it stops at the limit or
    after the first. *)
Lemma grep_lines_hits q path fuel : ∀ rest n acc ms truncated, (length rest ≤ fuel)%nat →
  grep_lines fuel q path rest n acc = (ms, truncated) →
  ∃ l, ms = acc ++ l ∧ l `prefix_of` hits q path n (lines_of rest) ∧ (truncated = true → Z.of_nat (length ms) = gq_limit q) ∧
    (truncated = false → gq_files_only q = false → l = hits q path n (lines_of rest)).
Proof.
  assert (Hnil : ∀ n acc, (acc, false) = (acc, false) → ∃ l, acc = acc ++ l ∧ l `prefix_of` hits q path n [] ∧
    (false = true → Z.of_nat (length acc) = gq_limit q) ∧ (false = false → gq_files_only q = false → l = hits q path n [])).
  { intros n acc _. exists []. rewrite app_nil_r. by split_and!. }
  induction fuel as [|fuel IH]; intros rest n acc ms truncated Hfuel Hrun; destruct rest as [|c rest]; cbn [grep_lines] in Hrun.
  1, 3: injection Hrun as <- <-; by apply Hnil.
  - simpl in Hfuel. lia.
  - destruct (until_newline (c :: rest)) as [line next] eqn:Hline. rewrite (lines_of_step (c :: rest) line next) by done. cbn [hits].
    assert (Hnext : ∀ acc', match next with None => (acc', false) | Some rest => grep_lines fuel q path rest (n + 1) acc' end = (ms, truncated) →
      ∃ l, ms = acc' ++ l ∧ l `prefix_of` hits q path (n + 1) (match next with None => [] | Some rest => lines_of rest end) ∧
        (truncated = true → Z.of_nat (length ms) = gq_limit q) ∧
        (truncated = false → gq_files_only q = false → l = hits q path (n + 1) (match next with None => [] | Some rest => lines_of rest end))).
    { intros acc' Hrun'. destruct next as [rest'|]; [|injection Hrun' as <- <-; by apply Hnil].
      apply until_newline_shorter in Hline. simpl in Hline, Hfuel. eapply IH; [lia|exact Hrun']. }
    destruct (LineContains line (gq_pattern q) (gq_ignore_case q)); cbn [andb app] in *; [|by apply Hnext].
    destruct (Z.eqb_spec (Z.of_nat (length (acc ++ [mkGrepMatch path n line]))) (gq_limit q)) as [Hlim|].
    { injection Hrun as <- <-. exists [mkGrepMatch path n line]. split_and!; [done|by apply prefix_cons, prefix_nil|done|done]. }
    destruct (gq_files_only q) eqn:Hfo.
    { injection Hrun as <- <-. exists [mkGrepMatch path n line]. split_and!; [done|by apply prefix_cons, prefix_nil|done|done]. }
    destruct (Hnext _ Hrun) as (l & -> & Hpre & Hlen & Hall). exists (mkGrepMatch path n line :: l). rewrite <- app_assoc in *.
    split_and!; [done|by apply prefix_cons|done|]. intros Ht Hf. by rewrite Hall.
Qed.

(** ** The matches *)

(** A line of a file that the search is for. *)
Definition in_file (q : GrepQuery) (d : Db) (f : GrepFile) (m : GrepMatch) : Prop :=
  ∃ content, ReadVersionContent (gf_inode f) (gf_version f) d = Ok content ∧ IsUtf8Text content = true ∧ m ∈ hits q (gf_path f) 1 (lines_of content).

Lemma grep_files_matches q d files : ∀ report report', gp_truncated report = false → grep_files q files report d = Ok report' →
  (∀ m, m ∈ gp_matches report' → m ∈ gp_matches report ∨ ∃ f, f ∈ files ∧ in_file q d f m) ∧
  (gp_truncated report' = true → Z.of_nat (length (gp_matches report')) = gq_limit q) ∧
  (∀ m, m ∈ gp_matches report → m ∈ gp_matches report') ∧
  (gp_truncated report' = false → gq_files_only q = false → ∀ m f, f ∈ files → in_file q d f m → m ∈ gp_matches report').
Proof.
  induction files as [|f files IH]; intros report report' Ht Hrun; cbn [grep_files] in Hrun.
  { injection Hrun as <-. split_and!; [by left|by rewrite Ht|done|by intros _ _ m f ?%not_elem_of_nil]. }
  destruct (_ || _); [done|]. destruct (ReadVersionContent (gf_inode f) (gf_version f) d) as [content|] eqn:Hread; [|done].
  destruct (_ || _); [done|]. destruct (IsUtf8Text content) eqn:Htext; cbn [negb] in Hrun; cbv zeta in Hrun.
  - destruct (grep_lines (length content) q (gf_path f) content 1 (gp_matches report)) as [ms t] eqn:Hlines.
    destruct (grep_lines_hits _ _ _ _ _ _ _ _ (le_n _) Hlines) as (l & -> & Hpre & Hlim & Hall).
    assert (Hsound : ∀ m, m ∈ l → in_file q d f m).
    { intros m Hm. exists content. split_and!; [done|done|]. destruct Hpre as [k ->]. apply elem_of_app. by left. }
    destruct t.
    + injection Hrun as <-. cbn [gp_matches gp_truncated] in *. split_and!; [|by intros _; apply Hlim|by intros m; rewrite elem_of_app; left|done].
      intros m [Hm|Hm]%elem_of_app; [by left|right]. exists f. split; [left|by apply Hsound].
    + apply IH in Hrun as (H1 & H2 & H3 & H4); [|done]. cbn [gp_matches] in *. split_and!; [|done| |].
      * intros m [[Hm|Hm]%elem_of_app|(g & Hg & Hm)]%H1; [by left| |]; right; [exists f; split; [left|by apply Hsound]|exists g; split; [by right|done]].
      * intros m Hm. apply H3, elem_of_app. by left.
      * intros Hf Hfo m g [->|Hg]%elem_of_cons Hm; [|by eapply H4]. apply H3, elem_of_app. right. rewrite (Hall eq_refl Hfo).
        destruct Hm as (content' & Hc & _ & Hm). rewrite Hread in Hc. by injection Hc as <-.
  - apply IH in Hrun as (H1 & H2 & H3 & H4); [|done]. cbn [gp_matches] in *. split_and!; [|done|done|].
    + intros m [Hm|(g & Hg & Hm)]%H1; [by left|right; exists g; split; [by right|done]].
    + intros Hf Hfo m g [->|Hg]%elem_of_cons Hm; [|by eapply H4]. destruct Hm as (content' & Hc & Htext' & _). rewrite Hread in Hc. injection Hc as <-. congruence.
Qed.

(** The line [m] of a text file below the path [ps] that contains the pattern. *)
Definition matching (w : Workspace) (ps : list bytes) (q : GrepQuery) (d : Db) (m : GrepMatch) : Prop :=
  ∃ qs x content k line, Resolve w (ps ++ qs) d = Ok x ∧ n_kind x = KFile ∧ ReadVersionContent (n_id x) (n_version x) d = Ok content ∧
    IsUtf8Text content = true ∧ lines_of content !! k = Some line ∧ LineContains line (gq_pattern q) (gq_ignore_case q) = true ∧
    m = mkGrepMatch (CanonicalPath (ps ++ qs)) (Z.of_nat k + 1) line.

Lemma read_version_row i n d content : ReadVersionContent i n d = Ok content → ∃ v, file_versions d !! (i, n) = Some v.
Proof. unfold ReadVersionContent, ResolveVersionStorage. destruct (file_versions d !! (i, n)); [eauto|done]. Qed.

(** C16: [grep] without the index finds the lines. In any database that calls have made, a
    search that returns has changed nothing and reports only lines of text files below the
    path that contain the pattern, each with its path and number. When it has not stopped
    at the limit, and is not asked for one line per file, it reports all of them; when it
    has stopped, it reports as many as the limit says. *)
Theorem grep_finds_lines fts_match cs now workspace path pattern flags limit w ps root q report d' :
  let d := run_calls cs (empty_db now) in
  FindWorkspace workspace d = Ok w → PathParts path = Ok ps → Resolve w ps d = Ok root → grep_query pattern flags limit = Ok q → index_used q d = false →
  GrepFunction fts_match (Some workspace) (Some path) pattern flags limit d = (Ok report, d') →
  d' = d ∧ (∀ m, m ∈ gp_matches report → matching w ps q d m) ∧
  (gp_truncated report = false → gq_files_only q = false → ∀ m, matching w ps q d m → m ∈ gp_matches report) ∧
  (gp_truncated report = true → Z.of_nat (length (gp_matches report)) = gq_limit q).
Proof.
  intros d Hw Hp Hr Hq Hindex Hrun. unfold GrepFunction, mbind, M_bind, lift, query in Hrun. cbn [RequiredText] in Hrun.
  rewrite Hw, Hp, Hr, Hq in Hrun. injection Hrun as Hrun <-. unfold grep_rows in Hrun. rewrite Hindex in Hrun.
  destruct (scan_files_found d w ps root (calls_forest cs _ (empty_forest now)) (run_calls_tidy cs _ (empty_tidy now)) Hr (path_parts_valid _ _ Hp)) as (files & Hfiles & Hin).
  rewrite Hfiles in Hrun. apply grep_files_matches in Hrun as (Hsound & Hlim & _ & Hcomplete); [|done]. split_and!; [done| | |done].
  - intros m [Hm%not_elem_of_nil|(f & (qs & x & v & Hx & Hk & Hv & ->)%Hin & (content & Hc & Ht & (k & line & Hline & Hcont & ->)%elem_of_hits))]%Hsound; [done|].
    exists qs, x, content, k, line. split_and!; try done. simpl. f_equal. lia.
  - intros Ht Hfo m (qs & x & content & k & line & Hx & Hk & Hc & Hu & Hline & Hcont & ->). destruct (read_version_row _ _ _ _ Hc) as [v Hv].
    apply (Hcomplete Ht Hfo _ (mkGrepFile (CanonicalPath (ps ++ qs)) (n_id x) (n_version x) (n_size x) (v_checksum v))); [apply Hin; by exists qs, x, v|].
    exists content. split_and!; [done|done|]. apply elem_of_hits. exists k, line. split_and!; [done|done|]. simpl. f_equal. lia.
Qed.

Definition searched_calls : list call :=
  [ CWorkspaceCreate 0 0 (Some (str "w")); CMkdir 0 0 (Some (str "w")) (Some (str "/a"));
    CWrite 0 0 (Some (str "w")) (Some (str "/a/f")) (Some (str "one" ++ 10 :: str "Two" ++ 10 :: str "twofold"));
    CWrite 0 0 (Some (str "w")) (Some (str "/g")) (Some (str "two")) ].
Definition searched_db : Db := run_calls searched_calls (empty_db 5000).
Definition searched_workspace : Workspace := match FindWorkspace (str "w") searched_db with Ok w => w | Throw _ => mkWorkspace 0 0 0 end.
Definition searched_root : Node := match Resolve searched_workspace [str "a"] searched_db with Ok node => node | Throw _ => fresh_node 0 KFile 0 end.
Definition grep_two : M GrepReport := GrepFunction (λ _ _, []) (Some (str "w")) (Some (str "/a")) (Some (str "two")) (VInteger 1) (VInteger 10).
Definition found_report : GrepReport := mkGrepReport [mkGrepMatch (str "/a/f") 2 (str "Two"); mkGrepMatch (str "/a/f") 3 (str "twofold")] 1 15 0 false false.

Lemma searched_result : FindWorkspace (str "w") searched_db = Ok searched_workspace ∧
  Resolve searched_workspace [str "a"] searched_db = Ok searched_root ∧ (grep_two searched_db).1 = Ok found_report.
Proof. vm_compute. done. Qed.

(** Two lines in the file below [/a], ignoring case. *)
Lemma grep_finds_lines_witness : matching searched_workspace [str "a"] (mkGrepQuery (str "two") true false 10) searched_db (mkGrepMatch (str "/a/f") 2 (str "Two")).
Proof.
  destruct (grep_finds_lines (λ _ _, []) searched_calls 5000 (str "w") (str "/a") (Some (str "two")) (VInteger 1) (VInteger 10)
    searched_workspace [str "a"] searched_root (mkGrepQuery (str "two") true false 10) found_report (grep_two searched_db).2
    (proj1 searched_result) eq_refl (proj1 (proj2 searched_result)) eq_refl eq_refl
    (run_state grep_two searched_db (Ok found_report) (proj2 (proj2 searched_result)))) as (_ & H & _).
  apply H. left.
Defined.
