(* ===== verification/VexfsTreeHead.v ===== *)
(** * A commit records the tree

    When everything of a workspace has been committed, [TreeAtCommit] at its head gives
    the tree that [CurrentTree] gives. *)
From Stdlib Require Import ZArith Lia String.
From stdpp Require Import prelude gmap sorting.
From S2P Require Import Prelude Sha256 VexfsText VexfsTextFacts VexfsDb VexfsTree VexfsStore VexfsNames VexfsFrame VexfsForest VexfsForestOps VexfsForestTop VexfsHistory VexfsOrder VexfsTrack VexfsTidy VexfsTreeWalk.

Local Open Scope Z_scope.

(** Rows above which nothing was written. *)
Lemma latest_rows_above {K A} `{Countable K} (t : gmap (K * Z) A) (b b' : Z) k :
  (∀ c, is_Some (t !! (k, c)) → c <= b) → b <= b' → latest_rows t b' !! k = latest_rows t b !! k.
Proof.
  intros Ht Hb. apply option_eq. intros a. rewrite !latest_rows_Some. split; intros (c & Hc & Ha & Hl); exists c.
  - split_and!; [apply Ht; eauto|done|]. intros c' ??. apply Hl; lia.
  - split_and!; [lia|done|]. intros c' ? ?. apply eq_None_not_Some. intros Hs. pose proof (Ht c' Hs). rewrite Hl in Hs by lia. by destruct Hs.
Qed.

Section Head.

Context (w : Workspace) (d : Db) (X : gset Z) (row : workspace_row) (h : Z).
Context (Hs : settled X d) (Hcl : clean (ws_id w) d) (Hf : forest d) (Ht : tidy d).
Context (Hrow : workspaces d !! ws_id w = Some row) (Hroot : ws_root w = int64 (w_root_inode row)) (Hh : w_head_commit row = Some h).
Local Notation ws := (ws_id w).

(** ** The states at the head *)

Lemma head_last : h <= last_commit d.
Proof. by eapply head_le. Qed.

Lemma commit_of_head c : commit_of ws c d → c <= h.
Proof. intros (row' & h' & Hr & Hh' & Hc). simplify_eq. lia. Qed.

Lemma states_at_head {K A} `{Countable K} (t : gmap (K * Z) A) k : (∀ c, is_Some (t !! (k, c)) → commit_of ws c d) →
  latest_rows t h !! k = latest_rows t (last_commit d) !! k.
Proof. intros Hc. symmetry. apply latest_rows_above; [|apply head_last]. intros c Hx. by apply commit_of_head, Hc. Qed.

Lemma nodes_at_head i r : nodes_at ws h d !! i = Some r ↔ inode_in ws i d = Some r ∧ live r = true.
Proof.
  unfold nodes_at. set (l := omap _ _).
  assert (Hl : ∀ i r, (i, r) ∈ l ↔ inode_in ws i d = Some r ∧ live r = true).
  { intros j x. subst l. rewrite list_elem_of_omap. rewrite <- (sd_inodes _ _ Hs) by apply (cl_inodes _ _ Hcl).
    rewrite <- (states_at_head (inode_states d) (ws, j)) by apply (sd_inode_states _ _ Hs). split.
    - intros ([[v j'] x'] & Hin%elem_of_map_to_list & Hif). destruct (Z.eqb_spec v ws) as [->|]; [|done].
      destruct (live x') eqn:E; [|done]. by injection Hif as <- <-.
    - intros [Hin%elem_of_map_to_list Hx]. exists (ws, j, x). by rewrite Z.eqb_refl, Hx. }
  rewrite <- Hl. symmetry. apply elem_of_list_to_map'. intros x' [H1 _]%Hl [H2 _]%Hl. congruence.
Qed.

Lemma entries_at_head p n i : (p, n, i) ∈ entries_at ws h d ↔ dentries d !! (ws, p, n) = Some i.
Proof.
  unfold entries_at. rewrite list_elem_of_omap, <- (sd_dentries _ _ Hs) by apply (cl_dentries _ _ Hcl).
  rewrite <- (states_at_head (dentry_states d) (ws, p, n)) by apply (sd_dentry_states _ _ Hs). split.
  - intros ([[[v q] m] [j del]] & Hin%elem_of_map_to_list & Hif). destruct (Z.eqb_spec v ws) as [->|]; [|done].
    destruct del; [done|]. injection Hif as <- <- <-. by rewrite Hin.
  - destruct (latest_rows _ h !! (ws, p, n)) as [[j []]|] eqn:E; [done| |done]. intros [= ->]. apply elem_of_map_to_list in E.
    eexists. split; [exact E|]. simpl. by rewrite Z.eqb_refl.
Qed.

Lemma entries_at_nodup : NoDup (entries_at ws h d).
Proof.
  unfold entries_at. apply nodup_omap; [|apply NoDup_map_to_list].
  intros [[[v p] n] [i del]] [[[v' p'] n'] [i' del']] [[q m] j]. destruct (Z.eqb_spec v ws), (Z.eqb_spec v' ws), del, del'; naive_solver.
Qed.

Lemma node_inode i r : nodes_at ws h d !! i = Some r → inodes d !! i = Some r ∧ i_workspace r = ws ∧ live r = true.
Proof.
  intros [Hi Hl]%nodes_at_head. unfold inode_in in Hi. destruct (inodes d !! i) as [x|]; [|done]. simpl in Hi.
  destruct (Z.eqb_spec (i_workspace x) ws); [|done]. by injection Hi as ->.
Qed.
Lemma node_kind i r : nodes_at ws h d !! i = Some r → kind_at d i = Some (i_kind r).
Proof. intros (Hi & _)%node_inode. unfold kind_at. by rewrite Hi. Qed.

Lemma head_proper : proper_rows (ws_root w) (nodes_at ws h d) (entries_at ws h d).
Proof.
  split.
  - apply entries_at_nodup.
  - intros p n i i' H1%entries_at_head H2%entries_at_head. congruence.
  - intros p n i r H1%entries_at_head Hr%node_kind. rewrite (fo_parent _ Hf _ _ _ _ H1) in Hr. by injection Hr.
  - intros p n p' n' i r H1%entries_at_head H2%entries_at_head Hr%node_kind Hk. eapply (fo_unique _ Hf); [done..|congruence].
  - intros p n H1%entries_at_head. rewrite Hroot in H1. by apply (fo_root _ Hf _ _ _ _ Hrow) in H1.
  - intros p n i H1%entries_at_head. by eapply td_name.
Qed.

Local Notation reach := (reach (ws_root w) (nodes_at ws h d) (entries_at ws h d)).
Local Notation found := (found (ws_root w) (nodes_at ws h d) (entries_at ws h d)).

(** An entry of the workspace leads to a node exactly when it is live. *)
Lemma live_node p n i : dentries d !! (ws, p, n) = Some i → is_live i d = bool_decide (is_Some (nodes_at ws h d !! i)).
Proof.
  intros Hn. pose proof (td_home _ Ht _ _ _ _ Hn) as Hi. unfold home in Hi. unfold is_live.
  destruct (inodes d !! i) as [r|] eqn:E; [|done]. injection Hi as Hi. destruct (live r) eqn:Hl.
  - rewrite bool_decide_eq_true_2; [done|]. exists r. apply nodes_at_head. split; [|done]. unfold inode_in. rewrite E. simpl. by rewrite Hi, Z.eqb_refl.
  - rewrite bool_decide_eq_false_2; [done|]. intros [x (Hx & _ & Hlx)%node_inode]. congruence.
Qed.

(** ** The recursive query *)

Definition at_depth (k : nat) (x : bytes * Z) : Prop := ∃ ns, length ns = k ∧ x.1 = CanonicalPath ns ∧ reach ns x.2.

Lemma elem_of_below x y : y ∈ below ws x d ↔ ∃ n, dentries d !! (ws, x.2, n) = Some y.2 ∧ is_live y.2 d = true ∧ y.1 = child_path x.1 n.
Proof.
  unfold below. rewrite list_elem_of_omap. split.
  - intros ([[[v p] n] i] & Hin%elem_of_map_to_list & Hif). destruct (Z.eqb_spec v ws) as [->|]; [|done].
    destruct (Z.eqb_spec p x.2) as [->|]; [|done]. destruct (is_live i d) eqn:E; [|done]. injection Hif as <-. by exists n.
  - intros (n & Hin%elem_of_map_to_list & Hl & Hy). eexists. split; [exact Hin|]. simpl. rewrite !Z.eqb_refl, Hl. simpl. destruct y. simpl in *. congruence.
Qed.

Lemma below_depth k x y : at_depth k x → y ∈ below ws x d → at_depth (S k) y.
Proof.
  intros (ns & Hk & Hx & Hn) (n & Hd & Hl & Hy)%elem_of_below. exists (ns ++ [n]). rewrite length_app. simpl. split; [lia|].
  rewrite canonical_snoc by (eapply reach_valid; [apply head_proper|exact Hn]). rewrite <- Hx. split; [done|].
  eapply reach_step; [exact Hn|by apply entries_at_head|]. rewrite (live_node _ _ _ Hd) in Hl. by apply bool_decide_eq_true in Hl.
Qed.
Lemma depth_below k y : at_depth (S k) y → ∃ x, at_depth k x ∧ y ∈ below ws x d.
Proof.
  intros (ns & Hk & Hy & Hn). destruct ns as [|n ns _] using rev_ind; [done|]. rewrite length_app in Hk. simpl in Hk.
  apply reach_snoc in Hn as (p & Hp & Hrow' & Hi). exists (CanonicalPath ns, p). split; [exists ns; split_and!; [lia|done|done]|].
  apply elem_of_below. exists n. apply entries_at_head in Hrow'. simpl. split_and!; [done| |].
  - rewrite (live_node _ _ _ Hrow'). by apply bool_decide_eq_true.
  - rewrite <- canonical_snoc by (eapply reach_valid; [apply head_proper|exact Hp]). done.
Qed.

Lemma depth_unique k k' x : at_depth k x → at_depth k' x → k = k'.
Proof.
  intros (ns & <- & E1 & H1) (ms & <- & E2 & H2). destruct (found_path _ _ _ head_proper ns ms _ _ H1 H2) as [-> _]; congruence.
Qed.

Lemma below_nodup x : NoDup (below ws x d).
Proof.
  unfold below. apply nodup_omap; [|apply NoDup_map_to_list].
  intros [[[v p] n] i] [[[v' p'] n'] i'] [path j] H1 H2.
  destruct (Z.eqb_spec v ws), (Z.eqb_spec p x.2), (is_live i d); simpl in H1; try done.
  destruct (Z.eqb_spec v' ws), (Z.eqb_spec p' x.2), (is_live i' d); simpl in H2; try done. simplify_eq/=. repeat f_equal.
  revert H. unfold child_path. by case_bool_decide; intros; simplify_list_eq.
Qed.

Lemma depth_ends k : (∀ x, ¬ at_depth k x) → ∀ j x, (k ≤ j)%nat → ¬ at_depth j x.
Proof.
  intros Hk j. induction j as [|j IH]; intros x Hj Hx; [assert (k = 0)%nat as -> by lia; exact (Hk x Hx)|].
  destruct (decide (k = S j)) as [->|]; [exact (Hk x Hx)|]. apply depth_below in Hx as (y & Hy & _). exact (IH y ltac:(lia) Hy).
Qed.

Lemma current_rows_depth fuel : ∀ k level, (∀ x, x ∈ level ↔ at_depth k x) → NoDup level →
  NoDup (current_rows fuel ws level d) ∧ ∀ x, x ∈ current_rows fuel ws level d ↔ ∃ j, (k ≤ j ≤ k + fuel)%nat ∧ at_depth j x.
Proof.
  induction fuel as [|fuel IH]; intros k level Hl Hnd.
  - assert (current_rows 0 ws level d = level) as -> by (by destruct level). split; [done|]. intros x. rewrite Hl. split.
    + intros Hx. exists k. split; [lia|done].
    + intros (j & Hj & Hx). by assert (j = k) as -> by lia.
  - destruct level as [|x0 level0] eqn:El.
    { split; [constructor|]. intros x. split; [by intros ?%not_elem_of_nil|]. intros (j & Hj & Hx). exfalso.
      eapply (depth_ends k); [|apply Hj|exact Hx]. intros y. rewrite <- Hl. apply not_elem_of_nil. }
    rewrite <- El in *. set (next := row ← level; below ws row d).
    assert (Hcur : current_rows (S fuel) ws level d = level ++ current_rows fuel ws next d) by (unfold next; by rewrite El).
    assert (Hnext : ∀ x, x ∈ next ↔ at_depth (S k) x).
    { intros x. unfold next. rewrite list_elem_of_bind. split.
      - intros (y & Hy & Hin%Hl). by eapply below_depth.
      - intros (y & Hy & Hb)%depth_below. exists y. by rewrite Hl. }
    destruct (IH (S k) next Hnext) as [IHnd IHin].
    { unfold next. apply NoDup_bind; [|intros; apply below_nodup|done]. intros x1 x2 y H1%Hl H2%Hl (n1 & D1 & _ & E1)%elem_of_below (n2 & D2 & _ & E2)%elem_of_below.
      destruct H1 as (ns & _ & F1 & R1), H2 as (ms & _ & F2 & R2).
      assert (V : Forall valid_part ns ∧ Forall valid_part ms) by (split; (eapply reach_valid; [apply head_proper|done])). destruct V as [V1 V2].
      rewrite F1, <- canonical_snoc in E1 by done. rewrite F2, <- canonical_snoc in E2 by done. rewrite E1 in E2.
      apply canonical_inj in E2 as [-> _]%app_inj_tail; [|apply Forall_app_2; [done|constructor; [by eapply td_name|constructor]]..].
      destruct x1, x2. simpl in *. subst. f_equal. by eapply reach_functional; [apply head_proper|..]. }
    rewrite Hcur. split.
    + apply NoDup_app. split_and!; [done| |done]. intros x Hx%Hl (j & Hj & Hx')%IHin. pose proof (depth_unique _ _ _ Hx Hx'). lia.
    + intros x. rewrite elem_of_app, Hl, IHin. split.
      * intros [Hx|(j & Hj & Hx)]; [exists k|exists j]; (split; [lia|done]).
      * intros (j & Hj & Hx). destruct (decide (j = k)) as [->|]; [by left|right; exists j; split; [lia|done]].
Qed.

(** ** The rows of the two trees *)

Context (Hshallow : ∀ ns i, walk d ws (ws_root w) ns i → (length ns < 1024)%nat).

Lemma reach_walk ns i : reach ns i → walk d ws (ws_root w) ns i.
Proof. induction 1 as [|ns p n i _ IH Hrow' _]; [constructor|]. eapply walk_snoc; [done|by apply entries_at_head]. Qed.
Lemma reach_short ns i : reach ns i → (length ns < 1024)%nat.
Proof. intros Hr%reach_walk. by eapply Hshallow. Qed.

Definition live_rows : list (bytes * Z) := filter (λ row, is_live row.2 d = true) (current_rows 1024 ws [([slash], ws_root w)] d).

Context (Hlive : is_Some (nodes_at ws h d !! ws_root w)).

Lemma found_live x : found x → is_live x.2 d = true.
Proof.
  intros (ns & _ & Hr). destruct (reach_live _ _ _ _ _ Hr) as [r (Hi & _ & Hl)%node_inode]. unfold is_live. by rewrite Hi.
Qed.

Lemma live_rows_found : NoDup live_rows ∧ ∀ x, x ∈ live_rows ↔ found x.
Proof.
  destruct (current_rows_depth 1024 0 [([slash], ws_root w)]) as [Hnd Hin].
  { intros x. rewrite list_elem_of_singleton. split.
    - intros ->. exists []. split_and!; [done|done|by constructor].
    - intros (ns & Hlen & E & Hr). destruct ns; [|done]. apply reach_nil in Hr. destruct x. simpl in *. by subst. }
  { apply NoDup_singleton. }
  unfold live_rows. split; [by apply NoDup_filter|]. intros x. rewrite list_elem_of_filter, Hin. split.
  - intros [_ (j & _ & ns & _ & E & Hr)]. by exists ns.
  - intros Hx. split; [by apply found_live|]. destruct Hx as (ns & E & Hr). exists (length ns).
    split; [pose proof (reach_short _ _ Hr); lia|by exists ns].
Qed.

Lemma not_repeated : repeated_directory live_rows (λ i, i_kind <$> inodes d !! i) = false.
Proof.
  destruct live_rows_found as [Hnd Hin]. unfold repeated_directory. apply not_true_iff_false. rewrite existsb_exists.
  intros ([path i] & _ & Hrep). apply andb_true_iff in Hrep as [Hk%bool_decide_eq_true Hlen%Nat.ltb_lt].
  assert (Hone : ∀ x y, x ∈ filter (λ row, row.2 = i) live_rows → y ∈ filter (λ row, row.2 = i) live_rows → x = y).
  { intros [p1 i1] [p2 i2] [E1 (ns & F1 & R1)%Hin]%list_elem_of_filter [E2 (ms & F2 & R2)%Hin]%list_elem_of_filter. simpl in *. subst.
    destruct (reach_live _ _ _ _ _ R1) as [r Hr]. pose proof (node_kind _ _ Hr) as Hkr. unfold kind_at in Hkr. rewrite Hk in Hkr.
    injection Hkr as Hkr. by rewrite (reach_unique _ _ _ head_proper ns ms _ _ Hr (eq_sym Hkr) R1 R2). }
  pose proof (NoDup_filter (λ row, row.2 = i) live_rows Hnd) as Hnd'. destruct (filter _ live_rows) as [|x [|y l]]; simpl in Hlen; [lia|lia|].
  apply NoDup_cons in Hnd' as [Hx _]. apply Hx. rewrite (Hone x y); set_solver.
Qed.

Lemma tree_of_found (look : Z → option inode_row) l path n : (∀ x, x ∈ l ↔ found x) →
  (list_to_map (omap (λ '(path, i), r ← look i; Some (path, tree_node i r)) l) : SnapshotTree) !! path = Some n ↔
  ∃ i r, found (path, i) ∧ look i = Some r ∧ n = tree_node i r.
Proof.
  intros Hl. set (m := omap _ l).
  assert (Hm : ∀ k a, (k, a) ∈ m ↔ ∃ i r, found (k, i) ∧ look i = Some r ∧ a = tree_node i r).
  { intros k a. subst m. rewrite list_elem_of_omap. split.
    - intros ([k' i] & Hin%Hl & Hif). destruct (look i) as [r|] eqn:E; [|done]. simpl in Hif. injection Hif as -> <-. by exists i, r.
    - intros (i & r & Hin%Hl & E & ->). exists (k, i). by rewrite E. }
  rewrite <- Hm. symmetry. apply elem_of_list_to_map'. intros a' (i & r & (ns & E1 & R1) & Hr & ->)%Hm (j & r' & (ms & E2 & R2) & Hr' & ->)%Hm.
  simpl in *. destruct (found_path _ _ _ head_proper ns ms _ _ R1 R2) as [-> ->]; [congruence|]. congruence.
Qed.

(** ** Attributes and access control *)

Lemma final_Some {A} (o : option (A * bool)) a : final o = Some a ↔ o = Some (a, false).
Proof. destruct o as [[x []]|]; simpl; naive_solver. Qed.

Lemma acl_agree i : acl_list (acl_at ws h i d) = acl_list (current_acl ws i d).
Proof.
  assert (Hat : ∀ p e a, (p, e, a) ∈ acl_at ws h i d ↔ acl_entries d !! (ws, i, p, e) = Some a).
  { intros p e a. unfold acl_at. rewrite list_elem_of_omap, <- (sd_acl _ _ Hs) by apply (cl_acl _ _ Hcl).
    rewrite <- (states_at_head (acl_states d) (ws, i, p, e)) by apply (sd_acl_states _ _ Hs). rewrite final_Some. split.
    - intros ([[[[v j] q] g] [x del]] & Hin%elem_of_map_to_list & Hif). destruct (Z.eqb_spec v ws) as [->|]; [|done].
      destruct (Z.eqb_spec j i) as [->|]; [|done]. destruct del; [done|]. by injection Hif as <- <- <-.
    - intros Hin%elem_of_map_to_list. eexists. split; [exact Hin|]. simpl. by rewrite !Z.eqb_refl. }
  assert (Hcur : ∀ p e a, (p, e, a) ∈ current_acl ws i d ↔ acl_entries d !! (ws, i, p, e) = Some a).
  { intros p e a. unfold current_acl. rewrite list_elem_of_omap. split.
    - intros ([[[[v j] q] g] x] & Hin%elem_of_map_to_list & Hif). destruct (Z.eqb_spec v ws) as [->|]; [|done].
      destruct (Z.eqb_spec j i) as [->|]; [|done]. by injection Hif as <- <- <-.
    - intros Hin%elem_of_map_to_list. eexists. split; [exact Hin|]. simpl. by rewrite !Z.eqb_refl. }
  assert (Hnd : NoDup (acl_at ws h i d)).
  { unfold acl_at. apply nodup_omap; [|apply NoDup_map_to_list]. intros [[[[v j] q] g] [x del]] [[[[v' j'] q'] g'] [x' del']] [[p e] a].
    destruct (Z.eqb_spec v ws), (Z.eqb_spec j i), del, (Z.eqb_spec v' ws), (Z.eqb_spec j' i), del'; naive_solver. }
  assert (Hnd' : NoDup (current_acl ws i d)).
  { unfold current_acl. apply nodup_omap; [|apply NoDup_map_to_list]. intros [[[[v j] q] g] x] [[[[v' j'] q'] g'] x'] [[p e] a].
    destruct (Z.eqb_spec v ws), (Z.eqb_spec j i), (Z.eqb_spec v' ws), (Z.eqb_spec j' i); naive_solver. }
  apply acl_list_perm.
  - apply NoDup_fmap_2_strong; [|done]. intros [[p e] a] [[q g] b] H1%Hat H2%Hat. simpl. intros [= -> ->]. congruence.
  - apply NoDup_Permutation; [done|done|]. intros [[p e] a]. by rewrite Hat, Hcur.
Qed.

Lemma xattrs_agree i r : nodes_at ws h d !! i = Some r → xattrs_at ws h i d = current_xattrs ws i d.
Proof.
  intros Hr. pose proof Hr as (Hi & Hw & Hl)%node_inode. unfold current_xattrs. rewrite Hi, Hw, Z.eqb_refl, Hl. simpl.
  assert (Hin : ∀ n, xattr_in ws i n d = xattrs d !! (i, n)).
  { intros n. unfold xattr_in, inode_in. rewrite Hi. simpl. by rewrite Hw, Z.eqb_refl. }
  apply map_eq. intros n. apply option_eq. intros v. unfold xattrs_at. set (l := omap _ _). set (l' := omap _ _).
  assert (Hl1 : ∀ n v, (n, v) ∈ l ↔ xattrs d !! (i, n) = Some v).
  { intros m x. subst l. rewrite list_elem_of_omap, <- Hin, <- (sd_xattrs _ _ Hs) by apply (cl_xattrs _ _ Hcl).
    rewrite <- (states_at_head (xattr_states d) (ws, i, m)) by apply (sd_xattr_states _ _ Hs). rewrite final_Some. split.
    - intros ([[[u j] q] [y del]] & Hy%elem_of_map_to_list & Hif). destruct (Z.eqb_spec u ws) as [->|]; [|done].
      destruct (Z.eqb_spec j i) as [->|]; [|done]. destruct del; [done|]. by injection Hif as <- <-.
    - intros Hx%elem_of_map_to_list. eexists. split; [exact Hx|]. simpl. by rewrite !Z.eqb_refl. }
  assert (Hl2 : ∀ n v, (n, v) ∈ l' ↔ xattrs d !! (i, n) = Some v).
  { intros m x. subst l'. rewrite list_elem_of_omap. split.
    - intros ([[j q] y] & Hy%elem_of_map_to_list & Hif). destruct (Z.eqb_spec j i) as [->|]; [|done]. by injection Hif as <- <-.
    - intros Hx%elem_of_map_to_list. eexists. split; [exact Hx|]. simpl. by rewrite !Z.eqb_refl. }
  rewrite <- !elem_of_list_to_map'; [by rewrite Hl1, Hl2|..]; intros x' H1 H2.
  - apply Hl2 in H1, H2. congruence.
  - apply Hl1 in H1, H2. congruence.
Qed.

(** ** The trees *)

Lemma resolved_inode tree t k n : ResolveSnapshotCanonicalVersions tree d = Ok t → t !! k = Some n →
  ∃ n0, tree !! k = Some n0 ∧ t_inode n = t_inode n0.
Proof.
  unfold ResolveSnapshotCanonicalVersions. cbv zeta. case_bool_decide; [intros [= <-]; eauto|]. destruct (forallb _ _); [|done]. intros [= <-].
  rewrite lookup_fmap. destruct (tree !! k) as [n0|]; [|done]. intros [= <-]. by exists n0.
Qed.

Lemma validate_head : ValidateHistoryCommit w h d = Ok ().
Proof.
  destruct (sd_head _ _ Hs _ _ _ Hrow Hh) as (c & f & Hc & Hcw & Hfl & Hpos). unfold ValidateHistoryCommit.
  rewrite Hrow, Hc, Hcw, Z.eqb_refl, Hfl. simpl. destruct (Z.eqb_spec f 0); [lia|]. destruct (Z.ltb_spec h f); [lia|]. done.
Qed.

Lemma trees_agree_live : TreeAtCommit w h d = CurrentTree w d.
Proof.
  destruct live_rows_found as [_ Hrows]. destruct (walk_tree_finds _ _ _ head_proper Hlive reach_short) as (l & Hwalk & Hl).
  unfold TreeAtCommit, CurrentTree. rewrite validate_head. cbv zeta. fold live_rows. rewrite Hwalk.
  set (tree := list_to_map (omap _ live_rows)). set (tree' := list_to_map (omap _ (rev l))).
  assert (Hnode : ∀ k n, tree !! k = Some n ↔ ∃ i r, found (k, i) ∧ inodes d !! i = Some r ∧ n = tree_node i r).
  { intros k n. by apply tree_of_found. }
  assert (Hlook : ∀ k i, found (k, i) → nodes_at ws h d !! i = inodes d !! i).
  { intros k i (ns & _ & Hr). destruct (reach_live _ _ _ _ _ Hr) as [r Hr']. simpl in Hr'. pose proof Hr' as (-> & _)%node_inode. done. }
  assert (tree' = tree) as ->.
  { apply map_eq. intros k. apply option_eq. intros n. rewrite Hnode. subst tree'.
    rewrite (tree_of_found (λ i, nodes_at ws h d !! i)) by (intros x; by rewrite <- Hl, list_elem_of_In, <- in_rev, <- list_elem_of_In).
    split; intros (i & r & Hfd & Hr & ->); exists i, r; (split_and!; [done| |done]); [by rewrite <- (Hlook k)|by rewrite (Hlook k)]. }
  rewrite bool_decide_eq_false_2 by (by rewrite <- eq_None_not_Some in Hlive || intros E; rewrite E in Hlive; by destruct Hlive).
  rewrite bool_decide_eq_false_2.
  2: { destruct Hlive as [r Hr]. intros Hnone. assert (Hsome : tree !! [slash] = Some (tree_node (ws_root w) r)); [|congruence].
    apply Hnode. exists (ws_root w), r. split_and!; [exists []; split; [done|constructor; eauto]|by apply node_inode|done]. }
  rewrite not_repeated. destruct (ResolveSnapshotCanonicalVersions tree d) as [t|] eqn:Hres; [|done]. f_equal.
  apply map_fmap_ext. intros k n Hn. destruct (resolved_inode _ _ _ _ Hres Hn) as (n0 & Hn0 & ->). apply Hnode in Hn0 as (i & r & Hfd & Hr & ->).
  simpl. rewrite acl_agree. f_equal. eapply xattrs_agree. by rewrite (Hlook k).
Qed.

End Head.
