(* ===== verification/VexfsCommits.v ===== *)
(** * Commits are snapshots

    On every database that calls of the SQL functions can produce, a commit records the
    tree as it is at that moment, and it can be read back, unchanged, after whatever
    calls and restores follow, until versions are collected. *)
From Stdlib Require Import ZArith Lia String.
From stdpp Require Import prelude gmap sorting.
From S2P Require Import Prelude Sha256 VexfsText VexfsTextFacts VexfsDb VexfsTree VexfsStore VexfsGrepIndex VexfsStaging VexfsHandles VexfsNames VexfsMetadata VexfsHistory VexfsSnapshots VexfsRetention VexfsSessions VexfsFrame VexfsService VexfsForest VexfsForestOps VexfsForestTop VexfsTrack VexfsTrackOps VexfsAppend VexfsTidy VexfsTreeWalk VexfsTreeHead.

Local Open Scope Z_scope.
Implicit Types d : Db.

(** ** Trees without a root *)

(** Only the root is printed as a slash. *)
Lemma current_rows_root fuel ws d : tidy d → ∀ level x, x ∈ current_rows fuel ws level d → x.1 = [slash] → x ∈ level.
Proof.
  intros Ht. induction fuel as [|fuel IH]; intros level x; [by destruct level|].
  assert (Hcur : level = [] ∨ current_rows (S fuel) ws level d = level ++ current_rows fuel ws (row ← level; below ws row d) d)
    by (destruct level; [by left|by right]).
  destruct Hcur as [->| ->]; [done|].
  intros [Hx|Hx]%elem_of_app E; [done|]. specialize (IH _ _ Hx E). apply list_elem_of_bind in IH as (z & Hz & _).
  unfold below in Hz. apply list_elem_of_omap in Hz as ([[[v p] n] i] & Hin%elem_of_map_to_list & Hif).
  destruct (_ && _); [|done]. injection Hif as <-. simpl in E. pose proof (vp_nonempty _ (td_name _ Ht _ _ _ _ Hin)) as Hn.
  exfalso. revert E. unfold child_path. case_bool_decide; [intros [= ->]; done|]. destruct z.1 as [|a [|b l]]; simpl; [by intros [= ->]|done|done].
Qed.

Section Trees.

Context (w : Workspace) (d : Db) (X : gset Z) (row : workspace_row) (h : Z).
Context (Hs : settled X d) (Hcl : clean (ws_id w) d) (Hf : forest d) (Ht : tidy d).
Context (Hrow : workspaces d !! ws_id w = Some row) (Hroot : ws_root w = int64 (w_root_inode row)) (Hh : w_head_commit row = Some h).

Definition shallow (w : Workspace) (d : Db) : Prop := ∀ ns i, walk d (ws_id w) (ws_root w) ns i → (length ns < 1024)%nat.

(** The root inode is one of the workspace. *)
Lemma root_node : nodes_at (ws_id w) h d !! ws_root w = None → is_live (ws_root w) d = false.
Proof.
  intros Hnone. apply not_true_iff_false. unfold is_live. destruct (inodes d !! ws_root w) as [r|] eqn:Hr; [|done]. intros Hl.
  assert (nodes_at (ws_id w) h d !! ws_root w = Some r); [|congruence]. eapply nodes_at_head; [done|done|done|done|]. split; [|done].
  unfold inode_in. rewrite Hr. simpl. destruct (w_root_inode row) as [i|] eqn:Hi; simpl in Hroot.
  - pose proof (td_root _ Ht _ _ _ Hrow Hi) as Hhome. unfold home in Hhome. rewrite <- Hroot, Hr in Hhome. injection Hhome as ->. by rewrite Z.eqb_refl.
  - pose proof (fo_positive _ Hf (ws_root w)) as Hpos. rewrite Hr in Hpos. specialize (Hpos ltac:(eauto)). lia.
Qed.

Lemma trees_agree : shallow w d → TreeAtCommit w h d = CurrentTree w d.
Proof.
  intros Hsh. destruct (nodes_at (ws_id w) h d !! ws_root w) as [r|] eqn:Hnode; [eapply trees_agree_live; eauto|].
  unfold TreeAtCommit. erewrite validate_head by done. cbv zeta. rewrite bool_decide_eq_true_2 by done. unfold CurrentTree. cbv zeta.
  rewrite bool_decide_eq_true_2; [done|]. apply eq_None_not_Some. intros [n Hn%elem_of_list_to_map_2].
  apply list_elem_of_omap in Hn as ([path i] & [Hl Hin]%list_elem_of_filter & Hif). destruct (inodes d !! i); [|done].
  simpl in Hif. injection Hif as -> _. eapply current_rows_root in Hin; [|done|done]. apply list_elem_of_singleton in Hin. injection Hin as ->.
  simpl in Hl. by rewrite (root_node Hnode) in Hl.
Qed.

End Trees.

(** ** Calls *)

(** All calls but [handle_create], which leaves a file without a version behind. *)
Definition publishes (c : call) : bool := match c with CHandleCreate _ _ _ _ _ _ _ _ _ => false | _ => true end.

Lemma run_call_settled c d : publishes c = true → settled ∅ d → settled ∅ (run_call c d).
Proof.
  assert (Hrun : ∀ A (m : M A), steady ∅ m → settled ∅ d → settled ∅ (m d).2) by (intros A m Hm; apply Hm).
  destruct handle_functions_steady as (Q1 & Q2 & Q3 & Q4 & Q5 & Q6).
  destruct c; cbn [run_call]; intros Hp; try (apply Hrun); try done;
    eauto using steady_workspace_create, steady_mkdir, steady_create, steady_symlink, steady_hardlink, steady_write, steady_append,
      steady_restore_function, steady_rename, steady_remove, steady_handle_open.
  - apply frames_enable_index.
  - apply frames_disable_index.
  - apply (run_service_frames (R := settled_rel ∅)).
  - apply settled_aside. by split.
Qed.

Lemma run_calls_good cs : ∀ d, forallb publishes cs = true → settled ∅ d → forest d → tidy d →
  settled ∅ (run_calls cs d) ∧ forest (run_calls cs d) ∧ tidy (run_calls cs d).
Proof.
  induction cs as [|c cs IH]; intros d Hp Hs Hf Ht; [done|]. simpl in Hp. apply andb_true_iff in Hp as [Hc Hcs].
  apply (IH (run_call c d)); [done|by apply run_call_settled|by apply run_call_forest|]. by apply run_call_tidy.
Qed.

Lemma small_is_shallow w d : forest d → (size (dentries d) < 1024)%nat → shallow w d.
Proof.
  intros Hf Hsize ns i Hw. enough (nsteps (child d (ws_id w)) (length ns) (ws_root w) i) as Hn by (apply chain_short in Hn; [lia|done]).
  induction Hw as [|p n q ns i Hq _ IH]; simpl; [constructor|]. econstructor; [|done]. by exists n.
Qed.

(** A commit of a reachable database. *)
Lemma commit_good w message d c d' row : settled ∅ d → forest d → tidy d → workspaces d !! ws_id w = Some row →
  ws_root w = int64 (w_root_inode row) → CreateCommit w message d = (Ok c, d') → shallow w d' → TreeAtCommit w c d' = CurrentTree w d'.
Proof.
  intros Hs Hf Ht Hrow Hroot Hrun Hsh. destruct (commit_settles w message d row Hs Hrow) as (c' & d'' & Hrun' & Hs' & Hcl').
  rewrite Hrun in Hrun'. injection Hrun' as <- <-.
  assert (Hf' : forest d'). { eapply quiet_forest; [|exact Hf]. pose proof (quiet_commit w message d) as Hq. by rewrite Hrun in Hq. }
  assert (Ht' : tidy d'). { pose proof (tidy_commit w message d) as Hq. rewrite Hrun in Hq. by apply Hq. }
  unfold CreateCommit, Savepoint in Hrun. destruct (commit_eval w message d row Hrow) as (crow & _ & E). rewrite E in Hrun. injection Hrun as <- <-.
  eapply (trees_agree w _ ∅ (set_head (next_rowid (commits d)) row)); eauto. simpl. by rewrite lookup_alter_eq, Hrow.
Qed.

(** C6: a commit is a snapshot. Take a database that calls of the modelled SQL
    functions other than [handle_create], [snapshot_restore] and [gc] make from a new one,
    whichever of them throw, and a workspace whose paths have fewer than 1024 names. A
    commit of the workspace records its tree: reading the commit gives what reading the
    current tree gives, node by node with attributes and access control. And it gives the
    same tree after every later sequence of calls and snapshot restores, failing ones
    included, as long as no collection of versions ([gc]) runs: that one deletes states. *)
Theorem commits_are_snapshots now cs name w message c d' :
  let d := run_calls cs (empty_db now) in
  forallb publishes cs = true → FindWorkspace name d = Ok w → CreateCommit w message d = (Ok c, d') → shallow w d' →
  TreeAtCommit w c d' = CurrentTree w d' ∧
  ∀ t rs, CurrentTree w d' = Ok t → TreeAtCommit w c (run_requests rs d') = Ok t.
Proof.
  intros d Hp (row & Hrow & Hroot)%find_workspace_inv Hrun Hsh.
  destruct (run_calls_good cs (empty_db now) Hp) as (Hs & Hf & Ht); [by apply empty_settled|apply empty_forest|apply empty_tidy|].
  assert (E : TreeAtCommit w c d' = CurrentTree w d') by (by eapply commit_good). split; [done|]. intros t rs Hc.
  eapply tree_at_commit_grows; [apply run_requests_grows|congruence].
Qed.

(** ** An example *)

Definition sample_calls : list call :=
  [ CWorkspaceCreate 1 1 (Some (str "w")); CMkdir 1 1 (Some (str "w")) (Some (str "/a"));
    CWrite 1 1 (Some (str "w")) (Some (str "/a/f")) (Some (str "one")); CHardlink (Some (str "w")) (Some (str "/a/f")) (Some (str "/g"));
    CRemove (Some (str "w")) (Some (str "/none")) false ].
Definition sample_db : Db := run_calls sample_calls (empty_db 0).
Definition sample_workspace : Workspace := mkWorkspace 1 1 4.
Definition sample_committed : Db := (CreateCommit sample_workspace (str "again") sample_db).2.
Definition later_requests : list request :=
  [ RSnapshotCreate (Some (str "w")) (Some (str "s")) VNull None None; RCall (CRemove (Some (str "w")) (Some (str "/a")) true);
    RCall (CWrite 1 1 (Some (str "w")) (Some (str "/g")) (Some (str "two")));
    RSnapshotRestore (Some (str "w")) (Some (str "s")) (VInteger 6) None ].

Lemma sample_shallow : shallow sample_workspace sample_committed.
Proof.
  destruct (run_calls_good sample_calls (empty_db 0)) as (_ & Hf & _);
    [reflexivity|by apply empty_settled|apply empty_forest|apply empty_tidy|].
  apply small_is_shallow; [|vm_compute; lia]. eapply quiet_forest; [apply quiet_commit|exact Hf].
Qed.

Lemma sample_found : FindWorkspace (str "w") sample_db = Ok sample_workspace.
Proof. vm_compute. reflexivity. Qed.
Lemma sample_commit : (CreateCommit sample_workspace (str "again") sample_db).1 = Ok 5.
Proof. vm_compute. reflexivity. Qed.
Lemma sample_tree :
  match CurrentTree sample_workspace sample_committed with
  | Ok t => (entries t).*1 = [str "/"; str "/a"; str "/a/f"; str "/g"]
  | Throw _ => False
  end.
Proof. vm_compute. reflexivity. Qed.

(** The commit shows the paths it had, after the removal and after the restore. *)
Lemma commits_are_snapshots_witness :
  match TreeAtCommit sample_workspace 5 (run_requests later_requests sample_committed) with
  | Ok t => (entries t).*1 = [str "/"; str "/a"; str "/a/f"; str "/g"]
  | Throw _ => False
  end.
Proof.
  destruct (commits_are_snapshots 0 sample_calls (str "w") sample_workspace (str "again") 5 sample_committed eq_refl sample_found
    (run_state (CreateCommit sample_workspace (str "again")) sample_db (Ok 5) sample_commit) sample_shallow) as [_ H].
  pose proof sample_tree as Hp. destruct (CurrentTree sample_workspace sample_committed) as [t|]; [|destruct Hp].
  rewrite (H t later_requests eq_refl). exact Hp.
Defined.
