(* ===== verification/VexfsDiff.v ===== *)
(** * What a comparison of two trees lists

    The merge of [SnapshotDiff] lists exactly the paths whose nodes differ, in the order
    of the paths, and a client that follows the cursors of [HistoricalDiffPage] gets all
    of them and comes to an end. *)
From Stdlib Require Import ZArith Lia String.
From stdpp Require Import prelude gmap sorting.
From S2P Require Import Prelude Sha256 VexfsText VexfsDb VexfsTree VexfsHistory VexfsOrder VexfsSnapshots.

Local Open Scope Z_scope.

Definition path_lt (x y : bytes) : Prop := bytes_ltb x y = true.

(** ** The merge *)

(** What a change says of two lists of entries. *)
Definition changed (before after : list (bytes * SnapshotTreeNode)) (c : change) : Prop :=
  match c with
  | Delete p a => (p, a) ∈ before ∧ p ∉ after.*1
  | Add p b => p ∉ before.*1 ∧ (p, b) ∈ after
  | Modify p a b => (p, a) ∈ before ∧ (p, b) ∈ after ∧ SnapshotNodesEqual a b = false
  end.

Abbreviation sorted := (StronglySorted (λ x y : bytes * SnapshotTreeNode, path_lt x.1 y.1)).

Lemma sorted_head x (l : list (bytes * SnapshotTreeNode)) p : sorted (x :: l) → p ∈ l.*1 → path_lt x.1 p.
Proof.
  intros Hs. inversion Hs as [|? ? _ Hx]; subst. intros (y & -> & Hy)%list_elem_of_fmap. rewrite Forall_forall in Hx. by apply Hx.
Qed.
Lemma sorted_tail x (l : list (bytes * SnapshotTreeNode)) : sorted (x :: l) → sorted l.
Proof. by inversion 1. Qed.
(** A path below the first entry is not in the list. *)
Lemma sorted_fresh x (l : list (bytes * SnapshotTreeNode)) p : sorted (x :: l) → path_lt p x.1 → p ∉ (x :: l).*1.
Proof.
  intros Hs Hp Hin. rewrite fmap_cons in Hin. apply elem_of_cons in Hin as [->|Hin].
  - unfold path_lt in Hp. by rewrite bytes_ltb_irrefl in Hp.
  - pose proof (sorted_head _ _ _ Hs Hin) as H. pose proof (bytes_ltb_trans _ _ _ Hp H) as E. by rewrite bytes_ltb_irrefl in E.
Qed.
Lemma sorted_once x (l : list (bytes * SnapshotTreeNode)) : sorted (x :: l) → x.1 ∉ l.*1.
Proof. intros Hs Hin. pose proof (sorted_head _ _ _ Hs Hin) as H. unfold path_lt in H. by rewrite bytes_ltb_irrefl in H. Qed.

Lemma elem_of_fst {A B} (l : list (A * B)) k a : (k, a) ∈ l → k ∈ l.*1.
Proof. intros Hin. by apply (list_elem_of_fmap_2 fst) in Hin. Qed.

Lemma diff_loop_spec fuel : ∀ before after, (length before + length after ≤ fuel)%nat → sorted before → sorted after →
  ∀ c, c ∈ diff_loop fuel before after ↔ changed before after c.
Proof.
  induction fuel as [|fuel IH]; intros before after Hf Hb Ha c.
  { destruct before, after; simpl in Hf; try lia. split; [by intros ?%not_elem_of_nil|]. destruct c; simpl; set_solver. }
  destruct before as [|[p a] before], after as [|[q b] after]; cbn [diff_loop].
  - destruct c; simpl; set_solver.
  - rewrite elem_of_cons, IH by (simpl in *; lia || done || by eapply sorted_tail). pose proof (sorted_once _ _ Ha) as Hq. simpl in Hq.
    destruct c as [p' a'|q' b'|p' a' b']; simpl; set_solver.
  - rewrite elem_of_cons, IH by (simpl in *; lia || done || by eapply sorted_tail). pose proof (sorted_once _ _ Hb) as Hp. simpl in Hp.
    destruct c as [p' a'|q' b'|p' a' b']; simpl; set_solver.
  - pose proof (sorted_once _ _ Hb) as Hp. pose proof (sorted_once _ _ Ha) as Hq. simpl in Hp, Hq.
    destruct (bytes_ltb p q) eqn:Hpq; [|destruct (bytes_ltb q p) eqn:Hqp].
    + pose proof (sorted_fresh _ _ p Ha Hpq) as Hfresh.
      rewrite elem_of_cons, IH by (simpl in *; lia || done || by eapply sorted_tail).
      destruct c as [p' a'|q' b'|p' a' b']; simpl in *; [set_solver| |].
      * split; [intros [?|[H1 H2]]; [done|]|intros [H1 H2]; right; set_solver]. split; [|done]. intros [->|?]%elem_of_cons; [|done].
        apply elem_of_fst in H2. by rewrite fmap_cons in H2.
      * split; [intros [?|(H1 & H2 & H3)]; [done|]; set_solver|]. intros (H1 & H2 & H3). right. split_and!; [|done|done].
        apply elem_of_cons in H1 as [[= -> ->]|]; [|done]. apply elem_of_fst in H2. by rewrite fmap_cons in H2.
    + pose proof (sorted_fresh _ _ q Hb Hqp) as Hfresh.
      rewrite elem_of_cons, IH by (simpl in *; lia || done || by eapply sorted_tail).
      destruct c as [p' a'|q' b'|p' a' b']; simpl in *.
      * split; [intros [?|[H1 H2]]; [done|]|intros [H1 H2]; right; set_solver]. split; [done|]. intros [->|?]%elem_of_cons; [|done].
        apply elem_of_fst in H1. by rewrite fmap_cons in H1.
      * set_solver.
      * split; [intros [?|(H1 & H2 & H3)]; [done|]; set_solver|]. intros (H1 & H2 & H3). right. split_and!; [done| |done].
        apply elem_of_cons in H2 as [[= -> ->]|]; [|done]. apply elem_of_fst in H1. by rewrite fmap_cons in H1.
    + assert (p = q) as -> by (destruct (bytes_ltb_total p q) as [?|[?|?]]; congruence).
      assert (Hsplit : changed ((q, a) :: before) ((q, b) :: after) c ↔
        (c = Modify q a b ∧ SnapshotNodesEqual a b = false) ∨ changed before after c).
      { destruct c as [p' a'|q' b'|p' a' b']; simpl.
        - rewrite !elem_of_cons. split; [intros [[[= -> ->]|?] ?]; [tauto|right; tauto]|]. intros [[? ?]|[H1 H2]]; [done|].
          split; [by right|]. intros [->|?]; [|done]. by apply elem_of_fst in H1.
        - rewrite !elem_of_cons. split; [intros [? [[= -> ->]|?]]; [tauto|right; tauto]|]. intros [[? ?]|[H1 H2]]; [done|].
          split; [|by right]. intros [->|?]; [|done]. by apply elem_of_fst in H2.
        - rewrite !elem_of_cons. split.
          + intros ([E1|H1] & [E2|H2] & H3); simplify_eq; [by left|by apply elem_of_fst in H2|by apply elem_of_fst in H1|by right].
          + intros [[[= -> -> ->] ?]|(? & ? & ?)]; tauto. }
      rewrite Hsplit. destruct (SnapshotNodesEqual a b) eqn:He.
      * rewrite IH by (simpl in *; lia || by eapply sorted_tail). naive_solver.
      * rewrite elem_of_cons, IH by (simpl in *; lia || by eapply sorted_tail). naive_solver.
Qed.

(** The changes come in the order of their paths. *)
Lemma diff_loop_sorted fuel : ∀ before after, (length before + length after ≤ fuel)%nat → sorted before → sorted after →
  StronglySorted (λ c c', path_lt (change_path c) (change_path c')) (diff_loop fuel before after).
Proof.
  induction fuel as [|fuel IH]; intros before after Hf Hb Ha; [constructor|].
  assert (Hfst : ∀ b a c, (length b + length a ≤ fuel)%nat → sorted b → sorted a → c ∈ diff_loop fuel b a →
    change_path c ∈ b.*1 ∨ change_path c ∈ a.*1).
  { intros b a c Hl Hb' Ha'. rewrite diff_loop_spec by done. destruct c; simpl; intros (? & ?); destruct_and?; eauto using elem_of_fst. }
  assert (Hcons : ∀ c b a, (length b + length a ≤ fuel)%nat → sorted b → sorted a → (∀ p, p ∈ b.*1 → path_lt (change_path c) p) →
    (∀ p, p ∈ a.*1 → path_lt (change_path c) p) →
    StronglySorted (λ c c', path_lt (change_path c) (change_path c')) (c :: diff_loop fuel b a)).
  { intros c b a Hl Hb' Ha' H1 H2. constructor; [by apply IH|]. apply Forall_forall. intros c' Hc'. destruct (Hfst b a c'); eauto. }
  destruct before as [|[p a] before], after as [|[q b] after]; cbn [diff_loop].
  - constructor.
  - apply Hcons; [simpl in *; lia|constructor|by eapply sorted_tail|by intros ? ?%not_elem_of_nil|intros; by eapply sorted_head in Ha].
  - apply Hcons; [simpl in *; lia|by eapply sorted_tail|constructor|intros; by eapply sorted_head in Hb|by intros ? ?%not_elem_of_nil].
  - destruct (bytes_ltb p q) eqn:Hpq; [|destruct (bytes_ltb q p) eqn:Hqp].
    + apply Hcons; [simpl in *; lia|by eapply sorted_tail|done|intros; by eapply sorted_head in Hb|]. simpl.
      intros x [->|Hx]%elem_of_cons; [done|]. eapply bytes_ltb_trans; [exact Hpq|]. by eapply sorted_head in Ha.
    + apply Hcons; [simpl in *; lia|done|by eapply sorted_tail| |intros; by eapply sorted_head in Ha]. simpl.
      intros x [->|Hx]%elem_of_cons; [done|]. eapply bytes_ltb_trans; [exact Hqp|]. by eapply sorted_head in Hb.
    + assert (p = q) as -> by (destruct (bytes_ltb_total p q) as [?|[?|?]]; congruence).
      destruct (SnapshotNodesEqual a b); [apply IH; [simpl in *; lia|by eapply sorted_tail..]|].
      apply Hcons; [simpl in *; lia|by eapply sorted_tail..|intros; by eapply sorted_head in Hb|intros; by eapply sorted_head in Ha].
Qed.

(** C13: the difference of two trees is complete, minimal and in order. It lists a path
    as deleted, added or modified exactly when only the first tree has it, only the
    second has it, or both have it with nodes that differ; every path once, sorted. *)
Theorem snapshot_diff_lists_changes before after :
  (∀ c, c ∈ SnapshotDiff before after ↔
    match c with
    | Delete p a => before !! p = Some a ∧ after !! p = None
    | Add p b => before !! p = None ∧ after !! p = Some b
    | Modify p a b => before !! p = Some a ∧ after !! p = Some b ∧ SnapshotNodesEqual a b = false
    end) ∧
  StronglySorted (λ c c', bytes_ltb (change_path c) (change_path c') = true) (SnapshotDiff before after).
Proof.
  assert (Hnone : ∀ (t : SnapshotTree) p, p ∉ (entries t).*1 ↔ t !! p = None).
  { intros t p. rewrite eq_None_not_Some. split; intros Hp Hx; apply Hp.
    - destruct Hx as [n Hn%elem_of_map_entries]. by eapply elem_of_fst.
    - apply list_elem_of_fmap in Hx as ([q n] & -> & Hn%elem_of_map_entries). eauto. }
  split.
  - intros c. unfold SnapshotDiff. rewrite diff_loop_spec by (done || apply entries_sorted).
    destruct c; simpl; rewrite ?elem_of_map_entries, ?Hnone; done.
  - apply diff_loop_sorted; [done|apply entries_sorted..].
Qed.

(** ** Pages *)

Lemma filter_keeps {A} (P : A → Prop) `{!∀ x, Decision (P x)} (l : list A) : (∀ x, x ∈ l → P x) → filter P l = l.
Proof.
  induction l as [|x l IH]; intros Hl; [done|]. rewrite filter_cons_True by (apply Hl; left). f_equal. apply IH. intros y Hy. apply Hl. by right.
Qed.
Lemma filter_drops {A} (P : A → Prop) `{!∀ x, Decision (P x)} (l : list A) : (∀ x, x ∈ l → ¬ P x) → filter P l = [].
Proof.
  induction l as [|x l IH]; intros Hl; [done|]. rewrite filter_cons_False by (apply Hl; left). apply IH. intros y Hy. apply Hl. by right.
Qed.

(** The changes past a cursor. *)
Definition past (after_path : bytes) (c : change) : bool :=
  bool_decide (after_path = []) || bytes_ltb after_path (change_path c).

Lemma page_loop_take after_path limit changes : ∀ count, count <= limit →
  let rest := filter (λ c, past after_path c = true) changes in
  page_loop after_path limit changes count =
    (take (Z.to_nat (limit - count)) rest, negb (bool_decide (drop (Z.to_nat (limit - count)) rest = []))).
Proof.
  induction changes as [|c changes IH]; intros count Hc; [by destruct (Z.to_nat (limit - count))|]. cbv zeta. cbn [page_loop].
  assert (Hpast : negb (bool_decide (after_path = [])) && bool_decide (bytes_le (change_path c) after_path) = negb (past after_path c)).
  { unfold past. destruct (bool_decide_reflect (after_path = [])); simpl; [done|].
    destruct (bool_decide_reflect (bytes_le (change_path c) after_path)) as [Hle|Hle]; unfold bytes_le in Hle; [by rewrite Hle|].
    by apply not_false_iff_true in Hle as ->. }
  rewrite Hpast. destruct (past after_path c) eqn:Ep; simpl negb; cbv iota.
  - rewrite filter_cons_True by done. destruct (Z.eqb_spec count limit) as [->|].
    + rewrite Z.sub_diag. done.
    + rewrite (IH (count + 1)) by lia. replace (Z.to_nat (limit - count)) with (S (Z.to_nat (limit - (count + 1)))) by lia. done.
  - rewrite filter_cons_False by (by rewrite Ep). by apply IH.
Qed.

(** All pages from a cursor on; [None] when [fuel] pages are not enough. *)
Fixpoint all_pages (fuel : nat) (before after : SnapshotTree) (cursor : bytes) (limit : Z) : option (list change) :=
  match fuel with
  | O => None
  | S fuel =>
    let '(page, next) := HistoricalDiffPage before after cursor limit in
    match next with
    | None => Some page
    | Some cursor => rest ← all_pages fuel before after cursor limit; Some (page ++ rest)
    end
  end.

Section Pages.

Context (before after : SnapshotTree) (limit : Z).
Context (Hlimit : 0 < limit) (Hb : before !! [] = None) (Ha : after !! [] = None).
Local Notation changes := (SnapshotDiff before after).

Lemma diff_path_nonempty c : c ∈ changes → change_path c ≠ [].
Proof.
  unfold SnapshotDiff. rewrite diff_loop_spec by (done || apply entries_sorted). intros Hc E.
  assert (Hin : change_path c ∈ (entries before).*1 ∨ change_path c ∈ (entries after).*1).
  { destruct c; simpl in *; destruct_and?; eauto using elem_of_fst. }
  rewrite E in Hin. destruct Hin as [Hin|Hin]; apply list_elem_of_fmap in Hin as ([q n] & Hq & Hn%elem_of_map_entries); simpl in Hq; congruence.
Qed.

(** Past the last change of a part of the list is the rest. *)
Lemma past_last read rest c : changes = (read ++ [c]) ++ rest → filter (λ x, past (change_path c) x = true) changes = rest.
Proof.
  intros E. assert (Hs : StronglySorted (λ c c', path_lt (change_path c) (change_path c')) changes)
    by (apply diff_loop_sorted; [done|apply entries_sorted..]).
  assert (Hne : change_path c ≠ []) by (apply diff_path_nonempty; rewrite E; set_solver).
  rewrite E in Hs. apply StronglySorted_app in Hs as (Hsep & Hs1 & _).
  rewrite E, filter_app. rewrite (filter_drops _ (read ++ [c])), (filter_keeps _ rest); [done|..].
  - intros x Hx. unfold past. rewrite bool_decide_eq_false_2 by done. simpl. apply (Hsep c x); [set_solver|done].
  - intros x Hx. unfold past. rewrite bool_decide_eq_false_2 by done. simpl. apply not_true_iff_false.
    apply StronglySorted_app in Hs1 as (Hsep1 & _ & _). apply elem_of_app in Hx as [Hx| ->%list_elem_of_singleton]; [|apply bytes_ltb_irrefl].
    apply bytes_ltb_asym. apply (Hsep1 x c); [done|by left].
Qed.

Lemma all_pages_rest fuel : ∀ read rest cursor, changes = read ++ rest → cursor = default [] (change_path <$> last read) →
  (length rest < fuel)%nat → all_pages fuel before after cursor limit = Some rest.
Proof.
  induction fuel as [|fuel IH]; intros read rest cursor E Hcur Hf; [lia|]. cbn [all_pages].
  assert (Hrest : filter (λ c, past cursor c = true) changes = rest).
  { destruct read as [|c read _] using rev_ind; rewrite Hcur.
    - rewrite E. apply filter_keeps. intros x _. unfold past. by rewrite bool_decide_eq_true_2.
    - rewrite last_snoc. simpl. by eapply past_last. }
  unfold HistoricalDiffPage. rewrite page_loop_take by lia. cbv zeta. rewrite Hrest, Z.sub_0_r. set (n := Z.to_nat limit).
  destruct (bool_decide_reflect (drop n rest = [])) as [Hd|Hd]; simpl negb; cbv iota.
  - rewrite <- (take_drop n rest) at 2. by rewrite Hd, app_nil_r.
  - assert (Hn : (n < length rest)%nat). { destruct (decide (length rest ≤ n)%nat) as [Hl|]; [|lia]. by rewrite drop_ge in Hd. }
    rewrite (IH (read ++ take n rest) (drop n rest)); [simpl; by rewrite take_drop|by rewrite <- (assoc_L app), take_drop| |].
    + f_equal. assert (Hne : take n rest ≠ []). { intros Ht%(f_equal length). rewrite length_take in Ht. simpl in Ht. lia. }
      rewrite last_app. destruct (last (take n rest)) eqn:El; [done|]. by apply last_None in El.
    + rewrite length_drop. lia.
Qed.

End Pages.

(** Following the pages of a difference comes to an end and misses nothing. A client
    that asks for pages of any positive size and passes on the cursor it gets has, after
    at most one page more than there are changes, received every change once and in
    order; then the cursor is absent. *)
Theorem diff_pages_reach_the_end before after limit : 0 < limit → before !! [] = None → after !! [] = None →
  all_pages (S (length (SnapshotDiff before after))) before after [] limit = Some (SnapshotDiff before after).
Proof. intros Hl Hb Ha. apply (all_pages_rest before after limit Hl Hb Ha _ []); [done|done|lia]. Qed.

(** Three changes in pages of one. *)
Definition sample_node (i size : Z) : SnapshotTreeNode := mkSnapshotTreeNode i KFile 420 (str "local") 0 0 size 1 1 0 0 0 0 [] ∅.
Definition sample_before : SnapshotTree := list_to_map [(str "/a", sample_node 2 1); (str "/b", sample_node 3 1); (str "/d", sample_node 4 1)].
Definition sample_after : SnapshotTree := list_to_map [(str "/b", sample_node 3 2); (str "/c", sample_node 5 1); (str "/d", sample_node 4 1)].

Lemma diff_pages_reach_the_end_witness :
  all_pages 4 sample_before sample_after [] 1 =
    Some [Delete (str "/a") (sample_node 2 1); Modify (str "/b") (sample_node 3 1) (sample_node 3 2); Add (str "/c") (sample_node 5 1)].
Proof.
  pose proof (diff_pages_reach_the_end sample_before sample_after 1 ltac:(lia) eq_refl eq_refl) as H.
  assert (E : SnapshotDiff sample_before sample_after =
    [Delete (str "/a") (sample_node 2 1); Modify (str "/b") (sample_node 3 1) (sample_node 3 2); Add (str "/c") (sample_node 5 1)])
    by (vm_compute; reflexivity).
  rewrite E in H. exact H.
Defined.
