(* ===== verification/VexfsHistoryCases.v ===== *)
(** * Where the history departs from the tree

    Two cases in which what the history shows differs from what was done: a name that
    a file without a version took over, and trees without files. *)
From Stdlib Require Import ZArith Lia String.
From stdpp Require Import prelude gmap sorting.
From S2P Require Import Prelude Sha256 VexfsText VexfsDb VexfsTree VexfsStore VexfsNames VexfsMetadata VexfsHistory VexfsSnapshots VexfsRetention VexfsSessions VexfsService VexfsForestTop VexfsAppend.

Local Open Scope Z_scope.

Definition workspace_w : option bytes := Some (str "w").
Definition at_path (path : bytes) (t : sql SnapshotTree) : option (option SnapshotTreeNode) :=
  match t with Ok t => Some (t !! path) | Throw _ => None end.

(** ** A name that is taken over and removed *)

(** A file made by [handle_create] replaces [/f], which has a second name, and is
    removed before anything is published. *)
Definition taken_over : list call :=
  [ CWorkspaceCreate 0 0 workspace_w; CWrite 0 0 workspace_w (Some (str "/f")) (Some (str "one"));
    CHardlink workspace_w (Some (str "/f")) (Some (str "/m"));
    CHandleCreate 0 0 (str "h") workspace_w (Some (str "/b")) (VInteger 420) None (Some (str "r1")) None;
    CRename workspace_w (Some (str "/b")) (Some (str "/f")) true; CRemove workspace_w (Some (str "/f")) false ].

(** The history can keep a name that is gone. When the entry of a published file is
    replaced by a file without a version, and that file is removed, all calls succeed
    and nothing is left to be flushed; the tree has no [/f], yet reading the head
    commit still shows [/f] with the old file. The commit skips the entry because its
    inode has version 0, and then clears the mark because the inode is deleted. *)
Theorem removed_name_stays_in_history :
  let d := run_calls taken_over (empty_db 5000) in
  let w := mkWorkspace 1 1 5 in
  FindWorkspace (str "w") d = Ok w ∧ dirty_dentries d = ∅ ∧
  at_path (str "/f") (CurrentTree w d) = Some None ∧
  match at_path (str "/f") (TreeAtCommit w (ws_head w) d) with Some (Some n) => t_inode n = 2 ∧ t_version n = 1 | _ => False end.
Proof. vm_compute. repeat split. Qed.

(** ** Trees without files *)

(** A directory and a snapshot of it; later a file is written next to it. *)
Definition directories : list request :=
  [ RCall (CWorkspaceCreate 0 0 workspace_w); RCall (CMkdir 0 0 workspace_w (Some (str "/a")));
    RSnapshotCreate workspace_w (Some (str "s")) VNull None None; RCall (CTick 9000);
    RCall (CWrite 0 0 workspace_w (Some (str "/f")) (Some (str "one"))) ].

(** The difference can list a directory that nothing happened to. The versions of
    a tree without files are left unresolved, so that against a tree with a file every
    directory differs in its canonical version alone. *)
Theorem diff_lists_untouched_directory :
  let d := run_requests directories (empty_db 5000) in
  match (SnapshotDiffFunction workspace_w (Some (str "s")) (Some (str "HEAD")) d).1 with
  | Ok (_, _, changes) =>
    map change_path changes = [str "/"; str "/a"; str "/f"] ∧
    match changes with
    | [_; Modify _ before after; _] => set_canonical (t_canonical before) after = before ∧ t_canonical before = 0 ∧ t_canonical after = 1
    | _ => False
    end
  | Throw _ => False
  end.
Proof. vm_compute. repeat split. Qed.
