(* ===== verification/VexfsGc.v ===== *)
(** * Collecting versions

    The collection never takes a version that a policy keeps, contents included, and
    repeating it comes to an end with nothing left to take. *)
From Stdlib Require Import ZArith Lia String.
From stdpp Require Import prelude gmap sorting.
From S2P Require Import Prelude Sha256 VexfsText VexfsDb VexfsTree VexfsStore VexfsStoreFacts VexfsGrepIndex VexfsStaging VexfsHandles VexfsNames VexfsMetadata VexfsHistory VexfsSnapshots VexfsRestore VexfsRetention VexfsSessions VexfsService VexfsForestTop VexfsTrack VexfsTreeWalk VexfsAppend.

Local Open Scope Z_scope.
Implicit Types d : Db.

(** ** The sources of what is kept *)

Definition closed (d : Db) (keep : gset (Z * Z)) : Prop :=
  ∀ i v row s, (i, v) ∈ keep → file_versions d !! (i, v) = Some row → v_source row = Some s → (i, s) ∈ keep.

Lemma elem_of_add_sources d keep i s : (i, s) ∈ add_sources d keep ↔ (i, s) ∈ keep ∨
  ∃ v row, (i, v) ∈ keep ∧ file_versions d !! (i, v) = Some row ∧ v_source row = Some s.
Proof.
  unfold add_sources. rewrite elem_of_union, elem_of_list_to_set, list_elem_of_omap. f_equiv. split.
  - intros ([[j v] row] & Hin%elem_of_map_to_list & Hif). destruct (bool_decide_reflect ((j, v) ∈ keep)); [|done].
    destruct (v_source row) as [s'|] eqn:E; [|done]. injection Hif as <- <-. eauto.
  - intros (v & row & Hk & Hin%elem_of_map_to_list & Hs). exists (i, v, row). split; [done|]. by rewrite bool_decide_eq_true_2, Hs.
Qed.

(** All sources there are. *)
Definition all_sources (d : Db) : gset (Z * Z) :=
  list_to_set (omap (λ '((i, _), row), (λ s, (i, s)) <$> v_source row) (map_to_list (file_versions d))).

Lemma elem_of_all_sources d i s : (i, s) ∈ all_sources d ↔ ∃ v row, file_versions d !! (i, v) = Some row ∧ v_source row = Some s.
Proof.
  unfold all_sources. rewrite elem_of_list_to_set, list_elem_of_omap. split.
  - intros ([[j v] row] & Hin%elem_of_map_to_list & Hif). destruct (v_source row) as [s'|] eqn:E; [|done]. injection Hif as <- <-. eauto.
  - intros (v & row & Hin%elem_of_map_to_list & Hs). exists (i, v, row). split; [done|]. by rewrite Hs.
Qed.

Lemma all_sources_size d : (size (all_sources d) ≤ size (file_versions d))%nat.
Proof.
  rewrite <- length_map_to_list. change (size (all_sources d)) with (length (elements (all_sources d))).
  apply (injective_length (λ x y, x.1 = y.1.1 ∧ v_source y.2 = Some x.2)); [apply NoDup_elements| |].
  - intros [i s] (v & row & Hin & Hs)%elem_of_elements%elem_of_all_sources. exists (i, v, row). by rewrite elem_of_map_to_list.
  - intros [i s] [j t] [[k v] row] _ _ [E1 E2] [E3 E4]. simpl in *. congruence.
Qed.

Lemma add_sources_fixed d keep : add_sources d keep = keep → closed d keep.
Proof. intros E i v row s Hk Hrow Hs. rewrite <- E. apply elem_of_add_sources. right. by exists v, row. Qed.

Lemma add_sources_new d keep : add_sources d keep ≠ keep → ∃ x, x ∈ all_sources d ∖ keep ∧ x ∈ add_sources d keep.
Proof.
  intros E. destruct (set_choose_or_empty (add_sources d keep ∖ keep)) as [[[i s] Hx]|Hno].
  - apply elem_of_difference in Hx as [Hx Hk]. exists (i, s). split; [|done]. apply elem_of_difference. split; [|done].
    apply elem_of_add_sources in Hx as [?|(v & row & _ & Hrow & Hs)]; [done|]. apply elem_of_all_sources. eauto.
  - destruct E. apply set_eq. intros x. split; [|unfold add_sources; set_solver]. intros Hx. destruct (decide (x ∈ keep)); [done|set_solver].
Qed.

(** Every round but the last takes one of the sources, so the loop ends, closed. *)
Lemma close_sources_ends fuel : ∀ d keep, (size (all_sources d ∖ keep) ≤ fuel)%nat →
  ∃ keep', close_sources fuel d keep = Some keep' ∧ keep ⊆ keep' ∧ closed d keep'.
Proof.
  induction fuel as [|fuel IH]; intros d keep Hf; cbn [close_sources];
    destruct (decide (add_sources d keep = keep)) as [E|E]; [by exists keep; eauto using add_sources_fixed| |by exists keep; eauto using add_sources_fixed|].
  - destruct (add_sources_new _ _ E) as (x & Hx & _). assert (all_sources d ∖ keep ≡ ∅) by (apply size_empty_inv; lia). set_solver.
  - destruct (add_sources_new _ _ E) as (x & Hx & Hx'). destruct (IH d (add_sources d keep)) as (keep' & -> & Hk & Hc).
    + assert (all_sources d ∖ add_sources d keep ⊂ all_sources d ∖ keep) as Hlt by (split; [unfold add_sources|]; set_solver).
      apply subset_size in Hlt. lia.
    + exists keep'. split_and!; [done|unfold add_sources in Hk; set_solver|done].
Qed.

(** What is kept before the sources are added. *)
Definition kept_first (w : Workspace) (policy : RetentionPolicy) (d : Db) : gset (Z * Z) :=
  let ws := ws_id w in
  kept_current ws d ∪ kept_handles ws d ∪
  (if 0 <? keep_versions policy then kept_recent ws (keep_versions policy) d else ∅) ∪
  (if 0 <? keep_days policy then kept_days ws (keep_days policy) d else ∅) ∪ kept_snapshots ws d.

Lemma keep_set_closed w policy d : kept_first w policy d ⊆ PrepareRetentionKeepSet w policy d ∧ closed d (PrepareRetentionKeepSet w policy d).
Proof.
  destruct (close_sources_ends (size (file_versions d)) d (kept_first w policy d)) as (keep' & E & Hk & Hc).
  { etrans; [|apply all_sources_size]. apply subseteq_size. set_solver. }
  unfold PrepareRetentionKeepSet. cbv zeta. fold (kept_first w policy d). rewrite E. done.
Qed.

(** ** What must stay *)

(** An inode of a workspace, in whatever state. *)
Definition inode_of (ws i : Z) (d : Db) : Prop := ∃ r, inodes d !! i = Some r ∧ i_workspace r = ws.

(** The versions a user of the workspace still has a claim to, by what they are for and
    not by how they are collected. *)
Inductive protected (w : Workspace) (policy : RetentionPolicy) (d : Db) : Z → Z → Prop :=
| protected_live i r : inodes d !! i = Some r → i_workspace r = ws_id w → i_deleted r = None → i_kind r ≠ KDirectory →
    0 < i_version r → protected w policy d i (i_version r)
| protected_handle name h : handles d !! name = Some h → h_workspace h = ws_id w → h_state h = Open ∨ h_state h = Retained →
    0 < h_expected_version h → protected w policy d (h_inode h) (h_expected_version h)
| protected_recent i v : inode_of (ws_id w) i d → is_Some (file_versions d !! (i, v)) →
    (∀ us, NoDup us → (∀ u, u ∈ us → v < u ∧ is_Some (file_versions d !! (i, u))) → Z.of_nat (length us) < keep_versions policy) →
    protected w policy d i v
| protected_days i v row : inode_of (ws_id w) i d → file_versions d !! (i, v) = Some row → 0 < keep_days policy →
    clock d - keep_days policy * 86400000 <= v_created row → protected w policy d i v
| protected_snapshot id p i state : snapshots d !! id = Some p → p_workspace p = ws_id w →
    nodes_at (ws_id w) (p_commit p) d !! i = Some state → i_kind state ≠ KDirectory → 0 < i_version state →
    protected w policy d i (i_version state)
| protected_source i v row s : protected w policy d i v → file_versions d !! (i, v) = Some row → v_source row = Some s →
    protected w policy d i s.

Lemma belongs_inode_of ws i d : belongs ws i d = true → inode_of ws i d.
Proof. unfold belongs. destruct (inodes d !! i) as [r|] eqn:Hr; [|done]. intros Hw%Z.eqb_eq. by exists r. Qed.

Section Protected.

Context (w : Workspace) (policy : RetentionPolicy) (d : Db).
Local Notation ws := (ws_id w).

Lemma inode_of_belongs i : inode_of ws i d → belongs ws i d = true.
Proof. intros (r & Hr & Hw). unfold belongs. by rewrite Hr, Hw, Z.eqb_refl. Qed.

Lemma live_kept i r : inodes d !! i = Some r → i_workspace r = ws → i_deleted r = None → i_kind r ≠ KDirectory →
  0 < i_version r → (i, i_version r) ∈ kept_current ws d.
Proof.
  intros Hr Hw Hl Hk Hv. unfold kept_current. rewrite elem_of_list_to_set, list_elem_of_omap.
  exists (i, r). split; [by apply elem_of_map_to_list|]. unfold live.
  by rewrite Hw, Z.eqb_refl, bool_decide_eq_true_2, bool_decide_eq_false_2, (proj2 (Z.ltb_lt _ _)).
Qed.

Lemma handle_kept name h : handles d !! name = Some h → h_workspace h = ws → h_state h = Open ∨ h_state h = Retained →
  0 < h_expected_version h → (h_inode h, h_expected_version h) ∈ kept_handles ws d.
Proof.
  intros Hh Hw Hs Hv. unfold kept_handles. rewrite elem_of_list_to_set, list_elem_of_omap.
  exists (name, h). split; [by apply elem_of_map_to_list|]. rewrite Hw, Z.eqb_refl, (proj2 (Z.ltb_lt _ _)) by done.
  by destruct Hs as [-> | ->].
Qed.

Lemma recent_kept i v n : inode_of ws i d → is_Some (file_versions d !! (i, v)) →
  (∀ us, NoDup us → (∀ u, u ∈ us → v < u ∧ is_Some (file_versions d !! (i, u))) → Z.of_nat (length us) < n) →
  0 < n ∧ (i, v) ∈ kept_recent ws n d.
Proof.
  intros Hi [row Hrow] Hfew. split; [by apply (Hfew []); [constructor|intros u ?%not_elem_of_nil]|].
  unfold kept_recent. rewrite elem_of_list_to_set, list_elem_of_filter. split.
  2: { apply list_elem_of_fmap. exists (i, v, row). split; [done|]. by apply elem_of_map_to_list. }
  rewrite inode_of_belongs by done. apply Z.leb_le. unfold version_rank. simpl. set (l := filter _ _).
  assert (Hl : ∀ j u, (j, u) ∈ l → j = i ∧ v < u ∧ is_Some (file_versions d !! (i, u))).
  { intros j u [[-> Hu] ([k x] & [= ->] & Hin%elem_of_map_to_list)%list_elem_of_fmap]%list_elem_of_filter. simpl in *. eauto. }
  rewrite <- (length_fmap snd l). enough (Z.of_nat (length l.*2) < n) by lia. apply Hfew.
  - apply NoDup_fmap_2_strong; [|apply NoDup_filter, NoDup_fst_map_to_list].
    intros [j u] [j' u'] [-> _]%Hl [-> _]%Hl E. simpl in E. by subst.
  - intros u ([j u'] & -> & H)%list_elem_of_fmap. by apply Hl in H as [_ ?].
Qed.

Lemma days_kept i v row n : inode_of ws i d → file_versions d !! (i, v) = Some row → clock d - n * 86400000 <= v_created row →
  (i, v) ∈ kept_days ws n d.
Proof.
  intros Hi Hrow Hc. unfold kept_days. rewrite elem_of_list_to_set, list_elem_of_omap. exists (i, v, row).
  split; [by apply elem_of_map_to_list|]. simpl. by rewrite inode_of_belongs, (proj2 (Z.leb_le _ _)).
Qed.

(** The state that a commit shows is also the latest among those of files with a version. *)
Lemma snapshot_kept commit i state : nodes_at ws commit d !! i = Some state → i_kind state ≠ KDirectory → 0 < i_version state →
  (i, i_version state) ∈ kept_by commit ws d.
Proof.
  intros Hn%elem_of_list_to_map_2 Hk Hv. apply list_elem_of_omap in Hn as ([[v j] r] & Hin%elem_of_map_to_list & Hif).
  destruct (Z.eqb_spec v ws) as [->|]; [|done]. destruct (live r) eqn:Hl; [|done]. injection Hif as -> ->.
  unfold kept_by. rewrite elem_of_list_to_set, list_elem_of_omap. exists (ws, i, state). split; [|by rewrite Z.eqb_refl, Hl].
  apply elem_of_map_to_list, latest_rows_Some. apply latest_rows_Some in Hin as (c & Hc & Hs & Hlater). exists c. split_and!; [done| |].
  - apply map_lookup_filter_Some. split; [done|]. by rewrite bool_decide_eq_false_2, (proj2 (Z.ltb_lt _ _)).
  - intros c' H1 H2. apply map_lookup_filter_None. left. by apply Hlater.
Qed.

Lemma kept_first_kept k : k ∈ kept_first w policy d → k ∈ PrepareRetentionKeepSet w policy d.
Proof. apply keep_set_closed. Qed.

(** The keep set has them all. *)
Lemma protected_kept i v : protected w policy d i v → (i, v) ∈ PrepareRetentionKeepSet w policy d.
Proof.
  induction 1 as [i r|name h|i v Hi Hv Hfew|i v row|id p i state Hp Hws Hn Hk Hv|i v row s _ IH Hrow Hs];
    [| | | | |by eapply (proj2 (keep_set_closed w policy d))]; apply kept_first_kept; unfold kept_first; cbv zeta; rewrite !elem_of_union.
  - do 4 left. by apply live_kept.
  - do 3 left. right. by eapply handle_kept.
  - do 2 left. right. destruct (recent_kept i v (keep_versions policy) Hi Hv Hfew). by rewrite (proj2 (Z.ltb_lt _ _)).
  - left. right. rewrite (proj2 (Z.ltb_lt _ _)) by done. by eapply days_kept.
  - right. unfold kept_snapshots. apply elem_of_union_list. eexists. split; [|by eapply snapshot_kept].
    apply list_elem_of_fmap. exists (id, p). split; [by rewrite Hws, Z.eqb_refl|by apply elem_of_map_to_list].
Qed.

End Protected.

(** ** What is removed *)

Definition collects (w : Workspace) (policy : RetentionPolicy) (batch : Z) (d : Db) : list (Z * Z * version_row) :=
  gc_candidates (ws_id w) (PrepareRetentionKeepSet w policy d) batch d.

Lemma gc_inv workspace batch d r d' : GcFunction (Some workspace) (VInteger batch) d = (Ok r, d') →
  ∃ w policy, FindWorkspace workspace d = Ok w ∧ ReadRetentionPolicy w d = Ok policy ∧ 0 < batch ∧
    let removed := collects w policy batch d in
    d' = (if bool_decide (removed = []) then d else delete_versions (ws_id w) removed d) ∧
    gc_deleted r = Z.of_nat (length removed) ∧
    gc_remaining r = ReadRetentionStats w (PrepareRetentionKeepSet w policy d') d'.
Proof.
  intros Hrun. unfold GcFunction in Hrun. apply bind_ok in Hrun as (? & ? & [[= <-] ->]%lift_ok & Hrun).
  apply bind_ok in Hrun as (b & ? & [Hb ->]%lift_ok & Hrun). simpl in Hb. destruct (Z.leb_spec batch 0); [done|]. injection Hb as <-.
  apply bind_ok in Hrun as (? & ? & [_ ->]%throw_if_ok & Hrun). apply bind_ok in Hrun as (w & ? & [Hw ->]%query_ok & Hrun).
  apply (proj1 (savepoint_ok _ _ _ _)) in Hrun. apply bind_ok in Hrun as (? & ? & [= _ <-] & Hrun).
  apply bind_ok in Hrun as (busy & ? & [_ ->]%query_ok & Hrun). apply bind_ok in Hrun as (? & ? & [_ ->]%throw_if_ok & Hrun).
  apply bind_ok in Hrun as (policy & ? & [Hp ->]%query_ok & Hrun). apply bind_ok in Hrun as (? & ? & [_ ->]%throw_if_ok & Hrun).
  apply bind_ok in Hrun as (removed & ? & [Hr ->]%query_ok & Hrun). injection Hr as <-.
  apply bind_ok in Hrun as (reclaimed & ? & [_ ->]%query_ok & Hrun). apply bind_ok in Hrun as ([] & d1 & Hd & Hrun).
  apply bind_ok in Hrun as (remaining & ? & [Hrem ->]%query_ok & [-> ->]%ret_ok). injection Hrem as <-.
  exists w, policy. fold (collects w policy batch d) in *. do 2 (split; [done|]). split; [lia|]. cbv zeta. split_and!; [|done|done].
  destruct (bool_decide_reflect (collects w policy batch d = [])); [by apply ret_ok in Hd as [_ ->]|by apply modify_ok in Hd].
Qed.

Lemma collects_spec w policy batch d k row : (k, row) ∈ collects w policy batch d →
  file_versions d !! k = Some row ∧ belongs (ws_id w) k.1 d = true ∧ k ∉ PrepareRetentionKeepSet w policy d.
Proof.
  unfold collects, gc_candidates. intros Hin%subseteq_take. rewrite merge_sort_Permutation in Hin.
  apply list_elem_of_filter in Hin as [_ [Hk Hin]%list_elem_of_filter]. unfold versions_of in Hin.
  apply list_elem_of_filter in Hin as [Hb Hin%elem_of_map_to_list]. done.
Qed.

(** No two versions share a manifest. *)
Definition owned (d : Db) : Prop :=
  ∀ k k' row row' m, file_versions d !! k = Some row → file_versions d !! k' = Some row' →
    v_manifest row = Some m → v_manifest row' = Some m → k = k'.

Section Deletion.

Context (ws : Z) (removed : list (Z * Z * version_row)) (d : Db).
Context (Hown : owned d) (Hrem : ∀ k row, (k, row) ∈ removed → file_versions d !! k = Some row).
Local Notation d' := (delete_versions ws removed d).

Lemma deleted_versions k : file_versions d' !! k = if decide (k ∈ removed.*1) then None else file_versions d !! k.
Proof.
  unfold delete_versions. simpl. rewrite map_lookup_filter. destruct (file_versions d !! k) as [row|]; simpl; [|by case_decide].
  case_decide as Hk; [rewrite option_guard_False; [done|]|rewrite option_guard_True; [done|]]; rewrite elem_of_list_to_set; tauto.
Qed.

(** The manifest of a version that stays, with its chunks, stays. *)
Lemma manifest_stays k row m : k ∉ removed.*1 → file_versions d !! k = Some row → v_manifest row = Some m →
  manifests d' !! m = manifests d !! m ∧ ∀ P, manifest_rows m P d' = manifest_rows m P d.
Proof.
  intros Hk Hrow Hm. assert (Hids : m ∉ manifests_of removed ∖ {[ 0 ]}).
  { unfold manifests_of. rewrite elem_of_difference, elem_of_list_to_set, list_elem_of_omap. intros [([k' row'] & Hin & Hm') _].
    simpl in Hm'. assert (k = k') as -> by exact (Hown k k' row row' m Hrow (Hrem _ _ Hin) Hm Hm'). apply Hk. by apply (list_elem_of_fmap_2 fst) in Hin. }
  unfold delete_versions. simpl. split.
  { rewrite map_lookup_filter. destruct (manifests d !! m); [|done]. simpl. by rewrite option_guard_True. }
  intros P. apply manifest_rows_ext.
  - intros n. simpl. rewrite map_lookup_filter. destruct (manifest_chunks d !! (m, n)); [|done]. simpl. by rewrite option_guard_True.
  - intros n. unfold manifest_chunk. simpl. rewrite map_lookup_filter. destruct (manifest_chunks d !! (m, n)) as [c|] eqn:Hc; [|done]. simpl.
    rewrite option_guard_True by done. simpl. rewrite map_lookup_filter. destruct (chunks d !! c) as [x|]; [|done]. simpl.
    rewrite option_guard_True; [done|]. right. rewrite elem_of_list_to_set. apply list_elem_of_fmap. exists (m, n, c). split; [done|].
    apply elem_of_map_to_list, map_lookup_filter_Some. done.
Qed.

Lemma read_stays i v : (i, v) ∉ removed.*1 →
  (∀ row s, file_versions d !! (i, v) = Some row → v_source row = Some s → (i, s) ∉ removed.*1) →
  ReadVersionContent i v d' = ReadVersionContent i v d.
Proof.
  intros Hv Hsrc. unfold ReadVersionContent.
  assert (Hres : ResolveVersionStorage i v d' = ResolveVersionStorage i v d ∧
    ∀ storage P, ResolveVersionStorage i v d = Ok storage → manifest_rows (vs_manifest storage) P d' = manifest_rows (vs_manifest storage) P d).
  { unfold ResolveVersionStorage. rewrite deleted_versions, decide_False by done. destruct (file_versions d !! (i, v)) as [row|] eqn:Hrow; [|done].
    cbv zeta.
    assert (Hs : (n ← v_source row; file_versions d' !! (i, n)) = (n ← v_source row; file_versions d !! (i, n))).
    { destruct (v_source row) as [s|] eqn:Es; [|done]. simpl. rewrite deleted_versions, decide_False; [done|]. by eapply Hsrc. }
    rewrite Hs. clear Hs. set (manifest_id := match v_source row with None => v_manifest row | Some _ => _ end).
    assert (Hm : ∀ m, manifest_id = Some m → manifests d' !! m = manifests d !! m ∧ ∀ P, manifest_rows m P d' = manifest_rows m P d).
    { intros m E. subst manifest_id. destruct (v_source row) as [s|] eqn:Es; [|by eapply manifest_stays].
      simpl in E. destruct (file_versions d !! (i, s)) as [row'|] eqn:Hrow'; [|done]. simpl in E.
      eapply manifest_stays; [|done|done]. by eapply Hsrc. }
    destruct manifest_id as [m|]; [|by split]. destruct (Hm m eq_refl) as [Em Hrows]. cbn [mbind option_bind]. rewrite Em. split; [done|]. intros storage P.
    destruct (_ || _); [done|]. intros [= <-]. apply Hrows. }
  destruct Hres as [-> Hrows]. destruct (ResolveVersionStorage i v d) as [storage|] eqn:E; [|done]. by rewrite (Hrows _ _ eq_refl).
Qed.

End Deletion.

(** C11: the collection spares what is still needed. When no two versions share a
    manifest, a collection of a workspace leaves the content of a version as it was when
    the version is the current one of a live file or symlink, the one an open or retained
    handle works on, one of the [keep_versions] newest of its file, not older than
    [keep_days] days, the one that a file or symlink has at the commit of a snapshot, or
    one that such a version is a copy of; and it leaves the versions of all other
    workspaces alone. *)
Theorem gc_spares_kept_versions workspace batch d r d' w policy i v :
  GcFunction (Some workspace) (VInteger batch) d = (Ok r, d') → FindWorkspace workspace d = Ok w → ReadRetentionPolicy w d = Ok policy →
  owned d → protected w policy d i v ∨ ¬ inode_of (ws_id w) i d →
  ReadVersionContent i v d' = ReadVersionContent i v d.
Proof.
  intros (w' & policy' & Hw & Hp & _ & Hd' & _)%gc_inv Hw' Hp' Hown Hkeep. cbv zeta in Hd'.
  rewrite Hw' in Hw. injection Hw as <-. rewrite Hp' in Hp. injection Hp as <-. subst d'.
  case_bool_decide; [done|].
  assert (Hnot : ∀ u, protected w policy d i u ∨ ¬ inode_of (ws_id w) i d → (i, u) ∉ (collects w policy batch d).*1).
  { intros u Hu ([k row] & E & (_ & Hb & Hk)%collects_spec)%list_elem_of_fmap. simpl in E. subst k.
    destruct Hu as [Hu%protected_kept|Hu]; [done|]. by apply Hu, belongs_inode_of. }
  apply read_stays; [done|by intros k row (? & _)%collects_spec|by apply Hnot|].
  intros row s Hrow Hs. apply Hnot. destruct Hkeep as [Hkeep|]; [left; by eapply protected_source|by right].
Qed.

(** ** Coming to an end *)

Lemma gc_candidates_found ws keep batch d : closed d keep → 0 < batch → reclaimable ws keep d ≠ [] → gc_candidates ws keep batch d ≠ [].
Proof.
  intros Hc Hb Hr. enough (∃ x, x ∈ filter (λ x, removable d x = true) (reclaimable ws keep d)) as [x Hx].
  { unfold gc_candidates. rewrite <- (merge_sort_Permutation candidate_le) in Hx. destruct (merge_sort _ _) as [|y l]; [by apply not_elem_of_nil in Hx|].
    by replace (Z.to_nat batch) with (S (Z.to_nat (batch - 1))) by lia. }
  destruct (reclaimable ws keep d) as [|[[i v] row] l] eqn:E; [done|]. assert (Hin : (i, v, row) ∈ reclaimable ws keep d) by (rewrite E; left).
  rewrite <- E. destruct (removable d (i, v, row)) eqn:Hrm; [exists (i, v, row); by apply list_elem_of_filter|].
  unfold removable in Hrm. apply orb_false_iff in Hrm as [_ Hrm]. apply negb_false_iff, existsb_exists in Hrm as ([[j u] arow] & Ha & Hif).
  apply andb_true_iff in Hif as [->%Z.eqb_eq Hs%bool_decide_eq_true]. simpl in Hs. apply list_elem_of_In in Ha.
  unfold reclaimable, versions_of in Hin. apply list_elem_of_filter in Hin as [Hk [Hw _]%list_elem_of_filter]. simpl in Hk, Hw.
  exists (i, u, arow). apply list_elem_of_filter. split; [unfold removable; simpl; by rewrite bool_decide_eq_true_2 by eauto|].
  apply list_elem_of_filter. simpl. split; [|by apply list_elem_of_filter].
  intros Hu. apply Hk. eapply Hc; [exact Hu|by apply elem_of_map_to_list|done].
Qed.

(** A collection that may run. *)
Definition collectable (workspace : bytes) (d : Db) : Prop :=
  ∃ w policy, FindWorkspace workspace d = Ok w ∧ ReadRetentionPolicy w d = Ok policy ∧ gc_paused policy = false ∧ mounted (ws_id w) d = false.

Lemma gc_runs workspace batch d : collectable workspace d → 0 < batch <= 10000 →
  ∃ r d', GcFunction (Some workspace) (VInteger batch) d = (Ok r, d').
Proof.
  intros (w & policy & Hw & Hp & Hpause & Hm) Hb. unfold GcFunction. erewrite bind_eval by done.
  erewrite bind_eval by (unfold lift; simpl; by rewrite (proj2 (Z.leb_gt batch 0)) by lia).
  erewrite bind_eval by (unfold throw_if; by rewrite (proj2 (Z.ltb_ge 10000 batch)) by lia).
  erewrite bind_eval by (unfold query; by rewrite Hw). unfold Savepoint. erewrite bind_eval by done. erewrite bind_eval by done.
  erewrite bind_eval by (unfold throw_if; by rewrite Hm). erewrite bind_eval by (unfold query; by rewrite Hp).
  erewrite bind_eval by (unfold throw_if; by rewrite Hpause). erewrite bind_eval by done. erewrite bind_eval by done.
  case_bool_decide; (erewrite bind_eval by done); (erewrite bind_eval by done); eauto.
Qed.

Lemma delete_collectable workspace ws removed d : collectable workspace d → collectable workspace (delete_versions ws removed d).
Proof. intros (w & policy & Hw & Hp & Hpause & Hm). by exists w, policy. Qed.

Fixpoint gc_repeat (n : nat) (workspace : bytes) (batch : Z) (d : Db) : Db :=
  match n with
  | O => d
  | S n => gc_repeat n workspace batch (GcFunction (Some workspace) (VInteger batch) d).2
  end.

(** C22: repeated collection drains. A client that calls the collection of a workspace
    that is neither paused nor mounted, with any batch size it accepts, until it reports that there is no more, gets there: not more calls
    are needed than there are versions, because as long as a version is left over the
    next call deletes at least one, also when copies stand in the way of the versions
    they copy. *)
Theorem gc_drains workspace batch d : collectable workspace d → 0 < batch <= 10000 →
  ∃ n r d', (n ≤ size (file_versions d))%nat ∧
    GcFunction (Some workspace) (VInteger batch) (gc_repeat n workspace batch d) = (Ok r, d') ∧ has_more r = false.
Proof.
  intros Hd Hb. remember (size (file_versions d)) as k eqn:Ek. assert (Hk : (size (file_versions d) ≤ k)%nat) by lia. clear Ek.
  revert d Hd Hk. induction k as [k IH] using lt_wf_ind. intros d Hd Hk.
  destruct (gc_runs workspace batch d Hd Hb) as (r & d' & Hrun). destruct (has_more r) eqn:Hmore; [|exists 0%nat, r, d'; split_and!; [lia|done|done]].
  pose proof Hrun as (w & policy & Hw & Hp & _ & Hd' & _ & Hrem)%gc_inv. cbv zeta in Hd'.
  destruct (bool_decide_reflect (collects w policy batch d = [])) as [Hnone|Hsome].
  { exfalso. subst d'. revert Hmore. unfold has_more. rewrite Hrem. simpl.
    destruct (reclaimable (ws_id w) (PrepareRetentionKeepSet w policy d) d) as [|x l] eqn:E; [done|].
    edestruct (gc_candidates_found (ws_id w) (PrepareRetentionKeepSet w policy d) batch d); [apply keep_set_closed|lia|by rewrite E|done]. }
  assert (Hlt : (size (file_versions d') < size (file_versions d))%nat).
  { destruct (collects w policy batch d) as [|[key row] l] eqn:E; [done|]. rewrite <- E in *.
    assert (Hin : (key, row) ∈ collects w policy batch d) by (rewrite E; left). pose proof Hin as (Hrow & _)%collects_spec.
    apply map_subset_size. subst d'. split; [apply map_filter_subseteq|]. intros Hsub. pose proof (lookup_weaken _ _ _ _ Hrow Hsub) as H.
    rewrite deleted_versions, decide_True in H; [done|]. by apply (list_elem_of_fmap_2 fst) in Hin. }
  destruct (IH (size (file_versions d')) ltac:(lia) d') as (n & r' & d'' & Hn & Hrun' & Hdone); [subst d'; by apply delete_collectable|done|].
  exists (S n), r', d''. split; [lia|]. simpl. by rewrite Hrun.
Qed.

(** ** An example *)

Definition workspace_arg : option bytes := Some (str "w").

(** Two versions of a file with a snapshot of the first, then the file is removed, with a
    snapshot of that; nothing is kept for its own sake. *)
Definition history_requests : list request :=
  [ RCall (CWorkspaceCreate 0 0 workspace_arg); RCall (CWrite 0 0 workspace_arg (Some (str "/f")) (Some (str "one")));
    RSnapshotCreate workspace_arg (Some (str "A")) VNull None None; RCall (CWrite 0 0 workspace_arg (Some (str "/f")) (Some (str "two")));
    RCall (CRemove workspace_arg (Some (str "/f")) false); RSnapshotCreate workspace_arg (Some (str "B")) VNull None None;
    RCall (CWrite 0 0 workspace_arg (Some (str "/g")) (Some (str "x"))) ].
Definition history_db : Db :=
  (RetentionSetFunction workspace_arg (VInteger 0) (VInteger 0) (run_requests history_requests (empty_db 5000))).2.
Definition history_workspace : Workspace := mkWorkspace 1 1 5.
Definition collected_db : Db := (GcFunction (Some (str "w")) (VInteger 10) history_db).2.
Definition history_policy : RetentionPolicy := mkRetentionPolicy 0 0 false.

Lemma owned_check d : bool_decide (NoDup (omap (λ x, v_manifest x.2) (map_to_list (file_versions d)))) = true → owned d.
Proof.
  rewrite bool_decide_eq_true. intros Hnd k k' row row' m Hk Hk' Hm Hm'. apply elem_of_map_to_list in Hk, Hk'.
  induction (map_to_list (file_versions d)) as [|[q x] l IH]; [by apply not_elem_of_nil in Hk|]. simpl in Hnd.
  assert (Hin : ∀ k row, (k, row) ∈ l → v_manifest row = Some m → m ∈ omap (λ x, v_manifest x.2) l).
  { intros k0 row0 H0 Hm0. apply list_elem_of_omap. by exists (k0, row0). }
  apply elem_of_cons in Hk as [[= -> ->]|Hk], Hk' as [[= -> ->]|Hk']; [done|..].
  - rewrite Hm in Hnd. apply NoDup_cons in Hnd as [Hnot _]. destruct Hnot. by eapply Hin.
  - rewrite Hm' in Hnd. apply NoDup_cons in Hnd as [Hnot _]. destruct Hnot. by eapply Hin.
  - apply IH; [|done|done]. destruct (v_manifest x); [by apply NoDup_cons in Hnd as [_ ?]|done].
Qed.

(** The first version of [/f] is the one of the first snapshot, and [/g] is live. *)
Definition snapshot_state : inode_row :=
  default (new_inode_row 0 0 1 KFile 0 0) (nodes_at 1 2 history_db !! 2).
Definition first_snapshot : snapshot_row := mkSnapshotRow 1 (str "A") Manual 2 5000.
Lemma first_version_protected : protected history_workspace history_policy history_db 2 1.
Proof.
  assert (Hp : snapshots history_db !! 1 = Some first_snapshot) by (vm_compute; reflexivity).
  assert (Hn : nodes_at 1 2 history_db !! 2 = Some snapshot_state) by (vm_compute; reflexivity).
  assert (Hv : i_version snapshot_state = 1) by (vm_compute; reflexivity). assert (Hk : i_kind snapshot_state = KFile) by (vm_compute; reflexivity).
  assert (Hd : i_kind snapshot_state ≠ KDirectory) by (rewrite Hk; discriminate). assert (Hpos : 0 < i_version snapshot_state) by (rewrite Hv; reflexivity).
  pose proof (protected_snapshot history_workspace history_policy history_db 1 first_snapshot 2 snapshot_state Hp eq_refl Hn Hd Hpos) as H.
  rewrite Hv in H. exact H.
Qed.
Lemma history_owned : owned history_db.
Proof. apply owned_check. vm_compute. reflexivity. Qed.

Definition collected : GcResult := mkGcResult 1 3 (mkRetentionStats 1 1 2 4 1 0 0).
Lemma collected_result : (GcFunction (Some (str "w")) (VInteger 10) history_db).1 = Ok collected.
Proof. vm_compute. reflexivity. Qed.
Lemma history_found : FindWorkspace (str "w") history_db = Ok history_workspace.
Proof. vm_compute. reflexivity. Qed.
Lemma history_policy_read : ReadRetentionPolicy history_workspace history_db = Ok history_policy.
Proof. vm_compute. reflexivity. Qed.
Lemma first_version_content : ReadVersionContent 2 1 history_db = Ok (str "one").
Proof. vm_compute. reflexivity. Qed.

(** The version the first snapshot needs. *)
Lemma gc_spares_kept_versions_witness : ReadVersionContent 2 1 collected_db = Ok (str "one").
Proof.
  rewrite <- first_version_content.
  exact (gc_spares_kept_versions (str "w") 10 history_db collected collected_db history_workspace history_policy 2 1
    (run_state (GcFunction (Some (str "w")) (VInteger 10)) history_db (Ok collected) collected_result)
    history_found history_policy_read history_owned (or_introl first_version_protected)).
Defined.

Lemma gc_drains_witness : ∃ n r d', (n ≤ size (file_versions history_db))%nat ∧
  GcFunction workspace_arg (VInteger 1) (gc_repeat n (str "w") 1 history_db) = (Ok r, d') ∧ has_more r = false.
Proof.
  apply (gc_drains (str "w") 1 history_db); [|lia].
  exists history_workspace, history_policy. split; [exact history_found|]. split; [exact history_policy_read|].
  split; [reflexivity|vm_compute; reflexivity].
Defined.

(** The collection can bring a removed file back to life. It deletes the states of
    an inode that name a deleted version, and with them the state in which a later
    snapshot has the inode as removed, so that an older state counts there. Restoring
    that snapshot then gives a tree without files while the workspace counts a file of
    three bytes against its quotas; without the collection the count is zero. An
    intermediate commit shows the older content in place of the newer. *)
Theorem gc_revives_removed_file :
  let restored d := (SnapshotRestoreFunction workspace_arg (Some (str "B")) (VInteger 5) None d).2 in
  let version_at c d := match TreeAtCommit history_workspace c d with Ok t => t_version <$> t !! str "/f" | Throw _ => None end in
  version_at 3 history_db = Some 2 ∧ version_at 3 collected_db = Some 1 ∧
  match CurrentTree history_workspace (restored collected_db) with Ok t => (entries t).*1 = [str "/"] | Throw _ => False end ∧
  ReadQuotaStats 1 (restored history_db) = mkQuotaStats 0 0 0 ∧ ReadQuotaStats 1 (restored collected_db) = mkQuotaStats 1 3 3.
Proof. vm_compute. repeat split. Qed.
