(* ===== verification/VexfsTakeover.v ===== *)
(** * Taking over a workspace

    What the next mount of a workspace finds after a mount has died. *)
From Stdlib Require Import ZArith Lia String.
From stdpp Require Import prelude gmap.
From S2P Require Import Prelude Sha256 VexfsText VexfsDb VexfsTree VexfsStore VexfsStaging VexfsHandles VexfsNames VexfsMetadata VexfsHistory VexfsSessions VexfsForestTop.

Local Open Scope Z_scope.

(** ** Taking over *)

(** A handle with unpublished changes that the next session inherits: the dead session
    had it open, or it had been retained before. *)
Definition inherited (ws : Z) (previous : bytes) (h : handle_row) : Prop :=
  h_workspace h = ws ∧ dirty h = true ∧ (h_state h = Open ∧ h_owner_session h = Some previous ∨ h_state h = Retained).
(** A handle of the dead session with nothing to publish. *)
Definition abandoned (ws : Z) (previous : bytes) (h : handle_row) : Prop :=
  h_workspace h = ws ∧ dirty h = false ∧ h_state h = Open ∧ h_owner_session h = Some previous.
Definition same_staging (id : bytes) (d d' : Db) : Prop :=
  staging d' !! id = staging d !! id ∧ ∀ n, staging_chunks d' !! (id, n) = staging_chunks d !! (id, n).
Definition no_staging (id : bytes) (d : Db) : Prop := staging d !! id = None ∧ ∀ n, staging_chunks d !! (id, n) = None.

Lemma owned_by_spec session h : owned_by session true h = true ↔ h_owner_session h = Some session.
Proof. unfold owned_by. destruct (h_owner_session h) as [o|]; [|done]. rewrite bool_decide_eq_true. naive_solver. Qed.

Section Takeover.

Context (w : Workspace) (previous session : bytes) (d : Db).
Definition left_by (h : handle_row) : bool :=
  (h_workspace h =? ws_id w) && bool_decide (h_state h = Open) && owned_by previous true h.
Definition after_retain (h : handle_row) : handle_row := if left_by h then retain_row (lease 86400 d) (clock_seconds d) h else h.
Definition after_claim (h : handle_row) : handle_row :=
  if (h_workspace h =? ws_id w) && bool_decide (h_state h = Retained) && dirty h then claim_row session (clock_seconds d) h else h.
(** The database after the start of the new session. *)
Definition taken_over : Db :=
  on_mount_sessions (insert (ws_id w) (session, lease 30 d)) (ClaimRetainedHandles w session (RetainOpenHandles w previous true d).2).2.

Lemma taken_over_handle id h : handles d !! id = Some h → handles taken_over !! id = Some (after_claim (after_retain h)).
Proof. intros Hh. simpl. rewrite !lookup_fmap, Hh. done. Qed.

Lemma taken_over_staging id h : handles d !! id = Some h →
  let h' := after_retain h in
  if (h_workspace h' =? ws_id w) && bool_decide (h_state h' = Closed) then no_staging id taken_over else same_staging id d taken_over.
Proof.
  intros Hh h'. assert (Hc : closed_handle (ws_id w) (on_handles (fmap after_retain) d) id = (h_workspace h' =? ws_id w) && bool_decide (h_state h' = Closed)).
  { unfold closed_handle. simpl. by rewrite lookup_fmap, Hh. }
  destruct (_ && _); split; try intros n; simpl; rewrite map_lookup_filter.
  - destruct (staging d !! id); [|done]. simpl. rewrite option_guard_False; [done|]. intros E. discriminate (eq_trans (eq_sym Hc) E).
  - destruct (staging_chunks d !! (id, n)); [|done]. simpl. rewrite option_guard_False; [done|]. intros E. discriminate (eq_trans (eq_sym Hc) E).
  - destruct (staging d !! id); [|done]. simpl. rewrite option_guard_True; [done|exact Hc].
  - destruct (staging_chunks d !! (id, n)); [|done]. simpl. rewrite option_guard_True; [done|exact Hc].
Qed.

Lemma left_by_spec h : left_by h = true ↔ h_workspace h = ws_id w ∧ h_state h = Open ∧ h_owner_session h = Some previous.
Proof. unfold left_by. rewrite !andb_true_iff, Z.eqb_eq, bool_decide_eq_true, owned_by_spec. tauto. Qed.

Lemma takeover_inherited h : inherited (ws_id w) previous h →
  after_claim (after_retain h) = claim_row session (clock_seconds d) h ∧ h_state (after_retain h) = Retained.
Proof.
  intros (Hw & Hdirty & Hstate). unfold after_retain. destruct (left_by h) eqn:Hl.
  - set (h' := retain_row (lease 86400 d) (clock_seconds d) h). assert (Hr : h_state h' = Retained) by (simpl; by rewrite Hdirty).
    split; [|done]. unfold after_claim. change (h_workspace h') with (h_workspace h). change (dirty h') with (dirty h).
    by rewrite Hw, Z.eqb_refl, Hr, Hdirty.
  - destruct Hstate as [[]|Hret]; [by rewrite (proj2 (left_by_spec h)) in Hl|]. unfold after_claim.
    by rewrite Hw, Z.eqb_refl, Hret, Hdirty.
Qed.

Lemma takeover_abandoned h : abandoned (ws_id w) previous h →
  h_state (after_claim (after_retain h)) = Closed ∧ h_state (after_retain h) = Closed ∧ h_workspace (after_retain h) = ws_id w.
Proof.
  intros (Hw & Hdirty & Hopen & Ho). unfold after_retain. rewrite (proj2 (left_by_spec h)) by done.
  set (h' := retain_row (lease 86400 d) (clock_seconds d) h). assert (Hc : h_state h' = Closed) by (simpl; by rewrite Hdirty).
  unfold after_claim. change (dirty h') with (dirty h). by rewrite Hdirty, andb_false_r.
Qed.

Lemma takeover_other h : ¬ inherited (ws_id w) previous h → ¬ abandoned (ws_id w) previous h → after_retain h = h ∧ after_claim h = h.
Proof.
  intros Hi Ha. unfold after_retain, after_claim. split.
  - destruct (left_by h) eqn:Hl; [|done]. apply left_by_spec in Hl as (Hw & Ho & Hp).
    destruct (dirty h) eqn:Hd; [destruct Hi|destruct Ha]; repeat split; auto.
  - destruct (Z.eqb_spec (h_workspace h) (ws_id w)) as [Hw|]; [|done]. destruct (bool_decide_reflect (h_state h = Retained)); [|done].
    simpl. destruct (dirty h) eqn:Hd; [|done]. destruct Hi. repeat split; auto.
Qed.

Lemma takeover_runs workspace lease_until : FindWorkspace workspace d = Ok w →
  mount_sessions d !! ws_id w = Some (previous, lease_until) → lease_until <= clock_seconds d →
  previous ≠ [] → session ≠ [] → session ≠ previous → session_taken (ws_id w) session d = false →
  SessionStartFunction (Some workspace) (Some session) d = (Ok 1, taken_over).
Proof.
  intros Hw Hm Hlease Hp Hs Hne Ht.
  unfold SessionStartFunction. erewrite bind_eval by done. erewrite bind_eval by (unfold query; by rewrite Hw).
  erewrite bind_eval by (unfold lift, session_arg; simpl; by rewrite bool_decide_eq_false_2).
  unfold Savepoint. erewrite bind_eval by (unfold query, current_session; by rewrite Hm).
  rewrite (proj2 (Z.ltb_ge _ _)) by done. erewrite bind_eval by done.
  rewrite !bool_decide_eq_false_2 by congruence. cbn [negb andb]. set (d1 := (RetainOpenHandles w previous true d).2).
  erewrite bind_eval by (by instantiate (1 := d1)). set (d2 := (ClaimRetainedHandles w session d1).2).
  erewrite bind_eval by (by instantiate (1 := d2)).
  erewrite bind_eval by done. change (session_taken (ws_id w) session d2) with (session_taken (ws_id w) session d). rewrite Ht. reflexivity.
Qed.

End Takeover.

(** A heartbeat renews the lease of the session that holds the workspace. *)
Lemma heartbeat_inv workspace previous d0 d1 : SessionHeartbeatFunction (Some workspace) (Some previous) d0 = (Ok 1, d1) →
  previous ≠ [] ∧ ∃ w0, FindWorkspace workspace d0 = Ok w0 ∧ mount_sessions d1 !! ws_id w0 = Some (previous, lease 30 d0).
Proof.
  intros Hbeat. unfold SessionHeartbeatFunction in Hbeat.
  apply bind_ok in Hbeat as (? & ? & [[= <-] ->]%lift_ok & Hbeat). apply bind_ok in Hbeat as (w0 & ? & [Hw0 ->]%query_ok & Hbeat).
  apply bind_ok in Hbeat as (p & ? & [Hp ->]%lift_ok & Hbeat). unfold session_arg in Hp. simpl in Hp.
  destruct (bool_decide_reflect (previous = [])) as [|Hpne]; [done|]. injection Hp as <-.
  apply bind_ok in Hbeat as (? & ? & [_ ->]%query_ok & Hbeat). apply bind_ok in Hbeat as (? & ? & [_ ->]%throw_if_ok & Hbeat).
  apply bind_ok in Hbeat as (? & ? & ->%modify_ok & [_ ->]%ret_ok). split; [done|]. exists w0. split; [done|]. simpl. apply lookup_insert_eq.
Qed.

Lemma lease_over now d0 : clock d0 + 30000 <= now → lease 30 d0 <= now / 1000 * 1000.
Proof.
  intros Hnow. unfold lease. assert (clock d0 / 1000 + 30 <= now / 1000); [|lia].
  replace (clock d0 / 1000 + 30) with ((clock d0 + 30 * 1000) / 1000) by (rewrite Z.div_add; lia). apply Z.div_le_mono; lia.
Qed.

(** C12: a mount that dies is replaced, and nothing it wrote is lost. Let a session beat,
    and then whatever happen to the database for thirty seconds or more, as long as the
    workspace keeps its row and no session beats, starts or ends on it. Then any other
    session can start, if its identifier is not that of the mount of another workspace.
    The start succeeds and the dead session cannot come back by a heartbeat. Every handle
    with unpublished changes that the dead session had open, and every retained handle of
    the workspace with unpublished changes, is open in the new session with its staging
    area unchanged; the handles the dead session had open without such changes are closed
    and their staging areas gone; all other handles stay as they are, with their staging
    areas unless they were closed. *)
Theorem session_takeover workspace w0 w previous session d0 d1 d :
  SessionHeartbeatFunction (Some workspace) (Some previous) d0 = (Ok 1, d1) → FindWorkspace workspace d0 = Ok w0 →
  FindWorkspace workspace d = Ok w → ws_id w = ws_id w0 → mount_sessions d !! ws_id w = mount_sessions d1 !! ws_id w →
  clock d0 + 30000 <= clock d → session ≠ [] → session ≠ previous → session_taken (ws_id w) session d = false →
  ∃ d', SessionStartFunction (Some workspace) (Some session) d = (Ok 1, d') ∧
    (SessionHeartbeatFunction (Some workspace) (Some previous) d').1 = Throw SQLITE_BUSY ∧
    ∀ id h, handles d !! id = Some h →
      (inherited (ws_id w) previous h →
        handles d' !! id = Some (claim_row session (clock_seconds d) h) ∧ same_staging id d d') ∧
      (abandoned (ws_id w) previous h → h_state <$> handles d' !! id = Some Closed ∧ no_staging id d') ∧
      (¬ inherited (ws_id w) previous h → ¬ abandoned (ws_id w) previous h →
        handles d' !! id = Some h ∧ (h_state h ≠ Closed → same_staging id d d')).
Proof.
  intros (Hpne & w0' & Hw0 & Hsess)%heartbeat_inv Hw0' Hw Hid Hm Hnow Hs Hne Ht.
  rewrite Hw0' in Hw0. injection Hw0 as <-. rewrite Hid, Hsess, <- Hid in Hm.
  assert (Hrun : SessionStartFunction (Some workspace) (Some session) d = (Ok 1, taken_over w previous session d)).
  { eapply takeover_runs; try done. by apply lease_over. }
  exists (taken_over w previous session d). split_and!; [done| |].
  - unfold SessionHeartbeatFunction. erewrite bind_eval by done.
    erewrite bind_eval by (unfold query; change (FindWorkspace workspace (taken_over w previous session d)) with (FindWorkspace workspace d); by rewrite Hw).
    erewrite bind_eval by (unfold lift, session_arg; simpl; by rewrite bool_decide_eq_false_2). erewrite bind_eval by done.
    unfold holds_session, taken_over. simpl. by rewrite lookup_insert_eq, bool_decide_eq_false_2.
  - intros id h Hh. rewrite (taken_over_handle w previous session d id h Hh).
    pose proof (taken_over_staging w previous session d id h Hh) as Hst. cbv zeta in Hst. split_and!.
    + intros [E1 E2]%(takeover_inherited w previous session d). rewrite E1. split; [done|].
      by rewrite E2, andb_false_r in Hst.
    + intros (E1 & E2 & E3)%(takeover_abandoned w previous session d). cbn [fmap option_fmap option_map]. rewrite E1. split; [done|].
      by rewrite E2, E3, Z.eqb_refl in Hst.
    + intros Hi Ha. destruct (takeover_other w previous session d h Hi Ha) as [E1 E2]. rewrite E1 in *. rewrite E2. split; [done|].
      intros Hc. by rewrite bool_decide_eq_false_2, andb_false_r in Hst.
Qed.

(** ** An example *)

(** The first mount has a file open and bytes written to it that it never publishes, and
    has it open a second time for reading. After its last heartbeat another client writes
    a file. *)
Definition mounted_calls : list call :=
  [ CWorkspaceCreate 0 0 (Some (str "w")); CWrite 0 0 (Some (str "w")) (Some (str "/f")) (Some (str "one"));
    CHandleOpen 0 0 (str "h") (Some (str "w")) (Some (str "/f")) (Some (str "rw")) (Some (str "q1")) (Some (Some (str "mount1")));
    CHandleOpen 0 0 (str "r") (Some (str "w")) (Some (str "/f")) (Some (str "r")) (Some (str "q3")) (Some (Some (str "mount1")));
    CStageWrite (Some (str "h")) 0 (Some (str "two")) (Some (str "q2")) ].
Definition mounted_db : Db := run_calls (drop 1 mounted_calls) (SessionStartFunction (Some (str "w")) (Some (str "mount1"))
  (run_calls (take 1 mounted_calls) (empty_db 5000))).2.
Definition beat_db : Db := (SessionHeartbeatFunction (Some (str "w")) (Some (str "mount1")) mounted_db).2.
Definition late_db : Db := run_calls [ CWrite 0 0 (Some (str "w")) (Some (str "/g")) (Some (str "x")); CTick 35000 ] beat_db.
Definition mounted_workspace : Workspace := mkWorkspace 1 1 2.
Definition late_workspace : Workspace := mkWorkspace 1 1 3.
Definition orphan : handle_row := mkHandleRow 1 2 true 1 1 0 Open None (Some (str "mount1")) 5000.
Definition reader : handle_row := mkHandleRow 1 2 false 1 0 0 Open None (Some (str "mount1")) 5000.

Lemma heartbeat_result : (SessionHeartbeatFunction (Some (str "w")) (Some (str "mount1")) mounted_db).1 = Ok 1.
Proof. vm_compute. reflexivity. Qed.
Lemma mounted_found : FindWorkspace (str "w") mounted_db = Ok mounted_workspace.
Proof. vm_compute. reflexivity. Qed.
Lemma late_found : FindWorkspace (str "w") late_db = Ok late_workspace.
Proof. vm_compute. reflexivity. Qed.
Lemma late_session : mount_sessions late_db !! 1 = mount_sessions beat_db !! 1.
Proof. vm_compute. reflexivity. Qed.
Lemma mount2_free : session_taken 1 (str "mount2") late_db = false.
Proof. vm_compute. reflexivity. Qed.
Lemma mounted_clock : clock mounted_db + 30000 <= clock late_db.
Proof. vm_compute. discriminate. Qed.
Lemma late_orphan : handles late_db !! str "h" = Some orphan.
Proof. vm_compute. reflexivity. Qed.
Lemma late_reader : handles late_db !! str "r" = Some reader.
Proof. vm_compute. reflexivity. Qed.
Lemma orphan_inherited : inherited 1 (str "mount1") orphan.
Proof. split; [done|]. split; [done|]. left. done. Qed.
Lemma reader_abandoned : abandoned 1 (str "mount1") reader.
Proof. done. Qed.

Lemma session_takeover_witness : ∃ d', SessionStartFunction (Some (str "w")) (Some (str "mount2")) late_db = (Ok 1, d') ∧
  handles d' !! str "h" = Some (claim_row (str "mount2") (clock_seconds late_db) orphan) ∧ staging d' !! str "h" = staging late_db !! str "h" ∧
  h_state <$> handles d' !! str "r" = Some Closed.
Proof.
  destruct (session_takeover (str "w") mounted_workspace late_workspace (str "mount1") (str "mount2") mounted_db beat_db late_db
    (run_state _ _ _ heartbeat_result) mounted_found late_found eq_refl late_session mounted_clock ltac:(discriminate) ltac:(discriminate) mount2_free)
    as (d' & Hrun & _ & Hall).
  exists d'. destruct (proj1 (Hall (str "h") orphan late_orphan) orphan_inherited) as (Hh & Hs & _).
  destruct (proj1 (proj2 (Hall (str "r") reader late_reader)) reader_abandoned) as (Hr & _).
  split; [exact Hrun|]. split; [exact Hh|]. split; [exact Hs|exact Hr].
Defined.
